(* ===== verification/_CoqProject ===== *)
-Q . S2P
Prelude.v
Persister.v
Raft.v
RaftCluster.v
RaftSafety.v
RaftLiveness.v
RaftRestart.v
ShardCfg.v
ShardCfgBalance.v
ShardCfgJoin.v
Labrpc.v
LabrpcSafety.v
Group.v
GroupProps.v
GroupStart.v
Clnts.v
ClntsProps.v
RaftTest.v
RaftTestProps.v
Annotation.v
AnnotationProps.v
Models.v
KVTest.v
KVServer.v
KVLogic.v
KVTestProps.v
KVAppend.v
KVLinear.v
Porcupine.v
Visual.v
MapReduce.v
MapReduceProps.v
Labgob.v
LabgobProps.v
Services.v
ServicesProps.v
Config.v
ConfigProps.v
RfTest.v
RaftNet.v
RaftNetSim.v
RaftNetProps.v
RaftNetLive.v
RaftNetTest.v
RfTestProps.v
RsmTest.v
RsmTestProps.v
ShardKVTest.v
ShardKVTestProps.v
ShardCtrlers.v
ShardCtrlersProps.v
Spawn.v
Clerks.v
Makers.v
SpawnProps.v
ClerksProps.v
MRApps.v
MRAppsProps.v
