(* ===== verification/Prelude.v ===== *)
(** * A verification development for the fault-tolerant key/value store

    The repository is a Go program: a Raft peer, the tester that drives it, the
    simulated network both run on, the shard configurations of the sharded
    store that is to be built on top, and the harnesses that test the services.
    The services themselves (kvsrv1, kvraft1, shardkv1's groups and
    controller, mr's coordinator and worker) are started, registered and killed, but their
    handlers and clerks are still stubs that return constants; they are
    modelled as they are, and the harnesses against what the comments document.
    All source paths below are relative to src/src/.

    ** The program's parts and the files that model them

    - [Prelude] (this file): the fragment of Go that the parts share: machine
      integers with their wrap-around, interface values, JSON as a class, indexing
      that panics, the outcome of a computation, loops, the fnv hash; its lemmas
      and tactics.
    - [Persister] (tester1/persister.go): the object that survives a restart. Slices
      are references into a store of arrays, because [Copy] shares them and
      [Save] clones them.
    - [Raft] (raft1/raft.go): one peer. Every locked section of every goroutine
      is one function: the handlers [RequestVote] and [AppendEntries], the two sections
      of the ticker, the section that counts a vote, the two sections of a
      heartbeat.
    - [RaftCluster], [RaftSafety], [RaftLiveness], [RaftRestart]: the peers together. An action
      runs one locked
      section, or delivers or loses one message; a restart makes a new object, from what the
      server's persister has stored, while
      the old one's goroutines go on. [RaftSafety] has the invariant and what
      follows from it, [RaftLiveness] the elections that succeed, [RaftRestart] what
      restarts lose.
    - [ShardCfg], [ShardCfgBalance], [ShardCfgJoin] (shardkv1/shardcfg/shardcfg.go):
      the assignment of shards to groups: [Join], [Leave], [Rebalance], [CheckConfig]
      and the routing of keys.
    - [Labrpc], [LabrpcSafety] (labrpc/labrpc.go): the network. A call goes through
      phases; the loop of the network, each [processReq] goroutine, each handler
      and the test take steps in any order. labgob and the handlers are
      parameters, random numbers are arguments of the steps.
    - [Group], [GroupProps], [GroupStart] (tester1/group.go, srv.go, parts of
      config.go): groups
      of servers: who has which ends, connecting, partitioning, shutting down,
      restarting, starting and exiting. It is built on [Labrpc] and [Persister].
    - [Clnts], [ClntsProps] (tester1/clnts.go): the clients of a configuration and
      the ends they may use, on the network of [Labrpc].
    - [RaftTest], [RaftTestProps] (raft1/server.go, raft1/test.go): the service above a
      peer and the checks of the Raft tests.
    - [Annotation], [AnnotationProps] (tester1/annotation.go): the timeline of
      a test, with the faults it shows; [AnnotationProps.spec_run] is what it is to show,
      specified apart from the code. [Visual]: the file that shows it.
    - [Models] (models1/kv.go): the sequential model that histories are checked
      against.
    - [KVTest] (kvtest1/kvtest.go, porcupine.go, kvsrv1/rpc/rpc.go): the clients
      and checks of the key/value tests, as programs over a clerk. [KVServer] runs
      such programs, one ([alone]) or several interleaved, against a service that is a
      parameter (the class [Service]), on a network that can lose replies; what
      kvsrv1's comments document of it are the laws of the class [Documented].
      [KVLogic] is a program logic for one client among others. [KVTestProps],
      [KVAppend] and [KVLinear] have the theorems about puts, appends and
      linearizability, [Porcupine] those about the check itself.
    - [Labgob], [LabgobProps] (labgob/labgob.go): the checks of the types that
      are sent.
    - [MapReduce], [MapReduceProps] (main/mrsequential.go, mrapps/wc.go and
      indexer.go, [ihash] of mr/worker.go): the sequential MapReduce; [sort.Sort] is a parameter
      that works through the methods of [ByKey]. [MRApps],
      [MRAppsProps] (the other mrapps, mr/coordinator.go, mr/worker.go): the
      applications that crash, sleep, or count workers and tasks, and the coordinator
      and worker as they are.
    - [Services], [ServicesProps] (kvsrv1/server.go, kvraft1/server.go,
      kvraft1/rsm/rsm.go, shardkv1/shardgrp/server.go): the servers of the program,
      as [Group] starts them on the network of [Labrpc], with the peers of [Raft] inside.
    - [RaftNet], [RaftNetSim], [RaftNetProps], [RaftNetLive] (raft1/raft.go over
      labrpc/labrpc.go): the peers of a started group together, for real: their goroutines
      call through their ends, the network of [Labrpc] carries the calls to the services
      of [Services], the test breaks the network and kills peers. [RaftNetSim] is the
      simulation by [RaftCluster], [RaftNetProps] what a group has from it, [RaftNetLive] the
      elections that succeed on the network, [RaftNetTest] the leader check of [RaftTest]
      as it looks at such a group while it runs.
    - [Config], [ConfigProps] (tester1/config.go): the configuration of a test,
      built from [Group], [Clnts] and [Annotation].
    - [RfTest], [RfTestProps] (raft1/test.go over config.go): a Raft test from [makeTest]
      through crashes and restarts to [cleanup]. The servers of [RaftTest] are objects of
      [Services] here, made above peers that the tester starts and kills.
    - [RsmTest], [RsmTestProps] (kvraft1/rsm/server.go, test.go): the counting
      service of the replicated state machine's tests, and the tests' helpers.
    - [ShardKVTest], [ShardKVTestProps] (shardkv1/test.go): groups that join and
      leave, built on [Config] and [ShardCfg]; the controller is the class
      [ShardCtrler].
    - [ShardCtrlers], [ShardCtrlersProps]
      (shardkv1/test.go): the test with several controllers, [concurCtrler],
      as goroutines that take one call of a controller a step. Controllers that
      supersede each other are the class [Controllers].
    - [Spawn], [SpawnProps] (kvtest1/kvtest.go): clients that run until they are
      told to stop, as goroutines over unbuffered channels ([SpawnClientsAndWait]); what a
      client does is the class [Goroutines], and who makes clerks is the class [IClerkMaker].
    - [Clerks], [Makers], [ClerksProps] (kvsrv1/client.go, lock and test.go,
      kvraft1/client.go and test.go, shardkv1/client.go, shardctrler, shardgrp/client.go): the
      program's unwritten clerks, lock and controller, as instances of the interfaces above.

    ** How code and definitions correspond

    A function of the source is a function of the same name on explicit state; a
    method takes its receiver as an argument. A function whose body may panic, call
    [log.Fatalf] or fail the test returns an [outcome], and the sequence of
    statements is a bind. A locked section is atomic; what runs between
    sections is an interleaving of steps ([RaftCluster.exec], [Labrpc.exec],
    [RaftNet.exec_step], [KVServer.run]). Where
    the code ranges over a map, the order is an argument, constrained to be a
    permutation of the map where a theorem needs it. Random numbers and the clock are
    arguments. A loop that waits on the clock goes through a list of
    observations whose end is the timeout. What the code calls and does not contain is a
    class or a section variable, with what is relied on as the laws of a class or
    as named hypotheses; each comes with an instance the theorems are tried on.

    ** What the theorems show

    - Raft: at most one leader per term ever in every run without restarts, each with
      the votes of a majority; from every such run, a peer whose time is up can be
      elected by any majority that is not ahead of it; the exact behaviour of the
      vote handler, of an
      election and of a vote reply. Since [persist] is empty, from every state with a leader that
      such a run reaches, restarting a majority of the servers without the leader allows a second
      leader of the same term; and a heartbeat is never accepted: it
      is refused or crashes its receiver. A single peer never leads.
    - Shard configurations: [Rebalance] ends, and its result is assigned and even;
      joins and leaves change exactly the groups they are to, keep that and pass
      [CheckConfig]; a join moves shards to
      the new group only; every key is served; a refused join can be partially
      applied.
    - Network: a positive reply is that of the one execution of its call, a
      deleted server's replies are withheld, every accepted call is answered,
      delays are bounded, and on a reliable network a call refines a local call.
    - Tester: [Save] and [Copy] isolate; a restart passes on the state at the
      shutdown, even if the old instance saves while it is killed; a partition enables exactly the ends within a side; groups start next
      to others, fully linked, and exit without disturbing them; a client
      reaches allowed servers only, except after [ConnectTo]; ends are deleted once.
    - Raft's checks: the apply checks imply agreement on gapless prefixes, snapshots
      restore what they were taken from, a leader that is returned was the only
      one of the newest term; an agreement that is reported was reached.
    - Timeline: whatever is said of the servers, the on-going fault has the text that the
      specification gives it; without [AnnotateTwoPartitions] it is there exactly while a
      server is disconnected or down. Two slips are stated as theorems; a test is drawn once.
    - Key/value harness: what clients log against a documented service is
      linearizable if and only if no put was answered [ErrNoKey], which the model rejects; and
      the checks of puts, of appends and, with that proviso, of linearizability
      accept every interleaving of their clients; [CheckAppends] accepts
      nothing else; which retrying loops end. The model performs a put at most once,
      and differs from the documented server on [ErrNoKey].
    - labgob: the check of a type ends, recursive types included, and complains
      at most once in a process; where it panics.
    - MapReduce: the output is one line per key, in order, with the reduction of all its
      values; what that means for the two applications. Of the applications that test:
      [nparallel] counts the workers in it, at most those that lived when it listed the
      directory and at least those that live at its end; [jobcount] the tasks that were run.
    - Replicated state machine: a service that restarts from a snapshot goes on as
      the one that took it; the search for a leader ends and finds one that
      answers.
    - The program's servers: in a group that the tester started, a peer's request for
      a vote, sent through the simulated network, is a call of the other's handler;
      shutting a server down kills the peers it made. Every run of the peers of a
      group on the network is a run of the abstract cluster, so such a group has at most one leader
      per term, over time, whatever happens to its network; and whenever the network is in order, a leader
      can be elected through it. The tests' check for one leader gives no false alarm there, and
      can pass. That holds of the groups of kvraft1, of the shard groups and of the Raft tests, since
      [makeTest] starts such a group. A server that such a test restarts comes back connected, with a peer that
      starts from nothing while the old one is killed, provided that the snapshots its servers saved are
      empty or can be decoded; its [cleanup] kills every peer. [Start] is unwritten, so no such
      test ever reports an agreement.
    - Spawned clients: [SpawnClientsAndWait] returns what each client returned, in
      order, and deletes their clerks; as many tokens as clients end them; it waits
      for ever if a client fails; the checks of puts and appends accept what it returns. No
      check passes on the unwritten clerks, and the unwritten controller breaks
      what its comments promise.
    - Sharded service: the set-up, joins and leaves keep the controller's
      configuration and the running groups in step, so that every key is routed to
      a running group; the test of membership bounds the joins to twelve groups; a
      group that is shut down as a whole and started again is as it was. Controllers that
      run at once never fail, in any interleaving, and the test's tokens end
      them; but a leave that is superseded is not repeated.

    ** Bounds and fuel

    [ShardCfg.move_fuel] is 145: the sum of the squares of the groups' loads is at most 144
    and every move lowers it, so the loop of [Rebalance] never runs out
    ([ShardCfgBalance.move_fuel_enough]). The retrying loops of [KVTest] take fuel,
    one unit a turn; the theorems about their checks hold for every fuel, and
    [KVTestProps.PutAtLeastOnce_stores] says how much one needs. [Labgob]'s traversal
    ends with more fuel than there are types. The loops of [MapReduce] take the
    length of what they traverse, plus one. The loop of [RsmTest.onePartition] has as many turns as
    the clock allows, and the waiting loops as many as there are observations.
    Everything else recurs on lists. Integers wrap at their width; theorems that rely on
    no overflow say so (histories below 2^62 operations, configuration numbers,
    terms and lengths of runs up to the largest integer).

    ** What is not modelled

    The encodings of JSON and gob, the library porcupine, the Go plugins and net/rpc are
    parameters. Printing, stack traces, the seed and GOMAXPROCS are left out; the file system and the drawing of
    timelines are arguments. The parts that are stubs (the handlers and the clerks of
    kvsrv1, kvraft1 and shardkv1, [Submit] of kvraft1/rsm/rsm.go, the lock, the controller, mr's
    coordinator and worker) are modelled as they are, with nothing added: what
    they are meant to do is only a specification here (the laws of [Documented],
    [ShardCtrler] and [Controllers]), and an operation of such a service takes effect at one
    instant between its call and its return. In the test with several controllers a
    call of a controller is one step. The test [partitionCtrler] (shardkv1/test.go) is not
    modelled: it stops a controller in the middle of a change, and no comment says what such a
    change leaves behind. Servers are not restarted in the runs of [RaftNet] (restarts are in
    [RaftCluster] and [Group]), and its goroutines' pauses are any number of steps of others. The drivers in main/ (but mrsequential,
    mrcoordinator and mrworker) parse a command line for packages that are not in the
    repository. *)

From stdpp Require Export prelude gmap strings list sorting.
From Stdlib Require Export ZArith Lia.
From Stdlib Require Ascii String.

Local Open Scope Z_scope.

(** ** Machine integers

    Go's [int] and [int64] are 64-bit two's complement, [int32] is 32-bit,
    and arithmetic on them wraps. [uint64] and [uint32] reduce modulo their
    width. *)
Definition wrap (w z : Z) : Z := (z + 2 ^ (w - 1)) `mod` 2 ^ w - 2 ^ (w - 1).
Definition int64 (z : Z) : Z := wrap 64 z.
Definition int32 (z : Z) : Z := wrap 32 z.
Definition uint64 (z : Z) : Z := z `mod` 2 ^ 64.
Definition uint32 (z : Z) : Z := z `mod` 2 ^ 32.

(** [max_int64] is also the largest [time.Duration]. *)
Definition max_int64 : Z := 2 ^ 63 - 1.

(** ** Interface values

    A value of type [interface{}] carries its dynamic type. The program puts
    nil, ints, strings and small structs of ints into one. *)
Inductive any : Type :=
| any_nil
| any_int (z : Z)
| any_string (s : string)
| any_struct (type : string) (fields : list Z).

#[export] Instance any_eq_dec : EqDecision any.
Proof. solve_decision. Defined.

#[export] Instance any_countable : Countable any.
Proof.
  refine (inj_countable'
    (λ a, match a with
          | any_nil => inl (inl ())
          | any_int z => inl (inr z)
          | any_string s => inr (inl s)
          | any_struct t fs => inr (inr (t, fs))
          end)
    (λ x, match x with
          | inl (inl _) => any_nil
          | inl (inr z) => any_int z
          | inr (inl s) => any_string s
          | inr (inr (t, fs)) => any_struct t fs
          end) _).
  by intros [].
Defined.

(** ** JSON

    encoding/json at one type; an error is [None]. *)
Class Json (V : Type) := { Marshal : V → option string; Unmarshal : string → option V }.

(** What the code relies on: a value of the type is read back as it was. *)
Class JsonLaws (V : Type) `{Json V} :=
  json_roundtrip : ∀ v : V, ∃ b, Marshal v = Some b ∧ Unmarshal b = Some v.

(** A countable type in binary: an instance of the interface to run with. *)
Fixpoint bits (p : positive) : string :=
  match p with xH => "" | xO p => "0" +:+ bits p | xI p => "1" +:+ bits p end.

Fixpoint unbits (s : string) : positive :=
  match s with
  | String.EmptyString => xH
  | String.String a s => if decide (a = Ascii.Ascii false false false false true true false false) then xO (unbits s) else xI (unbits s)
  end.

Lemma unbits_bits p : unbits (bits p) = p.
Proof.
  induction p as [p IH|p IH|]; [change (xI (unbits (bits p)) = xI p)|change (xO (unbits (bits p)) = xO p)|done];
    by rewrite IH.
Qed.

Definition binary_json (V : Type) `{Countable V} : Json V :=
  {| Marshal v := Some (bits (encode v)); Unmarshal s := decode (unbits s) |}.

Lemma binary_json_laws (V : Type) `{Countable V} : @JsonLaws V (binary_json V).
Proof. intros v. eexists. split; [reflexivity|]. simpl. by rewrite unbits_bits, decode_encode. Qed.

(** ** How a Go computation ends

    [Done] is a normal return; [Panic] is a run-time panic (index out of
    range, nil dereference, closing a closed channel), which takes the whole
    program down; [Fatal] is [log.Fatalf], [t.Fatal] or [ts.Fatalf];
    [Diverge] is a loop that has not ended within the fuel it was given. *)
Inductive outcome (A : Type) : Type :=
| Done (a : A)
| Panic (why : string)
| Fatal (msg : string)
| Diverge.
Arguments Done {A} a.
Arguments Panic {A} why.
Arguments Fatal {A} msg.
Arguments Diverge {A}.

#[export] Instance outcome_ret : MRet outcome := @Done.
#[export] Instance outcome_bind : MBind outcome := λ A B f m,
  match m with
  | Done a => f a
  | Panic w => Panic w
  | Fatal msg => Fatal msg
  | Diverge => Diverge
  end.

#[export] Instance outcome_eq_dec {A} `{EqDecision A} : EqDecision (outcome A).
Proof. solve_decision. Defined.

#[export] Instance Done_inj {A} : Inj eq eq (@Done A).
Proof. by intros a b [= ->]. Qed.

Definition is_done {A} (m : outcome A) : bool :=
  match m with Done _ => true | _ => false end.

(** ** Slices and arrays indexed by an [int] *)
Definition in_range {A} (l : list A) (i : Z) : bool :=
  (0 <=? i) && (i <? Z.of_nat (length l)).

(** [l[i]], which panics out of range. *)
Definition slice_get {A} (l : list A) (i : Z) : outcome A :=
  if 0 <=? i then
    match l !! Z.to_nat i with
    | Some a => Done a
    | None => Panic "index out of range"
    end
  else Panic "index out of range".

(** [l[i] = a], which panics out of range. *)
Definition slice_set {A} (l : list A) (i : Z) (a : A) : outcome (list A) :=
  if in_range l i then Done (<[Z.to_nat i := a]> l)
  else Panic "index out of range".

(** The bytes of a string. *)
Definition bytes_of (s : string) : list Z :=
  (λ c, Z.of_N (Ascii.N_of_ascii c)) <$> String.list_ascii_of_string s.

(** [hash/fnv]'s [New32a], [Write] and [Sum32]. *)
Definition fnv32a (s : string) : Z :=
  foldl (λ h b, uint32 (Z.lxor h b * 16777619)) 2166136261 (bytes_of s).

(** A Go [for ... range] loop whose body may stop the program. *)
Fixpoint for_each {A S} (l : list A) (body : A → S → outcome S) (s : S) : outcome S :=
  match l with
  | [] => Done s
  | a :: l' => s' ← body a s; for_each l' body s'
  end.

(** ** Lemmas on machine integers *)
Lemma wrap_range w z : 0 < w → - 2 ^ (w - 1) <= wrap w z < 2 ^ (w - 1).
Proof.
  intros Hw. unfold wrap.
  assert (2 ^ w = 2 * 2 ^ (w - 1)) as E.
  { rewrite <- Z.pow_succ_r by lia. f_equal. lia. }
  pose proof (Z.mod_pos_bound (z + 2 ^ (w - 1)) (2 ^ w)).
  assert (0 < 2 ^ (w - 1)) by (apply Z.pow_pos_nonneg; lia).
  lia.
Qed.

Lemma wrap_id w z : 0 < w → - 2 ^ (w - 1) <= z < 2 ^ (w - 1) → wrap w z = z.
Proof.
  intros Hw Hz. unfold wrap.
  assert (2 ^ w = 2 * 2 ^ (w - 1)) as E.
  { rewrite <- Z.pow_succ_r by lia. f_equal. lia. }
  rewrite Z.mod_small; lia.
Qed.

Lemma int64_id z : - 2 ^ 63 <= z < 2 ^ 63 → int64 z = z.
Proof. intros H. apply wrap_id; [lia | exact H]. Qed.

Lemma int32_id z : - 2 ^ 31 <= z < 2 ^ 31 → int32 z = z.
Proof. intros H. apply wrap_id; [lia | exact H]. Qed.

Lemma uint64_id z : 0 <= z < 2 ^ 64 → uint64 z = z.
Proof. intros H. apply Z.mod_small. exact H. Qed.

Lemma int64_add_wrap a b : int64 (int64 a + b) = int64 (a + b).
Proof.
  unfold int64, wrap. f_equal.
  replace ((a + 2 ^ (64 - 1)) `mod` 2 ^ 64 - 2 ^ (64 - 1) + b + 2 ^ (64 - 1))
    with ((a + 2 ^ (64 - 1)) `mod` 2 ^ 64 + b) by lia.
  rewrite Zplus_mod_idemp_l. f_equal. lia.
Qed.

(** ** Lemmas on slices and outcomes *)
Lemma slice_get_Some {A} (l : list A) (i : nat) a :
  l !! i = Some a → slice_get l (Z.of_nat i) = Done a.
Proof.
  intros H. unfold slice_get.
  rewrite (proj2 (Z.leb_le 0 (Z.of_nat i))) by lia.
  by rewrite Nat2Z.id, H.
Qed.

Lemma slice_get_Done {A} (l : list A) i a :
  slice_get l i = Done a → 0 <= i ∧ l !! Z.to_nat i = Some a.
Proof.
  unfold slice_get. destruct (Z.leb_spec 0 i); [|done].
  by destruct (l !! Z.to_nat i) eqn:E; [intros [= ->]|].
Qed.

Lemma slice_set_Done {A} (l : list A) i a l' :
  slice_set l i a = Done l' →
  0 <= i < Z.of_nat (length l) ∧ l' = <[Z.to_nat i := a]> l.
Proof.
  unfold slice_set, in_range.
  destruct (Z.leb_spec 0 i), (Z.ltb_spec i (Z.of_nat (length l))); simpl; try done.
  by intros [= <-].
Qed.

Lemma elem_of_insert_inv {A} (l : list A) i x y : y ∈ <[i := x]> l → y = x ∨ y ∈ l.
Proof.
  intros (j & Hj)%list_elem_of_lookup. destruct (decide (i = j)) as [<-|].
  - rewrite list_lookup_insert in Hj. case_decide; [left; congruence|].
    right. apply list_elem_of_lookup. by exists i.
  - rewrite list_lookup_insert_ne in Hj by done. right. apply list_elem_of_lookup. by exists j.
Qed.

Lemma filter_all {A} (P : A → Prop) `{∀ x, Decision (P x)} (l : list A) : Forall P l → filter P l = l.
Proof. induction 1 as [|x l Hx _ IH]; [done|]. rewrite filter_cons, decide_True by done. by f_equal. Qed.

Lemma filter_none {A} (P : A → Prop) `{∀ x, Decision (P x)} (l : list A) : (∀ x, x ∈ l → ¬ P x) → filter P l = [].
Proof.
  induction l as [|x l IH]; intros Hl; [done|]. rewrite filter_cons, decide_False by (apply Hl; by left).
  apply IH. intros y Hy. apply Hl. by right.
Qed.

Lemma length_filter_insert {A} (P : A → Prop) `{∀ x, Decision (P x)} (l : list A) i a b :
  l !! i = Some a →
  (length (filter P (<[i := b]> l)) + (if decide (P a) then 1 else 0) =
   length (filter P l) + (if decide (P b) then 1 else 0))%nat.
Proof.
  intros Hi. rewrite insert_take_drop by (by eapply lookup_lt_Some).
  rewrite <- (take_drop_middle l i a Hi) at 3.
  rewrite !filter_app, !filter_cons, !length_app. repeat case_decide; simpl; lia.
Qed.

Lemma bind_Done {A B} (m : outcome A) (f : A → outcome B) b :
  (a ← m; f a) = Done b ↔ ∃ a, m = Done a ∧ f a = Done b.
Proof.
  destruct m as [a| | |]; (split; [intros H|intros (x & Hx & H)]); try discriminate.
  - by exists a.
  - by injection Hx as ->.
Qed.

Lemma for_each_app {A S} (l1 l2 : list A) (body : A → S → outcome S) s :
  for_each (l1 ++ l2) body s = (s' ← for_each l1 body s; for_each l2 body s').
Proof.
  revert s. induction l1 as [|a l1 IH]; intros s; [done|]. simpl.
  destruct (body a s); simpl; [apply IH|done..].
Qed.

(** A loop invariant for [for_each]. *)
Lemma for_each_ind {A S} (P : S → Prop) (l : list A) (body : A → S → outcome S) s s' :
  P s →
  (∀ a s1 s2, a ∈ l → P s1 → body a s1 = Done s2 → P s2) →
  for_each l body s = Done s' → P s'.
Proof.
  revert s. induction l as [|a l IH]; simpl; intros s Hs Hbody Hrun; [by simplify_eq|].
  apply bind_Done in Hrun as (s1 & Hb & Hr).
  eapply IH; [|intros; eapply Hbody; [by right|..]; eauto|exact Hr].
  eapply Hbody; [by left|..]; eauto.
Qed.

(** An invariant of a loop that counts. *)
Lemma for_each_seq {S} (P : nat → S → Prop) n (body : nat → S → outcome S) s s' :
  P 0%nat s → (∀ i s1 s2, (i < n)%nat → P i s1 → body i s1 = Done s2 → P (Datatypes.S i) s2) →
  for_each (seq 0 n) body s = Done s' → P n s'.
Proof.
  intros H0 Hbody. revert s'. induction n as [|n IH]; intros s'; [by intros [= <-]|].
  rewrite seq_S, for_each_app. intros (s1 & H1 & Hrun)%bind_Done. cbn [for_each] in Hrun. apply bind_Done in Hrun as (s2 & H2 & [= <-]).
  apply (Hbody n s1); [lia| |exact H2]. apply IH; [|exact H1]. intros i s3 s4 Hi. apply Hbody. lia.
Qed.

(** A computation that is seen to return is its result. *)
Definition result {A} (m : outcome A) (d : A) : A := match m with Done a => a | _ => d end.

Lemma result_Done {A} (m : outcome A) d : is_done m = true → m = Done (result m d).
Proof. by destruct m. Qed.

(** ** Automation

    [godb] solves the side conditions on ranges and machine integers, and
    [go_inv] takes apart a computation that is known to return. *)
Create HintDb godb.
#[export] Hint Resolve int64_id int32_id uint64_id slice_get_Some : godb.
#[export] Hint Extern 1 (_ <= _ < _) => lia : godb.

Ltac go_inv :=
  repeat match goal with
    | H : mbind _ _ = Done _ |- _ => apply bind_Done in H as (? & ? & ?)
    | H : Done _ = Done _ |- _ => injection H as H; subst
    | H : Panic _ = Done _ |- _ => discriminate H
    | H : Fatal _ = Done _ |- _ => discriminate H
    | H : Diverge = Done _ |- _ => discriminate H
    | H : slice_get _ _ = Done _ |- _ => apply slice_get_Done in H as [? ?]
    | H : slice_set _ _ _ = Done _ |- _ => apply slice_set_Done in H as [? ?]
    end; simplify_eq/=.

(** Case analysis on the boolean tests of a goal or of a hypothesis. *)
Ltac ztests :=
  repeat match goal with
    | |- context [Z.eqb ?a ?b] => destruct (Z.eqb_spec a b)
    | |- context [Z.ltb ?a ?b] => destruct (Z.ltb_spec a b)
    | |- context [Z.leb ?a ?b] => destruct (Z.leb_spec a b)
    | H : context [Z.eqb ?a ?b] |- _ => destruct (Z.eqb_spec a b)
    | H : context [Z.ltb ?a ?b] |- _ => destruct (Z.ltb_spec a b)
    | H : context [Z.leb ?a ?b] |- _ => destruct (Z.leb_spec a b)
    end; simpl in *.
