(* ===== verification/Persister.v ===== *)
(** * Persister: tester1/persister.go

    The [Persister] holds two byte slices, Raft's state and the service's
    snapshot. [Copy] makes the new persister share the old one's slices, and
    [Save] and the readers clone, so what is persisted depends on aliasing:
    slices are modelled as references into a store of byte arrays, and
    persisters are objects of that store. *)

From S2P Require Import Prelude.
From Stdlib Require Import Strings.Byte.

(** A [[]byte]: nil, or a reference to an array that is used whole. *)
Abbreviation slice := (option nat).

Record Persister := mkPersister {
  raftstate : slice;
  snapshot : slice;
}.

(** The store: byte arrays and [Persister] objects, by address. *)
Record Store := mkStore {
  arrays : gmap nat (list byte);
  persisters : gmap nat Persister;
}.

Definition deref (st : Store) (s : slice) : list byte :=
  match s with
  | None => []
  | Some a => default [] (arrays st !! a)
  end.

Definition alloc_array (bs : list byte) (st : Store) : nat * Store :=
  let a := fresh (dom (arrays st)) in
  (a, mkStore (<[a := bs]> (arrays st)) (persisters st)).

Definition alloc_persister (ps : Persister) (st : Store) : nat * Store :=
  let p := fresh (dom (persisters st)) in
  (p, mkStore (arrays st) (<[p := ps]> (persisters st))).

Definition set_persister (p : nat) (ps : Persister) (st : Store) : Store :=
  mkStore (arrays st) (<[p := ps]> (persisters st)).

(** [&Persister{}]: both slices are nil. *)
Definition MakePersister (st : Store) : nat * Store :=
  alloc_persister (mkPersister None None) st.

(** [clone]: a fresh array with the same bytes; the result is never nil. *)
Definition clone (orig : slice) (st : Store) : slice * Store :=
  let '(a, st') := alloc_array (deref st orig) st in (Some a, st').

(** A method call on the persister at [p]; a dangling pointer is nil. *)
Definition with_persister {A} (p : nat) (st : Store) (k : Persister → A) : outcome A :=
  match persisters st !! p with
  | Some ps => Done (k ps)
  | None => Panic "nil pointer dereference"
  end.

(** [Copy]: the new persister holds the same slices, not clones of them. *)
Definition Copy (p : nat) (st : Store) : outcome (nat * Store) :=
  with_persister p st (λ ps,
    let '(np, st1) := MakePersister st in
    (np, set_persister np (mkPersister (raftstate ps) (snapshot ps)) st1)).

Definition ReadRaftState (p : nat) (st : Store) : outcome (slice * Store) :=
  with_persister p st (λ ps, clone (raftstate ps) st).

Definition RaftStateSize (p : nat) (st : Store) : outcome Z :=
  with_persister p st (λ ps, Z.of_nat (length (deref st (raftstate ps)))).

Definition Save (p : nat) (rs snap : slice) (st : Store) : outcome Store :=
  with_persister p st (λ ps,
    let '(r', st1) := clone rs st in
    let '(s', st2) := clone snap st1 in
    set_persister p (mkPersister r' s') st2).

Definition ReadSnapshot (p : nat) (st : Store) : outcome (slice * Store) :=
  with_persister p st (λ ps, clone (snapshot ps) st).

Definition SnapshotSize (p : nat) (st : Store) : outcome Z :=
  with_persister p st (λ ps, Z.of_nat (length (deref st (snapshot ps)))).

(** What a reader of the persister at [p] would see now. *)
Definition contents (p : nat) (st : Store) : option (list byte * list byte) :=
  ps ← persisters st !! p; Some (deref st (raftstate ps), deref st (snapshot ps)).

(** Code holding a slice may write through it: [x[i] = b], ... *)
Definition scribble (a : nat) (bs : list byte) (st : Store) : Store :=
  mkStore (<[a := bs]> (arrays st)) (persisters st).

(** Every slice a persister holds points to an array of the store. *)
Definition slice_valid (st : Store) (s : slice) : Prop :=
  match s with None => True | Some a => is_Some (arrays st !! a) end.

Definition store_valid (st : Store) : Prop :=
  map_Forall (λ _ ps, slice_valid st (raftstate ps) ∧ slice_valid st (snapshot ps))
    (persisters st).

(** ** Lemmas *)
Lemma fresh_array st : arrays st !! fresh (dom (arrays st)) = None.
Proof. apply not_elem_of_dom, is_fresh. Qed.

Lemma fresh_persister st : persisters st !! fresh (dom (persisters st)) = None.
Proof. apply not_elem_of_dom, is_fresh. Qed.

(** Allocation leaves the arrays there are as they are. *)
Definition extends (st st' : Store) : Prop := arrays st ⊆ arrays st'.

Lemma clone_extends s st s' st' : clone s st = (s', st') → extends st st'.
Proof. intros [= <- <-]. apply insert_subseteq, fresh_array. Qed.

Lemma clone_spec s st s' st' :
  clone s st = (s', st') →
  ∃ a, s' = Some a ∧ arrays st !! a = None ∧ arrays st' !! a = Some (deref st s) ∧
       persisters st' = persisters st.
Proof.
  intros [= <- <-]. eexists. split_and!; [done|apply fresh_array| |done].
  simpl. apply lookup_insert_eq.
Qed.

Lemma deref_extends st st' s : extends st st' → slice_valid st s → deref st' s = deref st s.
Proof.
  destruct s as [a|]; [|done]. intros Hsub [bs Hbs]. simpl.
  by rewrite Hbs, (lookup_weaken _ _ _ _ Hbs Hsub).
Qed.

Lemma slice_valid_extends st st' s : extends st st' → slice_valid st s → slice_valid st' s.
Proof.
  destruct s as [a|]; [|done]. intros Hsub [bs Hbs]. exists bs. by eapply lookup_weaken.
Qed.

#[export] Hint Resolve clone_extends slice_valid_extends : godb.

Lemma extends_trans st1 st2 st3 : extends st1 st2 → extends st2 st3 → extends st1 st3.
Proof. unfold extends. intros ??; by etrans. Qed.

(** The effect of [Save] in one equation. *)
Lemma Save_inv p rs snap st st' :
  store_valid st → slice_valid st snap → Save p rs snap st = Done st' →
  ∃ ps a b, persisters st !! p = Some ps ∧
    persisters st' = <[p := mkPersister (Some a) (Some b)]> (persisters st) ∧
    arrays st !! a = None ∧ arrays st !! b = None ∧ a ≠ b ∧ extends st st' ∧
    arrays st' !! a = Some (deref st rs) ∧ arrays st' !! b = Some (deref st snap).
Proof.
  intros Hv Hs. unfold Save, with_persister.
  destruct (persisters st !! p) as [ps|] eqn:Hp; [|done].
  destruct (clone rs st) as [r' st1] eqn:E1. destruct (clone snap st1) as [s' st2] eqn:E2.
  intros [= <-].
  pose proof (clone_extends _ _ _ _ E1) as X1. pose proof (clone_extends _ _ _ _ E2) as X2.
  apply clone_spec in E1 as (a & -> & Ha & Ha1 & Hp1).
  apply clone_spec in E2 as (b & -> & Hb & Hb1 & Hp2).
  exists ps, a, b. unfold set_persister; simpl.
  split_and!; [done| | done | | | by eapply extends_trans | | ].
  - by rewrite Hp2, Hp1.
  - destruct (arrays st !! b) eqn:E; [|done]. by rewrite (lookup_weaken _ _ _ _ E X1) in Hb.
  - intros ->. congruence.
  - by eapply lookup_weaken.
  - rewrite Hb1. f_equal. by apply deref_extends.
Qed.

(** What [Save] stores is what is read back later, in full, whatever is
    written afterwards through the slices the caller passed in or through any
    other array that existed before the call. *)
Theorem Save_isolated p rs snap st st' a bs :
  store_valid st → slice_valid st snap → Save p rs snap st = Done st' →
  is_Some (arrays st !! a) →
  contents p (scribble a bs st') = Some (deref st rs, deref st snap).
Proof.
  intros Hv Hs HS [x Hx].
  destruct (Save_inv _ _ _ _ _ Hv Hs HS) as (ps & r & s & Hp & Hp' & Hr & Hsn & Hne & _ & Er & Es).
  unfold contents, scribble; simpl. rewrite Hp', lookup_insert_eq. simpl.
  rewrite !lookup_insert_ne by congruence. by rewrite Er, Es.
Qed.

(** The effect of [Copy] in one equation. *)
Lemma Copy_inv p np st st1 :
  Copy p st = Done (np, st1) →
  ∃ ps, persisters st !! p = Some ps ∧ persisters st !! np = None ∧
    st1 = mkStore (arrays st) (<[np := ps]> (persisters st)).
Proof.
  unfold Copy, with_persister. destruct (persisters st !! p) as [ps|] eqn:Hp; [|done].
  intros [= <- <-]. exists ps. split; [done|]. split; [apply fresh_persister|].
  unfold set_persister; simpl. rewrite insert_insert_eq. by destruct ps.
Qed.

Lemma Copy_spec p np st st1 :
  store_valid st → Copy p st = Done (np, st1) →
  np ≠ p ∧ is_Some (persisters st1 !! np) ∧ is_Some (persisters st1 !! p) ∧ store_valid st1 ∧
  contents np st1 = contents p st ∧ (∀ q, q ≠ np → contents q st1 = contents q st).
Proof.
  intros Hv (ps & Hp & Hnp & ->)%Copy_inv. assert (np ≠ p) by congruence.
  unfold contents; simpl. rewrite lookup_insert_eq, Hp. simpl. split_and!; try done.
  - by rewrite lookup_insert_ne, Hp.
  - unfold store_valid; simpl. apply map_Forall_insert_2; [exact (Hv _ _ Hp)|exact Hv].
  - intros q Hq. by rewrite lookup_insert_ne.
Qed.

(** [Save] on one persister leaves the others alone. *)
Lemma Save_other p q rs snap st st' :
  store_valid st → slice_valid st snap → Save p rs snap st = Done st' → q ≠ p →
  contents q st' = contents q st.
Proof.
  intros Hv Hs HS Hne.
  destruct (Save_inv _ _ _ _ _ Hv Hs HS) as (ps & r & s & _ & Hp' & _ & _ & _ & X & _ & _).
  unfold contents. rewrite Hp', lookup_insert_ne by done.
  destruct (persisters st !! q) as [qs|] eqn:Hq; [|done]. simpl.
  destruct (Hv _ _ Hq) as [Hv1 Hv2]. by rewrite !(deref_extends _ _ _ X).
Qed.

Lemma Save_valid p rs snap st st' :
  store_valid st → slice_valid st snap → Save p rs snap st = Done st' → store_valid st'.
Proof.
  intros Hv Hs HS.
  destruct (Save_inv _ _ _ _ _ Hv Hs HS) as (ps & r & s & _ & Hp' & _ & _ & _ & X & Hr & Hs').
  unfold store_valid. rewrite Hp'. apply map_Forall_insert_2.
  - split; simpl; eauto.
  - intros k x Hk. destruct (Hv _ _ Hk). split; by eapply slice_valid_extends.
Qed.

(** [Copy] gives the new instance the old contents, and a later [Save]
    of the superseded instance on the old persister does not change them. *)
Theorem Copy_isolated p np st st1 rs snap st2 :
  store_valid st → slice_valid st1 snap →
  Copy p st = Done (np, st1) → Save p rs snap st1 = Done st2 →
  contents np st1 = contents p st ∧ contents np st2 = contents np st1.
Proof.
  intros Hv Hs HC HS. destruct (Copy_spec _ _ _ _ Hv HC) as (Hne & _ & _ & Hv1 & Hc & _).
  split; [exact Hc|]. by apply (Save_other p np rs snap).
Qed.

(** ** Witnesses *)
Definition demo_store : Store :=
  mkStore {[ 0%nat := [x01; x02]; 1%nat := [x03] ]} {[ 7%nat := mkPersister (Some 0%nat) None ]}.

Lemma demo_store_valid : store_valid demo_store.
Proof.
  apply map_Forall_singleton. split; [|done]. by exists [x01; x02].
Qed.

Lemma Save_isolated_witness :
  ∃ st', Save 7 (Some 1%nat) (Some 0%nat) demo_store = Done st' ∧
    contents 7 (scribble 1 [] st') = Some ([x03], [x01; x02]).
Proof.
  eexists. split; [reflexivity|].
  apply (Save_isolated 7 (Some 1%nat) (Some 0%nat) demo_store _ 1 []).
  - apply demo_store_valid.
  - by exists [x01; x02].
  - reflexivity.
  - by exists [x03].
Defined.

Lemma Copy_isolated_witness :
  ∃ np st1 st2, Copy 7 demo_store = Done (np, st1) ∧ Save 7 None None st1 = Done st2 ∧
    contents np st1 = contents 7 demo_store ∧ contents np st2 = contents np st1.
Proof.
  eexists _, _, _. split; [reflexivity|]. split; [reflexivity|].
  apply (Copy_isolated 7 _ demo_store _ None None).
  - apply demo_store_valid.
  - done.
  - reflexivity.
  - reflexivity.
Defined.
