(* ===== verification/Raft.v ===== *)
(** * Raft: one peer, raft1/raft.go

    The state of a [Raft] object and every critical section the code runs on
    it: the two RPC handlers, the ticker's two locked sections, the two
    sections of a heartbeat goroutine and the section that handles a vote
    reply. A locked section is atomic, so each is one function; how the
    sections of several peers interleave is the subject of RaftCluster. *)

From S2P Require Import Prelude Persister.

Local Open Scope Z_scope.

Inductive State := Follower | Candidate | Leader.

#[export] Instance State_eq_dec : EqDecision State.
Proof. solve_decision. Defined.

Record LogEntry := mkLogEntry { Command : any; EntryTerm : Z }.

(** [time.Time]: [None] is the zero time, the initial [lastHeartbeat];
    otherwise nanoseconds. *)
Abbreviation time := (option Z).

(** [time.Since]: the distance from the zero time saturates at the largest
    duration. *)
Definition time_Since (t : time) (now : Z) : Z :=
  match t with
  | None => max_int64
  | Some t => now - t
  end.

(** [peers] is represented by its length, [mu] by the atomicity of the
    sections; the persister is shared with the tester, so it is an argument
    of the methods that read it. *)
Record Raft := mkRaft {
  npeers : nat;
  me : Z;
  dead : Z;
  currentTerm : Z;
  votedFor : Z;
  log : list LogEntry;
  state : State;
  lastHeartbeat : time;
}.

Definition set_term (t : Z) (rf : Raft) : Raft :=
  mkRaft (npeers rf) (me rf) (dead rf) t (votedFor rf) (log rf) (state rf) (lastHeartbeat rf).
Definition set_votedFor (v : Z) (rf : Raft) : Raft :=
  mkRaft (npeers rf) (me rf) (dead rf) (currentTerm rf) v (log rf) (state rf) (lastHeartbeat rf).
Definition set_state (s : State) (rf : Raft) : Raft :=
  mkRaft (npeers rf) (me rf) (dead rf) (currentTerm rf) (votedFor rf) (log rf) s (lastHeartbeat rf).
Definition set_lastHeartbeat (t : time) (rf : Raft) : Raft :=
  mkRaft (npeers rf) (me rf) (dead rf) (currentTerm rf) (votedFor rf) (log rf) (state rf) t.
Definition set_dead (d : Z) (rf : Raft) : Raft :=
  mkRaft (npeers rf) (me rf) d (currentTerm rf) (votedFor rf) (log rf) (state rf) (lastHeartbeat rf).

(** The three assignments that every adoption of a higher term makes. *)
Definition step_down (t : Z) (rf : Raft) : Raft :=
  set_votedFor (-1) (set_state Follower (set_term t rf)).

Definition GetState (rf : Raft) : Z * bool :=
  (currentTerm rf, bool_decide (state rf = Leader)).

(** [persist]: its body is commented out. *)
Definition persist (rf : Raft) : Raft := rf.

(** [readPersist]: both the early return and the commented-out rest leave the
    object as it is. *)
Definition readPersist (data : list Byte.byte) (rf : Raft) : Raft :=
  if Z.of_nat (length data) <? 1 then rf else rf.

Definition PersistBytes (p : nat) (st : Store) : outcome Z := RaftStateSize p st.

(** [Snapshot]: an empty body. *)
Definition Snapshot (index : Z) (snapshot : slice) (rf : Raft) : Raft := rf.

Record RequestVoteArgs := mkRequestVoteArgs {
  rv_Term : Z;
  rv_CandidateID : Z;
  rv_LastLogIndex : Z;
  rv_LastLogTerm : Z;
}.

Record RequestVoteReply := mkRequestVoteReply { rvr_Term : Z; rvr_VoteGranted : bool }.

(** [&RequestVoteReply{}]: what both ends of a call start from. *)
Definition empty_vote_reply : RequestVoteReply := mkRequestVoteReply 0 false.

(** [RequestVote]: the term of the reply is written on a grant only. *)
Definition RequestVote (now : Z) (rf : Raft) (args : RequestVoteArgs)
    (reply : RequestVoteReply) : Raft * RequestVoteReply :=
  if rv_Term args <? currentTerm rf then
    (rf, mkRequestVoteReply (rvr_Term reply) false)
  else
    let rf := if currentTerm rf <? rv_Term args
              then set_votedFor (-1) (set_term (rv_Term args) (set_state Follower rf))
              else rf in
    if negb (votedFor rf =? -1) && negb (votedFor rf =? rv_CandidateID args) then
      (rf, mkRequestVoteReply (rvr_Term reply) false)
    else
      let rf := set_lastHeartbeat (Some now) (set_votedFor (rv_CandidateID args) rf) in
      (rf, mkRequestVoteReply (currentTerm rf) true).

(** [Start]: a constant answer. *)
Definition Start (command : any) (rf : Raft) : Z * Z * bool := (-1, -1, true).

Definition Kill (rf : Raft) : Raft := set_dead 1 rf.
Definition killed (rf : Raft) : bool := dead rf =? 1.

(** [300 + rand.Int63() % 300] milliseconds, in nanoseconds. *)
Definition election_timeout (r : Z) : Z := (300 + Z.rem r 300) * 1000000.

(** The second locked section of [ticker] up to the sending of the RPCs; the
    arguments are those of the election it starts, if it starts one. *)
Definition start_election (now r : Z) (rf : Raft) : Raft * option RequestVoteArgs :=
  if negb (bool_decide (state rf = Leader)) &&
     (election_timeout r <? time_Since (lastHeartbeat rf) now) then
    let rf := set_state Candidate rf in
    let rf := set_term (int64 (currentTerm rf + 1)) rf in
    let rf := set_votedFor (me rf) rf in
    let rf := set_lastHeartbeat (Some now) rf in
    (rf, Some (mkRequestVoteArgs (currentTerm rf) (me rf) 0 0))
  else (rf, None).

(** [for i := 0; i < len(rf.peers); i++ { if i == rf.me { continue } ... }] *)
Definition other_peers (rf : Raft) : list nat :=
  filter (λ i, Z.of_nat i ≠ me rf) (seq 0 (npeers rf)).

(** The locked section of the goroutine that got a vote reply. [votes] is the
    variable [votesReceived] that the goroutines of one election share. *)
Definition vote_reply (args : RequestVoteArgs) (reply : RequestVoteReply)
    (rf : Raft) (votes : Z) : Raft * Z :=
  if negb (currentTerm rf =? rv_Term args) then (rf, votes)
  else if currentTerm rf <? rvr_Term reply then
    (set_votedFor (-1) (set_state Follower (set_term (rvr_Term reply) rf)), votes)
  else if rvr_VoteGranted reply then
    let votes := int64 (votes + 1) in
    if bool_decide (state rf = Candidate) && (Z.quot (Z.of_nat (npeers rf)) 2 <? votes)
    then (set_state Leader rf, votes)
    else (rf, votes)
  else (rf, votes).

Record AppendEntriesArgs := mkAppendEntriesArgs {
  ae_Term : Z;
  ae_LeaderId : Z;
  ae_PrevLogIndex : Z;
  ae_PrevLogTerm : Z;
  ae_Entries : list (option LogEntry);
  ae_LeaderCommit : Z;
}.

Record AppendEntriesReply := mkAppendEntriesReply { aer_Term : Z; aer_Success : bool }.

Definition empty_append_reply : AppendEntriesReply := mkAppendEntriesReply 0 false.

(** [args.Entries[args.PrevLogIndex].EntryTerm]: the slice holds pointers. *)
Definition entry_term (args : AppendEntriesArgs) : outcome Z :=
  e ← slice_get (ae_Entries args) (ae_PrevLogIndex args);
  match e with
  | Some e => Done (EntryTerm e)
  | None => Panic "nil pointer dereference"
  end.

(** The guard of [AppendEntries]; [||] evaluates its right side only when the
    left one is false. *)
Definition append_rejected (rf : Raft) (args : AppendEntriesArgs)
    (reply : AppendEntriesReply) : outcome bool :=
  if aer_Term reply <? currentTerm rf then Done true
  else t ← entry_term args; Done (negb (t =? aer_Term reply)).

Definition AppendEntries (now : Z) (rf : Raft) (args : AppendEntriesArgs)
    (reply : AppendEntriesReply) : outcome (Raft * AppendEntriesReply) :=
  rejected ← append_rejected rf args reply;
  if rejected : bool then Done (rf, mkAppendEntriesReply (currentTerm rf) false)
  else
    let rf := set_lastHeartbeat (Some now) (step_down (ae_Term args) rf) in
    Done (rf, mkAppendEntriesReply (currentTerm rf) true).

(** First locked section of a goroutine of [broadcastHeartbeats]. *)
Definition heartbeat_args (rf : Raft) : option AppendEntriesArgs :=
  if bool_decide (state rf = Leader) then
    Some (mkAppendEntriesArgs (currentTerm rf) (me rf) 0 0 [] 0)
  else None.

(** Its second locked section, when the call succeeded. *)
Definition heartbeat_reply (reply : AppendEntriesReply) (rf : Raft) : Raft :=
  if currentTerm rf <? aer_Term reply then step_down (aer_Term reply) rf else rf.

(** [Make]: a fresh object; [persisted] is what [ReadRaftState] returned. *)
Definition Make (n : nat) (i : Z) (persisted : list Byte.byte) : Raft :=
  readPersist persisted
    (mkRaft n i 0 0 (-1) [] Follower None).

(** ** Lemmas *)
Lemma Make_fresh n i bs : Make n i bs = mkRaft n i 0 0 (-1) [] Follower None.
Proof. unfold Make, readPersist. by case_match. Qed.

Lemma other_peers_spec rf j :
  j ∈ other_peers rf ↔ (j < npeers rf)%nat ∧ Z.of_nat j ≠ me rf.
Proof.
  unfold other_peers. rewrite list_elem_of_filter, elem_of_seq. lia.
Qed.

Lemma other_peers_NoDup rf : NoDup (other_peers rf).
Proof. apply NoDup_filter, NoDup_seq. Qed.

(** The ways a call of [RequestVote] ends, with what each changes. *)
Inductive vote_case (now : Z) (rf : Raft) (args : RequestVoteArgs) :
    Raft → RequestVoteReply → Prop :=
| vc_stale :
    rv_Term args < currentTerm rf →
    vote_case now rf args rf empty_vote_reply
| vc_voted :
    rv_Term args = currentTerm rf → votedFor rf ≠ -1 → votedFor rf ≠ rv_CandidateID args →
    vote_case now rf args rf empty_vote_reply
| vc_again :
    rv_Term args = currentTerm rf →
    votedFor rf = -1 ∨ votedFor rf = rv_CandidateID args →
    vote_case now rf args
      (set_lastHeartbeat (Some now) (set_votedFor (rv_CandidateID args) rf))
      (mkRequestVoteReply (rv_Term args) true)
| vc_newer :
    currentTerm rf < rv_Term args →
    vote_case now rf args
      (set_lastHeartbeat (Some now)
        (set_votedFor (rv_CandidateID args) (set_term (rv_Term args) (set_state Follower rf))))
      (mkRequestVoteReply (rv_Term args) true).

Lemma RequestVote_cases now rf args rf' reply :
  RequestVote now rf args empty_vote_reply = (rf', reply) →
  vote_case now rf args rf' reply.
Proof.
  unfold RequestVote. destruct (Z.ltb_spec (rv_Term args) (currentTerm rf)) as [|Hle].
  { intros [= <- <-]. by apply vc_stale. }
  destruct (Z.ltb_spec (currentTerm rf) (rv_Term args)) as [Hlt|Hge]; simpl.
  - intros [= <- <-]. by apply vc_newer.
  - assert (rv_Term args = currentTerm rf) as Heq by lia.
    destruct (Z.eqb_spec (votedFor rf) (-1)); simpl;
      [|destruct (Z.eqb_spec (votedFor rf) (rv_CandidateID args)); simpl];
      intros [= <- <-]; rewrite <-?Heq.
    + apply vc_again; [done|by left].
    + apply vc_again; [done|by right].
    + by apply vc_voted.
Qed.

(** (C7) [RequestVote] grants exactly when the term is not stale and the peer
    has not voted for another candidate in that term; the vote is then
    recorded, the term adopted, and only a granting reply carries a term (a
    refusing reply says 0). *)
Theorem RequestVote_spec now rf args :
  let '(rf', reply) := RequestVote now rf args empty_vote_reply in
  let fresh_vote := currentTerm rf < rv_Term args ∨
    rv_Term args = currentTerm rf ∧
    (votedFor rf = -1 ∨ votedFor rf = rv_CandidateID args) in
  (rvr_VoteGranted reply = true ↔ fresh_vote) ∧
  (rvr_VoteGranted reply = true →
     votedFor rf' = rv_CandidateID args ∧ currentTerm rf' = rv_Term args ∧
     lastHeartbeat rf' = Some now ∧ rvr_Term reply = rv_Term args) ∧
  (rvr_VoteGranted reply = false → rf' = rf ∧ rvr_Term reply = 0) ∧
  currentTerm rf' = Z.max (currentTerm rf) (rv_Term args).
Proof.
  destruct (RequestVote _ _ _ _) as [rf' reply] eqn:E.
  apply RequestVote_cases in E. destruct E; simpl; split_and!; naive_solver lia.
Qed.

(** A heartbeat as [broadcastHeartbeats] builds it is never accepted: a
    peer whose term is positive answers false and keeps its state, its last
    heartbeat time included, so it is not kept from starting an election; a
    peer still at term zero (or below) indexes the nil [Entries] and panics. *)
Theorem heartbeat_never_accepted now leader follower args :
  heartbeat_args leader = Some args →
  AppendEntries now follower args empty_append_reply =
    if 0 <? currentTerm follower
    then Done (follower, mkAppendEntriesReply (currentTerm follower) false)
    else Panic "index out of range".
Proof.
  unfold heartbeat_args. case_bool_decide; [|done]. intros [= <-].
  unfold AppendEntries, append_rejected, empty_append_reply; simpl.
  by destruct (0 <? currentTerm follower).
Qed.

Lemma heartbeat_never_accepted_witness :
  AppendEntries 5 (Make 3 1 [])
    (mkAppendEntriesArgs 1 0 0 0 [] 0) empty_append_reply = Panic "index out of range".
Proof.
  apply (heartbeat_never_accepted 5 (set_state Leader (set_term 1 (Make 3 0 []))) (Make 3 1 [])).
  reflexivity.
Defined.

(** A timed-out peer that is not leader starts exactly one election: it
    becomes candidate in the next term, votes for itself, restarts its timer
    and asks every other peer, once, for a vote in that term. *)
Theorem start_election_spec now r rf :
  0 <= r →
  currentTerm rf < max_int64 → - 2 ^ 63 <= currentTerm rf →
  match start_election now r rf with
  | (rf', Some args) =>
      state rf ≠ Leader ∧ election_timeout r < time_Since (lastHeartbeat rf) now ∧
      300 * 1000000 < time_Since (lastHeartbeat rf) now ∧
      state rf' = Candidate ∧ currentTerm rf' = currentTerm rf + 1 ∧
      votedFor rf' = me rf ∧ lastHeartbeat rf' = Some now ∧ log rf' = log rf ∧
      args = mkRequestVoteArgs (currentTerm rf') (me rf') 0 0 ∧
      other_peers rf' = other_peers rf
  | (rf', None) =>
      rf' = rf ∧ (state rf = Leader ∨ time_Since (lastHeartbeat rf) now <= election_timeout r)
  end.
Proof.
  intros Hr Hmax Hmin. unfold max_int64 in *.
  unfold start_election. case_bool_decide as Hl; simpl; [auto|].
  destruct (Z.ltb_spec (election_timeout r) (time_Since (lastHeartbeat rf) now)) as [Ht|]; simpl;
    [|auto].
  split_and!; try done.
  - unfold election_timeout in Ht. pose proof (Z.rem_bound_pos r 300). lia.
  - apply int64_id. lia.
Qed.

Lemma start_election_spec_witness :
  let '(rf', args) := start_election 0 17 (Make 3 1 []) in
  currentTerm rf' = 1 ∧ args = Some (mkRequestVoteArgs 1 1 0 0).
Proof.
  pose proof (start_election_spec 0 17 (Make 3 1 [])) as H.
  specialize (H ltac:(lia) eq_refl ltac:(discriminate)).
  destruct (start_election 0 17 (Make 3 1 [])) as [rf' [args|]] eqn:E; [|by vm_compute in E].
  destruct H as (_ & _ & _ & _ & Ht & _). split; [rewrite Ht; reflexivity|].
  vm_compute in E. congruence.
Defined.

(** A peer that counts a vote reply of a past election changes nothing;
    a granted vote of the current one is counted, and the candidate becomes
    leader exactly when the count passes half the peers; a reply with a
    higher term turns it into a follower of that term. *)
Theorem vote_reply_spec args reply rf votes :
  - 2 ^ 63 <= votes < max_int64 →
  let '(rf', votes') := vote_reply args reply rf votes in
  (currentTerm rf ≠ rv_Term args → rf' = rf ∧ votes' = votes) ∧
  (currentTerm rf = rv_Term args → currentTerm rf < rvr_Term reply →
     rf' = step_down (rvr_Term reply) rf ∧ votes' = votes) ∧
  (currentTerm rf = rv_Term args → rvr_Term reply <= currentTerm rf →
     votes' = votes + Z.b2z (rvr_VoteGranted reply) ∧
     (rf' = rf ∨ rf' = set_state Leader rf) ∧
     (state rf ≠ Leader →
        (state rf' = Leader ↔ state rf = Candidate ∧ rvr_VoteGranted reply = true ∧
                              Z.of_nat (npeers rf) < 2 * votes'))).
Proof.
  intros Hv. unfold max_int64 in *. unfold vote_reply.
  destruct (Z.eqb_spec (currentTerm rf) (rv_Term args)) as [He|He]; simpl; [|by split_and!].
  destruct (Z.ltb_spec (currentTerm rf) (rvr_Term reply)) as [Hl|Hl]; simpl.
  { split_and!; try done. lia. }
  destruct (rvr_VoteGranted reply); simpl.
  2:{ split_and!; try done; try lia. intros _ _. split_and!; [lia|by left|].
      intros Hn. split; [done|]. by intros (_ & ? & _). }
  rewrite int64_id by lia.
  assert (Z.quot (Z.of_nat (npeers rf)) 2 < votes + 1 ↔ Z.of_nat (npeers rf) < 2 * (votes + 1)) as Hq.
  { rewrite Z.quot_div_nonneg by lia.
    pose proof (Z.div_mod (Z.of_nat (npeers rf)) 2).
    pose proof (Z.mod_pos_bound (Z.of_nat (npeers rf)) 2). lia. }
  case_bool_decide as Hc; simpl; [destruct (Z.ltb_spec (Z.quot (Z.of_nat (npeers rf)) 2) (votes + 1))|];
    split_and!; try done; try lia; intros; split_and!; auto; naive_solver lia.
Qed.

Lemma vote_reply_spec_witness :
  let rf := set_state Candidate (set_term 1 (Make 3 0 [])) in
  vote_reply (mkRequestVoteArgs 1 0 0 0) (mkRequestVoteReply 1 true) rf 1
    = (set_state Leader rf, 2).
Proof.
  simpl.
  pose proof (vote_reply_spec (mkRequestVoteArgs 1 0 0 0) (mkRequestVoteReply 1 true)
    (set_state Candidate (set_term 1 (Make 3 0 []))) 1) as H.
  destruct (vote_reply _ _ _ _) as [rf' v'] eqn:E.
  destruct H as (_ & _ & H); [split; vm_compute; congruence|].
  destruct H as (-> & _ & _); [reflexivity|vm_compute; congruence|].
  vm_compute in E. injection E as <-. reflexivity.
Defined.
