(* ===== verification/RaftCluster.v ===== *)
(** * RaftCluster: the peers of raft1/raft.go together

    A step relation for a cluster: every locked section of every goroutine of
    every [Raft] object, and every delivery or loss the network of labrpc can
    make, is one action. [exec] runs an action, so runs are executable.

    - an [Inst] is one [Raft] object with the program counter of its [ticker]
      goroutine; a restarted server is a new object, and the old one's
      goroutines go on;
    - an [Election] is the pair of variables [args] and [votesReceived] that
      the goroutines of one pass through the election branch share;
    - a [Task] is a goroutine of [ticker] or [broadcastHeartbeats], by the
      stage of its call: labrpc delivers a request at most once, can lose
      requests and replies, and delivers in any order. *)

From S2P Require Import Prelude Raft.
From Stdlib Require Import Strings.Byte.

Local Open Scope Z_scope.

(** Where [ticker] is: at the loop's test, after the first locked section with
    the state it read, or returned. *)
Inductive ticker_pc := TLoop | TRead (s : State) | TDone.

Record Inst := mkInst { raft : Raft; pc : ticker_pc }.

Record Election := mkElection {
  el_owner : nat;
  el_args : RequestVoteArgs;
  el_votes : Z;
}.

Inductive Task :=
| VoteSent (eid server : nat)
| VoteReplied (eid server : nat) (reply : RequestVoteReply)
| HbSpawned (owner server : nat)
| HbSent (owner server : nat) (args : AppendEntriesArgs)
| HbReplied (owner server : nat) (reply : AppendEntriesReply).

Record Cluster := mkCluster {
  insts : list Inst;
  current : list nat;
  elections : list Election;
  tasks : gmap nat Task;
  next_task : nat;
  stored : list (list byte);  (* the Raft state in the persister of each server *)
}.

Definition set_inst (i : nat) (x : Inst) (c : Cluster) : Cluster :=
  mkCluster (<[i := x]> (insts c)) (current c) (elections c) (tasks c) (next_task c) (stored c).
Definition set_election (e : nat) (el : Election) (c : Cluster) : Cluster :=
  mkCluster (insts c) (current c) (<[e := el]> (elections c)) (tasks c) (next_task c) (stored c).
Definition add_election (el : Election) (c : Cluster) : Cluster :=
  mkCluster (insts c) (current c) (elections c ++ [el]) (tasks c) (next_task c) (stored c).
Definition set_task (id : nat) (t : Task) (c : Cluster) : Cluster :=
  mkCluster (insts c) (current c) (elections c) (<[id := t]> (tasks c)) (next_task c) (stored c).
Definition del_task (id : nat) (c : Cluster) : Cluster :=
  mkCluster (insts c) (current c) (elections c) (delete id (tasks c)) (next_task c) (stored c).

(** A [go] statement. *)
Definition go (t : Task) (c : Cluster) : Cluster :=
  mkCluster (insts c) (current c) (elections c)
    (<[next_task c := t]> (tasks c)) (S (next_task c)) (stored c).

Definition go_all (ts : list Task) (c : Cluster) : Cluster := foldl (λ c t, go t c) c ts.

(** [Make] on every server of a fresh cluster. *)
Definition init (n : nat) : Cluster :=
  mkCluster ((λ i, mkInst (Make n (Z.of_nat i) []) TLoop) <$> seq 0 n) (seq 0 n) [] ∅ 0 (replicate n []).

Inductive action :=
| ATick (i : nat) (now r : Z)
| AHandle (id : nat) (now : Z)
| AReturn (id : nat)
| ALose (id : nat)
| AHeartbeat (id : nat)
| AKill (i : nat)
| ARestart (s : nat).

(** One pass of [ticker] from one locked section to the next. *)
Definition tick (i : nat) (now r : Z) (c : Cluster) : option Cluster :=
  x ← insts c !! i;
  match pc x with
  | TDone => None
  | TLoop =>
      let next := if killed (raft x) then TDone else TRead (state (raft x)) in
      Some (set_inst i (mkInst (raft x) next) c)
  | TRead Leader =>
      Some (go_all (HbSpawned i <$> other_peers (raft x))
             (set_inst i (mkInst (raft x) TLoop) c))
  | TRead _ =>
      match start_election now r (raft x) with
      | (rf, None) => Some (set_inst i (mkInst rf TLoop) c)
      | (rf, Some args) =>
          let e := length (elections c) in
          Some (go_all (VoteSent e <$> other_peers rf)
                 (add_election (mkElection i args 1) (set_inst i (mkInst rf TLoop) c)))
      end
  end.

(** A request reaches the object that serves its destination now. *)
Definition handle (id : nat) (now : Z) (c : Cluster) : option (outcome Cluster) :=
  t ← tasks c !! id;
  match t with
  | VoteSent e s =>
      el ← elections c !! e; j ← current c !! s; x ← insts c !! j;
      let '(rf, reply) := RequestVote now (raft x) (el_args el) empty_vote_reply in
      Some (Done (set_task id (VoteReplied e s reply) (set_inst j (mkInst rf (pc x)) c)))
  | HbSent o s args =>
      j ← current c !! s; x ← insts c !! j;
      Some ('(rf, reply) ← AppendEntries now (raft x) args empty_append_reply;
            Done (set_task id (HbReplied o s reply) (set_inst j (mkInst rf (pc x)) c)))
  | _ => None
  end.

(** A reply reaches the goroutine that waits for it, which then ends. *)
Definition return_reply (id : nat) (c : Cluster) : option Cluster :=
  t ← tasks c !! id;
  match t with
  | VoteReplied e s reply =>
      el ← elections c !! e; x ← insts c !! el_owner el;
      let '(rf, votes) := vote_reply (el_args el) reply (raft x) (el_votes el) in
      Some (del_task id
             (set_election e (mkElection (el_owner el) (el_args el) votes)
               (set_inst (el_owner el) (mkInst rf (pc x)) c)))
  | HbReplied o s reply =>
      x ← insts c !! o;
      Some (del_task id (set_inst o (mkInst (heartbeat_reply reply (raft x)) (pc x)) c))
  | _ => None
  end.

(** The request or the reply is lost: [Call] returns false, the goroutine ends. *)
Definition lose (id : nat) (c : Cluster) : option Cluster :=
  t ← tasks c !! id;
  match t with
  | HbSpawned _ _ => None
  | _ => Some (del_task id c)
  end.

(** The first locked section of a goroutine of [broadcastHeartbeats]. *)
Definition run_heartbeat (id : nat) (c : Cluster) : option Cluster :=
  t ← tasks c !! id;
  match t with
  | HbSpawned o s =>
      x ← insts c !! o;
      Some (match heartbeat_args (raft x) with
            | None => del_task id c
            | Some args => set_task id (HbSent o s args) c
            end)
  | _ => None
  end.

(** The tester kills an object; its goroutines notice, and nothing else happens. *)
Definition kill (i : nat) (c : Cluster) : option Cluster :=
  x ← insts c !! i; Some (set_inst i (mkInst (Kill (raft x)) (pc x)) c).

(** The tester kills the object that serves [s] and makes a new one, on a copy of its persister. No other
    action writes to a persister: nothing calls [persist]. *)
Definition restart (s : nat) (c : Cluster) : option Cluster :=
  j ← current c !! s; x ← insts c !! j; data ← stored c !! s;
  Some (mkCluster
    (<[j := mkInst (Kill (raft x)) (pc x)]> (insts c) ++
      [mkInst (Make (npeers (raft x)) (me (raft x)) data) TLoop])
    (<[s := length (insts c)]> (current c))
    (elections c) (tasks c) (next_task c) (stored c)).

Definition exec (c : Cluster) (a : action) : option (outcome Cluster) :=
  match a with
  | ATick i now r => if 0 <=? r then Done <$> tick i now r c else None
  | AHandle id now => handle id now c
  | AReturn id => Done <$> return_reply id c
  | ALose id => Done <$> lose id c
  | AHeartbeat id => Done <$> run_heartbeat id c
  | AKill i => Done <$> kill i c
  | ARestart s => Done <$> restart s c
  end.

(** A run: [None] when an action is not enabled; a panic ends the program. *)
Fixpoint run (c : Cluster) (tr : list action) : option (outcome Cluster) :=
  match tr with
  | [] => Some (Done c)
  | a :: tr =>
      match exec c a with
      | Some (Done c') => run c' tr
      | o => o
      end
  end.

Definition no_restart (tr : list action) : Prop :=
  Forall (λ a, match a with ARestart _ => False | _ => True end) tr.

Definition is_leader (c : Cluster) (i : nat) (t : Z) : Prop :=
  ∃ x, insts c !! i = Some x ∧ state (raft x) = Leader ∧ currentTerm (raft x) = t.

(** ** The invariant

    [H] is the history of votes: [H !! (j, t)] is the candidate that peer [j]
    voted for in term [t]. [S e] is the set of peers whose votes have been
    counted in election [e]. [k] bounds the terms. *)
Definition inst_ok (n : nat) (k : Z) (H : gmap (nat * Z) Z) (i : nat) (rf : Raft) : Prop :=
  npeers rf = n ∧ me rf = Z.of_nat i ∧ 0 <= currentTerm rf <= k ∧
  (votedFor rf ≠ -1 → H !! (i, currentTerm rf) = Some (votedFor rf)) ∧
  (∀ t v, H !! (i, t) = Some v →
     t <= currentTerm rf ∧ (t = currentTerm rf → votedFor rf = v ∧ v ≠ -1)).

Definition leader_ok (n : nat) (S : nat → gset nat) (els : list Election) (i : nat) (rf : Raft) : Prop :=
  state rf = Leader →
  ∃ e el, els !! e = Some el ∧ el_owner el = i ∧ rv_Term (el_args el) = currentTerm rf ∧
    (n < 2 * size (S e))%nat.

Definition election_ok (n : nat) (k : Z) (H : gmap (nat * Z) Z) (S : nat → gset nat)
    (e : nat) (el : Election) : Prop :=
  (el_owner el < n)%nat ∧ rv_CandidateID (el_args el) = Z.of_nat (el_owner el) ∧
  0 <= rv_Term (el_args el) <= k ∧ el_votes el = Z.of_nat (size (S e)) ∧
  el_owner el ∈ S e ∧
  ∀ j, j ∈ S e → (j < n)%nat ∧ H !! (j, rv_Term (el_args el)) = Some (Z.of_nat (el_owner el)).

Definition task_ok (n : nat) (k : Z) (H : gmap (nat * Z) Z) (S : nat → gset nat)
    (els : list Election) (t : Task) : Prop :=
  match t with
  | VoteSent e s => (s < n)%nat ∧ (s ∉ S e) ∧ (e < length els)%nat
  | VoteReplied e s reply => (s < n)%nat ∧ (s ∉ S e) ∧ (e < length els)%nat ∧
      ∀ el, els !! e = Some el →
        rvr_Term reply <= rv_Term (el_args el) ∧
        (rvr_VoteGranted reply = true →
         H !! (s, rv_Term (el_args el)) = Some (Z.of_nat (el_owner el)))
  | HbSpawned o s => True
  | HbSent o s args => ae_Entries args = [] ∧ ae_PrevLogIndex args = 0
  | HbReplied o s reply => aer_Term reply <= k
  end.

(** The election and the peer of a vote goroutine: at most one per pair. *)
Definition vote_key (t : Task) : option (nat * nat) :=
  match t with
  | VoteSent e s | VoteReplied e s _ => Some (e, s)
  | _ => None
  end.

Definition unique_votes (ts : gmap nat Task) : Prop :=
  ∀ id1 id2 t1 t2 key, ts !! id1 = Some t1 → ts !! id2 = Some t2 →
    vote_key t1 = Some key → vote_key t2 = Some key → id1 = id2.

Record Inv (n : nat) (k : Z) (H : gmap (nat * Z) Z) (S : nat → gset nat) (c : Cluster) : Prop := {
  inv_current : current c = seq 0 n;
  inv_length : length (insts c) = n;
  inv_inst : ∀ i x, insts c !! i = Some x → inst_ok n k H i (raft x);
  inv_leader : ∀ i x, insts c !! i = Some x → leader_ok n S (elections c) i (raft x);
  inv_election : ∀ e el, elections c !! e = Some el → election_ok n k H S e el;
  inv_task : ∀ id t, tasks c !! id = Some t → task_ok n k H S (elections c) t;
  inv_unique : unique_votes (tasks c);
  inv_fresh : ∀ id t, tasks c !! id = Some t → (id < next_task c)%nat;
}.
