(* ===== verification/RaftSafety.v ===== *)
(** * RaftSafety: what holds in every run of RaftCluster

    Election safety by an invariant over the history of votes, the dead
    step-down branch of the vote goroutine, the inertness of heartbeats, and
    the runs that break: a heartbeat that panics its receiver, and the double
    vote of a restarted server. *)

From S2P Require Import Prelude Raft RaftCluster.

Local Open Scope Z_scope.

(** ** Monotonicity of the parts of the invariant *)

Lemma inst_ok_mono n k k' H H' i rf :
  k <= k' → (∀ t, H' !! (i, t) = H !! (i, t)) →
  inst_ok n k H i rf → inst_ok n k' H' i rf.
Proof.
  intros Hk HH (? & ? & ? & Hv & Ht). split_and!; [done|done|lia|lia|..].
  - intros. rewrite HH. auto.
  - intros t v. rewrite HH. apply Ht.
Qed.

Lemma election_ok_mono n k k' H H' S e el :
  k <= k' → H ⊆ H' → election_ok n k H S e el → election_ok n k' H' S e el.
Proof.
  intros Hk HH (? & ? & ? & ? & ? & Hv). split_and!; try done; try lia.
  intros j Hj. destruct (Hv j Hj) as [? ?]. split; [done|]. by eapply lookup_weaken.
Qed.

(** The elections of [els'] extend those of [els], up to the vote counts. *)
Definition els_le (els els' : list Election) : Prop :=
  (length els <= length els')%nat ∧
  ∀ e el', (e < length els)%nat → els' !! e = Some el' →
    ∃ el, els !! e = Some el ∧ el_owner el = el_owner el' ∧ el_args el = el_args el'.

Lemma els_le_refl els : els_le els els.
Proof. split; [done|]. eauto. Qed.

Lemma els_le_app els el : els_le els (els ++ [el]).
Proof.
  split; [rewrite length_app; lia|]. intros e el' He. rewrite lookup_app_l by done. eauto.
Qed.

Lemma els_le_insert els e el votes :
  els !! e = Some el → els_le els (<[e := mkElection (el_owner el) (el_args el) votes]> els).
Proof.
  intros He. split; [by rewrite length_insert|]. intros e' el' Hl.
  destruct (decide (e = e')) as [<-|].
  - rewrite list_lookup_insert_eq by done. intros [= <-]. eauto.
  - rewrite list_lookup_insert_ne by done. eauto.
Qed.

#[export] Hint Resolve els_le_refl els_le_app els_le_insert : godb.

Lemma task_ok_mono n k k' H H' S els els' t :
  k <= k' → H ⊆ H' → els_le els els' →
  task_ok n k H S els t → task_ok n k' H' S els' t.
Proof.
  intros Hk HH [Hlen Hels]. destruct t as [e s|e s reply| | |]; simpl; [| |done..|lia].
  { intros (? & ? & ?). split_and!; [done|done|lia]. }
  intros (? & ? & He & Hr). split_and!; [done|done|lia|]. intros el' Hel'.
  destruct (Hels _ _ He Hel') as (el & Hel & <- & <-). destruct (Hr _ Hel) as [? Hg].
  split; [done|]. intros. eapply lookup_weaken; eauto.
Qed.

Lemma Inv_mono n k k' H S c : k <= k' → Inv n k H S c → Inv n k' H S c.
Proof.
  intros Hk [? ? Hi ? He Ht ? ?]. split; try done; intros.
  - eapply inst_ok_mono; [exact Hk|done|]. eauto.
  - eapply election_ok_mono; [exact Hk|done|]. eauto.
  - eapply task_ok_mono; [exact Hk|done|apply els_le_refl|]. eauto.
Qed.

(** ** The invariant under each kind of update *)

(** Peer [i] may move to a state that is right for a history [H'] with more
    votes of [i]. *)
Lemma Inv_set_inst n k H H' S c i x x' :
  Inv n k H S c → insts c !! i = Some x →
  H ⊆ H' → (∀ j t, j ≠ i → H' !! (j, t) = H !! (j, t)) →
  inst_ok n k H' i (raft x') → leader_ok n S (elections c) i (raft x') →
  Inv n k H' S (set_inst i x' c).
Proof.
  intros [? Hlen Hi Hl He Ht ? ?] Hx HH Hother Hok Hlead.
  assert (i < length (insts c))%nat by (by eapply lookup_lt_Some).
  split; simpl; try done.
  - by rewrite length_insert.
  - intros j y. destruct (decide (i = j)) as [<-|].
    + rewrite list_lookup_insert_eq by done. by intros [= <-].
    + rewrite list_lookup_insert_ne by done. intros Hy.
      eapply inst_ok_mono; [reflexivity| |by apply Hi]. intros; by apply Hother.
  - intros j y. destruct (decide (i = j)) as [<-|].
    + rewrite list_lookup_insert_eq by done. by intros [= <-].
    + rewrite list_lookup_insert_ne by done. apply Hl.
  - intros e el ?. eapply election_ok_mono; [reflexivity|done|]. by apply He.
  - intros id t ?. eapply task_ok_mono; [reflexivity|done|apply els_le_refl|]. by eapply Ht.
Qed.

Lemma Inv_set_pc n k H S c i x p :
  Inv n k H S c → insts c !! i = Some x → Inv n k H S (set_inst i (mkInst (raft x) p) c).
Proof.
  intros HI Hx. eapply Inv_set_inst; eauto; simpl; [by eapply inv_inst|by eapply inv_leader].
Qed.

Lemma Inv_del_task n k H S c id : Inv n k H S c → Inv n k H S (del_task id c).
Proof.
  intros [? ? ? ? ? Ht Hu Hf]. split; simpl; try done.
  - intros id' t [_ ?]%lookup_delete_Some. eauto.
  - intros id1 id2 t1 t2 key [_ ?]%lookup_delete_Some [_ ?]%lookup_delete_Some. eauto.
  - intros id' t [_ ?]%lookup_delete_Some. eauto.
Qed.

(** A goroutine moves to its next stage. *)
Lemma Inv_set_task n k H S c id t t' :
  Inv n k H S c → tasks c !! id = Some t →
  (∀ key, vote_key t' = Some key → vote_key t = Some key) →
  task_ok n k H S (elections c) t' → Inv n k H S (set_task id t' c).
Proof.
  intros [? ? ? ? ? Ht Hu Hf] Hid Hkey Hok. split; simpl; try done.
  - intros id' t1. destruct (decide (id = id')) as [<-|]; simplify_map_eq; [by intros [= <-]|eauto].
  - intros id1 id2 t1 t2 key.
    destruct (decide (id = id1)) as [<-|], (decide (id = id2)) as [<-|]; simplify_map_eq; eauto.
    + intros [= <-] ? ? ?. eapply Hu; eauto.
    + intros ? [= <-] ? ?. eapply Hu; eauto.
  - intros id' t1. destruct (decide (id = id')) as [<-|]; simplify_map_eq; eauto.
Qed.

(** A [go] statement starts a goroutine whose election and peer are new. *)
Lemma Inv_go n k H S c t :
  Inv n k H S c → task_ok n k H S (elections c) t →
  (∀ id t' key, tasks c !! id = Some t' → vote_key t = Some key → vote_key t' ≠ Some key) →
  Inv n k H S (go t c).
Proof.
  intros [? ? ? ? ? Ht Hu Hf] Hok Hnew. split; simpl; try done.
  - intros id t1. destruct (decide (next_task c = id)) as [<-|]; simplify_map_eq; [by intros [= <-]|eauto].
  - intros id1 id2 t1 t2 key.
    destruct (decide (next_task c = id1)) as [<-|], (decide (next_task c = id2)) as [<-|];
      simplify_map_eq; eauto.
    + intros [= <-] H2 K1 K2. by destruct (Hnew _ _ _ H2 K1).
    + intros H1 [= <-] K1 K2. by destruct (Hnew _ _ _ H1 K2).
  - intros id t1. destruct (decide (next_task c = id)) as [<-|]; simplify_map_eq; [lia|].
    intros Hid. apply Hf in Hid. lia.
Qed.

Lemma elections_go_all ts c : elections (go_all ts c) = elections c.
Proof. revert c. induction ts as [|t ts IH]; intros c; [done|]. exact (IH (go t c)). Qed.

(** The goroutines of one broadcast carry no vote. *)
Lemma Inv_go_heartbeats n k H S c i l :
  Inv n k H S c → Inv n k H S (go_all (HbSpawned i <$> l) c).
Proof.
  revert c. induction l as [|j l IH]; intros c HI; [done|]. simpl.
  apply IH, Inv_go; done.
Qed.

(** The goroutines of one election, one per peer. *)
Lemma Inv_go_votes n k H S c e l :
  Inv n k H S c → NoDup l → (e < length (elections c))%nat →
  (∀ s, s ∈ l → (s < n)%nat ∧ (s ∉ S e) ∧
     (∀ id t, tasks c !! id = Some t → vote_key t ≠ Some (e, s))) →
  Inv n k H S (go_all (VoteSent e <$> l) c).
Proof.
  revert c. induction l as [|j l IH]; intros c HI Hnd He Hl; [done|]. simpl.
  apply NoDup_cons in Hnd as [Hj Hnd].
  destruct (Hl j) as (Hjn & HjS & Hjt); [by left|].
  apply IH; try done.
  - apply Inv_go; [done|by split_and!|]. intros id t' key Ht' [= <-]. by eapply Hjt.
  - intros s Hs. destruct (Hl s) as (? & ? & Hst); [by right|]. split_and!; [done..|].
    intros id t. simpl. destruct (decide (next_task c = id)) as [<-|]; simplify_map_eq.
    + intros [= <-] [= <-]. done.
    + apply Hst.
Qed.

(** A new election enters with the owner's own vote. *)
Lemma Inv_add_election n k H S c el :
  Inv n k H S c → election_ok n k H (λ _, {[el_owner el]}) (length (elections c)) el →
  Inv n k H (λ e, if decide (e = length (elections c)) then {[el_owner el]} else S e)
    (add_election el c).
Proof.
  intros [? ? ? Hl He Ht ? ?] Hel.
  assert (∀ e el', elections c !! e = Some el' → e ≠ length (elections c)) as Hne.
  { intros e el' ?%lookup_lt_Some. lia. }
  split; simpl; try done.
  - intros i x Hx Hlead. destruct (Hl i x Hx Hlead) as (e & el' & Hel' & ? & ? & ?).
    exists e, el'. split_and!; try done.
    + by apply lookup_app_l_Some.
    + by rewrite decide_False by eauto.
  - intros e el' [Hel'|[Hge Hel']]%lookup_app_Some.
    + unfold election_ok. rewrite decide_False by eauto. by apply He.
    + apply list_lookup_singleton_Some in Hel' as [Heq ->].
      unfold election_ok. rewrite decide_True by lia. apply Hel.
  - intros id t Hid. pose proof (Ht _ _ Hid) as Hok.
    eapply task_ok_mono with (els' := elections c ++ [el]) in Hok;
      [|reflexivity|reflexivity|apply els_le_app].
    pose proof (Ht _ _ Hid) as Hlen.
    destruct t as [e s|e s r| | |]; try done; simpl in *;
      rewrite decide_False by lia; done.
Qed.

(** A granted vote that has not been counted yet is counted. *)
Lemma Inv_add_vote n k H S c e el s :
  Inv n k H S c → elections c !! e = Some el → (s < n)%nat → s ∉ S e →
  H !! (s, rv_Term (el_args el)) = Some (Z.of_nat (el_owner el)) →
  (∀ id t, tasks c !! id = Some t → vote_key t ≠ Some (e, s)) →
  Inv n k H (λ e', if decide (e' = e) then {[s]} ∪ S e else S e')
    (set_election e (mkElection (el_owner el) (el_args el) (el_votes el + 1)) c).
Proof.
  intros [? ? ? Hl He Ht Hu ?] Hel Hs HsS Hvote Hkey.
  assert (∀ e', S e' ⊆ (if decide (e' = e) then {[s]} ∪ S e else S e')) as Hsub.
  { intros e'. case_decide; [subst; apply union_subseteq_r|done]. }
  assert (e < length (elections c))%nat by (by eapply lookup_lt_Some).
  split; simpl; try done.
  - intros i x Hx Hlead. destruct (Hl i x Hx Hlead) as (e' & el' & Hel' & Ho & Htm & Hsz).
    destruct (decide (e' = e)) as [->|Hne].
    + simplify_eq. exists e, (mkElection (el_owner el) (el_args el) (el_votes el + 1)).
      rewrite list_lookup_insert_eq by done.
      pose proof (subseteq_size _ _ (Hsub e)) as Hle.
      rewrite decide_True in Hle |- * by done. split_and!; try done. lia.
    + exists e', el'. rewrite list_lookup_insert_ne by done.
      rewrite decide_False by done. by split_and!.
  - intros e' el'. destruct (decide (e = e')) as [<-|Hne].
    + rewrite list_lookup_insert_eq by done. intros [= <-].
      destruct (He _ _ Hel) as (? & ? & ? & Hsz & Ho & Hall).
      unfold election_ok; simpl. rewrite decide_True by done. split_and!; try done; try lia.
      * rewrite size_union by set_solver. rewrite size_singleton. lia.
      * set_solver.
      * intros j [->%elem_of_singleton|Hj]%elem_of_union; [done|by apply Hall].
    + rewrite list_lookup_insert_ne by done. intros Hel'.
      unfold election_ok. rewrite decide_False by done. by apply He.
  - intros id t Hid. pose proof (Hkey _ _ Hid) as Hk.
    pose proof (task_ok_mono n k k H H S (elections c)
      (<[e := mkElection (el_owner el) (el_args el) (el_votes el + 1)]> (elections c)) t
      (Z.le_refl _) (reflexivity _) (els_le_insert _ _ _ _ Hel) (Ht _ _ Hid)) as Hok.
    destruct t as [e' s'|e' s' r| | |]; try done; simpl in *;
      (destruct (decide (e' = e)) as [->|]; [|done]);
      destruct Hok as (? & ? & ?); split_and!; try done; set_solver.
Qed.

(** ** Sets of peers *)
Lemma peers_size n (X : gset nat) : (∀ j, j ∈ X → (j < n)%nat) → (size X <= n)%nat.
Proof.
  intros HX. transitivity (size (list_to_set (seq 0 n) : gset nat)).
  2:{ rewrite size_list_to_set, length_seq by apply NoDup_seq. done. }
  apply subseteq_size. intros j Hj. apply elem_of_list_to_set, elem_of_seq.
  specialize (HX j Hj). lia.
Qed.

(** Two majorities of the same peers have a peer in common. *)
Lemma quorum_intersection n (X Y : gset nat) :
  (∀ j, j ∈ X → (j < n)%nat) → (∀ j, j ∈ Y → (j < n)%nat) →
  (n < 2 * size X)%nat → (n < 2 * size Y)%nat → ∃ j, j ∈ X ∧ j ∈ Y.
Proof.
  intros HX HY Hx Hy. destruct (decide (X ∩ Y = ∅)) as [Hd|Hd].
  - assert (size (X ∪ Y) <= n)%nat as Hle by (apply peers_size; set_solver).
    rewrite size_union in Hle by set_solver. lia.
  - apply set_choose_L in Hd as [j ?]. set_solver.
Qed.

(** ** Each locked section keeps a peer right *)

(** Closes a lookup in a map with one insertion. *)
Ltac look := intros; first [by rewrite lookup_insert_eq | by rewrite lookup_insert_ne by congruence].

Lemma RequestVote_inst_ok n k H i rf args now rf' reply :
  RequestVote now rf args empty_vote_reply = (rf', reply) →
  inst_ok n k H i rf → rv_Term args <= k → 0 <= rv_Term args → rv_CandidateID args ≠ -1 →
  ∃ H', H ⊆ H' ∧ (∀ j t, j ≠ i → H' !! (j, t) = H !! (j, t)) ∧ inst_ok n k H' i rf' ∧
    (state rf' = Leader → state rf = Leader ∧ currentTerm rf' = currentTerm rf) ∧
    rvr_Term reply <= rv_Term args ∧
    (rvr_VoteGranted reply = true → H' !! (i, rv_Term args) = Some (rv_CandidateID args)).
Proof.
  intros Hrv (Hn & Hme & Hterm & Hvoted & Hhist) Hk H0 Hc.
  assert (∀ t, votedFor rf = -1 ∨ currentTerm rf < t → currentTerm rf <= t → H !! (i, t) = None) as Hnone.
  { intros t Hcase Hle. destruct (H !! (i, t)) as [v|] eqn:E; [|done].
    destruct (Hhist _ _ E) as [Htle Heq]. destruct Hcase; [|lia].
    destruct Heq; [lia|congruence]. }
  apply RequestVote_cases in Hrv. destruct Hrv as [Ht|Ht ??|Ht Hv|Ht].
  - exists H. split_and!; done.
  - exists H. split_and!; done.
  - exists (<[(i, rv_Term args) := rv_CandidateID args]> H). simpl.
    assert (H ⊆ <[(i, rv_Term args) := rv_CandidateID args]> H) as Hsub.
    { destruct Hv as [Hv|Hv]; [apply insert_subseteq, Hnone; [by left|lia]|].
      rewrite insert_id; [done|]. rewrite Ht, <- Hv. apply Hvoted. by rewrite Hv. }
    split_and!; simpl; try done; try lia; try look.
    unfold inst_ok; simpl; split_and!; try done; try lia; rewrite Ht; try look.
    + intros t v. rewrite lookup_insert. case_decide as Hd.
      * injection Hd as <-. intros [= <-]. done.
      * intros E. destruct (Hhist _ _ E) as [? Heq]. split; [done|].
        intros ->. by destruct Hd.
  - exists (<[(i, rv_Term args) := rv_CandidateID args]> H). simpl.
    split_and!; simpl; try done; try lia; try look.
    + apply insert_subseteq, Hnone; [by right|lia].
    + unfold inst_ok; simpl; split_and!; try done; try lia; try look. intros t v. rewrite lookup_insert. case_decide as Hd.
      * injection Hd as <-. intros [= <-]. done.
      * intros E. destruct (Hhist _ _ E) as [? Heq]. split; [lia|]. intros ->. by destruct Hd.
Qed.

Lemma step_down_inst_ok n k H i rf t :
  inst_ok n k H i rf → currentTerm rf < t <= k → inst_ok n k H i (step_down t rf).
Proof.
  intros (? & ? & ? & _ & Hh) Ht. split_and!; simpl; try done; try lia.
  intros u v E. destruct (Hh _ _ E). split; lia.
Qed.

Lemma start_election_inst_ok n k H i now r rf rf' args :
  start_election now r rf = (rf', Some args) → inst_ok n k H i rf → k < max_int64 →
  args = mkRequestVoteArgs (currentTerm rf') (Z.of_nat i) 0 0 ∧ state rf' = Candidate ∧
  npeers rf' = n ∧ 0 <= currentTerm rf' <= k + 1 ∧
  H !! (i, currentTerm rf') = None ∧
  inst_ok n (k + 1) (<[(i, currentTerm rf') := Z.of_nat i]> H) i rf'.
Proof.
  unfold start_election, max_int64. intros Hse (Hn & Hme & Hterm & _ & Hhist) Hk.
  case_match eqn:Hg; [|done]. clear Hg. injection Hse as <- <-. simpl.
  rewrite int64_id by lia. rewrite Hme.
  assert (H !! (i, currentTerm rf + 1) = None) as Hnone.
  { destruct (H !! (i, currentTerm rf + 1)) as [v|] eqn:E; [|done].
    destruct (Hhist _ _ E). lia. }
  split_and!; try done; try lia.
  unfold inst_ok; simpl. split_and!; try done; try lia; [look|].
  intros t v. rewrite lookup_insert. case_decide as Hd.
  - injection Hd as <-. intros [= <-]. split; [done|]. intros _. split; [done|lia].
  - intros E. destruct (Hhist _ _ E). split; lia.
Qed.

Lemma start_election_None now r rf rf' :
  start_election now r rf = (rf', None) → rf' = rf.
Proof. unfold start_election. case_match; [done|]. by intros [= <-]. Qed.

(** ** Each action keeps the invariant *)
Lemma elect_inv n k H S c i x now r rf args p :
  Inv n k H S c → k < max_int64 → insts c !! i = Some x →
  start_election now r (raft x) = (rf, Some args) →
  ∃ H' S', Inv n (k + 1) H' S'
    (go_all (VoteSent (length (elections c)) <$> other_peers rf)
      (add_election (mkElection i args 1) (set_inst i (mkInst rf p) c))).
Proof.
  intros HI Hk Hx Hse.
  assert (i < n)%nat as Hi by (rewrite <- (inv_length _ _ _ _ _ HI); by eapply lookup_lt_Some).
  destruct (start_election_inst_ok _ _ _ _ _ _ _ _ _ Hse (inv_inst _ _ _ _ _ HI _ _ Hx) Hk)
    as (-> & Hst & Hn & Hterm & Hnone & Hok).
  set (t := currentTerm rf) in *. set (H' := <[(i, t) := Z.of_nat i]> H) in *.
  set (c1 := set_inst i (mkInst rf p) c).
  assert (Inv n (k + 1) H' S c1) as HI1.
  { eapply Inv_set_inst; [by eapply Inv_mono; [|exact HI]; lia|done|..]; simpl.
    - by apply insert_subseteq.
    - unfold H'. look.
    - done.
    - unfold leader_ok. by rewrite Hst. }
  exists H', (λ e, if decide (e = length (elections c)) then {[i]} else S e).
  apply Inv_go_votes.
  - apply (Inv_add_election _ _ _ _ _ (mkElection i (mkRequestVoteArgs t (Z.of_nat i) 0 0) 1) HI1).
    unfold election_ok; cbn [el_owner el_args el_votes rv_Term rv_CandidateID].
    rewrite size_singleton. split_and!; try done; try lia; [set_solver|].
    intros j ->%elem_of_singleton. split; [done|]. apply lookup_insert_eq.
  - apply other_peers_NoDup.
  - simpl. rewrite length_app. simpl. lia.
  - intros s [Hs Hne]%other_peers_spec. rewrite Hn in Hs.
    assert (me rf = Z.of_nat i) as Hme by (by destruct Hok as (_ & ? & _)).
    rewrite decide_True by done. split_and!; [done|set_solver by lia|].
    intros id t' Ht' Hkey. simpl in Ht'.
    pose proof (inv_task _ _ _ _ _ HI _ _ Ht') as Htok.
    destruct t'; simpl in *; simplify_eq; lia.
Qed.

Lemma tick_inv n k H S c i now r c' :
  Inv n k H S c → k < max_int64 → tick i now r c = Some c' →
  ∃ H' S', Inv n (k + 1) H' S' c'.
Proof.
  intros HI Hk Hs. unfold tick in Hs.
  destruct (insts c !! i) as [x|] eqn:Hx; [|done]. simpl in Hs.
  pose proof (λ p, Inv_set_pc _ _ _ _ _ _ _ p HI Hx) as Hpc.
  destruct (pc x) as [|s|]; [|destruct s|done].
  2, 3: (destruct (start_election now r (raft x)) as [rf [args|]] eqn:Hse; simplify_eq;
    [by eapply elect_inv|
     apply start_election_None in Hse as ->;
     exists H, S; eapply Inv_mono; [|apply Hpc]; lia]).
  - simplify_eq. exists H, S. eapply Inv_mono; [|apply Hpc]. lia.
  - simplify_eq. exists H, S. eapply Inv_mono; [|apply Inv_go_heartbeats, Hpc]. lia.
Qed.

Lemma AppendEntries_heartbeat now rf args :
  ae_Entries args = [] →
  AppendEntries now rf args empty_append_reply =
    if 0 <? currentTerm rf
    then Done (rf, mkAppendEntriesReply (currentTerm rf) false)
    else Panic "index out of range".
Proof.
  intros He. unfold AppendEntries, append_rejected, entry_term; simpl. rewrite He.
  destruct (0 <? currentTerm rf); [done|]. unfold slice_get. by destruct (0 <=? _).
Qed.

Lemma current_serving n k H S c s j :
  Inv n k H S c → current c !! s = Some j → j = s ∧ (s < n)%nat.
Proof. intros HI. rewrite (inv_current _ _ _ _ _ HI). intros [? ?]%lookup_seq. lia. Qed.

Lemma handle_inv n k H S c id now c' :
  Inv n k H S c → handle id now c = Some (Done c') → ∃ H' S', Inv n k H' S' c'.
Proof.
  intros HI Hs. unfold handle in Hs.
  destruct (tasks c !! id) as [t|] eqn:Ht; [|done]. simpl in Hs.
  pose proof (inv_task _ _ _ _ _ HI _ _ Ht) as Hok.
  destruct t as [e s| | |o s args|]; try done.
  - destruct (elections c !! e) as [el|] eqn:Hel; [|done]. simpl in Hs.
    destruct (current c !! s) as [j|] eqn:Hj; [|done]. simpl in Hs.
    destruct (current_serving _ _ _ _ _ _ _ HI Hj) as [-> Hsn].
    destruct (insts c !! s) as [x|] eqn:Hx; [|done]. simpl in Hs.
    destruct (RequestVote _ _ _ _) as [rf reply] eqn:Hrv. injection Hs as <-.
    destruct (inv_election _ _ _ _ _ HI _ _ Hel) as (Ho & Hcand & Hterm & _).
    destruct (RequestVote_inst_ok n k H s _ _ _ _ _ Hrv (inv_inst _ _ _ _ _ HI _ _ Hx))
      as (H' & Hsub & Hother & Hiok & Hlead & Hrep & Hgrant); [lia..|].
    exists H', S. destruct Hok as (? & ? & ?).
    eapply (Inv_set_task _ _ _ _ _ _ (VoteSent e s)); [|exact Ht|done|].
    + eapply Inv_set_inst; eauto; simpl. intros Hl. destruct (Hlead Hl) as [Hl' ->].
      by eapply inv_leader.
    + simpl. split_and!; try done. intros el' Hel'. simplify_eq. by rewrite <- Hcand.
  - destruct (current c !! s) as [j|] eqn:Hj; [|done]. simpl in Hs.
    destruct (insts c !! j) as [x|] eqn:Hx; [|done]. simpl in Hs.
    destruct Hok as [He _]. rewrite AppendEntries_heartbeat in Hs by done.
    destruct (Z.ltb_spec 0 (currentTerm (raft x))); [|done]. injection Hs as <-.
    exists H, S. eapply (Inv_set_task _ _ _ _ _ _ (HbSent o s args)); [|exact Ht|done|].
    + by eapply Inv_set_pc.
    + simpl. destruct (inv_inst _ _ _ _ _ HI _ _ Hx) as (_ & _ & ? & _). lia.
Qed.

(** What the handling of a vote reply does when the reply carries no higher
    term, which is the case in every run. *)
Lemma vote_reply_cases args reply rf votes rf' votes' :
  vote_reply args reply rf votes = (rf', votes') →
  rvr_Term reply <= rv_Term args → - 2 ^ 63 <= votes < max_int64 →
  (rf' = rf ∧ votes' = votes) ∨
  (currentTerm rf = rv_Term args ∧ rvr_VoteGranted reply = true ∧ votes' = votes + 1 ∧
   (rf' = rf ∨ rf' = set_state Leader rf ∧ Z.of_nat (npeers rf) < 2 * votes')).
Proof.
  intros Hv Ht Hb. unfold max_int64 in Hb. unfold vote_reply in Hv.
  destruct (Z.eqb_spec (currentTerm rf) (rv_Term args)) as [He|]; simpl in Hv; [|left; by simplify_eq].
  destruct (Z.ltb_spec (currentTerm rf) (rvr_Term reply)); [lia|].
  destruct (rvr_VoteGranted reply); [|left; by simplify_eq].
  rewrite int64_id in Hv by lia. right.
  destruct (bool_decide _ && _) eqn:Hg; injection Hv as <- <-; split_and!; auto.
  right. split; [done|]. apply andb_true_iff in Hg as [_ Hg%Z.ltb_lt].
  rewrite Z.quot_div_nonneg in Hg by lia.
  pose proof (Z.div_mod (Z.of_nat (npeers rf)) 2).
  pose proof (Z.mod_pos_bound (Z.of_nat (npeers rf)) 2). lia.
Qed.

(** The goroutine that received a reply is the last with its election and peer. *)
Lemma vote_key_gone ts id t key :
  unique_votes ts → ts !! id = Some t → vote_key t = Some key →
  ∀ id' t', delete id ts !! id' = Some t' → vote_key t' ≠ Some key.
Proof.
  intros Hu Hid Hkey id' t' [Hne Ht']%lookup_delete_Some Hkey'. by destruct (Hne (Hu _ _ _ _ _ Hid Ht' Hkey Hkey')).
Qed.

Lemma election_votes n k H S e el :
  election_ok n k H S e el → (size (S e) <= n)%nat.
Proof. intros (_ & _ & _ & _ & _ & Hall). apply peers_size. intros j ?. by apply Hall. Qed.

Lemma return_inv n k H S c id c' :
  Inv n k H S c → Z.of_nat n < max_int64 → return_reply id c = Some c' →
  ∃ H' S', Inv n k H' S' c'.
Proof.
  intros HI Hn Hs. unfold return_reply in Hs.
  destruct (tasks c !! id) as [t|] eqn:Ht; [|done]. simpl in Hs.
  pose proof (inv_task _ _ _ _ _ HI _ _ Ht) as Hok.
  destruct t as [|e s reply| | |o s reply]; try done.
  2:{ destruct (insts c !! o) as [x|] eqn:Hx; [|done]. simpl in Hs. injection Hs as <-.
      exists H, S. apply Inv_del_task. pose proof (inv_inst _ _ _ _ _ HI _ _ Hx) as Hiok.
      unfold heartbeat_reply. destruct (Z.ltb_spec (currentTerm (raft x)) (aer_Term reply)).
      - eapply Inv_set_inst; [exact HI|exact Hx|done|done| |]; simpl; [|by intros ?].
        apply step_down_inst_ok; [done|]. simpl in Hok. lia.
      - by apply Inv_set_pc. }
  destruct (elections c !! e) as [el|] eqn:Hel; [|done]. simpl in Hs.
  destruct (insts c !! el_owner el) as [x|] eqn:Hx; [|done]. simpl in Hs.
  destruct (vote_reply _ _ _ _) as [rf votes] eqn:Hv. injection Hs as <-.
  destruct Hok as (Hsn & HsS & _ & Hrep). destruct (Hrep _ Hel) as [Hterm Hgrant].
  pose proof (inv_election _ _ _ _ _ HI _ _ Hel) as Helok.
  pose proof (election_votes _ _ _ _ _ _ Helok) as Hle.
  pose proof Helok as (_ & _ & _ & Hsz & _).
  pose proof (Inv_del_task _ _ _ _ _ id HI) as HId.
  apply vote_reply_cases in Hv; [|lia|unfold max_int64 in *; lia].
  destruct Hv as [[-> ->]|(Hcur & Hg & -> & Hrf)].
  - exists H, S. destruct el as [o args v]. simpl in *.
    assert (set_election e (mkElection o args v) (set_inst o (mkInst (raft x) (pc x)) c)
      = set_inst o (mkInst (raft x) (pc x)) c) as ->.
    { unfold set_election; simpl. by rewrite (list_insert_id (elections c) e). }
    apply Inv_del_task. by apply Inv_set_pc.
  - pose proof (Inv_add_vote _ _ _ _ _ e el s HId Hel Hsn HsS (Hgrant Hg)
      (vote_key_gone _ _ _ _ (inv_unique _ _ _ _ _ HI) Ht eq_refl)) as HI2.
    eexists H, _. eapply (Inv_set_inst _ _ _ _ _ _ (el_owner el) x _ HI2 Hx); simpl; try done.
    + destruct Hrf as [->|[-> _]]; by eapply inv_inst.
    + destruct Hrf as [->|[-> Hmaj]]; [exact (inv_leader _ _ _ _ _ HI2 _ _ Hx)|]. intros _.
      exists e, (mkElection (el_owner el) (el_args el) (el_votes el + 1)). simpl.
      rewrite list_lookup_insert_eq by (by eapply lookup_lt_Some).
      split_and!; try done. rewrite decide_True by done.
      destruct (inv_inst _ _ _ _ _ HI _ _ Hx) as (Hnp & _).
      rewrite size_union by set_solver. rewrite size_singleton. lia.
Qed.

Lemma lose_inv n k H S c id c' : Inv n k H S c → lose id c = Some c' → Inv n k H S c'.
Proof.
  intros HI Hs. unfold lose in Hs. destruct (tasks c !! id) as [t|]; [|done]. simpl in Hs.
  destruct t; simplify_eq; by apply Inv_del_task.
Qed.

Lemma run_heartbeat_inv n k H S c id c' :
  Inv n k H S c → run_heartbeat id c = Some c' → Inv n k H S c'.
Proof.
  intros HI Hs. unfold run_heartbeat in Hs. destruct (tasks c !! id) as [t|] eqn:Ht; [|done]. simpl in Hs.
  destruct t as [| |o s| |]; try done. destruct (insts c !! o) as [x|]; [|done]. simpl in Hs.
  injection Hs as <-. unfold heartbeat_args. case_bool_decide; [|by apply Inv_del_task].
  by eapply Inv_set_task.
Qed.

Lemma kill_inv n k H S c i c' : Inv n k H S c → kill i c = Some c' → Inv n k H S c'.
Proof.
  intros HI Hs. unfold kill in Hs. destruct (insts c !! i) as [x|] eqn:Hx; [|done]. injection Hs as <-.
  eapply Inv_set_inst; [exact HI|exact Hx|done|done| |].
  - exact (inv_inst _ _ _ _ _ HI i x Hx).
  - exact (inv_leader _ _ _ _ _ HI i x Hx).
Qed.

(** Every action but a restart keeps the invariant, with one more term. *)
Lemma exec_inv n k H S c a c' :
  Inv n k H S c → k < max_int64 → Z.of_nat n < max_int64 →
  (∀ s, a ≠ ARestart s) → exec c a = Some (Done c') →
  ∃ H' S', Inv n (k + 1) H' S' c'.
Proof.
  intros HI Hk Hn Ha Hs. unfold exec in Hs.
  assert (∀ H' S', Inv n k H' S' c' → ∃ H' S', Inv n (k + 1) H' S' c') as Hup.
  { intros H' S' ?. exists H', S'. eapply Inv_mono; [|done]. lia. }
  destruct a as [i now r|id now|id|id|id|i|s].
  - destruct (0 <=? r); [|done]. apply fmap_Some in Hs as (? & ? & ?). simplify_eq. by eapply tick_inv.
  - apply handle_inv with (n := n) (k := k) (H := H) (S := S) in Hs as (? & ? & ?); eauto.
  - apply fmap_Some in Hs as (? & Hs & ?). simplify_eq.
    apply return_inv with (n := n) (k := k) (H := H) (S := S) in Hs as (? & ? & ?); eauto.
  - apply fmap_Some in Hs as (? & Hs & ?). simplify_eq. eapply Hup, lose_inv; eauto.
  - apply fmap_Some in Hs as (? & Hs & ?). simplify_eq. eapply Hup, run_heartbeat_inv; eauto.
  - apply fmap_Some in Hs as (? & Hs & ?). simplify_eq. eapply Hup, kill_inv; eauto.
  - by destruct (Ha s).
Qed.

Lemma init_inv n : Inv n 0 ∅ (λ _, ∅) (init n).
Proof.
  assert (∀ i x, insts (init n) !! i = Some x → raft x = Make n (Z.of_nat i) []) as Hx.
  { intros i x. simpl. rewrite list_lookup_fmap. intros (j & [-> ?]%lookup_seq & ->)%fmap_Some. done. }
  split; try done.
  - simpl. by rewrite length_fmap, length_seq.
  - intros i x Hi. rewrite (Hx _ _ Hi). by split_and!.
  - intros i x Hi. rewrite (Hx _ _ Hi). done.
Qed.

Lemma run_inv_from n k H S c tr c' :
  Inv n k H S c → Z.of_nat n < max_int64 → k + Z.of_nat (length tr) <= max_int64 →
  no_restart tr → run c tr = Some (Done c') →
  ∃ H' S', Inv n (k + Z.of_nat (length tr)) H' S' c'.
Proof.
  revert k H S c. induction tr as [|a tr IH]; simpl; intros k H S c HI Hn Hk Hnr Hrun.
  - simplify_eq. exists H, S. by rewrite Z.add_0_r.
  - apply Forall_cons in Hnr as [Ha Hnr].
    destruct (exec c a) as [[c1| | |]|] eqn:He; try done.
    apply exec_inv with (n := n) (k := k) (H := H) (S := S) in He as (H1 & S1 & HI1);
      [|done|lia|done|by intros s ->].
    destruct (IH _ _ _ _ HI1 Hn ltac:(lia) Hnr Hrun) as (H' & S' & HI').
    exists H', S'. eapply Inv_mono; [|exact HI']. lia.
Qed.

(** A run is short enough for no term to overflow. *)
Definition short (n : nat) (tr : list action) : Prop :=
  Z.of_nat n < max_int64 ∧ Z.of_nat (length tr) <= max_int64.

Lemma run_inv n tr c :
  short n tr → no_restart tr → run (init n) tr = Some (Done c) →
  ∃ k H S, Inv n k H S c.
Proof.
  intros [Hn Hk] Hnr Hrun.
  destruct (run_inv_from n 0 _ _ _ tr c (init_inv n)) as (H & S & HI); eauto.
Qed.

Lemma leaders_agree n k H S c i j t :
  Inv n k H S c → is_leader c i t → is_leader c j t → i = j.
Proof.
  intros HI (x & Hx & Hl & Ht) (y & Hy & Hl' & Ht').
  destruct (inv_leader _ _ _ _ _ HI _ _ Hx Hl) as (e1 & el1 & He1 & <- & Hterm1 & Hmaj1).
  destruct (inv_leader _ _ _ _ _ HI _ _ Hy Hl') as (e2 & el2 & He2 & <- & Hterm2 & Hmaj2).
  destruct (inv_election _ _ _ _ _ HI _ _ He1) as (_ & _ & _ & _ & _ & Hv1).
  destruct (inv_election _ _ _ _ _ HI _ _ He2) as (_ & _ & _ & _ & _ & Hv2).
  destruct (quorum_intersection n (S e1) (S e2)) as (v & Hin1 & Hin2); try done.
  { intros v ?. by apply Hv1. }
  { intros v ?. by apply Hv2. }
  destruct (Hv1 _ Hin1) as [_ E1]. destruct (Hv2 _ Hin2) as [_ E2].
  rewrite Hterm1, Ht in E1. rewrite Hterm2, Ht' in E2. rewrite E1 in E2. injection E2. lia.
Qed.

(** Election safety: in every run without restarts, however the sections
    of the goroutines interleave and whatever requests and replies are delayed,
    reordered or lost, two leaders of the same term are the same peer. *)
Theorem election_safety n tr c i j t :
  short n tr → no_restart tr → run (init n) tr = Some (Done c) →
  is_leader c i t → is_leader c j t → i = j.
Proof.
  intros Hshort Hnr Hrun. destruct (run_inv n tr c Hshort Hnr Hrun) as (k & H & S & HI).
  by eapply leaders_agree.
Qed.

(** ** Leaders at different times *)

(** An election of peer [i] in term [t] has a majority. *)
Definition backed (n : nat) (c : Cluster) (i : nat) (t : Z) : Prop :=
  ∃ e el, elections c !! e = Some el ∧ el_owner el = i ∧ rv_Term (el_args el) = t ∧ Z.of_nat n < 2 * el_votes el.

Lemma leader_backed n k H S c i t : Inv n k H S c → is_leader c i t → backed n c i t.
Proof.
  intros HI (x & Hx & Hl & Ht). destruct (inv_leader _ _ _ _ _ HI _ _ Hx Hl) as (e & el & He & Ho & Hterm & Hmaj).
  destruct (inv_election _ _ _ _ _ HI _ _ He) as (_ & _ & _ & Hv & _).
  exists e, el. split_and!; [done|done|congruence|lia].
Qed.

Lemma backed_agree n k H S c i j t : Inv n k H S c → backed n c i t → backed n c j t → i = j.
Proof.
  intros HI (e1 & el1 & He1 & <- & Ht1 & Hm1) (e2 & el2 & He2 & <- & Ht2 & Hm2).
  destruct (inv_election _ _ _ _ _ HI _ _ He1) as (_ & _ & _ & Hz1 & _ & Hv1).
  destruct (inv_election _ _ _ _ _ HI _ _ He2) as (_ & _ & _ & Hz2 & _ & Hv2).
  destruct (quorum_intersection n (S e1) (S e2)) as (v & Hin1 & Hin2); [intros v ?; by apply Hv1|intros v ?; by apply Hv2|lia..|].
  destruct (Hv1 _ Hin1) as [_ E1]. destruct (Hv2 _ Hin2) as [_ E2].
  rewrite Ht1 in E1. rewrite Ht2, E1 in E2. injection E2. lia.
Qed.

(** No action takes votes away. *)
Lemma exec_backed n k H S c a c' i t :
  Inv n k H S c → Z.of_nat n < max_int64 → exec c a = Some (Done c') → backed n c i t → backed n c' i t.
Proof.
  intros HI Hn Hs (e & el & He & Ho & Ht & Hm).
  assert (elections c' = elections c → backed n c' i t) as Hsame by (intros E; exists e, el; by rewrite E).
  destruct a as [j now r|id now|id|id|id|j|s]; cbn [exec] in Hs.
  - destruct (0 <=? r); [|done]. apply fmap_Some in Hs as (c1 & Hs & [= ->]). unfold tick in Hs.
    destruct (insts c !! j) as [x|]; [|done]. cbn [mbind option_bind] in Hs.
    assert (elections c1 = elections c ∨ ∃ el', elections c1 = elections c ++ [el']) as [E|[el' E]].
    { destruct (pc x) as [|[]|]; [by injection Hs as <-; left| | | |done]; try (injection Hs as <-; left; by rewrite elections_go_all);
        (destruct (start_election now r (raft x)) as [rf [args|]]; injection Hs as <-; [right|by left]); rewrite elections_go_all; by eexists. }
    + by apply Hsame.
    + exists e, el. rewrite E. split; [by apply lookup_app_l_Some|done].
  - apply Hsame. unfold handle in Hs. destruct (tasks c !! id) as [[]|]; try done; cbn [mbind option_bind] in Hs.
    + destruct (elections c !! eid), (current c !! server) as [p|]; try done; cbn [mbind option_bind] in Hs.
      destruct (insts c !! p); [|done]. cbn [mbind option_bind] in Hs. destruct (RequestVote _ _ _ _). by injection Hs as <-.
    + destruct (current c !! server) as [p|]; [|done]. cbn [mbind option_bind] in Hs.
      destruct (insts c !! p); [|done]. cbn [mbind option_bind] in Hs. destruct (AppendEntries _ _ _ _) as [[]| | |]; try done. by injection Hs as <-.
  - apply fmap_Some in Hs as (c1 & Hs & [= ->]). unfold return_reply in Hs.
    destruct (tasks c !! id) as [tk|] eqn:Htk; [|done]. cbn [mbind option_bind] in Hs. destruct tk as [|e' s reply| | |o s reply]; try done.
    2:{ destruct (insts c !! o); [|done]. injection Hs as <-. by apply Hsame. }
    destruct (elections c !! e') as [el'|] eqn:He'; [|done]. cbn [mbind option_bind] in Hs.
    destruct (insts c !! el_owner el') as [x|]; [|done]. cbn [mbind option_bind] in Hs.
    destruct (vote_reply _ _ _ _) as [rf votes] eqn:Hv. injection Hs as <-.
    destruct (inv_task _ _ _ _ _ HI _ _ Htk) as (_ & _ & _ & Hrep). destruct (Hrep _ He') as [Hterm _].
    pose proof (inv_election _ _ _ _ _ HI _ _ He') as Hok. pose proof (election_votes _ _ _ _ _ _ Hok). destruct Hok as (_ & _ & _ & Hsz & _).
    apply vote_reply_cases in Hv; [|lia|unfold max_int64 in *; lia].
    assert (el_votes el' <= votes) as Hle by (destruct Hv as [[_ ->]|(_ & _ & -> & _)]; lia).
    destruct (decide (e' = e)) as [->|Hne].
    + rewrite He in He'. injection He' as <-. exists e, (mkElection (el_owner el) (el_args el) votes). simpl.
      rewrite list_lookup_insert_eq by (by eapply lookup_lt_Some). split_and!; [done|done|done|lia].
    + exists e, el. simpl. by rewrite list_lookup_insert_ne.
  - apply fmap_Some in Hs as (c1 & Hs & [= ->]). apply Hsame. unfold lose in Hs. destruct (tasks c !! id) as [[]|]; try done; by injection Hs as <-.
  - apply fmap_Some in Hs as (c1 & Hs & [= ->]). apply Hsame. unfold run_heartbeat in Hs. destruct (tasks c !! id) as [[]|]; try done.
    cbn [mbind option_bind] in Hs. destruct (insts c !! owner); [|done]. injection Hs as <-. by destruct (heartbeat_args _).
  - apply fmap_Some in Hs as (c1 & Hs & [= ->]). apply Hsame. unfold kill in Hs. destruct (insts c !! j); [|done]. by injection Hs as <-.
  - apply fmap_Some in Hs as (c1 & Hs & [= ->]). apply Hsame. unfold restart in Hs. destruct (current c !! s) as [p|]; [|done].
    cbn [mbind option_bind] in Hs. destruct (insts c !! p); [|done]. cbn [mbind option_bind] in Hs. destruct (stored c !! s); [|done].
    by injection Hs as <-.
Qed.

Lemma run_backed n k H S c tr c' i t :
  Inv n k H S c → Z.of_nat n < max_int64 → k + Z.of_nat (length tr) <= max_int64 → no_restart tr →
  run c tr = Some (Done c') → backed n c i t → backed n c' i t.
Proof.
  revert k H S c. induction tr as [|a tr IH]; simpl; intros k H S c HI Hn Hk Hnr Hrun Hb; [by injection Hrun as <-|].
  apply Forall_cons in Hnr as [Ha Hnr]. destruct (exec c a) as [[c1| | |]|] eqn:He; try done.
  pose proof (exec_backed _ _ _ _ _ _ _ _ _ HI Hn He Hb) as Hb1.
  apply exec_inv with (n := n) (k := k) (H := H) (S := S) in He as (H1 & S1 & HI1); [|done|lia|done|by intros s ->].
  apply (IH _ _ _ _ HI1); [done|lia|done..].
Qed.

(** What was backed and a leader of the same term later are the same peer. *)
Lemma leaders_agree_later n k H S c tr c' i j t :
  Inv n k H S c → Z.of_nat n < max_int64 → k + Z.of_nat (length tr) <= max_int64 → no_restart tr →
  run c tr = Some (Done c') → is_leader c i t → is_leader c' j t → i = j.
Proof.
  intros HI Hn Hk Hnr Hrun Hi Hj. destruct (run_inv_from n k H S c tr c' HI Hn Hk Hnr Hrun) as (H' & S' & HI').
  apply (backed_agree n _ H' S' c' i j t HI'); [|by eapply leader_backed].
  eapply run_backed; [exact HI|done..|by eapply leader_backed].
Qed.

(** (C1) A term has at most one leader ever: in every run without restarts, a peer that leads a term at
    one time and a peer that leads it at a later time are the same. *)
Theorem one_leader_per_term n tr1 tr2 c1 c2 i j t :
  short n (tr1 ++ tr2) → no_restart (tr1 ++ tr2) → run (init n) tr1 = Some (Done c1) → run c1 tr2 = Some (Done c2) →
  is_leader c1 i t → is_leader c2 j t → i = j.
Proof.
  intros [Hn Hlen] [N1 N2]%Forall_app R1 R2 Hi Hj. rewrite length_app in Hlen.
  destruct (run_inv_from n 0 ∅ (λ _, ∅) (init n) tr1 c1 (init_inv n) Hn) as (H & S & HI); [lia|done|done|].
  apply (leaders_agree_later n _ H S c1 tr2 c2 i j t HI Hn); [lia|exact N2|exact R2|exact Hi|exact Hj].
Qed.

(** A leader is backed by a majority: some election of that peer in that
    term has counted more than half the peers, its own vote and one per peer
    asked. *)
Theorem leader_has_majority n tr c i t :
  short n tr → no_restart tr → run (init n) tr = Some (Done c) → is_leader c i t →
  ∃ e el, elections c !! e = Some el ∧ el_owner el = i ∧ rv_Term (el_args el) = t ∧
    Z.of_nat n < 2 * el_votes el ∧ el_votes el <= Z.of_nat n.
Proof.
  intros Hshort Hnr Hrun (x & Hx & Hl & Ht).
  destruct (run_inv n tr c Hshort Hnr Hrun) as (k & H & S & HI).
  destruct (inv_leader _ _ _ _ _ HI _ _ Hx Hl) as (e & el & He & Ho & Hterm & Hmaj).
  pose proof (inv_election _ _ _ _ _ HI _ _ He) as Hok.
  pose proof (election_votes _ _ _ _ _ _ Hok). destruct Hok as (_ & _ & _ & Hv & _).
  exists e, el. split_and!; try done; [congruence|lia..].
Qed.

(** The branch of the vote goroutine that steps down is dead: a reply never
    carries a term above that of its election, because a refusal says 0. *)
Theorem vote_reply_never_newer n tr c id e s reply el :
  short n tr → no_restart tr → run (init n) tr = Some (Done c) →
  tasks c !! id = Some (VoteReplied e s reply) → elections c !! e = Some el →
  rvr_Term reply <= rv_Term (el_args el).
Proof.
  intros Hshort Hnr Hrun Ht He. destruct (run_inv n tr c Hshort Hnr Hrun) as (k & H & S & HI).
  destruct (inv_task _ _ _ _ _ HI _ _ Ht) as (_ & _ & _ & Hr). by apply Hr.
Qed.

(** ** Heartbeats, in all runs

    With restarts too, a heartbeat in flight has the arguments its sender
    built, so what [heartbeat_never_accepted] says of one call holds of every
    delivery. *)
Definition heartbeats_empty (c : Cluster) : Prop :=
  ∀ id o s args, tasks c !! id = Some (HbSent o s args) → ae_Entries args = [].

Lemma tasks_go_all ts c id t :
  tasks (go_all ts c) !! id = Some t → tasks c !! id = Some t ∨ t ∈ ts.
Proof.
  revert c. induction ts as [|t' ts IH]; intros c Hid; [by left|].
  destruct (IH (go t' c) Hid) as [H|H]; [|right; by right]. simpl in H.
  destruct (decide (next_task c = id)) as [<-|]; simplify_map_eq; [right; by left|by left].
Qed.

Lemma set_task_heartbeats c id t :
  heartbeats_empty c → (∀ o s args, t = HbSent o s args → ae_Entries args = []) →
  heartbeats_empty (set_task id t c).
Proof.
  intros Hc Ht id' o s args Hid. simpl in Hid.
  destruct (decide (id = id')) as [<-|]; simplify_map_eq; [by eapply Ht|by eapply Hc].
Qed.

Lemma del_task_heartbeats c id : heartbeats_empty c → heartbeats_empty (del_task id c).
Proof.
  intros Hc id' o s args Hid. simpl in Hid. apply lookup_delete_Some in Hid as [_ Hid]. by eapply Hc.
Qed.

Lemma go_all_heartbeats c ts :
  heartbeats_empty c → (∀ t o s args, t ∈ ts → t ≠ HbSent o s args) →
  heartbeats_empty (go_all ts c).
Proof.
  intros Hc Ht id o s args [Hid|Hid]%tasks_go_all; [by eapply Hc|]. by destruct (Ht _ o s args Hid).
Qed.

Lemma tick_heartbeats i now r c c' :
  heartbeats_empty c → tick i now r c = Some c' → heartbeats_empty c'.
Proof.
  intros Hc Hs. unfold tick in Hs. destruct (insts c !! i) as [x|]; [|done]. simpl in Hs.
  destruct (pc x) as [|[]|]; simplify_eq; try exact Hc;
    try destruct (start_election _ _ _) as [rf [av|]]; simplify_eq; try exact Hc;
    (apply go_all_heartbeats; [exact Hc|]); by intros t o s args (? & -> & _)%list_elem_of_fmap.
Qed.

Lemma handle_heartbeats id now c c' :
  heartbeats_empty c → handle id now c = Some (Done c') → heartbeats_empty c'.
Proof.
  intros Hc Hs. unfold handle in Hs. destruct (tasks c !! id) as [[e s| | |o s args|]|]; try done; simpl in Hs.
  - destruct (elections c !! e) as [el|]; [|done]. simpl in Hs.
    destruct (current c !! s) as [j|]; [|done]. simpl in Hs.
    destruct (insts c !! j) as [x|]; [|done]. simpl in Hs.
    destruct (RequestVote _ _ _ _). injection Hs as <-. by apply set_task_heartbeats.
  - destruct (current c !! s) as [j|]; [|done]. simpl in Hs.
    destruct (insts c !! j) as [x|]; [|done]. simpl in Hs.
    destruct (AppendEntries _ _ _ _) as [[rf reply]| | |]; [|done..]. injection Hs as <-.
    by apply set_task_heartbeats.
Qed.

Lemma return_heartbeats id c c' :
  heartbeats_empty c → return_reply id c = Some c' → heartbeats_empty c'.
Proof.
  intros Hc Hs. unfold return_reply in Hs.
  destruct (tasks c !! id) as [[|e s reply| | |o s reply]|]; try done; simpl in Hs.
  - destruct (elections c !! e) as [el|]; [|done]. simpl in Hs.
    destruct (insts c !! el_owner el) as [x|]; [|done]. simpl in Hs.
    destruct (vote_reply _ _ _ _). injection Hs as <-. by apply del_task_heartbeats.
  - destruct (insts c !! o) as [x|]; [|done]. simpl in Hs. injection Hs as <-.
    by apply del_task_heartbeats.
Qed.

Lemma run_heartbeat_heartbeats id c c' :
  heartbeats_empty c → run_heartbeat id c = Some c' → heartbeats_empty c'.
Proof.
  intros Hc Hs. unfold run_heartbeat in Hs.
  destruct (tasks c !! id) as [[| |o s| |]|]; try done; simpl in Hs.
  destruct (insts c !! o) as [x|]; [|done]. simpl in Hs. injection Hs as <-.
  unfold heartbeat_args. case_bool_decide; [|by apply del_task_heartbeats].
  apply set_task_heartbeats; [done|]. by intros ? ? ? [= <- <- <-].
Qed.

Lemma exec_heartbeats_empty c a c' :
  heartbeats_empty c → exec c a = Some (Done c') → heartbeats_empty c'.
Proof.
  intros Hc Hs. destruct a as [i now r|id now|id|id|id|i|s]; simpl in Hs.
  - destruct (0 <=? r); [|done]. apply fmap_Some in Hs as (c1 & Hs & ?). simplify_eq.
    by eapply tick_heartbeats.
  - by eapply handle_heartbeats.
  - apply fmap_Some in Hs as (c1 & Hs & ?). simplify_eq. by eapply return_heartbeats.
  - apply fmap_Some in Hs as (c1 & Hs & ?). simplify_eq. unfold lose in Hs.
    destruct (tasks c !! id) as [[]|]; simplify_eq/=; by apply del_task_heartbeats.
  - apply fmap_Some in Hs as (c1 & Hs & ?). simplify_eq. by eapply run_heartbeat_heartbeats.
  - apply fmap_Some in Hs as (c1 & Hs & ?). simplify_eq. unfold kill in Hs.
    destruct (insts c !! i) as [x|]; [|done]. injection Hs as <-. exact Hc.
  - apply fmap_Some in Hs as (c1 & Hs & ?). simplify_eq. unfold restart in Hs.
    destruct (current c !! s) as [j|]; [|done]. simpl in Hs.
    destruct (insts c !! j) as [x|]; [|done]. simpl in Hs. destruct (stored c !! s); [|done]. simpl in Hs.
    injection Hs as <-. exact Hc.
Qed.

Lemma run_heartbeats_empty c tr c' :
  heartbeats_empty c → run c tr = Some (Done c') → heartbeats_empty c'.
Proof.
  revert c. induction tr as [|a tr IH]; simpl; intros c Hc Hrun; [by simplify_eq|].
  destruct (exec c a) as [[c1| | |]|] eqn:He; try done.
  eapply IH; [|exact Hrun]. by eapply exec_heartbeats_empty.
Qed.

(** (C33) In every run, restarts included, delivering a heartbeat changes no
    peer: an idle cluster with a live leader keeps holding elections, since no
    heartbeat ever restarts a follower's timer. *)
Theorem heartbeat_delivery_inert n tr c id now o s args c' :
  run (init n) tr = Some (Done c) →
  tasks c !! id = Some (HbSent o s args) →
  exec c (AHandle id now) = Some (Done c') →
  insts c' = insts c ∧ ∃ t, tasks c' !! id = Some (HbReplied o s (mkAppendEntriesReply t false)).
Proof.
  intros Hrun Hid Hs.
  assert (ae_Entries args = []) as He.
  { by eapply (run_heartbeats_empty (init n)). }
  simpl in Hs. unfold handle in Hs. rewrite Hid in Hs. simpl in Hs.
  destruct (current c !! s) as [j|]; [|done]. simpl in Hs.
  destruct (insts c !! j) as [x|] eqn:Hx; [|done]. simpl in Hs.
  rewrite AppendEntries_heartbeat in Hs by done.
  destruct (0 <? currentTerm (raft x)); [|done]. injection Hs as <-. simpl. split.
  - apply list_insert_id. rewrite Hx. by destruct x.
  - eexists. by rewrite lookup_insert_eq.
Qed.

(** ** Runs *)

(** Peer 0 of three times out, gets the vote of peer 1, becomes leader of term
    1 and starts its heartbeats; the request to peer 2 is still on its way. *)
Definition elect_0 : list action :=
  [ATick 0 0 0; ATick 0 0 0; AHandle 0 1; AReturn 0; ATick 0 2 0; ATick 0 2 0].

(** A heartbeat that overtakes the first request for a vote finds its
    receiver at term zero and panics, with no failure but that reordering. *)
Theorem heartbeat_crash_reachable :
  no_restart (elect_0 ++ [AHeartbeat 3; AHandle 3 3]) ∧
  run (init 3) (elect_0 ++ [AHeartbeat 3; AHandle 3 3]) = Some (Panic "index out of range").
Proof. split; [repeat constructor|vm_compute; reflexivity]. Qed.

(** ** Witnesses *)
Definition elected : Cluster :=
  default (init 3) (o ← run (init 3) elect_0; match o with Done c => Some c | _ => None end).

Lemma elect_0_run : run (init 3) elect_0 = Some (Done elected).
Proof. vm_compute. reflexivity. Qed.

Lemma elect_0_short : short 3 elect_0.
Proof. split; vm_compute; congruence. Qed.

Lemma elect_0_no_restart : no_restart elect_0.
Proof. repeat constructor. Qed.

Lemma elected_leader : is_leader elected 0 1.
Proof. eexists. split_and!; vm_compute; reflexivity. Qed.

Lemma election_safety_witness :
  is_leader elected 0 1 ∧ ∀ j, is_leader elected j 1 → j = 0%nat.
Proof.
  split; [exact elected_leader|]. intros j Hj.
  exact (election_safety 3 elect_0 elected j 0 1 elect_0_short elect_0_no_restart
           elect_0_run Hj elected_leader).
Defined.

Lemma one_leader_per_term_witness :
  ∃ c2, run elected [ATick 1 10 0; ALose 1] = Some (Done c2) ∧ ∀ j, is_leader c2 j 1 → j = 0%nat.
Proof.
  assert (∃ c2, run elected [ATick 1 10 0; ALose 1] = Some (Done c2)) as [c2 R] by (eexists; vm_compute; reflexivity).
  exists c2. split; [exact R|]. intros j Hj. symmetry.
  apply (one_leader_per_term 3 elect_0 [ATick 1 10 0; ALose 1] elected c2 0 j 1); [| |exact elect_0_run|exact R|exact elected_leader|exact Hj].
  - split; vm_compute; congruence.
  - repeat constructor.
Defined.

Lemma leader_has_majority_witness :
  ∃ e el, elections elected !! e = Some el ∧ el_owner el = 0%nat ∧
    rv_Term (el_args el) = 1 ∧ 3 < 2 * el_votes el ∧ el_votes el <= 3.
Proof.
  exact (leader_has_majority 3 elect_0 elected 0 1 elect_0_short elect_0_no_restart
           elect_0_run elected_leader).
Defined.

Definition replied : list action := [ATick 0 0 0; ATick 0 0 0; AHandle 0 1].

Lemma vote_reply_never_newer_witness :
  ∃ c el, run (init 3) replied = Some (Done c) ∧ elections c !! 0%nat = Some el ∧
    1 <= rv_Term (el_args el).
Proof.
  eexists _, _. split; [vm_compute; reflexivity|]. split; [reflexivity|].
  eapply (vote_reply_never_newer 3 replied _ 0 0 1 (mkRequestVoteReply 1 true)).
  - split; vm_compute; congruence.
  - repeat constructor.
  - vm_compute. reflexivity.
  - reflexivity.
  - reflexivity.
Defined.

Definition heartbeat_to_1 : list action := elect_0 ++ [AHeartbeat 2].

Lemma heartbeat_delivery_inert_witness :
  ∃ c c', run (init 3) heartbeat_to_1 = Some (Done c) ∧
    exec c (AHandle 2 9) = Some (Done c') ∧ insts c' = insts c.
Proof.
  eexists _, _. split; [vm_compute; reflexivity|]. split; [vm_compute; reflexivity|].
  eapply (heartbeat_delivery_inert 3 heartbeat_to_1 _ 2 9 0 1 (mkAppendEntriesArgs 1 0 0 0 [] 0)).
  - vm_compute. reflexivity.
  - reflexivity.
  - vm_compute. reflexivity.
Defined.
