(* ===== verification/RaftLiveness.v ===== *)
(** * RaftLiveness: elections succeed

    [RaftSafety] shows that elections are safe; here they are shown to succeed:
    from any state that is reached without restarts, a peer that times out can be
    elected by the votes of any majority whose terms are not above its own, in
    two actions per vote. A peer without others is never elected. *)

From S2P Require Import Prelude Raft RaftCluster RaftSafety.

Local Open Scope Z_scope.

(** ** What the goroutines of an election wait for *)
Lemma go_all_other ts : ∀ c, insts (go_all ts c) = insts c ∧ current (go_all ts c) = current c ∧
  elections (go_all ts c) = elections c.
Proof. induction ts as [|t ts IH]; intros c; [done|]. apply (IH (go t c)). Qed.

Lemma go_all_keeps ts : ∀ c id t, (id < next_task c)%nat → tasks c !! id = Some t → tasks (go_all ts c) !! id = Some t.
Proof.
  induction ts as [|t0 ts IH]; intros c id t Hid Ht; [done|]. apply (IH (go t0 c)); simpl; [lia|].
  rewrite lookup_insert_ne by lia. done.
Qed.

Lemma go_all_starts ts t : ∀ c, t ∈ ts → ∃ id, tasks (go_all ts c) !! id = Some t.
Proof.
  induction ts as [|t0 ts IH]; intros c; [by intros ?%elem_of_nil|]. intros [<-|Ht]%elem_of_cons.
  - exists (next_task c). apply (go_all_keeps ts (go t c)); simpl; [lia|]. apply lookup_insert_eq.
  - by apply (IH (go t0 c)).
Qed.

(** ** The course of an election

    Server [i] of [n] runs as instance [p], and server [s] as instance [at_ s]. In election [e] [p] is candidate of
    term [T] and has [v] votes: those of [ds] are counted, those of [js] are still to come. *)
Record campaign (at_ : nat → nat) (n i p e : nat) (T : Z) (js ds : list nat) (v : Z) (c : Cluster) : Prop := {
  ca_candidate : ∃ x, insts c !! p = Some x ∧ npeers (raft x) = n ∧ currentTerm (raft x) = T ∧
    (state (raft x) = Leader ∨ state (raft x) = Candidate ∧ 2 * v <= Z.of_nat n);
  ca_election : ∃ args, elections c !! e = Some (mkElection p args v) ∧ rv_Term args = T ∧ rv_CandidateID args = Z.of_nat i;
  ca_waiting : ∀ s, s ∈ js → current c !! s = Some (at_ s) ∧ (∃ id, tasks c !! id = Some (VoteSent e s)) ∧
    ∃ y, insts c !! at_ s = Some y ∧ currentTerm (raft y) < T;
  ca_voted : ∀ s, s ∈ ds → ∃ y, insts c !! at_ s = Some y ∧ votedFor (raft y) = Z.of_nat i ∧ currentTerm (raft y) = T;
  ca_votes : 0 <= v;
}.

(** The peers of an election are distinct, and not the candidate. *)
Definition apart (at_ : nat → nat) (p : nat) (l : list nat) : Prop :=
  ∀ s, s ∈ l → at_ s ≠ p ∧ ∀ s', s' ∈ l → at_ s = at_ s' → s = s'.

(** A vote that is granted in a newer term. *)
Lemma RequestVote_newer now rf args :
  currentTerm rf < rv_Term args →
  RequestVote now rf args empty_vote_reply =
    (set_lastHeartbeat (Some now)
      (set_votedFor (rv_CandidateID args) (set_term (rv_Term args) (set_state Follower rf))),
     mkRequestVoteReply (rv_Term args) true).
Proof.
  intros H. destruct (RequestVote _ _ _ _) as [rf' reply] eqn:E.
  apply RequestVote_cases in E. by destruct E; try lia.
Qed.

(** A vote that is counted. *)
Lemma vote_reply_counts args rf v :
  currentTerm rf = rv_Term args → 0 <= v < max_int64 →
  (state rf = Leader ∨ state rf = Candidate ∧ 2 * v <= Z.of_nat (npeers rf)) →
  ∃ rf', vote_reply args (mkRequestVoteReply (rv_Term args) true) rf v = (rf', v + 1) ∧
    npeers rf' = npeers rf ∧ currentTerm rf' = currentTerm rf ∧
    (state rf' = Leader ∨ state rf' = Candidate ∧ 2 * (v + 1) <= Z.of_nat (npeers rf)).
Proof.
  intros Ht Hv Hst. pose proof (vote_reply_spec args (mkRequestVoteReply (rv_Term args) true) rf v) as H.
  destruct (vote_reply _ _ _ _) as [rf' v']. destruct H as (_ & _ & H).
  { unfold max_int64 in *. lia. }
  destruct H as (-> & Hrf & Hlead); [done|simpl; lia|]. exists rf'. cbn [rvr_VoteGranted Z.b2z] in *. split; [done|].
  assert (npeers rf' = npeers rf ∧ currentTerm rf' = currentTerm rf) as [-> ->] by (by destruct Hrf as [-> | ->]).
  split_and!; [done..|]. destruct Hst as [Hl|[Hc Hm]].
  - left. by destruct Hrf as [-> | ->].
  - destruct (decide (Z.of_nat (npeers rf) < 2 * (v + 1))) as [Hlt|Hge].
    + left. apply Hlead; [congruence|done].
    + right. split; [|lia]. destruct Hrf as [-> | ->]; [done|]. exfalso. apply Hge, Hlead; [congruence|done].
Qed.

(** One more vote: the request is delivered, and its reply. *)
Lemma campaign_step at_ n i p e T s js ds v now c :
  campaign at_ n i p e T (s :: js) ds v c → NoDup (s :: js) → apart at_ p (s :: js ++ ds) → (s ∉ ds) → v < max_int64 →
  ∃ id c', run c [AHandle id now; AReturn id] = Some (Done c') ∧ campaign at_ n i p e T js (s :: ds) (v + 1) c' ∧
    ∀ k, k ≠ p → k ≠ at_ s → insts c' !! k = insts c !! k.
Proof.
  intros [(x & Hx & Hn & HT & Hst) (args & He & Ha & Hc) Hwait Hvoted Hv] Hnd Hap Hds Hmax.
  apply NoDup_cons in Hnd as [Hs Hnd].
  destruct (Hwait s) as (Hcur & (id & Hid) & y & Hy & Hlt); [by left|].
  destruct (Hap s) as [Hsp Hinj]; [by left|].
  destruct (vote_reply_counts args (raft x) v) as (rf' & Hvr & Hn' & HT' & Hst'); [congruence|lia|by rewrite Hn|].
  set (y' := mkInst (set_lastHeartbeat (Some now) (set_votedFor (rv_CandidateID args)
    (set_term (rv_Term args) (set_state Follower (raft y))))) (pc y)).
  exists id. eexists. split.
  { cbn [run exec]. unfold handle. rewrite Hid. cbn [mbind option_bind]. rewrite He. cbn [mbind option_bind el_args].
    rewrite Hcur. cbn [mbind option_bind]. rewrite Hy. cbn [mbind option_bind].
    rewrite RequestVote_newer by congruence.
    fold y'. cbn [run exec]. unfold return_reply. cbn [tasks set_task]. rewrite lookup_insert_eq. cbn [mbind option_bind].
    cbn [elections set_task set_inst insts]. rewrite He. cbn [mbind option_bind el_owner el_args el_votes].
    rewrite list_lookup_insert_ne by congruence. rewrite Hx. cbn [mbind option_bind].
    rewrite Hvr. reflexivity. }
  assert (∀ k, k ≠ p → k ≠ at_ s → (<[p := mkInst rf' (pc x)]> (<[at_ s := y']> (insts c))) !! k = insts c !! k) as Hother.
  { intros k H1 H2. by rewrite !list_lookup_insert_ne by congruence. }
  assert (∀ s', s' ∈ js ++ ds → s' ≠ s → at_ s' ≠ p ∧ at_ s' ≠ at_ s) as Hne.
  { intros s' Hs' Hn0. destruct (Hap s') as [H1 H2]; [by right|]. split; [done|]. intros E. apply Hn0, H2; [by left|done]. }
  split; [split|exact Hother].
  - exists (mkInst rf' (pc x)). cbn [raft]. split_and!; [|congruence|congruence|by rewrite <- Hn].
    simpl. apply list_lookup_insert_eq. rewrite length_insert. by eapply lookup_lt_Some.
  - exists args. split_and!; [|done|done]. simpl. apply list_lookup_insert_eq. by eapply lookup_lt_Some.
  - intros s' Hs'. destruct (Hwait s') as (H1 & (id' & Hid') & y2 & Hy2 & Hlt2); [by right|].
    assert (s' ≠ s) as Hne' by (intros ->; done). destruct (Hne s') as [??]; [by apply elem_of_app; left|done|]. split_and!; [done| |].
    + exists id'. simpl. assert (id ≠ id') by (intros ->; rewrite Hid in Hid'; congruence).
      rewrite lookup_delete_ne, lookup_insert_ne by done. done.
    + exists y2. simpl. by rewrite Hother.
  - intros s' [->|Hs']%elem_of_cons.
    + exists y'. simpl. rewrite list_lookup_insert_ne by congruence.
      rewrite list_lookup_insert_eq by (by eapply lookup_lt_Some). by split_and!.
    + destruct (Hvoted s' Hs') as (y2 & Hy2 & Hv2). exists y2. simpl.
      destruct (Hne s') as [??]; [by apply elem_of_app; right|intros ->; done|]. by rewrite Hother.
  - lia.
Qed.

Lemma cluster_run_app tr1 tr2 c c' : run c tr1 = Some (Done c') → run c (tr1 ++ tr2) = run c' tr2.
Proof.
  revert c. induction tr1 as [|a tr1 IH]; intros c; simpl; [by intros [= <-]|].
  destruct (exec c a) as [[c1| | |]|]; try done. apply IH.
Qed.

Lemma campaign_run at_ n i p e T (now : Z) : ∀ js ds v c,
  campaign at_ n i p e T js ds v c → NoDup js → apart at_ p (js ++ ds) → (∀ s, s ∈ ds → s ∉ js) → v + Z.of_nat (length js) <= max_int64 →
  ∃ tr c', no_restart tr ∧ length tr = (2 * length js)%nat ∧ run c tr = Some (Done c') ∧
    campaign at_ n i p e T [] (reverse js ++ ds) (v + Z.of_nat (length js)) c' ∧
    ∀ k, k ≠ p → (∀ s, s ∈ js → k ≠ at_ s) → insts c' !! k = insts c !! k.
Proof.
  induction js as [|s js IH]; intros ds v c Hca Hnd Hap Hds Hmax.
  { exists [], c. rewrite Z.add_0_r. split_and!; [constructor|done|done|done|done]. }
  rewrite length_cons in Hmax.
  destruct (campaign_step at_ n i p e T s js ds v now c Hca Hnd Hap) as (id & c1 & Hrun & Hca1 & Hk1);
    [intros Hs; apply (Hds s Hs); by left|lia|].
  apply NoDup_cons in Hnd as [Hs Hnd].
  destruct (IH (s :: ds) (v + 1) c1 Hca1 Hnd) as (tr & c' & Hnr & Hlen & Hrun' & Hca' & Hk').
  - intros x Hx. assert (∀ z, z ∈ js ++ s :: ds → z ∈ s :: js ++ ds) as Hsub.
    { intros z. rewrite elem_of_app, !elem_of_cons, elem_of_app. tauto. }
    destruct (Hap x (Hsub x Hx)) as [H1 H2]. split; [done|]. intros z Hz. by apply H2, Hsub.
  - intros s' [->|Hs']%elem_of_cons; [done|]. intros Hin. apply (Hds s' Hs'). by right.
  - lia.
  - exists ([AHandle id now; AReturn id] ++ tr), c'. split_and!.
    + by do 2 constructor.
    + rewrite length_app, Hlen. simpl. lia.
    + by rewrite (cluster_run_app _ _ _ _ Hrun).
    + rewrite reverse_cons, <- app_assoc. rewrite length_cons.
      replace (v + Z.of_nat (S (length js))) with (v + 1 + Z.of_nat (length js)) by lia. exact Hca'.
    + intros k Hp Hk. rewrite Hk', Hk1; [done|done|apply Hk; by left|done|]. intros z Hz. apply Hk. by right.
Qed.

Lemma tick_elects i now r c x s rf args :
  insts c !! i = Some x → pc x = TRead s → s ≠ Leader → start_election now r (raft x) = (rf, Some args) →
  tick i now r c = Some (go_all (VoteSent (length (elections c)) <$> other_peers rf)
    (add_election (mkElection i args 1) (set_inst i (mkInst rf TLoop) c))).
Proof.
  intros Hx Hpc Hs Hse. unfold tick. rewrite Hx. cbn [mbind option_bind]. rewrite Hpc.
  destruct s; [by rewrite Hse..|by destruct Hs].
Qed.

(** The two sections of the ticker that start an election. *)
Lemma campaign_start at_ n i p c x now r js :
  insts c !! p = Some x → npeers (raft x) = n → me (raft x) = Z.of_nat i → (2 <= n)%nat →
  pc x = TLoop → killed (raft x) = false → state (raft x) ≠ Leader → 0 <= currentTerm (raft x) < max_int64 →
  0 <= r → election_timeout r < time_Since (lastHeartbeat (raft x)) now →
  (∀ s, s ∈ js → current c !! s = Some (at_ s) ∧ at_ s ≠ p ∧ s ≠ i ∧ (s < n)%nat ∧
    ∃ y, insts c !! at_ s = Some y ∧ currentTerm (raft y) <= currentTerm (raft x)) →
  ∃ e c' x', run c [ATick p now r; ATick p now r] = Some (Done c') ∧
    campaign at_ n i p e (currentTerm (raft x) + 1) js [] 1 c' ∧ insts c' = <[p := x']> (insts c) ∧ current c' = current c ∧
    npeers (raft x') = n ∧ me (raft x') = Z.of_nat i ∧ pc x' = TLoop ∧ killed (raft x') = false ∧ state (raft x') ≠ Leader ∧
    currentTerm (raft x') = currentTerm (raft x) + 1 ∧ lastHeartbeat (raft x') = Some now.
Proof.
  intros Hx Hn Hme H2 Hpc Hk Hst HT Hr Hto Hjs. set (T := currentTerm (raft x) + 1).
  assert (p < length (insts c))%nat as Hi by (by eapply lookup_lt_Some).
  set (rf := set_lastHeartbeat (Some now) (set_votedFor (me (raft x)) (set_term T (set_state Candidate (raft x))))).
  assert (start_election now r (raft x) = (rf, Some (mkRequestVoteArgs T (Z.of_nat i) 0 0))) as Hse.
  { unfold start_election. rewrite bool_decide_eq_false_2 by done. cbn [negb andb].
    rewrite (proj2 (Z.ltb_lt _ _) Hto). cbn [currentTerm set_state]. rewrite int64_id by (unfold max_int64 in HT; lia).
    fold T. unfold rf. cbn [currentTerm me set_lastHeartbeat set_votedFor set_term set_state]. by rewrite Hme. }
  exists (length (elections c)). eexists _, (mkInst rf TLoop). split.
  { cbn [run exec]. rewrite (proj2 (Z.leb_le 0 r) Hr). unfold tick at 1. rewrite Hx. cbn [mbind option_bind].
    rewrite Hpc, Hk. cbn [fmap option_fmap option_map].
    erewrite tick_elects; [reflexivity|by apply list_lookup_insert_eq|reflexivity|exact Hst|exact Hse]. }
  match goal with |- campaign _ _ _ _ _ _ _ _ _ (go_all ?ts ?c1) ∧ _ => set (c2 := c1); destruct (go_all_other ts c2) as (Ei & Ec & Ee) end.
  assert (insts c2 = <[p := mkInst rf TLoop]> (insts c)) as Ei2.
  { unfold c2. simpl. by rewrite list_insert_insert_eq. }
  split; [split|split_and!; [by rewrite Ei|by rewrite Ec|done..]]; rewrite ?Ei, ?Ec, ?Ee, ?Ei2.
  - exists (mkInst rf TLoop). rewrite list_lookup_insert_eq by done. split_and!; [done|done|done|]. right. split; [done|lia].
  - exists (mkRequestVoteArgs T (Z.of_nat i) 0 0). split; [|done]. simpl. by rewrite lookup_app_r, Nat.sub_diag.
  - intros s Hs. destruct (Hjs s Hs) as (Hcur & Hsp & Hsi & Hsn & y & Hy & Hle). split_and!; [done| |].
    + apply go_all_starts, list_elem_of_fmap. exists s. split; [done|]. apply other_peers_spec.
      change (npeers rf) with (npeers (raft x)). change (me rf) with (me (raft x)). rewrite Hn, Hme. lia.
    + exists y. rewrite list_lookup_insert_ne by congruence. split; [done|]. unfold T. lia.
  - intros s Hs. by apply elem_of_nil in Hs.
  - lia.
Qed.

(** The whole election, with the votes of [js], which make a majority with the candidate. *)
Lemma campaign_wins at_ n i p c x now r js :
  insts c !! p = Some x → npeers (raft x) = n → me (raft x) = Z.of_nat i → (2 <= n)%nat →
  pc x = TLoop → killed (raft x) = false → state (raft x) ≠ Leader → 0 <= currentTerm (raft x) < max_int64 →
  0 <= r → election_timeout r < time_Since (lastHeartbeat (raft x)) now →
  (∀ s, s ∈ js → current c !! s = Some (at_ s) ∧ at_ s ≠ p ∧ s ≠ i ∧ (s < n)%nat ∧
    ∃ y, insts c !! at_ s = Some y ∧ currentTerm (raft y) <= currentTerm (raft x)) →
  NoDup js → apart at_ p js → (n < 2 * S (length js))%nat → Z.of_nat (S (length js)) <= max_int64 →
  ∃ tr c', no_restart tr ∧ length tr = (2 + 2 * length js)%nat ∧ run c tr = Some (Done c') ∧
    is_leader c' p (currentTerm (raft x) + 1) ∧
    (∀ s, s ∈ js → ∃ y, insts c' !! at_ s = Some y ∧ votedFor (raft y) = Z.of_nat i ∧ currentTerm (raft y) = currentTerm (raft x) + 1) ∧
    ∀ k, k ≠ p → (∀ s, s ∈ js → k ≠ at_ s) → insts c' !! k = insts c !! k.
Proof.
  intros Hx Hn Hme H2 Hpc Hk Hst HT Hr Hto Hjs Hnd Hap Hmaj Hmax.
  destruct (campaign_start at_ n i p c x now r js) as (e & c1 & x' & Hrun1 & Hca & Ei & _); try done.
  destruct (campaign_run at_ n i p e _ now js [] 1 c1 Hca Hnd) as (tr' & c' & Hnr' & Htr & Hrun' & Hca' & Hkeep).
  { by rewrite app_nil_r. } { by intros s ?%elem_of_nil. } { lia. }
  exists ([ATick p now r; ATick p now r] ++ tr'), c'. split_and!.
  - by do 2 constructor.
  - rewrite length_app, Htr. reflexivity.
  - by rewrite (cluster_run_app _ _ _ _ Hrun1).
  - destruct (ca_candidate _ _ _ _ _ _ _ _ _ _ Hca') as (y & Hy & _ & HT' & [Hl|[_ Hno]]); [by exists y|lia].
  - intros s Hs. apply (ca_voted _ _ _ _ _ _ _ _ _ _ Hca' s). rewrite app_nil_r. by apply elem_of_reverse.
  - intros k Hp Hks. rewrite Hkeep by done. by rewrite Ei, list_lookup_insert_ne.
Qed.

(** Elections can always succeed: from every state that is reached without
    restarts, a peer whose time is up (it is alive, at the top of its loop and no
    leader) can become leader of the next term, in two actions of its own and two for each of any
    peers [js] that make a majority with it and are not in a newer term,
    whatever else is under way; all of them have then voted for it in that term. *)
Theorem election_succeeds n tr c i x now r js :
  short n tr → no_restart tr → run (init n) tr = Some (Done c) →
  insts c !! i = Some x → pc x = TLoop → killed (raft x) = false → state (raft x) ≠ Leader →
  currentTerm (raft x) < max_int64 → 0 <= r → election_timeout r < time_Since (lastHeartbeat (raft x)) now →
  NoDup js → js ≠ [] → (n < 2 * S (length js))%nat →
  (∀ s, s ∈ js → s ≠ i ∧ ∃ y, insts c !! s = Some y ∧ currentTerm (raft y) <= currentTerm (raft x)) →
  ∃ tr' c', no_restart tr' ∧ length tr' = (2 + 2 * length js)%nat ∧ run c tr' = Some (Done c') ∧
    is_leader c' i (currentTerm (raft x) + 1) ∧
    ∀ s, s ∈ js → ∃ y, insts c' !! s = Some y ∧ votedFor (raft y) = Z.of_nat i ∧
      currentTerm (raft y) = currentTerm (raft x) + 1.
Proof.
  intros Hshort Hnr Hrun Hx Hpc Hk Hst Hmax Hr Hto Hnd Hne Hmaj Hjs.
  destruct (run_inv n tr c Hshort Hnr Hrun) as (k & H & Sv & HI). destruct Hshort as [Hbig _].
  destruct (inv_inst _ _ _ _ _ HI _ _ Hx) as (Hn & Hme & HT & _).
  assert (∀ s, s ∈ js → s ≠ i ∧ (s < n)%nat ∧ ∃ y, insts c !! s = Some y ∧ currentTerm (raft y) <= currentTerm (raft x)) as Hjs'.
  { intros s Hs. destruct (Hjs s Hs) as (Hsi & y & Hy & Hle). split_and!; [done| |by exists y].
    rewrite <- (inv_length _ _ _ _ _ HI). by eapply lookup_lt_Some. }
  assert (i < n)%nat as Hi by (rewrite <- (inv_length _ _ _ _ _ HI); by eapply lookup_lt_Some).
  assert (S (length js) <= n)%nat as Hlen.
  { assert (NoDup (i :: js)) as Hnd' by (constructor; [intros [? _]%Hjs; done|done]).
    rewrite <- (length_seq n 0) at 1. change (length (i :: js) <= length (seq 0 n))%nat.
    apply submseteq_length, NoDup_submseteq; [done|]. intros s [->|Hs]%elem_of_cons; apply elem_of_seq; [lia|].
    destruct (Hjs' s Hs) as (_ & ? & _). lia. }
  assert (2 <= n)%nat as H2 by (destruct js; [done|]; simpl in Hlen; lia).
  destruct (campaign_wins id n i i c x now r js) as (tr' & c' & H1 & H3 & H4 & H5 & H6 & _); try done.
  { lia. }
  { intros s Hs. destruct (Hjs' s Hs) as (Hsi & Hsn & y & Hy & Hle). split_and!; [|done|done|done|by exists y].
    by rewrite (inv_current _ _ _ _ _ HI), lookup_seq_lt. }
  { intros s Hs. destruct (Hjs' s Hs) as (Hsi & _). split; [done|]. by intros s' _. }
  { lia. }
  by exists tr', c'.
Qed.

(** ** A peer without others *)

(** A cluster of one is never led, restarts included: the count of votes is only
    compared with the majority when a reply arrives, and there is nobody to reply. *)
Theorem single_peer_never_leads tr c i t : run (init 1) tr = Some (Done c) → ¬ is_leader c i t.
Proof.
  set (P c := tasks c = ∅ ∧ ∀ i x, insts c !! i = Some x → npeers (raft x) = 1%nat ∧ me (raft x) = 0 ∧
    state (raft x) ≠ Leader ∧ pc x ≠ TRead Leader).
  assert (P (init 1)) as H0.
  { split; [done|]. intros [|[|j]] x Hx; simpl in Hx; [|done..]. by injection Hx as <-. }
  assert (∀ c a c', P c → exec c a = Some (Done c') → P c') as Hstep.
  { clear. intros c a c' [Ht Hi] He. destruct a as [j now r|id now|id|id|id|j|s]; simpl in He.
    - destruct (0 <=? r); [|done]. unfold tick in He. destruct (insts c !! j) as [x|] eqn:Hx; [|done].
      destruct (Hi j x Hx) as (Hn & Hme & Hs & Hp). cbn [mbind option_bind] in He.
      assert (∀ x', npeers (raft x') = 1%nat → me (raft x') = 0 → state (raft x') ≠ Leader → pc x' ≠ TRead Leader →
        ∀ els, P (mkCluster (<[j := x']> (insts c)) (current c) els (tasks c) (next_task c) (stored c))) as Hset.
      { intros x' Hn' Hme' Hs' Hp' els. split; [done|]. intros k y.
        simpl. intros [(-> & <- & _)|[_ Hy]]%list_lookup_insert_Some; [done|by apply (Hi k)]. }
      assert (∀ rf, npeers rf = 1%nat → me rf = 0 → other_peers rf = []) as Hno.
      { intros rf H1 H2. unfold other_peers. by rewrite H1, H2. }
      destruct (pc x) as [|s|] eqn:Epc; [| |done].
      + injection He as <-. apply Hset; [done..|]. simpl. by destruct (killed _); [|congruence].
      + destruct s; [| |done];
          (destruct (start_election now r (raft x)) as [rf [args|]] eqn:Hse; injection He as <-;
            [|apply start_election_None in Hse as ->; by apply Hset]);
          (unfold start_election in Hse; case_match; [|done]; injection Hse as <- <-; rewrite Hno by done;
            by apply (Hset (mkInst _ TLoop))).
    - unfold handle in He. by rewrite Ht, lookup_empty in He.
    - unfold return_reply in He. by rewrite Ht, lookup_empty in He.
    - unfold lose in He. by rewrite Ht, lookup_empty in He.
    - unfold run_heartbeat in He. by rewrite Ht, lookup_empty in He.
    - unfold kill in He. destruct (insts c !! j) as [x|] eqn:Hx; [|done]. injection He as <-. split; [done|]. simpl.
      intros k y [(-> & <- & _)|[_ Hy]]%list_lookup_insert_Some; [by eapply (Hi _ x)|by apply (Hi k)].
    - unfold restart in He. destruct (current c !! s) as [j|]; [|done]. cbn [mbind option_bind] in He.
      destruct (insts c !! j) as [x|] eqn:Hx; [|done]. cbn [mbind option_bind] in He. destruct (stored c !! s) as [data|]; [|done].
      injection He as <-. destruct (Hi j x Hx) as (Hn & Hme & Hs & Hp). split; [done|]. simpl. intros k y [Hy|[_ Hy]]%lookup_app_Some.
      + apply list_lookup_insert_Some in Hy as [(-> & <- & _)|[_ Hy]]; [done|by apply (Hi k)].
      + apply list_lookup_singleton_Some in Hy as [_ <-]. rewrite Make_fresh. by split_and!. }
  assert (∀ tr c, P c → ∀ c', run c tr = Some (Done c') → P c') as Hall.
  { clear tr c. induction tr as [|a tr IH]; intros c Hc c' Hrun; simpl in Hrun; [by injection Hrun as <-|].
    destruct (exec c a) as [[c1| | |]|] eqn:He; try done. apply (IH c1); [|done]. by eapply Hstep. }
  intros Hrun (x & Hx & Hl & _). destruct (Hall tr (init 1) H0 c Hrun) as [_ Hi].
  by destruct (Hi i x Hx) as (_ & _ & Hno & _).
Qed.

(** ** Witnesses *)

(** Peer 0 was elected in term 1 by peer 1; then peer 2, still in term 0, hears of
    it and times out itself. *)
Definition deposed : list action := elect_0 ++ [AHandle 1 3].

Definition after_deposed : Cluster :=
  default (init 3) (o ← run (init 3) deposed; match o with Done c => Some c | _ => None end).

Lemma deposed_run : run (init 3) deposed = Some (Done after_deposed).
Proof. vm_compute. reflexivity. Qed.

Lemma election_succeeds_witness :
  is_leader after_deposed 0 1 ∧
  ∃ tr' c', no_restart tr' ∧ length tr' = 4%nat ∧ run after_deposed tr' = Some (Done c') ∧ is_leader c' 2 2.
Proof.
  split; [eexists; split_and!; vm_compute; reflexivity|].
  assert (∃ x, insts after_deposed !! 2%nat = Some x ∧ pc x = TLoop ∧ killed (raft x) = false ∧ state (raft x) = Follower ∧
    currentTerm (raft x) = 1 ∧ lastHeartbeat (raft x) = Some 3) as (x & Hx & Hpc & Hk & Hs & HT & Hh).
  { eexists. split_and!; vm_compute; reflexivity. }
  destruct (election_succeeds 3 deposed after_deposed 2 x 300000004 0 [1%nat]) as (tr' & c' & Hnr & Hlen & Hrun & Hl & _).
  - split; vm_compute; congruence.
  - repeat constructor.
  - exact deposed_run.
  - exact Hx.
  - exact Hpc.
  - exact Hk.
  - by rewrite Hs.
  - by rewrite HT.
  - lia.
  - rewrite Hh. vm_compute. reflexivity.
  - apply NoDup_singleton.
  - done.
  - simpl. lia.
  - intros s ->%list_elem_of_singleton. split; [lia|].
    eexists. split; [vm_compute; reflexivity|]. rewrite HT. vm_compute. congruence.
  - exists tr', c'. rewrite HT in Hl. by split_and!.
Defined.

Lemma single_peer_never_leads_witness :
  ∃ c, run (init 1) [ATick 0 0 0; ATick 0 0 0; ARestart 0; ATick 1 9 0; ATick 1 9 0] = Some (Done c) ∧ ¬ is_leader c 1 1.
Proof.
  eexists. split; [vm_compute; reflexivity|].
  apply (single_peer_never_leads [ATick 0 0 0; ATick 0 0 0; ARestart 0; ATick 1 9 0; ATick 1 9 0]).
  vm_compute. reflexivity.
Defined.
