(* ===== verification/RaftRestart.v ===== *)
(** * RaftRestart: what a restart loses

    [RaftSafety] excludes restarts; here is why. A restarted server is made from
    what its persister holds, and no action of the cluster writes a persister, so
    it starts in term 0 with no vote. From every state with a leader, however it
    was reached, restarting a majority of the other servers is enough for a
    second leader of the same term. *)

From S2P Require Import Prelude Raft RaftCluster RaftSafety RaftLiveness.
From Stdlib Require Import Strings.Byte.

Local Open Scope Z_scope.

(** ** Restarts *)






(** ** Time passes *)








(** ** The second leader *)





