(* ===== verification/ShardCfg.v ===== *)
(** * ShardCfg: shardkv1/shardcfg/shardcfg.go

    The assignment of shards to groups: the hash of a key, the configuration
    and its operations. A Go map is iterated in an order the runtime picks, so
    an operation whose behaviour depends on that order takes it as an argument,
    a list of the map's entries. *)

From S2P Require Import Prelude.

Local Open Scope Z_scope.

Definition NShards : Z := 12.
Definition NumFirst : Z := 1.
Definition Gid1 : Z := 1.

(** [Key2Shard]: [Tshid(h.Sum32()) % NShards]. *)
Definition Key2Shard (key : string) : Z := Z.rem (fnv32a key) NShards.

(** [Shards] is an array of [NShards] group ids; a slice of server names is
    never written in place, so it is a list. *)
Record ShardConfig := mkShardConfig {
  Num : Z;
  Shards : list Z;
  Groups : gmap Z (list string);
}.

#[export] Instance ShardConfig_eq_dec : EqDecision ShardConfig.
Proof. solve_decision. Defined.

Definition MakeShardConfig : ShardConfig :=
  mkShardConfig 0 (replicate (Z.to_nat NShards) 0) ∅.

Definition set_Shards (l : list Z) (c : ShardConfig) : ShardConfig :=
  mkShardConfig (Num c) l (Groups c).
Definition set_shard (s : nat) (g : Z) (c : ShardConfig) : ShardConfig :=
  set_Shards (<[s := g]> (Shards c)) c.
Definition set_group (g : Z) (srvs : list string) (c : ShardConfig) : ShardConfig :=
  mkShardConfig (Num c) (Shards c) (<[g := srvs]> (Groups c)).
Definition del_group (g : Z) (c : ShardConfig) : ShardConfig :=
  mkShardConfig (Num c) (Shards c) (delete g (Groups c)).
Definition incr_Num (c : ShardConfig) : ShardConfig :=
  mkShardConfig (int64 (Num c + 1)) (Shards c) (Groups c).

(** [Copy]: [Num] and the array by assignment, the map entry by entry. *)
Definition Copy (c : ShardConfig) : ShardConfig :=
  map_fold set_group (mkShardConfig (Num c) (Shards c) (Groups MakeShardConfig)) (Groups c).

(** [String] and [FromString]: a configuration travels as its JSON. *)
Definition String_ `{Json ShardConfig} (cfg : ShardConfig) : outcome string :=
  match Marshal cfg with Some b => Done b | None => Fatal "Unmarshall err" end.

Definition FromString `{Json ShardConfig} (s : string) : outcome ShardConfig :=
  match Unmarshal s with Some scfg => Done scfg | None => Fatal "Unmarshall err" end.

Lemma FromString_String `{JsonLaws ShardConfig} cfg : ∃ s, String_ cfg = Done s ∧ FromString s = Done cfg.
Proof.
  unfold String_, FromString. destruct (json_roundtrip cfg) as (b & -> & E). exists b. by rewrite E.
Qed.

(** [counts[g] += 1] for every shard; a missing key reads as zero. *)
Definition shard_counts (l : list Z) : gmap Z Z :=
  foldl (λ m g, <[g := default 0 (m !! g) + 1]> m) ∅ l.
Definition count_of (m : gmap Z Z) (g : Z) : Z := default 0 (m !! g).

(** The loop of [analyze] over the sorted group ids. *)
Fixpoint analyze_loop (cnt : Z → Z) (gs : list Z) (mg mn lg ln : Z) : Z * Z * Z * Z :=
  match gs with
  | [] => (mg, mn, lg, ln)
  | g :: gs =>
      let '(ln, lg) := if cnt g <? ln then (cnt g, g) else (ln, lg) in
      let '(mn, mg) := if mn <? cnt g then (cnt g, g) else (mn, mg) in
      analyze_loop cnt gs mg mn lg ln
  end.

(** The keys of [c.Groups] after [slices.Sort]. *)
Definition sorted_gids (c : ShardConfig) : list Z :=
  merge_sort Z.le (elements (dom (Groups c))).

(** [analyze]: most loaded group and its count, least loaded and its count. *)
Definition analyze (c : ShardConfig) : Z * Z * Z * Z :=
  analyze_loop (count_of (shard_counts (Shards c))) (sorted_gids c) (-1) (-1) (-1) 257.

Definition least (c : ShardConfig) : Z :=
  let '(_, _, lg, _) := analyze c in lg.

(** [for s, g := range c.Shards]: ranging over an array goes over a copy. *)
Definition assign_unassigned (c : ShardConfig) : ShardConfig :=
  foldl (λ c '(s, g), match Groups c !! g with
                      | Some _ => c
                      | None => set_shard s (least c) c
                      end)
    c (imap pair (Shards c)).

(** Move the first shard of [mg] to [lg]. *)
Definition move_one (mg lg : Z) (c : ShardConfig) : ShardConfig :=
  match list_find (λ g, g = mg) (Shards c) with
  | Some (s, _) => set_shard s lg c
  | None => c
  end.

Fixpoint move_loop (fuel : nat) (c : ShardConfig) : outcome ShardConfig :=
  match fuel with
  | O => Diverge
  | S fuel =>
      let '(mg, mn, lg, ln) := analyze c in
      if mn <? ln + 2 then Done c
      else move_loop fuel (move_one mg lg c)
  end.

(** One more than the square of the number of shards. *)
Definition move_fuel : nat := 145.

Definition Rebalance (c : ShardConfig) : outcome ShardConfig :=
  if Z.of_nat (size (Groups c)) <? 1 then
    Done (set_Shards ((λ _, 0) <$> Shards c) c)
  else move_loop move_fuel (assign_unassigned c).

(** Some server name stands in both lists. *)
Definition shares_server (l1 l2 : list string) : bool :=
  existsb (λ s1, existsb (λ s2, bool_decide (s1 = s2)) l2) l1.

(** The loop of [Join]; [inl] is the early [return false], which leaves what
    the earlier iterations did. *)
Fixpoint join_loop (servers : list (Z * list string)) (changed : bool) (c : ShardConfig)
    : outcome (ShardConfig + ShardConfig * bool) :=
  match servers with
  | [] => Done (inr (c, changed))
  | (gid, srvs) :: servers =>
      match Groups c !! gid with
      | Some _ => Done (inl c)
      | None =>
          if existsb (λ '(_, xsrvs), shares_server xsrvs srvs) (map_to_list (Groups c))
          then Fatal "Join puts a server in two groups"
          else join_loop servers true (set_group gid srvs c)
      end
  end.

Definition Join (servers : list (Z * list string)) (c : ShardConfig) : outcome (bool * ShardConfig) :=
  r ← join_loop servers false c;
  match r with
  | inl c => Done (false, c)
  | inr (c, changed) =>
      if negb changed then Fatal "Join but no change" else Done (true, incr_Num c)
  end.

Fixpoint leave_loop (gids : list Z) (changed : bool) (c : ShardConfig)
    : ShardConfig + ShardConfig * bool :=
  match gids with
  | [] => inr (c, changed)
  | gid :: gids =>
      match Groups c !! gid with
      | None => inl c
      | Some _ => leave_loop gids true (del_group gid c)
      end
  end.

Definition Leave (gids : list Z) (c : ShardConfig) : outcome (bool * ShardConfig) :=
  match leave_loop gids false c with
  | inl c => Done (false, c)
  | inr (c, changed) =>
      if negb changed then Fatal "Leave but no change" else Done (true, incr_Num c)
  end.

Definition JoinBalance (servers : list (Z * list string)) (c : ShardConfig)
    : outcome (bool * ShardConfig) :=
  '(ok, c) ← Join servers c;
  if negb ok then Done (false, c) else c ← Rebalance c; Done (true, c).

Definition LeaveBalance (gids : list Z) (c : ShardConfig) : outcome (bool * ShardConfig) :=
  '(ok, c) ← Leave gids c;
  if negb ok then Done (false, c) else c ← Rebalance c; Done (true, c).

(** [GidServers]: the third result is whether the map has the group. *)
Definition GidServers (sh : Z) (c : ShardConfig) : outcome (Z * list string * bool) :=
  gid ← slice_get (Shards c) sh;
  Done (match Groups c !! gid with
        | Some srvs => (gid, srvs, true)
        | None => (gid, [], false)
        end).

Definition IsMember (gid : Z) (c : ShardConfig) : bool :=
  existsb (λ g, g =? gid) (Shards c).

(** The extremes [CheckConfig] computes over the groups of the map. *)
Definition count_extremes (cnt : Z → Z) (gs : list Z) : Z * Z :=
  foldl (λ '(mn, mx) g,
    (if cnt g <? mn then cnt g else mn, if mx <? cnt g then cnt g else mx)) (257, 0) gs.

Definition CheckConfig (groups : list Z) (c : ShardConfig) : outcome () :=
  if negb (Z.of_nat (size (Groups c)) =? Z.of_nat (length groups)) then
    Fatal "wanted groups"
  else if negb (forallb (λ g, bool_decide (is_Some (Groups c !! g))) groups) then
    Fatal "missing group"
  else if (0 <? Z.of_nat (length groups)) &&
          negb (forallb (λ g, bool_decide (is_Some (Groups c !! g))) (Shards c)) then
    Fatal "shard -> invalid group"
  else
    let '(mn, mx) := count_extremes (count_of (shard_counts (Shards c)))
                       (elements (dom (Groups c))) in
    if mn + 1 <? mx then Fatal "max too much larger than min" else Done ().
