(* ===== verification/ShardCfgBalance.v ===== *)
(** * ShardCfgBalance: what the operations of ShardCfg guarantee

    [Rebalance] ends, assigns every shard to a group of the configuration and
    evens the load out; joins and leaves build on it, and their results pass
    [CheckConfig]. *)

From S2P Require Import Prelude ShardCfg.

Local Open Scope Z_scope.

(** ** Counting shards *)
Definition count (g : Z) (l : list Z) : nat := length (filter (λ x, x = g) l).

Lemma count_cons g x l : count g (x :: l) = ((if decide (x = g) then 1 else 0) + count g l)%nat.
Proof. unfold count. rewrite filter_cons. by case_decide. Qed.

Lemma count_app g l1 l2 : count g (l1 ++ l2) = (count g l1 + count g l2)%nat.
Proof. unfold count. by rewrite filter_app, length_app. Qed.

Lemma count_le g l : (count g l <= length l)%nat.
Proof. apply length_filter. Qed.

Lemma count_pos g l : (0 < count g l)%nat ↔ g ∈ l.
Proof.
  unfold count. split.
  - intros H. destruct (filter (λ x, x = g) l) as [|y k] eqn:E; [simpl in H; lia|].
    assert (y ∈ filter (λ x, x = g) l) as Hy by (rewrite E; by left).
    apply list_elem_of_filter in Hy as [-> ?]. done.
  - intros H. assert (g ∈ filter (λ x, x = g) l) as Hg by (by apply list_elem_of_filter).
    destruct (filter _ l); [by apply elem_of_nil in Hg|simpl; lia].
Qed.

(** Reassigning one shard moves one unit of load. *)
Lemma count_insert g l i a b :
  l !! i = Some a →
  (count g (<[i := b]> l) + (if decide (a = g) then 1 else 0) =
   count g l + (if decide (b = g) then 1 else 0))%nat.
Proof. intros Hi. exact (length_filter_insert (λ x, x = g) l i a b Hi). Qed.

(** The map [counts] holds the counts. *)
Lemma shard_counts_spec l g : count_of (shard_counts l) g = Z.of_nat (count g l).
Proof.
  unfold shard_counts, count_of.
  enough (∀ m, default 0 (foldl (λ m g, <[g := default 0 (m !! g) + 1]> m) m l !! g)
    = default 0 (m !! g) + Z.of_nat (count g l)) as H by (rewrite H, lookup_empty; done).
  induction l as [|x l IH]; intros m; simpl; [unfold count; simpl; lia|].
  rewrite IH, count_cons, lookup_insert. case_decide; simpl; subst; lia.
Qed.

(** ** analyze *)
Lemma analyze_loop_spec cnt gs mg mn lg ln :
  StronglySorted Z.le gs →
  match analyze_loop cnt gs mg mn lg ln with
  | (mg', mn', lg', ln') =>
      (∀ g, g ∈ gs → ln' <= cnt g <= mn') ∧
      ((lg' = lg ∧ ln' = ln) ∨
       lg' ∈ gs ∧ ln' = cnt lg' ∧ ln' < ln ∧ ∀ g, g ∈ gs → cnt g = ln' → lg' <= g) ∧
      ((mg' = mg ∧ mn' = mn) ∨
       mg' ∈ gs ∧ mn' = cnt mg' ∧ mn < mn' ∧ ∀ g, g ∈ gs → cnt g = mn' → mg' <= g)
  end.
Proof.
  revert mg mn lg ln. induction gs as [|g gs IH]; intros mg mn lg ln Hs; simpl.
  { split_and!; [|by left..]. intros g ?%elem_of_nil. done. }
  apply StronglySorted_inv in Hs as [Hs Hall]. rewrite Forall_forall in Hall.
  assert (∀ x, x ∈ gs → g <= x) as Hg by done.
  destruct (Z.ltb_spec (cnt g) ln) as [Hl|Hl], (Z.ltb_spec mn (cnt g)) as [Hm|Hm];
    specialize (IH (if mn <? cnt g then g else mg) (if mn <? cnt g then cnt g else mn)
                   (if cnt g <? ln then g else lg) (if cnt g <? ln then cnt g else ln) Hs);
    destruct (Z.ltb_spec (cnt g) ln); try lia; destruct (Z.ltb_spec mn (cnt g)); try lia;
    destruct (analyze_loop _ _ _ _ _ _) as [[[mg' mn'] lg'] ln'];
    destruct IH as (Hb & Hlo & Hhi);
    (split_and!;
     [ intros x [->|Hx]%elem_of_cons; [|by apply Hb];
       destruct Hlo as [[-> ->]|(? & ? & ? & ?)], Hhi as [[-> ->]|(? & ? & ? & ?)]; lia
     | destruct Hlo as [[-> ->]|(Hin & Heq & Hlt & Hmin)];
       first [ by left
             | right; split_and!; try done; try (by left); try (by right); try lia;
               intros x [->|Hx]%elem_of_cons ?; try lia; try (by apply Hg); by apply Hmin ]
     | destruct Hhi as [[-> ->]|(Hin & Heq & Hlt & Hmin)];
       first [ by left
             | right; split_and!; try done; try (by left); try (by right); try lia;
               intros x [->|Hx]%elem_of_cons ?; try lia; try (by apply Hg); by apply Hmin ] ]).
Qed.

Lemma sorted_gids_spec c g : g ∈ sorted_gids c ↔ is_Some (Groups c !! g).
Proof.
  unfold sorted_gids. rewrite merge_sort_Permutation, elem_of_elements, elem_of_dom. done.
Qed.

Lemma sorted_gids_sorted c : StronglySorted Z.le (sorted_gids c).
Proof. apply (StronglySorted_merge_sort Z.le). Qed.

Lemma sorted_gids_NoDup c : NoDup (sorted_gids c).
Proof. unfold sorted_gids. rewrite merge_sort_Permutation. apply NoDup_elements. Qed.

(** The configuration has a group, and a count fits below the sentinel 257. *)
Definition has_group (c : ShardConfig) : Prop := ∃ g, is_Some (Groups c !! g).
Definition small (c : ShardConfig) : Prop := (length (Shards c) < 257)%nat.

(** [analyze] returns a most and a least loaded group of the map, with
    their numbers of shards; of several such groups it takes the smallest id,
    whatever the order in which the map is iterated. *)
Theorem analyze_spec c :
  has_group c → small c →
  match analyze c with
  | (mg, mn, lg, ln) =>
      is_Some (Groups c !! mg) ∧ mn = Z.of_nat (count mg (Shards c)) ∧
      is_Some (Groups c !! lg) ∧ ln = Z.of_nat (count lg (Shards c)) ∧
      ∀ g, is_Some (Groups c !! g) →
        ln <= Z.of_nat (count g (Shards c)) <= mn ∧
        (Z.of_nat (count g (Shards c)) = mn → mg <= g) ∧
        (Z.of_nat (count g (Shards c)) = ln → lg <= g)
  end.
Proof.
  intros [g0 Hg0] Hsmall. unfold analyze, small in *.
  pose proof (analyze_loop_spec (count_of (shard_counts (Shards c))) (sorted_gids c) (-1) (-1) (-1) 257
    (sorted_gids_sorted c)) as H.
  destruct (analyze_loop _ _ _ _ _ _) as [[[mg mn] lg] ln]. destruct H as (Hb & Hlo & Hhi).
  pose proof (count_le g0 (Shards c)).
  pose proof (Hb g0 (proj2 (sorted_gids_spec c g0) Hg0)) as Hb0. rewrite shard_counts_spec in Hb0.
  destruct Hlo as [[-> ->]|(Hlg & -> & _ & Hlmin)]; [lia|].
  destruct Hhi as [[-> ->]|(Hmg & -> & _ & Hmmin)]; [lia|].
  rewrite !shard_counts_spec in *. rewrite sorted_gids_spec in Hlg, Hmg.
  split_and!; try done. intros g Hg. rewrite <- sorted_gids_spec in Hg.
  specialize (Hb g Hg). specialize (Hlmin g Hg). specialize (Hmmin g Hg).
  rewrite shard_counts_spec in Hb, Hlmin, Hmmin. done.
Qed.

Lemma least_in_groups c : has_group c → small c → is_Some (Groups c !! least c).
Proof.
  intros Hg Hs. pose proof (analyze_spec c Hg Hs) as H. unfold least.
  destruct (analyze c) as [[[mg mn] lg] ln]. by destruct H as (_ & _ & ? & _).
Qed.

(** ** The potential: the sum of the squares of the loads *)
Definition squares (gs : list Z) (l : list Z) : nat :=
  sum_list_with (λ g, count g l * count g l)%nat gs.

Lemma sum_list_with_ext {A} (f h : A → nat) (l : list A) :
  (∀ x, x ∈ l → f x = h x) → sum_list_with f l = sum_list_with h l.
Proof.
  induction l as [|x l IH]; intros H; [done|]. simpl. rewrite (H x) by (by left).
  rewrite IH; [done|]. intros. apply H. by right.
Qed.

(** Moving a shard from [a] to [b], at least two less loaded, costs energy. *)
Lemma squares_move gs l i a b :
  NoDup gs → a ∈ gs → b ∈ gs → l !! i = Some a → (count b l + 2 <= count a l)%nat →
  (squares gs (<[i := b]> l) + 2 <= squares gs l)%nat.
Proof.
  intros Hnd Ha Hb Hi Hlt.
  assert (a ≠ b) as Hab by (intros ->; lia).
  apply elem_of_Permutation in Ha as [gs1 E1].
  rewrite E1, elem_of_cons in Hb. destruct Hb as [->|Hb]; [done|].
  apply elem_of_Permutation in Hb as [gs2 E2]. rewrite E2 in E1.
  rewrite E1 in Hnd. apply NoDup_cons in Hnd as [Ha Hnd]. apply NoDup_cons in Hnd as [Hb _].
  unfold squares. rewrite E1. simpl.
  rewrite (sum_list_with_ext _ (λ g, count g l * count g l)%nat gs2).
  - pose proof (count_insert a l i a b Hi) as Ca. pose proof (count_insert b l i a b Hi) as Cb.
    repeat (case_decide; try done). nia.
  - intros g Hg. pose proof (count_insert g l i a b Hi) as Cg.
    repeat (case_decide; [subst; set_solver|]). rewrite !Nat.add_0_r in Cg. by rewrite Cg.
Qed.

Lemma sum_count_le gs l : NoDup gs → (sum_list_with (λ g, count g l) gs <= length l)%nat.
Proof.
  intros Hnd. induction l as [|x l IH].
  { clear Hnd. induction gs as [|g gs IH]; simpl in *; [lia|]. change (count g []) with 0%nat. lia. }
  enough (sum_list_with (λ g, count g (x :: l)) gs <= 1 + sum_list_with (λ g, count g l) gs)%nat
    by (simpl; lia).
  clear IH. induction gs as [|g gs IH]; simpl; [lia|].
  apply NoDup_cons in Hnd as [Hg Hnd]. rewrite count_cons. case_decide as Hx; [subst|].
  - rewrite (sum_list_with_ext (λ g0, count g0 (g :: l)) (λ g0, count g0 l)); [lia|].
    intros y Hy. rewrite count_cons, decide_False; [done|]. by intros ->.
  - specialize (IH Hnd). lia.
Qed.

Lemma squares_le gs l : NoDup gs → (squares gs l <= length l * length l)%nat.
Proof.
  intros Hnd. transitivity (length l * sum_list_with (λ g, count g l) gs)%nat.
  - unfold squares. clear Hnd. induction gs as [|g gs IH]; simpl; [lia|].
    pose proof (count_le g l). nia.
  - pose proof (sum_count_le gs l Hnd). nia.
Qed.

(** ** Rebalance *)

(** Every shard belongs to a group of the configuration. *)
Definition assigned (c : ShardConfig) : Prop :=
  ∀ g, g ∈ Shards c → is_Some (Groups c !! g).

(** No group has two shards more than another. *)
Definition balanced (c : ShardConfig) : Prop :=
  ∀ g1 g2, is_Some (Groups c !! g1) → is_Some (Groups c !! g2) →
    (count g1 (Shards c) <= count g2 (Shards c) + 1)%nat.

(** [c'] differs from [c] in the assignment only. *)
Definition same_but_shards (c c' : ShardConfig) : Prop :=
  Num c' = Num c ∧ Groups c' = Groups c ∧ length (Shards c') = length (Shards c).

Lemma same_refl c : same_but_shards c c.
Proof. by split_and!. Qed.

Lemma same_trans c1 c2 c3 :
  same_but_shards c1 c2 → same_but_shards c2 c3 → same_but_shards c1 c3.
Proof. intros (? & ? & ?) (? & ? & ?). split_and!; congruence. Qed.

Lemma set_shard_same s g c : same_but_shards c (set_shard s g c).
Proof. split_and!; try done. simpl. by rewrite length_insert. Qed.

Lemma has_group_same c c' : same_but_shards c c' → has_group c → has_group c'.
Proof. intros (_ & HG & _) [g Hg]. exists g. by rewrite HG. Qed.

Lemma small_same c c' : same_but_shards c c' → small c → small c'.
Proof. unfold small. by intros (_ & _ & ->). Qed.

#[export] Hint Resolve same_refl same_trans set_shard_same has_group_same small_same : godb.

(** One move, with its effect on the assignment. *)
Lemma move_one_spec mg lg c :
  mg ∈ Shards c →
  ∃ s, Shards c !! s = Some mg ∧ move_one mg lg c = set_shard s lg c ∧
       ∀ s', (s' < s)%nat → Shards c !! s' ≠ Some mg.
Proof.
  intros Hin. unfold move_one.
  destruct (list_find (λ g, g = mg) (Shards c)) as [[s g]|] eqn:E.
  - apply list_find_Some in E as (Hs & -> & Hfirst). exists s. split_and!; [done..|].
    intros s' Hlt Hs'. by eapply Hfirst.
  - apply list_find_None in E. rewrite Forall_forall in E. by destruct (E mg Hin).
Qed.

Lemma move_loop_S fuel c :
  move_loop (S fuel) c =
    (let '(mg, mn, lg, ln) := analyze c in
     if mn <? ln + 2 then Done c else move_loop fuel (move_one mg lg c)).
Proof. done. Qed.

(** An induction principle for the loop that moves shards: a property kept by
    every move from a most loaded to a much less loaded group holds at the
    end, and the loop ends because every move lowers the potential. *)
Lemma move_loop_ind (P : ShardConfig → Prop) c0 c fuel :
  same_but_shards c0 c → P c → has_group c → small c →
  (∀ c1 s mg lg, P c1 → has_group c1 → small c1 → same_but_shards c0 c1 →
     is_Some (Groups c1 !! mg) → is_Some (Groups c1 !! lg) → Shards c1 !! s = Some mg →
     (∀ g, is_Some (Groups c1 !! g) →
        (count lg (Shards c1) <= count g (Shards c1) <= count mg (Shards c1))%nat) →
     (count lg (Shards c1) + 2 <= count mg (Shards c1))%nat → P (set_shard s lg c1)) →
  (squares (sorted_gids c) (Shards c) < fuel)%nat →
  ∃ c', move_loop fuel c = Done c' ∧ P c' ∧ balanced c' ∧ same_but_shards c0 c'.
Proof.
  intros Hsame HP Hg Hs Hstep. revert c Hsame HP Hg Hs.
  induction fuel as [|fuel IH]; intros c1 Hsame HP Hg Hs Hfuel; [lia|]. simpl.
  pose proof (analyze_spec c1 Hg Hs) as Ha.
  destruct (analyze c1) as [[[mg mn] lg] ln]. destruct Ha as (Hmg & -> & Hlg & -> & Hall).
  destruct (Z.ltb_spec (Z.of_nat (count mg (Shards c1))) (Z.of_nat (count lg (Shards c1)) + 2)).
  - exists c1. split_and!; [done..| |done].
    intros g1 g2 H1 H2. pose proof (Hall g1 H1). pose proof (Hall g2 H2). lia.
  - destruct (move_one_spec mg lg c1) as (s & Hsm & -> & _); [apply count_pos; lia|].
    assert (same_but_shards c1 (set_shard s lg c1)) as Hsame1 by apply set_shard_same.
    apply IH; eauto with godb.
    + apply (Hstep c1 s mg lg); try done; [|lia]. intros g Hgg. pose proof (Hall g Hgg). lia.
    + pose proof (squares_move (sorted_gids c1) (Shards c1) s mg lg (sorted_gids_NoDup c1)
        (proj2 (sorted_gids_spec c1 mg) Hmg) (proj2 (sorted_gids_spec c1 lg) Hlg) Hsm ltac:(lia)) as Hsq.
      change (sorted_gids (set_shard s lg c1)) with (sorted_gids c1).
      change (Shards (set_shard s lg c1)) with (<[s := lg]> (Shards c1)). lia.
Qed.

(** The loop that assigns the shards of unknown groups. *)
Lemma assign_loop_spec (todo : list (nat * Z)) c :
  has_group c → small c → NoDup todo.*1 →
  (∀ s g, (s, g) ∈ todo → Shards c !! s = Some g) →
  let c' := foldl (λ c '(s, g), match Groups c !! g with
                                | Some _ => c
                                | None => set_shard s (least c) c
                                end) c todo in
  same_but_shards c c' ∧
  ∀ s g, Shards c' !! s = Some g →
    (is_Some (Groups c !! g) ∧ (s ∈ todo.*1 ∨ Shards c !! s = Some g)) ∨
    ((s ∉ todo.*1) ∧ Shards c !! s = Some g).
Proof.
  revert c. induction todo as [|[s g] todo IH]; intros c Hg Hs Hnd Htodo; simpl.
  { split; [apply same_refl|]. intros s g ?. right. split; [apply not_elem_of_nil|done]. }
  apply NoDup_cons in Hnd as [Hns Hnd].
  pose proof (Htodo s g (list_elem_of_here _ _)) as Hsg.
  set (c1 := match Groups c !! g with Some _ => c | None => set_shard s (least c) c end).
  assert (same_but_shards c c1) as Hsame by (unfold c1; case_match; auto with godb).
  assert (∃ g', Shards c1 !! s = Some g' ∧ is_Some (Groups c !! g')) as (g' & Hsg' & Hg').
  { unfold c1. destruct (Groups c !! g) eqn:E; [by exists g|].
    exists (least c). split; [|by apply least_in_groups].
    simpl. apply list_lookup_insert_eq. by eapply lookup_lt_Some. }
  assert (∀ s', s' ≠ s → Shards c1 !! s' = Shards c !! s') as Hother.
  { intros s' Hne. unfold c1. case_match; [done|]. simpl. by apply list_lookup_insert_ne. }
  destruct (IH c1) as [Hsame' Hall]; [eauto with godb..|done| |].
  { intros s1 g1 Hin. rewrite Hother; [apply Htodo; by right|].
    intros ->. apply Hns. apply list_elem_of_fmap. by exists (s, g1). }
  split; [eauto with godb|]. intros s1 g1 Hs1.
  destruct Hsame as (_ & HG & _). rewrite HG in Hall.
  destruct (decide (s1 = s)) as [->|Hne].
  - left. destruct (Hall _ _ Hs1) as [[? _]|[_ ?]]; simplify_eq; split; try done; left; by left.
  - rewrite elem_of_cons. destruct (Hall _ _ Hs1) as [[? [?|Hc]]|[? Hc]].
    + left. split; [done|]. left. by right.
    + left. split; [done|]. right. by rewrite <- Hother.
    + right. split; [|by rewrite <- Hother]. by intros [?|?].
Qed.

Lemma imap_pair_fst {A} (l : list A) : (imap pair l).*1 = seq 0 (length l).
Proof.
  rewrite fmap_imap. apply list_eq. intros i. rewrite list_lookup_imap.
  destruct (l !! i) as [x|] eqn:E; simpl.
  - symmetry. apply lookup_seq. split; [done|]. by eapply lookup_lt_Some.
  - symmetry. apply lookup_ge_None in E. apply lookup_ge_None. by rewrite length_seq.
Qed.

Lemma assign_unassigned_spec c :
  has_group c → small c →
  assigned (assign_unassigned c) ∧ same_but_shards c (assign_unassigned c).
Proof.
  intros Hg Hs. unfold assign_unassigned.
  destruct (assign_loop_spec (imap pair (Shards c)) c Hg Hs) as [Hsame Hall].
  - rewrite imap_pair_fst. apply NoDup_seq.
  - intros s g (i & x & [= -> ->] & Hi)%elem_of_lookup_imap_1. done.
  - split; [|done]. intros g (s & Hsg)%list_elem_of_lookup.
    destruct Hsame as (_ & -> & Hlen).
    destruct (Hall _ _ Hsg) as [[? _]|[Hns Hc]]; [done|].
    destruct Hns. rewrite imap_pair_fst, elem_of_seq. apply lookup_lt_Some in Hc. lia.
Qed.

(** The shards of an assigned configuration are left alone. *)
Lemma assign_unassigned_id c : assigned c → assign_unassigned c = c.
Proof.
  intros Ha. unfold assign_unassigned.
  assert (∀ s g, (s, g) ∈ imap pair (Shards c) → is_Some (Groups c !! g)) as H.
  { intros s g (i & x & [= -> ->] & Hi)%elem_of_lookup_imap_1.
    apply Ha, list_elem_of_lookup. by exists i. }
  revert H. generalize (imap pair (Shards c)). intros l.
  induction l as [|[s g] l IH]; intros H; [done|]. simpl.
  destruct (H s g) as [? ->]; [by left|]. apply IH. intros. eapply H. by right.
Qed.

Definition has_shards (c : ShardConfig) : Prop := Z.of_nat (length (Shards c)) = NShards.

Lemma has_shards_small c : has_shards c → small c.
Proof. unfold has_shards, small, NShards. lia. Qed.

Lemma has_group_size c : has_group c ↔ (Z.of_nat (size (Groups c)) <? 1) = false.
Proof.
  rewrite Z.ltb_ge. split.
  - intros [g [x Hg]]. assert (size (Groups c) ≠ 0%nat); [|lia].
    intros E%map_size_empty_inv. rewrite E, lookup_empty in Hg. done.
  - intros H. destruct (decide (Groups c = ∅)) as [E|E]; [rewrite E, map_size_empty in H; lia|].
    apply map_choose in E as (g & x & Hg). exists g. by exists x.
Qed.

Lemma move_fuel_enough c : has_shards c → (squares (sorted_gids c) (Shards c) < move_fuel)%nat.
Proof.
  intros H. pose proof (squares_le _ (Shards c) (sorted_gids_NoDup c)).
  unfold has_shards, NShards, move_fuel in *. nia.
Qed.

Lemma has_shards_same c c' : same_but_shards c c' → has_shards c → has_shards c'.
Proof. unfold has_shards. by intros (_ & _ & ->). Qed.

(** [Rebalance] ends, with what it promises. *)
Lemma Rebalance_ends c :
  has_shards c →
  ∃ c', Rebalance c = Done c' ∧ same_but_shards c c' ∧
    (has_group c → assigned c' ∧ balanced c') ∧
    (Groups c = ∅ → ∀ g, g ∈ Shards c' → g = 0).
Proof.
  intros Hs. unfold Rebalance. destruct (Z.of_nat (size (Groups c)) <? 1) eqn:E.
  - exists (set_Shards ((λ _, 0) <$> Shards c) c). split_and!; try done.
    + split_and!; [done..|]. apply length_fmap.
    + intros Hg%has_group_size. congruence.
    + intros _ g. simpl. by intros (? & -> & _)%list_elem_of_fmap.
  - pose proof (proj2 (has_group_size c) E) as Hg.
    destruct (assign_unassigned_spec c Hg (has_shards_small _ Hs)) as [Ha Hsame].
    destruct (move_loop_ind assigned c (assign_unassigned c) move_fuel)
      as (c' & Hrun & Ha' & Hb & Hsame'); eauto using has_shards_small with godb.
    + intros c1 s mg lg Ha1 _ _ _ _ Hlg _ _ _ g Hin. simpl in Hin.
      apply elem_of_insert_inv in Hin as [->|Hin]; [done|]. by apply Ha1.
    + by apply move_fuel_enough, (has_shards_same c).
    + exists c'. split_and!; try done. intros HG.
      destruct Hg as [g [x Hg]]. by rewrite HG, lookup_empty in Hg.
Qed.

(** A group that has a shard keeps one. *)
Lemma assign_loop_keeps g s0 (todo : list (nat * Z)) : ∀ c,
  is_Some (Groups c !! g) → (∀ x, (s0, x) ∈ todo → x = g) → Shards c !! s0 = Some g →
  Shards (foldl (λ c '(s, x), match Groups c !! x with Some _ => c | None => set_shard s (least c) c end) c todo) !! s0 = Some g.
Proof.
  induction todo as [|[s x] todo IH]; intros c Hg Htodo Hs; [done|]. cbn [foldl].
  assert (∀ y, (s0, y) ∈ todo → y = g) as Htodo' by (intros y Hy; apply Htodo; by right).
  destruct (Groups c !! x) eqn:Ex; [by apply IH|]. apply IH; [done..|]. simpl. rewrite list_lookup_insert_ne; [done|].
  intros ->. rewrite (Htodo x) in Ex by by left. rewrite Ex in Hg. by destruct Hg.
Qed.

Lemma Rebalance_keeps c c' g :
  has_shards c → is_Some (Groups c !! g) → g ∈ Shards c → Rebalance c = Done c' → g ∈ Shards c'.
Proof.
  intros Hs Hg Hin. assert (has_group c) as Hgr by by exists g. unfold Rebalance. rewrite (proj1 (has_group_size c) Hgr).
  destruct (assign_unassigned_spec c Hgr (has_shards_small _ Hs)) as [_ Hsame].
  assert (g ∈ Shards (assign_unassigned c)) as Hin'.
  { apply list_elem_of_lookup in Hin as [s0 Hs0]. apply list_elem_of_lookup. exists s0. apply assign_loop_keeps; [done| |done].
    intros x (i & y & [= -> ->] & Hi)%elem_of_lookup_imap_1. congruence. }
  destruct (move_loop_ind (λ c1, g ∈ Shards c1) c (assign_unassigned c) move_fuel) as (c1 & -> & Hin1 & _ & _);
    eauto using has_shards_small with godb.
  - intros c1 s mg lg Hc1 _ _ _ _ _ Hmg _ Hlt. apply count_pos. apply count_pos in Hc1. simpl.
    pose proof (count_insert g (Shards c1) s mg lg Hmg). repeat case_decide; subst; lia.
  - by apply move_fuel_enough, (has_shards_same c).
  - by intros [= <-].
Qed.

(** A configuration that is already assigned and balanced is left exactly
    as it is; so [Rebalance] is idempotent. *)
Theorem Rebalance_stable c :
  has_shards c → has_group c → assigned c → balanced c → Rebalance c = Done c.
Proof.
  intros Hs Hg Ha Hb. unfold Rebalance. rewrite (proj1 (has_group_size c) Hg).
  rewrite assign_unassigned_id by done. change move_fuel with (S 144). rewrite move_loop_S.
  pose proof (analyze_spec c Hg (has_shards_small _ Hs)) as H.
  destruct (analyze c) as [[[mg mn] lg] ln]. destruct H as (Hmg & -> & Hlg & -> & _).
  pose proof (Hb mg lg Hmg Hlg). by rewrite (proj2 (Z.ltb_lt _ _)) by lia.
Qed.

(** (C8) [Rebalance] always ends. With no group it unassigns every shard; with
    a group it assigns every shard to a group of the configuration, and no
    group is left with two shards more than another. Nothing else changes, and a
    configuration that is assigned and even already is left exactly as it
    is. *)
Theorem Rebalance_correct c :
  has_shards c →
  ∃ c', Rebalance c = Done c' ∧ same_but_shards c c' ∧
    (has_group c → assigned c' ∧ balanced c') ∧
    (Groups c = ∅ → ∀ g, g ∈ Shards c' → g = 0) ∧
    (has_group c → assigned c → balanced c → c' = c).
Proof.
  intros Hs. destruct (Rebalance_ends c Hs) as (c' & Hrun & Hsame & Hg & Hu).
  exists c'. split_and!; try done. intros Hgr Ha Hb.
  rewrite (Rebalance_stable c Hs Hgr Ha Hb) in Hrun. by injection Hrun.
Qed.

(** ** CheckConfig *)
Lemma count_extremes_spec (cnt : Z → Z) (gs : list Z) mn mx :
  let '(mn', mx') := foldl (λ '(mn, mx) g,
    (if cnt g <? mn then cnt g else mn, if mx <? cnt g then cnt g else mx)) (mn, mx) gs in
  (mn' = mn ∨ ∃ g, g ∈ gs ∧ mn' = cnt g) ∧ (mx' = mx ∨ ∃ g, g ∈ gs ∧ mx' = cnt g) ∧
  (∀ g, g ∈ gs → mn' <= cnt g).
Proof.
  enough (let '(mn', mx') := foldl (λ '(mn, mx) g,
    (if cnt g <? mn then cnt g else mn, if mx <? cnt g then cnt g else mx)) (mn, mx) gs in
    mn' <= mn ∧ (mn' = mn ∨ ∃ g, g ∈ gs ∧ mn' = cnt g) ∧ (mx' = mx ∨ ∃ g, g ∈ gs ∧ mx' = cnt g) ∧
    (∀ g, g ∈ gs → mn' <= cnt g)) as H by (destruct (foldl _ _ _); tauto).
  revert mn mx. induction gs as [|g gs IH]; intros mn mx; simpl.
  { split_and!; [done|by left..|]. intros g ?%elem_of_nil. done. }
  specialize (IH (if cnt g <? mn then cnt g else mn) (if mx <? cnt g then cnt g else mx)).
  destruct (foldl _ _ _) as [mn' mx']. destruct IH as (Hle & Hmn & Hmx & Hall).
  split_and!.
  - destruct (Z.ltb_spec (cnt g) mn); lia.
  - destruct Hmn as [->|(g' & ? & ->)]; [|right; exists g'; split; [by right|done]].
    destruct (cnt g <? mn); [right; exists g; split; [by left|done]|by left].
  - destruct Hmx as [->|(g' & ? & ->)]; [|right; exists g'; split; [by right|done]].
    destruct (mx <? cnt g); [right; exists g; split; [by left|done]|by left].
  - intros x [->|Hx]%elem_of_cons; [|by apply Hall]. destruct (Z.ltb_spec (cnt g) mn); lia.
Qed.

Lemma CheckConfig_accepts gs c :
  small c → length gs = size (Groups c) → (∀ g, g ∈ gs → is_Some (Groups c !! g)) →
  (has_group c → assigned c) → balanced c → CheckConfig gs c = Done ().
Proof.
  intros Hsmall Hlen Hgs Ha Hb. unfold CheckConfig. rewrite Hlen, Z.eqb_refl. simpl.
  assert (forallb (λ g, bool_decide (is_Some (Groups c !! g))) gs = true) as ->.
  { apply forallb_forall. intros g ?%list_elem_of_In. apply bool_decide_eq_true_2. auto. }
  simpl. destruct (Z.ltb_spec 0 (Z.of_nat (size (Groups c)))) as [Hpos|Hpos]; simpl.
  - assert (has_group c) as Hg by (apply has_group_size, Z.ltb_ge; lia).
    assert (forallb (λ g, bool_decide (is_Some (Groups c !! g))) (Shards c) = true) as ->.
    { apply forallb_forall. intros g ?%list_elem_of_In. apply bool_decide_eq_true_2. by apply Ha. }
    simpl. unfold count_extremes.
    pose proof (count_extremes_spec (count_of (shard_counts (Shards c))) (elements (dom (Groups c))) 257 0) as H.
    destruct (foldl _ _ _) as [mn mx]. destruct H as (Hmn & Hmx & Hall).
    destruct (Z.ltb_spec (mn + 1) mx) as [Hbad|]; [|done]. exfalso.
    destruct Hg as [g0 Hg0]. pose proof (count_le g0 (Shards c)). unfold small in *.
    pose proof (Hall g0 ltac:(by apply elem_of_elements, elem_of_dom)) as H0.
    rewrite shard_counts_spec in H0.
    destruct Hmx as [->|(g2 & Hg2 & ->)]; [|rewrite shard_counts_spec in Hbad].
    + destruct Hmn as [->|(g & _ & ->)]; [lia|]. rewrite shard_counts_spec in Hbad. lia.
    + destruct Hmn as [->|(g1 & Hg1 & ->)]; [lia|]. rewrite shard_counts_spec in Hbad.
      apply elem_of_elements, elem_of_dom in Hg1, Hg2. pose proof (Hb g2 g1 Hg2 Hg1). lia.
  - assert (Groups c = ∅) as E.
    { apply map_size_empty_inv. lia. }
    rewrite E. done.
Qed.

(** ** Witnesses *)
Definition two_groups : ShardConfig :=
  mkShardConfig 4 [1; 1; 1; 1; 1; 1; 1; 1; 7; 7; 2; 2]
    {[ 1 := ["a"%string]; 2 := ["b"%string] ]}.

Lemma two_groups_has_group : has_group two_groups.
Proof. exists 1. by exists ["a"%string]. Qed.

Lemma analyze_spec_witness :
  analyze two_groups = (1, 8, 2, 2) ∧
  is_Some (Groups two_groups !! 1) ∧ 8 = Z.of_nat (count 1 (Shards two_groups)).
Proof.
  split; [reflexivity|].
  pose proof (analyze_spec two_groups two_groups_has_group ltac:(unfold small; simpl; lia)) as H.
  change (analyze two_groups) with (1, 8, 2, 2) in H. destruct H as (? & ? & _). by split.
Defined.

Lemma Rebalance_correct_witness :
  ∃ c', Rebalance two_groups = Done c' ∧ assigned c' ∧ balanced c'.
Proof.
  destruct (Rebalance_correct two_groups eq_refl) as (c' & ? & _ & H & _).
  exists c'. split; [done|]. apply H, two_groups_has_group.
Defined.

Definition even_groups : ShardConfig :=
  mkShardConfig 5 [1; 1; 1; 1; 1; 1; 2; 2; 2; 2; 2; 2]
    {[ 1 := ["a"%string]; 2 := ["b"%string] ]}.

Lemma Rebalance_stable_witness : Rebalance even_groups = Done even_groups.
Proof.
  apply Rebalance_stable; [reflexivity|exists 1; by exists ["a"%string]| |].
  - intros g Hg. repeat (apply elem_of_cons in Hg as [->|Hg]; [by eexists|]). by apply elem_of_nil in Hg.
  - intros g1 g2 Hg1 Hg2.
    apply elem_of_dom in Hg1, Hg2. change (dom (Groups even_groups)) with ({[1; 2]} : gset Z) in *.
    apply elem_of_union in Hg1 as [->%elem_of_singleton| ->%elem_of_singleton];
      apply elem_of_union in Hg2 as [->%elem_of_singleton| ->%elem_of_singleton]; vm_compute; lia.
Defined.
