(* ===== verification/ShardCfgJoin.v ===== *)
(** * ShardCfgJoin: joins, leaves and the routing of keys

    [JoinBalance] and [LeaveBalance] from end to end, what a refused join
    leaves behind, which shards a join moves, and that every key is served. *)

From S2P Require Import Prelude ShardCfg ShardCfgBalance.

Local Open Scope Z_scope.

(** No server stands in two groups. *)
Definition disjoint_servers (m : gmap Z (list string)) : Prop :=
  ∀ g1 g2 l1 l2 s, g1 ≠ g2 → m !! g1 = Some l1 → m !! g2 = Some l2 → s ∈ l1 → s ∈ l2 → False.

Lemma disjoint_servers_sub m m' : m ⊆ m' → disjoint_servers m' → disjoint_servers m.
Proof.
  intros Hsub Hd g1 g2 l1 l2 s Hne H1 H2. eapply Hd; [exact Hne|..]; by eapply lookup_weaken.
Qed.

Lemma shares_server_spec l1 l2 : shares_server l1 l2 = true ↔ ∃ s, s ∈ l1 ∧ s ∈ l2.
Proof.
  unfold shares_server. rewrite existsb_exists. split.
  - intros (s1 & H1 & (s2 & H2 & ->%bool_decide_eq_true)%existsb_exists).
    exists s2. by rewrite !list_elem_of_In.
  - intros (s & H1%list_elem_of_In & H2%list_elem_of_In). exists s. split; [done|].
    apply existsb_exists. exists s. split; [done|]. by apply bool_decide_eq_true_2.
Qed.

(** A configuration with other groups. *)
Definition with_groups (G : gmap Z (list string)) (c : ShardConfig) : ShardConfig :=
  mkShardConfig (Num c) (Shards c) G.

Lemma join_loop_ok servers changed c :
  NoDup servers.*1 → (∀ g l, (g, l) ∈ servers → Groups c !! g = None) →
  disjoint_servers (list_to_map servers ∪ Groups c) →
  join_loop servers changed c =
    Done (inr (with_groups (list_to_map servers ∪ Groups c) c,
               changed || negb (bool_decide (servers = [])))).
Proof.
  revert changed c. induction servers as [|[g l] servers IH]; intros changed c Hnd Hfresh Hd; simpl.
  { rewrite (left_id_L ∅ (∪)), orb_false_r. by destruct c. }
  apply NoDup_cons in Hnd as [Hg Hnd].
  rewrite (Hfresh g l) by (by left).
  assert (list_to_map (M := gmap Z (list string)) servers !! g = None) as Hg'.
  { by apply not_elem_of_list_to_map_1. }
  assert (<[g := l]> (list_to_map servers) ∪ Groups c
    = list_to_map servers ∪ Groups (set_group g l c)) as E.
  { simpl. rewrite <- insert_union_l. by rewrite insert_union_r. }
  destruct (existsb _ _) eqn:Hex.
  { exfalso. apply existsb_exists in Hex as ([xg xl] & Hx%list_elem_of_In & (s & H1 & H2)%shares_server_spec).
    apply elem_of_map_to_list in Hx. simpl in Hd.
    assert (xg ≠ g) as Hne by (intros ->; by rewrite (Hfresh g l (list_elem_of_here _ _)) in Hx).
    assert (list_to_map (M := gmap Z (list string)) servers !! xg = None) as Hxg.
    { apply not_elem_of_list_to_map_1. intros ([g' l'] & -> & Hin)%list_elem_of_fmap.
      simpl in Hx.
      assert (Groups c !! g' = None) as Hn by (eapply Hfresh; by right). by rewrite Hn in Hx. }
    eapply (Hd g xg l xl s); try done.
    - by rewrite lookup_union_l', lookup_insert_eq by (rewrite lookup_insert_eq; by eexists).
    - rewrite lookup_union_r; [done|]. by rewrite lookup_insert_ne by done. }
  rewrite IH; [by rewrite E, orb_true_r|done| |].
  - intros g' l' Hin. simpl. rewrite lookup_insert_ne; [eapply Hfresh; by right|].
    intros ->. apply Hg. apply list_elem_of_fmap. by exists (g', l').
  - simpl in Hd. by rewrite E in Hd.
Qed.

Lemma Join_ok order servers c :
  order ≡ₚ map_to_list servers → servers ≠ ∅ → servers ##ₘ Groups c →
  disjoint_servers (servers ∪ Groups c) →
  Join order c = Done (true, incr_Num (with_groups (servers ∪ Groups c) c)).
Proof.
  intros Hperm Hne Hdisj Hd.
  assert (NoDup order.*1) as Hnd by (rewrite Hperm; apply NoDup_fst_map_to_list).
  assert (list_to_map order = servers) as Hmap.
  { rewrite <- (list_to_map_to_list servers). by apply list_to_map_proper. }
  unfold Join. rewrite join_loop_ok; [|done| |by rewrite Hmap].
  - simpl. rewrite Hmap. rewrite bool_decide_eq_false_2; [done|].
    intros ->. simpl in Hmap. by rewrite <- Hmap in Hne.
  - intros g l Hin. rewrite Hperm in Hin. apply elem_of_map_to_list in Hin.
    eapply map_disjoint_Some_l; [exact Hdisj|done].
Qed.

(** What a configuration promises to the rest of the system. *)
Record well_formed (c : ShardConfig) : Prop := {
  wf_shards : has_shards c;
  wf_assigned : has_group c → assigned c;
  wf_balanced : balanced c;
  wf_unassigned : Groups c = ∅ → ∀ g, g ∈ Shards c → g = 0;
}.

Lemma Rebalance_well_formed c :
  has_shards c → ∃ c', Rebalance c = Done c' ∧ well_formed c' ∧ same_but_shards c c'.
Proof.
  intros Hs. destruct (Rebalance_ends c Hs) as (c' & Hrun & Hsame & Hg & Hu).
  exists c'. split_and!; try done. destruct Hsame as (_ & HG & Hlen). split.
  - unfold has_shards. by rewrite Hlen.
  - intros [g Hgg]. apply Hg. exists g. by rewrite <- HG.
  - intros g1 g2 H1 H2. apply Hg; [exists g1; by rewrite <- HG|done..].
  - rewrite HG. exact Hu.
Qed.

Lemma well_formed_checks c gs :
  well_formed c → gs ≡ₚ elements (dom (Groups c)) → CheckConfig gs c = Done ().
Proof.
  intros [Hs Ha Hb _] Hgs. apply CheckConfig_accepts; try done.
  - by apply has_shards_small.
  - rewrite Hgs. change (length (elements (dom (Groups c)))) with (size (dom (Groups c))).
    apply size_dom.
  - intros g. rewrite Hgs, elem_of_elements, elem_of_dom. done.
Qed.

(** A join of new groups succeeds; what it rebalances is the union. *)
Lemma JoinBalance_ok order servers c :
  order ≡ₚ map_to_list servers → servers ≠ ∅ → servers ##ₘ Groups c →
  disjoint_servers (servers ∪ Groups c) → has_shards c → - 2 ^ 63 <= Num c < max_int64 →
  ∃ c', JoinBalance order c = Done (true, c') ∧
    Rebalance (incr_Num (with_groups (servers ∪ Groups c) c)) = Done c' ∧
    Num c' = Num c + 1 ∧ Groups c' = servers ∪ Groups c ∧ well_formed c' ∧ has_group c'.
Proof.
  intros Hperm Hne Hdisj Hd Hs Hnum. unfold max_int64 in Hnum. unfold JoinBalance.
  rewrite (Join_ok _ _ _ Hperm Hne Hdisj Hd). simpl.
  destruct (Rebalance_well_formed (incr_Num (with_groups (servers ∪ Groups c) c)) Hs)
    as (c' & -> & Hwf & HN & HG & Hlen).
  exists c'. simpl in *. rewrite HN, HG. split_and!; try done.
  - apply int64_id. lia.
  - apply map_choose in Hne as (g & l & Hg). exists g. rewrite HG. exists l. by apply lookup_union_Some_l.
Qed.

(** (C9) Joining new groups that share no server with each other or with the
    groups there are succeeds in whatever order the map is iterated: the
    configuration gets the next number and the union of the groups, every
    shard is assigned, the load is even, and [CheckConfig] accepts. *)
Theorem JoinBalance_correct order servers c :
  order ≡ₚ map_to_list servers → servers ≠ ∅ → servers ##ₘ Groups c →
  disjoint_servers (servers ∪ Groups c) → has_shards c → - 2 ^ 63 <= Num c < max_int64 →
  ∃ c', JoinBalance order c = Done (true, c') ∧ Num c' = Num c + 1 ∧
    Groups c' = servers ∪ Groups c ∧ well_formed c' ∧ assigned c' ∧
    ∀ gs, gs ≡ₚ elements (dom (Groups c')) → CheckConfig gs c' = Done ().
Proof.
  intros Hperm Hne Hdisj Hd Hs Hnum.
  destruct (JoinBalance_ok _ _ _ Hperm Hne Hdisj Hd Hs Hnum) as (c' & -> & _ & HN & HG & Hwf & Hg).
  exists c'. split_and!; try done; [by apply wf_assigned|]. intros gs. by apply well_formed_checks.
Qed.

Lemma leave_loop_ok gids changed c :
  NoDup gids → (∀ g, g ∈ gids → is_Some (Groups c !! g)) →
  ∃ G, leave_loop gids changed c =
      inr (with_groups G c, changed || negb (bool_decide (gids = []))) ∧
    ∀ g, G !! g = if decide (g ∈ gids) then None else Groups c !! g.
Proof.
  revert changed c. induction gids as [|gid gids IH]; intros changed c Hnd Hin.
  { exists (Groups c). rewrite bool_decide_eq_true_2, orb_false_r by done.
    split; [by destruct c|]. intros g.
    rewrite decide_False; [done|]. apply not_elem_of_nil. }
  apply NoDup_cons in Hnd as [Hgid Hnd]. destruct (Hin gid) as [l Hl]; [by left|].
  cbn [leave_loop]. rewrite Hl.
  destruct (IH true (del_group gid c) Hnd) as (G & HG & Hspec).
  { intros g Hg. simpl. rewrite lookup_delete_ne by (intros ->; done). apply Hin. by right. }
  exists G. rewrite HG, orb_true_r. split; [done|]. intros g. rewrite Hspec. simpl.
  destruct (decide (g = gid)) as [->|Hne].
  - repeat case_decide; try done; [apply lookup_delete_eq|set_solver].
  - rewrite lookup_delete_ne by done. repeat case_decide; set_solver.
Qed.

Lemma LeaveBalance_ok gids c :
  NoDup gids → gids ≠ [] → (∀ g, g ∈ gids → is_Some (Groups c !! g)) →
  has_shards c → - 2 ^ 63 <= Num c < max_int64 →
  ∃ c', LeaveBalance gids c = Done (true, c') ∧ Num c' = Num c + 1 ∧
    (∀ g, Groups c' !! g = if decide (g ∈ gids) then None else Groups c !! g) ∧ well_formed c'.
Proof.
  intros Hnd Hne Hin Hs Hnum. unfold max_int64 in Hnum. unfold LeaveBalance, Leave.
  destruct (leave_loop_ok gids false c Hnd Hin) as (G & -> & HG).
  rewrite bool_decide_eq_false_2 by done. simpl.
  destruct (Rebalance_well_formed (incr_Num (with_groups G c)) Hs) as (c' & -> & Hwf & HN & HG' & Hlen).
  exists c'. simpl in *. rewrite HN, HG'. split_and!; try done. apply int64_id. lia.
Qed.

(** (C11) Removing distinct groups of the configuration succeeds: exactly those
    groups go, the number grows by one, and the shards they served are spread
    evenly over the groups that stay; with no group left every shard is
    unassigned. [CheckConfig] accepts the result in both cases. *)
Theorem LeaveBalance_correct gids c :
  NoDup gids → gids ≠ [] → (∀ g, g ∈ gids → is_Some (Groups c !! g)) →
  has_shards c → - 2 ^ 63 <= Num c < max_int64 →
  ∃ c', LeaveBalance gids c = Done (true, c') ∧ Num c' = Num c + 1 ∧
    (∀ g, Groups c' !! g = if decide (g ∈ gids) then None else Groups c !! g) ∧
    well_formed c' ∧
    ∀ gs, gs ≡ₚ elements (dom (Groups c')) → CheckConfig gs c' = Done ().
Proof.
  intros Hnd Hne Hin Hs Hnum. destruct (LeaveBalance_ok gids c Hnd Hne Hin Hs Hnum) as (c' & -> & HN & HG & Hwf).
  exists c'. split_and!; try done. intros gs. by apply well_formed_checks.
Qed.

(** ** Which shards a join moves *)

(** While one group [g] is being filled from the others: the others stay even
    among themselves, [g] stays below them, and only [g] has received shards. *)
Definition filling (g : Z) (c0 c : ShardConfig) : Prop :=
  (∀ s x, Shards c !! s = Some x → x = g ∨ Shards c0 !! s = Some x) ∧
  (∀ g1 g2, g1 ≠ g → g2 ≠ g → is_Some (Groups c0 !! g1) → is_Some (Groups c0 !! g2) →
     (count g1 (Shards c) <= count g2 (Shards c) + 1)%nat) ∧
  (∀ g1, g1 ≠ g → is_Some (Groups c0 !! g1) → (count g (Shards c) <= count g1 (Shards c) + 1)%nat).

Lemma filling_step g c0 c s mg lg :
  filling g c0 c → Groups c = Groups c0 →
  is_Some (Groups c !! mg) → is_Some (Groups c !! lg) → Shards c !! s = Some mg →
  (∀ x, is_Some (Groups c !! x) →
     (count lg (Shards c) <= count x (Shards c) <= count mg (Shards c))%nat) →
  (count lg (Shards c) + 2 <= count mg (Shards c))%nat →
  filling g c0 (set_shard s lg c).
Proof.
  intros (Hmoved & Heven & Hlow) HG Hmg Hlg Hs Hext Hgap. rewrite HG in *.
  assert (mg ≠ lg) as Hml by (intros ->; lia).
  assert (lg = g) as ->.
  { destruct (decide (lg = g)) as [|Hne]; [done|]. exfalso.
    destruct (decide (mg = g)) as [->|Hne'].
    - pose proof (Hlow lg Hne Hlg). lia.
    - pose proof (Heven mg lg Hne' Hne Hmg Hlg). lia. }
  assert (∀ x, count x (<[s := g]> (Shards c)) + (if decide (mg = x) then 1 else 0) =
               count x (Shards c) + (if decide (g = x) then 1 else 0))%nat as Hc.
  { intros x. by apply count_insert. }
  split_and!; simpl.
  - intros s' x. destruct (decide (s = s')) as [<-|].
    + rewrite list_lookup_insert_eq by (by eapply lookup_lt_Some). intros [= ->]. by left.
    + rewrite list_lookup_insert_ne by done. apply Hmoved.
  - intros g1 g2 N1 N2 H1 H2. pose proof (Hc g1) as C1. pose proof (Hc g2) as C2.
    pose proof (Heven g1 g2 N1 N2 H1 H2). pose proof (Hext g1 H1). pose proof (Hext g2 H2).
    pose proof (Heven mg g2 Hml N2 Hmg H2).
    repeat (case_decide; simplify_eq; try done); lia.
  - intros g1 N1 H1. pose proof (Hc g) as Cg. pose proof (Hc g1) as C1.
    pose proof (Hext g1 H1). pose proof (Heven mg g1 Hml N1 Hmg H1).
    repeat (case_decide; simplify_eq; try done); lia.
Qed.

(** (C10) Minimal disruption: when a group joins a configuration that is assigned
    and even, the only shards that change hands are those the new group gets. *)
Theorem join_moves_only_to_new g srvs c c' :
  has_shards c → assigned c → balanced c →
  Groups c !! g = None → disjoint_servers (<[g := srvs]> (Groups c)) →
  JoinBalance [(g, srvs)] c = Done (true, c') →
  ∀ s x, Shards c' !! s = Some x → x = g ∨ Shards c !! s = Some x.
Proof.
  intros Hs Ha Hb Hg Hd HJ.
  assert (<[g := srvs]> (Groups c) = {[g := srvs]} ∪ Groups c) as E by apply insert_union_singleton_l.
  rewrite E in Hd. unfold JoinBalance in HJ.
  rewrite (Join_ok [(g, srvs)] {[g := srvs]}) in HJ; try done.
  2:{ by rewrite map_to_list_singleton. }
  2:{ by apply map_disjoint_singleton_l_2. }
  simpl in HJ. set (c1 := incr_Num (with_groups ({[g := srvs]} ∪ Groups c) c)) in *.
  assert (∀ x, is_Some (Groups c1 !! x) ↔ x = g ∨ is_Some (Groups c !! x)) as HG.
  { intros x. simpl. rewrite <- E, lookup_insert_is_Some. destruct (decide (g = x)); naive_solver. }
  assert (has_group c1) as Hgrp by (exists g; apply HG; by left).
  assert (assigned c1) as Ha1 by (intros x Hx; apply HG; right; by apply Ha).
  destruct (Rebalance c1) as [c2| | |] eqn:HR; try done. injection HJ as <-.
  unfold Rebalance in HR. rewrite (proj1 (has_group_size c1) Hgrp) in HR.
  rewrite assign_unassigned_id in HR by done.
  assert (has_shards c1) as Hs1 by exact Hs.
  assert (filling g c1 c1) as Hfill.
  { split_and!; [by right| |].
    - intros g1 g2 N1 N2 [->|H1]%HG [->|H2]%HG; [done..|]. by apply Hb.
    - intros g1 N1 H1. destruct (decide (0 < count g (Shards c1))%nat) as [Hp|]; [|lia].
      apply count_pos, Ha in Hp. by rewrite Hg in Hp; destruct Hp. }
  change (Shards c) with (Shards c1). clear - HR Hgrp Hs1 Hfill. clearbody c1.
  destruct (move_loop_ind (filling g c1) c1 c1 move_fuel (same_refl c1) Hfill Hgrp
    (has_shards_small c1 Hs1)) as (c3 & Hrun & Hm & _).
  - intros c4 s mg lg Hf _ _ (_ & HG4 & _) Hmg Hlg Hsm Hext Hgap. by apply (filling_step g c1 c4 s mg lg).
  - exact (move_fuel_enough c1 Hs1).
  - rewrite Hrun in HR. injection HR as <-. exact (proj1 Hm).
Qed.

(** ** Routing *)
Lemma Key2Shard_range key : 0 <= Key2Shard key < NShards.
Proof.
  unfold Key2Shard, NShards. apply Z.rem_bound_pos; [|lia].
  unfold fnv32a. generalize (bytes_of key). intros l. induction l as [|b l IH] using rev_ind; [done|].
  rewrite foldl_snoc. unfold uint32. apply Z.mod_pos_bound. lia.
Qed.

(** In an assigned configuration every key is served: its shard is in range
    and [GidServers] finds a group of the configuration with its servers. *)
Theorem key_is_served key c :
  has_shards c → assigned c →
  ∃ gid srvs, GidServers (Key2Shard key) c = Done (gid, srvs, true) ∧
    Groups c !! gid = Some srvs ∧ IsMember gid c = true.
Proof.
  intros Hs Ha. pose proof (Key2Shard_range key) as Hr. unfold has_shards in Hs.
  destruct (lookup_lt_is_Some_2 (Shards c) (Z.to_nat (Key2Shard key))) as [gid Hgid]; [lia|].
  assert (gid ∈ Shards c) as Hin by (apply list_elem_of_lookup; eauto).
  destruct (Ha gid Hin) as [srvs Hsrvs]. exists gid, srvs. split_and!; [|done|].
  - unfold GidServers. rewrite <- (Z2Nat.id (Key2Shard key)) by lia.
    rewrite (slice_get_Some _ _ _ Hgid). simpl. by rewrite Hsrvs.
  - unfold IsMember. apply existsb_exists. exists gid. rewrite <- list_elem_of_In.
    split; [done|apply Z.eqb_refl].
Qed.

(** [Copy] is a deep copy: the same value. *)
Lemma Copy_eq c : Copy c = c.
Proof.
  unfold Copy. destruct c as [num sh G]. simpl.
  apply (map_fold_weak_ind (λ r m, r = mkShardConfig num sh m)); [done|].
  by intros i x m r _ ->.
Qed.

(** A refused join is not a no-op: when several groups are joined at once
    and one of them is there already, the groups the iteration met before it
    are added all the same, under the old configuration number. Whether this
    happens depends on the iteration order of the map. *)
Theorem Join_refused_partially_applied :
  ∃ c servers order1 order2 c',
    order1 ≡ₚ map_to_list servers ∧ order2 ≡ₚ map_to_list servers ∧ well_formed c ∧
    JoinBalance order1 c = Done (false, c) ∧
    JoinBalance order2 c = Done (false, c') ∧ Num c' = Num c ∧ Groups c' ≠ Groups c.
Proof.
  set (c := mkShardConfig 1 (replicate 12 1) {[ 1 := ["a"%string] ]}).
  exists c, {[ 1 := ["b"%string]; 2 := ["c"%string] ]},
    [(1, ["b"%string]); (2, ["c"%string])], [(2, ["c"%string]); (1, ["b"%string])].
  eexists. split_and!; [| | |vm_compute; reflexivity|vm_compute; reflexivity|done|done].
  - rewrite map_to_list_insert, map_to_list_singleton by done. done.
  - rewrite map_to_list_insert, map_to_list_singleton by done. apply perm_swap.
  - assert (∀ g, is_Some (Groups c !! g) → g = 1) as HG.
    { intros g Hg%elem_of_dom. change (dom (Groups c)) with ({[1]} : gset Z) in Hg. set_solver. }
    split; [done| | |done].
    + intros _ g Hg. apply elem_of_replicate in Hg as [-> _]. by exists ["a"%string].
    + intros g1 g2 ->%HG ->%HG. lia.
Qed.

(** ** Witnesses *)
Definition one_group : ShardConfig :=
  mkShardConfig 1 (replicate 12 1) {[ 1 := ["a"%string; "b"%string] ]}.

Lemma one_group_in g : is_Some (Groups one_group !! g) ↔ g = 1.
Proof.
  rewrite <- elem_of_dom. change (dom (Groups one_group)) with ({[1]} : gset Z). set_solver.
Qed.

Lemma one_group_assigned : assigned one_group.
Proof. intros g Hg. apply elem_of_replicate in Hg as [-> _]. by apply one_group_in. Qed.

Lemma one_group_balanced : balanced one_group.
Proof. intros g1 g2 ->%one_group_in ->%one_group_in. lia. Qed.

Lemma one_group_join_disjoint :
  disjoint_servers ({[ 2 := ["c"%string] ]} ∪ Groups one_group).
Proof.
  assert (Groups one_group = {[ 1 := ["a"%string; "b"%string] ]}) as -> by done.
  intros g1 g2 l1 l2 s Hne H1 H2 Hs1 Hs2.
  apply lookup_union_Some_raw in H1 as [H1|[_ H1]], H2 as [H2|[_ H2]];
    apply lookup_singleton_Some in H1 as [<- <-], H2 as [<- <-]; set_solver.
Qed.

Lemma JoinBalance_correct_witness :
  ∃ c', JoinBalance [(2, ["c"%string])] one_group = Done (true, c') ∧ Num c' = 2 ∧ assigned c' ∧
    Shards c' = [2; 2; 2; 2; 2; 2; 1; 1; 1; 1; 1; 1].
Proof.
  destruct (JoinBalance_correct [(2, ["c"%string])] {[ 2 := ["c"%string] ]} one_group)
    as (c' & Hrun & HN & _ & _ & Ha & _).
  - by rewrite map_to_list_singleton.
  - done.
  - by apply map_disjoint_singleton_l_2.
  - apply one_group_join_disjoint.
  - done.
  - split; vm_compute; congruence.
  - exists c'. refine (conj Hrun (conj HN (conj Ha _))). clear - Hrun.
    vm_compute in Hrun. by injection Hrun as <-.
Defined.

Lemma LeaveBalance_correct_witness :
  ∃ c', LeaveBalance [1] one_group = Done (true, c') ∧ CheckConfig [] c' = Done ().
Proof.
  destruct (LeaveBalance_correct [1] one_group) as (c' & Hrun & _ & HG & _ & Hc).
  - apply NoDup_singleton.
  - done.
  - intros g ->%list_elem_of_singleton. by apply one_group_in.
  - done.
  - split; vm_compute; congruence.
  - exists c'. split; [done|]. apply Hc. vm_compute in Hrun. by injection Hrun as <-.
Defined.

Lemma join_moves_only_to_new_witness :
  ∃ c', JoinBalance [(2, ["c"%string])] one_group = Done (true, c') ∧
    ∀ s x, Shards c' !! s = Some x → x = 2 ∨ Shards one_group !! s = Some x.
Proof.
  eexists. split; [vm_compute; reflexivity|].
  apply (join_moves_only_to_new 2 ["c"%string] one_group).
  - done.
  - apply one_group_assigned.
  - apply one_group_balanced.
  - done.
  - rewrite insert_union_singleton_l. apply one_group_join_disjoint.
  - vm_compute. reflexivity.
Defined.

Lemma key_is_served_witness :
  ∃ gid srvs, GidServers (Key2Shard "a") one_group = Done (gid, srvs, true) ∧
    Groups one_group !! gid = Some srvs ∧ IsMember gid one_group = true.
Proof. apply key_is_served; [done|apply one_group_assigned]. Defined.
