(* ===== verification/Labrpc.v ===== *)
(** * Labrpc: the simulated network of src/src/labrpc/labrpc.go

    Clients hold [ClientEnd]s, a [Network] connects ends to [Server]s and may
    lose, delay or reorder requests and replies, a [Server] dispatches a
    request to one of its [Service]s. The goroutines of the program are the
    steps of [exec]: a call is in a [phase], and an [action] is one atomic
    step of the network's loop, of a [processReq] goroutine, of a handler or
    of the test that configures the network. The random numbers the code
    draws are arguments of the steps.

    labgob's encoder and decoder and the handlers' receivers are parameters:
    [encode] gives the bytes and whether it succeeded, [decode] the value left
    in a fresh variable of the type and whether it succeeded. *)

From S2P Require Import Prelude.

Local Open Scope Z_scope.

Definition SHORTDELAY : Z := 27.
Definition LONGDELAY : Z := 7000.

(** ** strings.LastIndex(s, ".") *)
Definition dot : Ascii.ascii := Ascii.ascii_of_nat 46.

Fixpoint last_index (s : list Ascii.ascii) : option nat :=
  match s with
  | [] => None
  | c :: s' =>
      match last_index s' with
      | Some i => Some (S i)
      | None => if decide (c = dot) then Some O else None
      end
  end.

(** The service and the method of ["Raft.AppendEntries"]; a name with no dot
    is sliced at [-1]. *)
Definition split_svcMeth (svcMeth : string) : outcome (string * string) :=
  let s := String.list_ascii_of_string svcMeth in
  match last_index s with
  | Some i => Done (String.string_of_list_ascii (take i s), String.string_of_list_ascii (drop (S i) s))
  | None => Panic "slice bounds out of range"
  end.

(** ** Messages *)
Record replyMsg := mkReplyMsg { ok : bool; reply : list Z }.

Definition no_reply : replyMsg := mkReplyMsg false [].

(** ** The network's tables

    A server is a pointer into the heap of servers; [None] is the nil the map
    keeps for a deleted server. A client end is its name: its channels are
    the network's. *)
Record Network := mkNetwork {
  reliable : bool;
  longDelays : bool;
  longReordering : bool;
  ends : gset any;
  enabled : gmap any bool;
  servers : gmap any (option nat);
  connections : gmap any any;
  done : bool;         (* the channel is closed *)
  serving : bool;      (* the goroutine that receives requests still runs *)
  count : Z;
  bytes : Z
}.

Definition MakeNetwork : Network :=
  mkNetwork true false false ∅ ∅ ∅ ∅ false true 0 0.

Definition set_reliable x rn := mkNetwork x (longDelays rn) (longReordering rn) (ends rn)
  (enabled rn) (servers rn) (connections rn) (done rn) (serving rn) (count rn) (bytes rn).
Definition set_longDelays x rn := mkNetwork (reliable rn) x (longReordering rn) (ends rn)
  (enabled rn) (servers rn) (connections rn) (done rn) (serving rn) (count rn) (bytes rn).
Definition set_longReordering x rn := mkNetwork (reliable rn) (longDelays rn) x (ends rn)
  (enabled rn) (servers rn) (connections rn) (done rn) (serving rn) (count rn) (bytes rn).
Definition set_tables e en s c rn := mkNetwork (reliable rn) (longDelays rn) (longReordering rn) e
  en s c (done rn) (serving rn) (count rn) (bytes rn).
Definition set_channels d s rn := mkNetwork (reliable rn) (longDelays rn) (longReordering rn) (ends rn)
  (enabled rn) (servers rn) (connections rn) d s (count rn) (bytes rn).
Definition set_counters c b rn := mkNetwork (reliable rn) (longDelays rn) (longReordering rn) (ends rn)
  (enabled rn) (servers rn) (connections rn) (done rn) (serving rn) c b.

Definition Cleanup (rn : Network) : outcome Network :=
  if done rn then Panic "close of closed channel" else Done (set_channels true (serving rn) rn).

Definition Reliable (yes : bool) (rn : Network) : Network := set_reliable yes rn.
Definition IsReliable (rn : Network) : bool := reliable rn.
Definition LongReordering (yes : bool) (rn : Network) : Network := set_longReordering yes rn.
Definition LongDelays (yes : bool) (rn : Network) : Network := set_longDelays yes rn.
Definition IsLongDelays (rn : Network) : bool := longDelays rn.

Definition MakeEnd (endname : any) (rn : Network) : outcome Network :=
  if decide (endname ∈ ends rn) then Fatal "MakeEnd: already exists"
  else Done (set_tables ({[endname]} ∪ ends rn) (<[endname := false]> (enabled rn))
               (servers rn) (<[endname := any_nil]> (connections rn)) rn).

Definition DeleteEnd (endname : any) (rn : Network) : outcome Network :=
  if decide (endname ∈ ends rn) then
    Done (set_tables (ends rn ∖ {[endname]}) (delete endname (enabled rn))
            (servers rn) (delete endname (connections rn)) rn)
  else Fatal "MakeEnd: doesn't exists".

Definition AddServer (servername : any) (rs : nat) (rn : Network) : Network :=
  set_tables (ends rn) (enabled rn) (<[servername := Some rs]> (servers rn)) (connections rn) rn.
Definition DeleteServer (servername : any) (rn : Network) : Network :=
  set_tables (ends rn) (enabled rn) (<[servername := None]> (servers rn)) (connections rn) rn.
Definition Connect (endname servername : any) (rn : Network) : Network :=
  set_tables (ends rn) (enabled rn) (servers rn) (<[endname := servername]> (connections rn)) rn.
Definition Enable (endname : any) (b : bool) (rn : Network) : Network :=
  set_tables (ends rn) (<[endname := b]> (enabled rn)) (servers rn) (connections rn) rn.

Definition GetTotalCount (rn : Network) : Z := count rn.
Definition GetTotalBytes (rn : Network) : Z := bytes rn.

(** An absent key reads as the zero value of the map's element type. *)
Definition enabled_at (endname : any) (rn : Network) : bool := default false (enabled rn !! endname).
Definition server_at (servername : any) (rn : Network) : option nat := mjoin (servers rn !! servername).
Definition connection_at (endname : any) (rn : Network) : any := default any_nil (connections rn !! endname).

Definition readEndnameInfo (endname : any) (rn : Network) : bool * any * option nat * bool * bool :=
  let servername := connection_at endname rn in
  (enabled_at endname rn, servername,
   if decide (servername = any_nil) then None else server_at servername rn,
   reliable rn, longReordering rn).

Definition isServerDead (endname servername : any) (server : nat) (rn : Network) : bool :=
  negb (enabled_at endname rn) || negb (bool_decide (server_at servername rn = Some server)).

(** [rn.count += 1] and [rn.bytes += n], atomically. *)
Definition add_count (rn : Network) : Network := set_counters (int32 (count rn + 1)) (bytes rn) rn.
Definition add_bytes (n : nat) (rn : Network) : Network :=
  set_counters (count rn) (int64 (bytes rn + Z.of_nat n)) rn.

(** ** The life of a call *)
Inductive phase :=
| Sending                                   (* in the first select of Call *)
| Accepted                                  (* processReq has been started *)
| Sleeping (servername : any) (server : nat) (longreordering : bool) (ms : Z)
| Waiting (servername : any) (server : nat) (reliable longreordering : bool) (ech : option replyMsg)
| Exited (servername : any) (server : nat) (reliable longreordering : bool) (got : option replyMsg)
| Delayed (ms : Z) (counted : bool) (r : replyMsg)   (* a timer will reply *)
| Answered (r : replyMsg)                   (* on replyCh *)
| Destroyed.                                (* Call returned false: no network *)

(** [processReq] up to the request's delivery. [rand.Int()] is [r1]. *)
Definition processReq_begin (r1 : Z) (endname : any) (rn : Network) : phase :=
  let '(enabled, servername, server, reliable, longreordering) := readEndnameInfo endname rn in
  match server with
  | Some server =>
      if enabled && negb (bool_decide (servername = any_nil)) then
        if reliable then Waiting servername server reliable longreordering None
        else Sleeping servername server longreordering (Z.rem r1 SHORTDELAY)
      else Delayed (if IsLongDelays rn then Z.rem r1 LONGDELAY else Z.rem r1 100) false no_reply
  | None => Delayed (if IsLongDelays rn then Z.rem r1 LONGDELAY else Z.rem r1 100) false no_reply
  end.

(** After the short delay of an unreliable network the request may be lost. *)
Definition processReq_wake (r : Z) (servername : any) (server : nat) (longreordering : bool) : phase :=
  if Z.rem r 1000 <? 100 then Answered no_reply
  else Waiting servername server false longreordering None.

(** One iteration of the loop that waits for the handler: the handler's reply,
    or 100 ms with no reply. *)
Definition processReq_wait (timeout : bool) (endname servername : any) (server : nat)
    (reliable longreordering : bool) (ech : option replyMsg) (rn : Network) : phase :=
  if timeout then
    if isServerDead endname servername server rn
    then Exited servername server reliable longreordering None
    else Waiting servername server reliable longreordering ech
  else
    match ech with
    | Some r => Exited servername server reliable longreordering (Some r)
    | None => Waiting servername server reliable longreordering None
    end.

(** The end of [processReq]; [rand.Intn(n)] is [r mod n]. *)
Definition processReq_end (r1 r2 r3 r4 : Z) (endname servername : any) (server : nat)
    (reliable longreordering : bool) (got : option replyMsg) (rn : Network) : phase * Network :=
  let serverDead := isServerDead endname servername server rn in
  match got with
  | None => (Answered no_reply, rn)
  | Some r =>
      if serverDead then (Answered no_reply, rn)
      else if negb reliable && (Z.rem r1 1000 <? 100) then (Answered no_reply, rn)
      else if longreordering && (r2 mod 900 <? 600) then
        (Delayed (200 + r3 mod (1 + r4 mod 2000)) true r, rn)
      else (Answered r, add_bytes (length (reply r)) rn)
  end.

(** ** Servers and services *)
Section Rpc.
(** The types of arguments, the values sent, the state of the handlers'
    receivers. *)
Context {Typ Val App : Type}.
(** labgob: the bytes of a value, and a value read into a zeroed variable;
    the boolean says that there was no error. *)
Variable encode : Val → list Z * bool.
Variable decode : Typ → list Z → Val * bool.
Variable typeOf : Val → Typ.

Record reqMsg := mkReqMsg {
  endname : any;
  svcMeth : string;
  argsType : Typ;
  args : list Z
}.

(** What reflection shows of a method, and the method. *)
Record Method := mkMethod {
  PkgPath : string;
  NumIn : Z;
  In2_is_pointer : bool;
  NumOut : Z;
  Func : Val → App → outcome (Val * App)
}.

Record Service := mkService { name : string; methods : gmap string Method }.

Definition looks_like_handler (m : Method) : bool :=
  bool_decide (PkgPath m = ""%string) && (NumIn m =? 3) && In2_is_pointer m && (NumOut m =? 0).

(** The receiver's type name and its methods. *)
Definition MakeService (typeName : string) (ms : list (string * Method)) : Service :=
  mkService typeName
    (foldl (λ acc '(mname, method),
       if looks_like_handler method then <[mname := method]> acc else acc) ∅ ms).

Record Server := mkServer { services : gmap string Service; rpcs : Z }.

Definition MakeServer : Server := mkServer ∅ 0.
Definition AddService (svc : Service) (rs : Server) : Server :=
  mkServer (<[name svc := svc]> (services rs)) (rpcs rs).
Definition Server_GetCount (rs : Server) : Z := rpcs rs.

(** [Service.dispatch]: neither the decoder's error nor the encoder's is
    looked at. *)
Definition Service_dispatch (svc : Service) (methname : string) (req : reqMsg) (a : App) :
    outcome (replyMsg * App) :=
  match methods svc !! methname with
  | Some method =>
      '(replyv, a') ← Func method (decode (argsType req) (args req)).1 a;
      Done (mkReplyMsg true (encode replyv).1, a')
  | None => Fatal "labrpc.Service.dispatch(): unknown method"
  end.

Definition Server_dispatch (rs : Server) (req : reqMsg) (a : App) :
    outcome (replyMsg * Server * App) :=
  let rs := mkServer (services rs) (int64 (rpcs rs + 1)) in
  '(serviceName, methodName) ← split_svcMeth (svcMeth req);
  match services rs !! serviceName with
  | Some service =>
      '(r, a') ← Service_dispatch service methodName req a;
      Done (r, rs, a')
  | None => Fatal "labrpc.Server.dispatch(): unknown service"
  end.

(** ** The whole system

    [heap] holds the servers that were made; [calls] the calls in the order
    they were made; [executed] is ghost state: which call each server has
    executed, with what reply, the latest first. *)
Record Call := mkCall {
  req : reqMsg;
  at_phase : phase;
  handler : option nat    (* the server whose dispatch has been started *)
}.

Record World := mkWorld {
  net : Network;
  heap : list Server;
  app : App;
  calls : list Call;
  executed : list (nat * nat * replyMsg)
}.

Definition on_net (f : Network → Network) (w : World) : World :=
  mkWorld (f (net w)) (heap w) (app w) (calls w) (executed w).

(** [GetCount] of a server that was deleted, or never added, calls a method
    of a nil pointer. *)
Definition GetCount (servername : any) (w : World) : outcome Z :=
  match server_at servername (net w) with
  | Some p =>
      match heap w !! p with
      | Some svr => Done (Server_GetCount svr)
      | None => Panic "no such server"
      end
  | None => Panic "invalid memory address or nil pointer dereference"
  end.

(** The request that [Call] sends; an encoding error panics. *)
Definition Call_request (e : any) (meth : string) (arg : Val) : outcome reqMsg :=
  let '(bs, good) := encode arg in
  if (good : bool) then Done (mkReqMsg e meth (typeOf arg) bs) else Panic "encode".

(** What [Call] returns, with the value in [*reply]: [t] is its type. *)
Definition Call_result (t : Typ) (r : replyMsg) : outcome (option Val) :=
  if ok r then
    let '(v, good) := decode t (reply r) in
    if (good : bool) then Done (Some v) else Fatal "ClientEnd.Call(): decode reply"
  else Done None.

Inductive action :=
| MakeEnd_ (e : any) | DeleteEnd_ (e : any)
| AddServer_ (n : any) (p : nat) | DeleteServer_ (n : any)
| Connect_ (e n : any) | Enable_ (e : any) (b : bool)
| Reliable_ (b : bool) | LongDelays_ (b : bool) | LongReordering_ (b : bool)
| Cleanup_
| MakeServer_ | AddService_ (p : nat) (svc : Service)
| Call_ (e : any) (meth : string) (arg : Val)
| Stop                      (* the network's loop sees the closed channel *)
| Receive (i : nat)         (* the network's loop takes call i's request *)
| Refuse (i : nat)          (* call i sees the closed channel *)
| Begin (i : nat) (r1 : Z)
| Wake (i : nat) (r : Z)
| Dispatch (i : nat)        (* call i's handler runs *)
| Wait (i : nat) (timeout : bool)
| End (i : nat) (r1 r2 r3 r4 : Z)
| Fire (i : nat).           (* call i's timer *)

Definition set_call (i : nat) (p : phase) (h : option nat) (w : World) : World :=
  mkWorld (net w) (heap w) (app w) (alter (λ c, mkCall (req c) p h) i (calls w)) (executed w).

(** A step that is not enabled changes nothing. *)
Definition exec (a : action) (w : World) : outcome World :=
  let rn := net w in
  match a with
  | MakeEnd_ e => rn' ← MakeEnd e rn; Done (on_net (λ _, rn') w)
  | DeleteEnd_ e => rn' ← DeleteEnd e rn; Done (on_net (λ _, rn') w)
  | AddServer_ n p =>      (* a pointer to a server that was made *)
      Done (if decide (p < length (heap w))%nat then on_net (AddServer n p) w else w)
  | DeleteServer_ n => Done (on_net (DeleteServer n) w)
  | Connect_ e n => Done (on_net (Connect e n) w)
  | Enable_ e b => Done (on_net (Enable e b) w)
  | Reliable_ b => Done (on_net (Reliable b) w)
  | LongDelays_ b => Done (on_net (LongDelays b) w)
  | LongReordering_ b => Done (on_net (LongReordering b) w)
  | Cleanup_ => rn' ← Cleanup rn; Done (on_net (λ _, rn') w)
  | MakeServer_ => Done (mkWorld rn (heap w ++ [MakeServer]) (app w) (calls w) (executed w))
  | AddService_ p svc =>
      Done (mkWorld rn (alter (AddService svc) p (heap w)) (app w) (calls w) (executed w))
  | Call_ e meth arg =>
      rq ← Call_request e meth arg;
      Done (mkWorld rn (heap w) (app w) (calls w ++ [mkCall rq Sending None]) (executed w))
  | Stop => Done (if done rn then on_net (set_channels true false) w else w)
  | Receive i =>
      match calls w !! i with
      | Some (mkCall rq Sending h) =>
          if serving rn then
            Done (on_net (λ rn, add_bytes (length (args rq)) (add_count rn))
                    (set_call i Accepted h w))
          else Done w
      | _ => Done w
      end
  | Refuse i =>
      match calls w !! i with
      | Some (mkCall _ Sending h) => Done (if done rn then set_call i Destroyed h w else w)
      | _ => Done w
      end
  | Begin i r1 =>
      match calls w !! i with
      | Some (mkCall rq Accepted h) =>
          let p := processReq_begin r1 (endname rq) rn in
          Done (set_call i p match p with Waiting _ s _ _ _ => Some s | _ => h end w)
      | _ => Done w
      end
  | Wake i r =>
      match calls w !! i with
      | Some (mkCall _ (Sleeping n s lr _) h) =>
          let p := processReq_wake r n s lr in
          Done (set_call i p match p with Waiting _ s _ _ _ => Some s | _ => h end w)
      | _ => Done w
      end
  | Dispatch i =>
      match calls w !! i with
      | Some (mkCall rq p (Some s)) =>
          match heap w !! s with
          | Some rs =>
              '(r, rs', a') ← Server_dispatch rs rq (app w);
              let p' := match p with
                        | Waiting n s' rel lr _ => Waiting n s' rel lr (Some r)
                        | _ => p      (* nobody but the drain listens *)
                        end in
              Done (mkWorld rn (<[s := rs']> (heap w)) a'
                      (alter (λ c, mkCall (req c) p' None) i (calls w)) ((i, s, r) :: executed w))
          | None => Done w
          end
      | _ => Done w
      end
  | Wait i timeout =>
      match calls w !! i with
      | Some (mkCall rq (Waiting n s rel lr ech) h) =>
          Done (set_call i (processReq_wait timeout (endname rq) n s rel lr ech rn) h w)
      | _ => Done w
      end
  | End i r1 r2 r3 r4 =>
      match calls w !! i with
      | Some (mkCall rq (Exited n s rel lr got) h) =>
          let '(p, rn') := processReq_end r1 r2 r3 r4 (endname rq) n s rel lr got rn in
          Done (on_net (λ _, rn') (set_call i p h w))
      | _ => Done w
      end
  | Fire i =>
      match calls w !! i with
      | Some (mkCall _ (Delayed _ counted r) h) =>
          let w' := set_call i (Answered r) h w in
          Done (if (counted : bool) then on_net (add_bytes (length (reply r))) w' else w')
      | _ => Done w
      end
  end.

Definition run (acts : list action) (w : World) : outcome World := for_each acts exec w.

Definition start (a : App) : World := mkWorld MakeNetwork [] a [] [].
End Rpc.
