(* ===== verification/LabrpcSafety.v ===== *)
(** * LabrpcSafety: what the simulated network promises to its clients

    The invariant of the system of [Labrpc]: a positive reply is the reply of
    the one execution of its call, a deleted server's replies are withheld,
    every accepted call is answered, delays are bounded and the counters count
    the executions. *)

From S2P Require Import Prelude Labrpc.

Local Open Scope Z_scope.

(** ** Names *)
Lemma last_index_no_dot s : dot ∉ s → last_index s = None.
Proof.
  induction s as [|c s IH]; intros H; [done|]. apply not_elem_of_cons in H as [Hc Hs].
  simpl. rewrite (IH Hs). by rewrite decide_False.
Qed.

Lemma last_index_app s1 s2 : dot ∉ s2 → last_index (s1 ++ dot :: s2) = Some (length s1).
Proof.
  intros H. induction s1 as [|c s1 IH]; simpl.
  - by rewrite last_index_no_dot.
  - by rewrite IH.
Qed.

Lemma list_ascii_app (s1 s2 : string) :
  String.list_ascii_of_string (s1 +:+ s2) =
  String.list_ascii_of_string s1 ++ String.list_ascii_of_string s2.
Proof. induction s1 as [|c s1 IH]; simpl; [done|]. by f_equal. Qed.

Lemma split_svcMeth_app svc meth :
  dot ∉ String.list_ascii_of_string meth →
  split_svcMeth (svc +:+ "." +:+ meth) = Done (svc, meth).
Proof.
  intros H. unfold split_svcMeth. rewrite !list_ascii_app. simpl.
  change (Ascii.Ascii false true true true false true false false) with dot.
  rewrite (last_index_app _ _ H). rewrite take_app_length.
  rewrite drop_app_ge by lia. rewrite Nat.sub_succ_l, Nat.sub_diag by lia. simpl.
  by rewrite drop_0, !String.string_of_list_ascii_of_string.
Qed.

(** A request for ["Service.Method"] is split at its last dot, so that the
    service's name may hold dots and the method's may not; a request with no
    dot at all takes the server down. *)
Theorem split_svcMeth_spec s :
  match split_svcMeth s with
  | Done (svc, meth) => s = svc +:+ "." +:+ meth ∧ dot ∉ String.list_ascii_of_string meth
  | Panic _ => dot ∉ String.list_ascii_of_string s
  | _ => False
  end.
Proof.
  unfold split_svcMeth.
  assert (∀ l, match last_index l with
               | Some i => l = take i l ++ dot :: drop (S i) l ∧ dot ∉ drop (S i) l
               | None => dot ∉ l
               end) as H.
  { induction l as [|c l IH]; simpl; [by apply not_elem_of_nil|].
    destruct (last_index l) as [i|].
    - destruct IH as [IH Hd]. split; [|done]. simpl. by f_equal.
    - case_decide as E; simpl; rewrite ?drop_0; [by rewrite E|apply not_elem_of_cons; auto]. }
  specialize (H (String.list_ascii_of_string s)).
  destruct (last_index (String.list_ascii_of_string s)) as [i|]; [|exact H].
  destruct H as [H Hd]. rewrite String.list_ascii_of_string_of_list_ascii. split; [|done].
  apply (f_equal String.string_of_list_ascii) in H.
  rewrite String.string_of_list_ascii_of_string in H. rewrite H at 1. clear.
  generalize (take i (String.list_ascii_of_string s)). intros l.
  induction l as [|c l IH]; simpl; [done|]. by rewrite IH.
Qed.

(** ** What a request finds *)

(** [processReq] hands a request to a server exactly when the end is
    enabled and connected to a registered server, at once if the network is
    reliable and after less than [SHORTDELAY] ms otherwise; in every other case the
    call fails after a delay that is bounded. *)
Theorem processReq_begin_spec r1 e rn :
  0 <= r1 →
  match processReq_begin r1 e rn with
  | Waiting n s rel lr ech =>
      enabled_at e rn = true ∧ connection_at e rn = n ∧ n ≠ any_nil ∧
      server_at n rn = Some s ∧ rel = true ∧ reliable rn = true ∧ lr = longReordering rn ∧ ech = None
  | Sleeping n s lr ms =>
      enabled_at e rn = true ∧ connection_at e rn = n ∧ n ≠ any_nil ∧
      server_at n rn = Some s ∧ reliable rn = false ∧ lr = longReordering rn ∧ 0 <= ms < SHORTDELAY
  | Delayed ms counted r =>
      (enabled_at e rn = false ∨ connection_at e rn = any_nil ∨
       server_at (connection_at e rn) rn = None) ∧
      r = no_reply ∧ counted = false ∧ 0 <= ms < (if longDelays rn then LONGDELAY else 100)
  | _ => False
  end.
Proof.
  intros Hr. unfold processReq_begin, readEndnameInfo, IsLongDelays, SHORTDELAY, LONGDELAY.
  pose proof (Z.rem_bound_pos r1 27 Hr ltac:(lia)). pose proof (Z.rem_bound_pos r1 7000 Hr ltac:(lia)).
  pose proof (Z.rem_bound_pos r1 100 Hr ltac:(lia)).
  case_decide as Hn.
  - destruct (longDelays rn); naive_solver.
  - destruct (server_at (connection_at e rn) rn) as [s|] eqn:Es;
      [|destruct (longDelays rn); naive_solver].
    rewrite bool_decide_eq_false_2 by done.
    destruct (enabled_at e rn) eqn:Ee; simpl; [|destruct (longDelays rn); naive_solver].
    destruct (reliable rn) eqn:Er; naive_solver.
Qed.

Lemma alter_snoc {A} (f : A → A) (l : list A) x : alter f (length l) (l ++ [x]) = l ++ [f x].
Proof. induction l as [|y l IH]; [done|]. simpl. f_equal. apply IH. Qed.

Lemma lookup_last {A} (l : list A) x : (l ++ [x]) !! length l = Some x.
Proof. apply lookup_snoc_Some. by right. Qed.

Section Rpc.
Context {Typ Val App : Type}.
Variable encode : Val → list Z * bool.
Variable decode : Typ → list Z → Val * bool.
Variable typeOf : Val → Typ.

Abbreviation World := (@World Typ Val App).
Abbreviation Call := (@Call Typ).
Abbreviation exec := (@exec Typ Val App encode decode typeOf).
Abbreviation run := (@run Typ Val App encode decode typeOf).

Lemma run_app acts1 acts2 (w : World) :
  run (acts1 ++ acts2) w = (w' ← run acts1 w; run acts2 w').
Proof. apply for_each_app. Qed.

(** How often server [s] has executed a call. *)
Definition executions (s : nat) (log : list (nat * nat * replyMsg)) : nat :=
  length (filter (λ x, x.1.2 = s) log).

Lemma executions_cons s i s' r log :
  executions s ((i, s', r) :: log) =
  ((if decide (s' = s) then 1 else 0) + executions s log)%nat.
Proof. unfold executions. rewrite filter_cons. cbn. by case_decide. Qed.

Definition was_executed (i : nat) (w : World) : Prop := i ∈ (executed w).*1.*1.

(** ** The invariant *)
Definition call_ok (w : World) (i : nat) (c : Call) : Prop :=
  (∀ s, handler c = Some s → ¬ was_executed i w ∧ (s < length (heap w))%nat) ∧
  match at_phase c with
  | Sending | Accepted | Destroyed => handler c = None ∧ ¬ was_executed i w
  | Sleeping _ s _ ms =>
      handler c = None ∧ ¬ was_executed i w ∧ (s < length (heap w))%nat
  | Waiting _ s _ _ None => handler c = Some s
  | Waiting _ s _ _ (Some r) | Exited _ s _ _ (Some r) =>
      handler c = None ∧ (i, s, r) ∈ executed w
  | Exited _ _ _ _ None => True
  | Delayed _ _ r | Answered r => ok r = true → ∃ s, (i, s, r) ∈ executed w
  end.

Record Inv (w : World) : Prop := {
  inv_calls : ∀ i c, calls w !! i = Some c → call_ok w i c;
  inv_servers : ∀ n s, server_at n (net w) = Some s → (s < length (heap w))%nat;
  inv_ids : ∀ i s r, (i, s, r) ∈ executed w → (i < length (calls w))%nat ∧ (s < length (heap w))%nat;
  inv_once : NoDup (executed w).*1.*1;
  inv_rpcs : ∀ s rs, heap w !! s = Some rs → rpcs rs = int64 (Z.of_nat (executions s (executed w)))
}.

Lemma was_executed_intro i s r (w : World) : (i, s, r) ∈ executed w → was_executed i w.
Proof. intros H. unfold was_executed. apply list_elem_of_fmap. exists (i, s). split; [done|].
  apply list_elem_of_fmap. by exists (i, s, r). Qed.

Lemma was_executed_lt i (w : World) : Inv w → was_executed i w → (i < length (calls w))%nat.
Proof.
  intros HI. unfold was_executed. intros ([i' s] & -> & ([[i'' s'] r] & [= -> ->] & H)%list_elem_of_fmap)%list_elem_of_fmap.
  by destruct (inv_ids w HI _ _ _ H).
Qed.

Lemma start_Inv a : Inv (start a).
Proof. split; simpl; [done| |by intros ????%not_elem_of_nil|constructor|done].
  intros n s. by unfold server_at, MakeNetwork; simpl; rewrite lookup_empty. Qed.

(** Steps that only change the network's tables. *)
Lemma on_net_Inv f (w : World) :
  (∀ n s, server_at n (f (net w)) = Some s → (s < length (heap w))%nat) → Inv w → Inv (on_net f w).
Proof. intros Hf [H1 H2 H3 H4 H5]. by split. Qed.

(** Steps that move one call to another phase, [h] being its handler. *)
Lemma set_call_Inv i c p h (w : World) :
  calls w !! i = Some c → call_ok w i (mkCall (req c) p h) → Inv w → Inv (set_call i p h w).
Proof.
  intros Hi Hc [H1 H2 H3 H4 H5]. split; try done; simpl.
  - intros j c' Hj. destruct (decide (i = j)) as [<-|Hne].
    + rewrite list_lookup_alter_eq, Hi in Hj. injection Hj as <-. exact Hc.
    + rewrite list_lookup_alter_ne in Hj by done. exact (H1 j c' Hj).
  - intros j s r Hj. rewrite length_alter. eauto.
Qed.

Lemma processReq_begin_ok r1 rq h i (w : World) :
  calls w !! i = Some (mkCall rq Accepted h) → Inv w →
  call_ok w i (mkCall rq (processReq_begin r1 (endname rq) (net w))
    (match processReq_begin r1 (endname rq) (net w) with Waiting _ s _ _ _ => Some s | _ => h end)).
Proof.
  intros Hi HI. destruct (inv_calls w HI i _ Hi) as [_ [Hh Hex]]. simpl in Hh. subst h.
  unfold processReq_begin, readEndnameInfo. case_decide; [by split|].
  destruct (server_at _ _) as [s|] eqn:Es; [|by split].
  apply (inv_servers w HI) in Es.
  destruct (_ && _); [|by split]. destruct (reliable _); split; simpl; try done.
  by intros s' [= <-].
Qed.

Lemma processReq_wake_ok r rq n s lr ms h i (w : World) :
  calls w !! i = Some (mkCall rq (Sleeping n s lr ms) h) → Inv w →
  call_ok w i (mkCall rq (processReq_wake r n s lr)
    (match processReq_wake r n s lr with Waiting _ s _ _ _ => Some s | _ => h end)).
Proof.
  intros Hi HI. destruct (inv_calls w HI i _ Hi) as [_ (Hh & Hex & Hs)]. simpl in Hh. subst h.
  unfold processReq_wake. destruct (_ <? _); split; simpl; try done. by intros s' [= <-].
Qed.

Lemma processReq_wait_ok timeout rq n s rel lr ech h i (w : World) :
  calls w !! i = Some (mkCall rq (Waiting n s rel lr ech) h) → Inv w →
  call_ok w i (mkCall rq (processReq_wait timeout (endname rq) n s rel lr ech (net w)) h).
Proof.
  intros Hi HI. pose proof (inv_calls w HI i _ Hi) as [Hh Hc].
  unfold processReq_wait. destruct timeout, (isServerDead (endname rq) n s (net w)), ech as [r|]; by split.
Qed.

Lemma processReq_end_servers r1 r2 r3 r4 e n s rel lr got rn p rn' :
  processReq_end r1 r2 r3 r4 e n s rel lr got rn = (p, rn') → ∀ m, server_at m rn' = server_at m rn.
Proof.
  unfold processReq_end. intros E m. destruct got; [|by injection E as _ <-].
  repeat case_match; by injection E as _ <-.
Qed.

Lemma processReq_end_ok r1 r2 r3 r4 rq n s rel lr got h i (w : World) :
  calls w !! i = Some (mkCall rq (Exited n s rel lr got) h) → Inv w →
  call_ok w i (mkCall rq (processReq_end r1 r2 r3 r4 (endname rq) n s rel lr got (net w)).1 h) ∧
  ∀ m, server_at m (processReq_end r1 r2 r3 r4 (endname rq) n s rel lr got (net w)).2 =
       server_at m (net w).
Proof.
  intros Hi HI. pose proof (inv_calls w HI i _ Hi) as [Hh Hc]. unfold processReq_end.
  destruct got as [r|]; [|by split]. simpl in Hc. destruct Hc as [Hn Hex].
  destruct (isServerDead _ _ _ _); [by split|]. destruct (_ && _); [by split|].
  destruct (_ && _); (split; [split; [done|simpl; eauto]|done]).
Qed.

Lemma dispatch_Inv i rq p s rs r rs' a' (w : World) :
  calls w !! i = Some (mkCall rq p (Some s)) → heap w !! s = Some rs →
  Server_dispatch encode decode rs rq (app w) = Done (r, rs', a') → Inv w →
  Inv (mkWorld (net w) (<[s := rs']> (heap w)) a'
        (alter (λ c, mkCall (req c) match p with
                            | Waiting n s' rel lr _ => Waiting n s' rel lr (Some r)
                            | _ => p
                            end None) i (calls w)) ((i, s, r) :: executed w)).
Proof.
  intros Hi Hs Hd HI. pose proof (inv_calls w HI i _ Hi) as [Hh Hc]. simpl in Hh, Hc.
  destruct (Hh s eq_refl) as [Hfresh Hlt].
  assert (rpcs rs' = int64 (rpcs rs + 1)) as Hrpcs.
  { unfold Server_dispatch in Hd. apply bind_Done in Hd as ([svc m] & _ & Hd).
    simpl in Hd. destruct (services rs !! svc); [|done]. by apply bind_Done in Hd as ([r0 a0] & _ & [= _ <- _]). }
  split; cbn [net heap app calls executed].
  - intros j c Hj. destruct (decide (i = j)) as [<-|Hne].
    + rewrite list_lookup_alter_eq, Hi in Hj. injection Hj as <-. split; [done|]. cbn.
      destruct p as [| |n s' lr ms|n s' rel lr [r'|]|n s' rel lr [r'|]|ms ct r'|r'|]; cbn in Hc |- *;
        try (destruct Hc; done); try done.
      * injection Hc as <-. split; [done|]. by left.
      * intros Hok. destruct (Hc Hok) as [s' Hin]. exists s'. by right.
      * intros Hok. destruct (Hc Hok) as [s' Hin]. exists s'. by right.
    + rewrite list_lookup_alter_ne in Hj by done.
      destruct (inv_calls w HI j c Hj) as [Hh' Hc']. unfold call_ok, was_executed. cbn [executed heap].
      rewrite length_insert. change (((i, s, r) :: executed w).*1.*1) with (i :: (executed w).*1.*1).
      assert (∀ P : Prop, ¬ was_executed j w ∧ P → (j ∉ i :: (executed w).*1.*1) ∧ P) as Hkeep.
      { intros P [Hw HP]. split; [|done]. by apply not_elem_of_cons. }
      split; [by intros s' Hs'; apply Hkeep, Hh'|].
      destruct (at_phase c) as [| |n s' lr ms|n s' rel lr [r'|]|n s' rel lr [r'|]|ms ct r'|r'|];
        try done; try (destruct Hc' as [? Hc']; split; [done|]).
      all: try (by apply not_elem_of_cons). all: try (by apply Hkeep). all: try (by right).
      all: intros Hok; destruct (Hc' Hok) as [s' Hin]; exists s'; by right.
  - intros n s' Hn. rewrite length_insert. by eapply inv_servers.
  - intros j s' r' [[= -> -> ->]|Hj]%elem_of_cons; rewrite length_alter, length_insert.
    + split; [by eapply lookup_lt_Some|done].
    + by eapply inv_ids.
  - cbn. constructor; [exact Hfresh|]. apply (inv_once w HI).
  - intros s' rs0. rewrite executions_cons.
    destruct (decide (s = s')) as [<-|Hne].
    + rewrite list_lookup_insert_eq by done. intros [= <-]. rewrite Hrpcs, (inv_rpcs w HI s rs Hs).
      rewrite int64_add_wrap. f_equal. lia.
    + rewrite list_lookup_insert_ne by done. apply (inv_rpcs w HI).
Qed.

Lemma server_at_insert n m x en e c (rn : Network) :
  server_at m (set_tables en e (<[n := x]> (servers rn)) c rn) =
  if decide (n = m) then x else server_at m rn.
Proof.
  unfold server_at. simpl. case_decide as E; [subst; by rewrite lookup_insert_eq|].
  by rewrite lookup_insert_ne.
Qed.

Lemma on_net_keep f (w : World) :
  (∀ n, server_at n (f (net w)) = server_at n (net w)) → Inv w → Inv (on_net f w).
Proof. intros Hf HI. apply on_net_Inv; [|done]. intros n s. rewrite Hf. apply (inv_servers w HI). Qed.

Lemma executions_none s log : (∀ i r, (i, s, r) ∉ log) → executions s log = 0%nat.
Proof.
  induction log as [|[[i s'] r] log IH]; intros H; [done|]. rewrite executions_cons.
  rewrite decide_False, IH; [done| |].
  - intros i' r' Hin. apply (H i' r'). by right.
  - intros ->. apply (H i r). by left.
Qed.

(** Servers may be added to the heap, and services to a server. *)
Lemma heap_change_Inv h' (w : World) :
  Inv w → (length (heap w) <= length h')%nat →
  (∀ s rs', h' !! s = Some rs' → rpcs rs' = default 0 (rpcs <$> heap w !! s)) →
  Inv (mkWorld (net w) h' (app w) (calls w) (executed w)).
Proof.
  intros [H1 H2 H3 H4 H5] Hle Hr.
  split; cbn [net heap app calls executed]; try done.
  - intros i c Hi. destruct (H1 i c Hi) as [Hh Hc]. unfold call_ok, was_executed. cbn.
    split; [intros s Hs; destruct (Hh s Hs); split; [done|lia]|].
    destruct (at_phase c) as [| |n s lr ms|n s rel lr [r|]|n s rel lr [r|]|ms ct r|r|]; try done.
    destruct Hc as (? & ? & ?). split_and!; [done..|lia].
  - intros n s Hn. pose proof (H2 n s Hn). lia.
  - intros i s r Hi. destruct (H3 i s r Hi). split; [done|lia].
  - intros s rs' Hs. rewrite (Hr s rs' Hs). destruct (heap w !! s) as [rs0|] eqn:E.
    + by apply H5.
    + apply lookup_ge_None in E. simpl. rewrite executions_none; [done|].
      intros i r Hin. destruct (H3 i s r Hin). lia.
Qed.

Lemma new_call_Inv rq (w : World) :
  Inv w → Inv (mkWorld (net w) (heap w) (app w) (calls w ++ [mkCall rq Sending None]) (executed w)).
Proof.
  intros HI. pose proof HI as [H1 H2 H3 H4 H5].
  split; cbn [net heap app calls executed]; try done.
  - intros i c [[_ Hi]|[-> <-]]%lookup_snoc_Some; [by apply H1|].
    split; [done|]. split; [done|]. intros H%(was_executed_lt _ w HI). lia.
  - intros i s r Hi. destruct (H3 i s r Hi). rewrite length_app. split; [lia|done].
Qed.

(** A step of the call [i]: it is enabled in one phase only. *)
Ltac at_call H Hi :=
  lazymatch type of H with
  | context [calls ?w !! ?i] =>
      destruct (calls w !! i) as [[?rq [] ?h]|] eqn:Hi; try (by injection H as <-); try injection H as <-
  end.

Lemma exec_Inv a w w' : Inv w → exec a w = Done w' → Inv w'.
Proof.
  intros HI.
  destruct a; simpl; unfold MakeEnd, DeleteEnd, Cleanup; intros Hrun.
  all: try (injection Hrun as <-; apply on_net_keep; done).
  - case_decide; [done|]. injection Hrun as <-. by apply on_net_keep.
  - case_decide; [|done]. injection Hrun as <-. by apply on_net_keep.
  - injection Hrun as <-. case_decide as Hp; [|done]. apply on_net_Inv; [|done].
    intros m s. unfold AddServer. rewrite server_at_insert.
    case_decide; [by intros [= <-]|apply (inv_servers w HI)].
  - injection Hrun as <-. apply on_net_Inv; [|done].
    intros m s. unfold DeleteServer. rewrite server_at_insert.
    case_decide; [done|apply (inv_servers w HI)].
  - destruct (Labrpc.done (net w)); [done|]. injection Hrun as <-. by apply on_net_keep.
  - injection Hrun as <-. apply heap_change_Inv; [done|rewrite length_app; lia|].
    intros s rs [[_ ->]|[-> <-]]%lookup_snoc_Some; [done|].
    by rewrite lookup_ge_None_2.
  - injection Hrun as <-. apply heap_change_Inv; [done|by rewrite length_alter|].
    intros s rs Hs. destruct (decide (p = s)) as [<-|Hne].
    + rewrite list_lookup_alter_eq in Hs. destruct (heap w !! p); [|done]. by injection Hs as <-.
    + rewrite list_lookup_alter_ne in Hs by done. by rewrite Hs.
  - apply bind_Done in Hrun as (rq & _ & [= <-]). by apply new_call_Inv.
  - injection Hrun as <-. destruct (Labrpc.done (net w)); [|done]. by apply on_net_keep.
  - at_call Hrun Hi.
    destruct (serving (net w)); [|by injection Hrun as <-]. injection Hrun as <-.
    apply on_net_keep; [done|]. eapply set_call_Inv; [done|exact (inv_calls w HI i _ Hi)|done].
  - at_call Hrun Hi. destruct (Labrpc.done (net w)); [|done].
    eapply set_call_Inv; [done|exact (inv_calls w HI i _ Hi)|done].
  - at_call Hrun Hi. eapply set_call_Inv; [done|by apply processReq_begin_ok|done].
  - at_call Hrun Hi. eapply set_call_Inv; [done|by eapply processReq_wake_ok|done].
  - destruct (calls w !! i) as [[rq p [s|]]|] eqn:Hi; try by injection Hrun as <-.
    destruct (heap w !! s) as [rs|] eqn:Hs; [|by injection Hrun as <-].
    apply bind_Done in Hrun as ([[r rs'] a'] & Hd & [= <-]). by eapply dispatch_Inv.
  - at_call Hrun Hi. eapply set_call_Inv; [done|by apply processReq_wait_ok|done].
  - at_call Hrun Hi.
    destruct (processReq_end_ok r1 r2 r3 r4 _ _ _ _ _ _ _ _ _ Hi HI) as [Hok Hkeep].
    destruct (processReq_end _ _ _ _ _ _ _ _ _ _ _) as [p rn']. injection Hrun as <-.
    apply on_net_keep; [exact Hkeep|]. eapply set_call_Inv; [done|exact Hok|done].
  - at_call Hrun Hi.
    assert (Inv (set_call i (Answered r) h w)) as HI'.
    { eapply set_call_Inv; [done| |done]. by destruct (inv_calls w HI i _ Hi) as [Hh Hc]. }
    destruct counted; [|done]. by apply on_net_keep.
Qed.

Lemma run_Inv acts w w' : Inv w → run acts w = Done w' → Inv w'.
Proof. intros HI Hrun. eapply (for_each_ind Inv); [exact HI| |exact Hrun]. intros; by eapply exec_Inv. Qed.

(** (C12) In every run, each call is executed at most once, a caller that gets
    a positive reply gets what the one execution of its call replied, and
    the RPC count of a server is its number of executions (modulo 2^64). *)
Theorem positive_reply_was_executed acts a w :
  run acts (start a) = Done w →
  NoDup (executed w).*1.*1 ∧
  (∀ i c r, calls w !! i = Some c → at_phase c = Answered r → ok r = true →
     ∃ s, (i, s, r) ∈ executed w) ∧
  (∀ n s k, server_at n (net w) = Some s → GetCount n w = Done k →
     k = int64 (Z.of_nat (executions s (executed w)))).
Proof.
  intros Hrun. pose proof (run_Inv acts _ w (start_Inv a) Hrun) as HI. split_and!.
  - apply (inv_once w HI).
  - intros i c r Hi Hp Hok. destruct (inv_calls w HI i c Hi) as [_ Hc]. rewrite Hp in Hc. by apply Hc.
  - intros n s k Hn. unfold GetCount. rewrite Hn.
    destruct (heap w !! s) as [rs|] eqn:Hs; [|done]. intros [= <-]. by apply (inv_rpcs w HI).
Qed.

(** ** Deleted servers *)

(** Call [i] is on its way to or from server [s], or has failed. *)
Definition doomed (s : nat) (p : phase) : Prop :=
  match p with
  | Sleeping _ s' _ _ | Waiting _ s' _ _ _ | Exited _ s' _ _ _ => s' = s
  | Answered r => r = no_reply
  | _ => False
  end.

Definition withheld (i s : nat) (w : World) : Prop :=
  (∀ n, server_at n (net w) ≠ Some s) ∧ ∃ c, calls w !! i = Some c ∧ doomed s (at_phase c).

Lemma withheld_on_net f i s (w : World) :
  (∀ n, server_at n (f (net w)) = Some s → server_at n (net w) = Some s) →
  withheld i s w → withheld i s (on_net f w).
Proof. intros Hf [Hn Hc]. split; [|done]. intros n H. by apply (Hn n), Hf. Qed.

Lemma withheld_set_call i s j c p h (w : World) :
  calls w !! j = Some c → (doomed s (at_phase c) → doomed s p) →
  withheld i s w → withheld i s (set_call j p h w).
Proof.
  intros Hj Hp [Hn (c' & Hi & Hc')]. split; [done|]. simpl.
  destruct (decide (j = i)) as [<-|Hne].
  - rewrite list_lookup_alter_eq, Hj. simplify_eq. eexists. split; [done|]. by apply Hp.
  - rewrite list_lookup_alter_ne by done. by exists c'.
Qed.

Lemma doomed_wake r n s' lr ms s : doomed s (Sleeping n s' lr ms) → doomed s (processReq_wake r n s' lr).
Proof. unfold processReq_wake. by destruct (_ <? _). Qed.

Lemma doomed_wait t e n s' rel lr ech rn s :
  doomed s (Waiting n s' rel lr ech) → doomed s (processReq_wait t e n s' rel lr ech rn).
Proof. unfold processReq_wait. destruct t, ech; try done; by destruct (isServerDead e n s' rn). Qed.

Lemma doomed_end r1 r2 r3 r4 e n s' rel lr got rn s :
  (∀ m, server_at m rn ≠ Some s) → doomed s (Exited n s' rel lr got) →
  processReq_end r1 r2 r3 r4 e n s' rel lr got rn = (Answered no_reply, rn).
Proof.
  intros Hn. simpl. intros ->. unfold processReq_end, isServerDead.
  rewrite bool_decide_eq_false_2 by done. rewrite orb_true_r. by destruct got.
Qed.

Lemma exec_withheld i s a w w' :
  (∀ n, a ≠ AddServer_ n s) → withheld i s w → exec a w = Done w' → withheld i s w'.
Proof.
  intros Ha HW. pose proof HW as [Hn _].
  destruct a; simpl; unfold MakeEnd, DeleteEnd, Cleanup; intros Hrun.
  all: try (injection Hrun as <-; by apply withheld_on_net).
  - case_decide; [done|]. injection Hrun as <-. by apply withheld_on_net.
  - case_decide; [|done]. injection Hrun as <-. by apply withheld_on_net.
  - injection Hrun as <-. case_decide; [|done]. apply withheld_on_net; [|done]. intros m.
    unfold AddServer. rewrite server_at_insert. case_decide; [|done]. intros [= ->]. by destruct (Ha n).
  - injection Hrun as <-. apply withheld_on_net; [|done]. intros m.
    unfold DeleteServer. rewrite server_at_insert. by case_decide.
  - destruct (Labrpc.done (net w)); [done|]. injection Hrun as <-. by apply withheld_on_net.
  - injection Hrun as <-. exact HW.
  - injection Hrun as <-. exact HW.
  - apply bind_Done in Hrun as (rq & _ & [= <-]). destruct HW as [_ (c & Hi & Hc)].
    split; [done|]. exists c. split; [|done]. by apply lookup_app_l_Some.
  - injection Hrun as <-. destruct (Labrpc.done (net w)); [|done]. by apply withheld_on_net.
  - at_call Hrun Hi.
    destruct (serving (net w)); [|by injection Hrun as <-]. injection Hrun as <-.
    apply withheld_on_net; [done|]. by eapply withheld_set_call.
  - at_call Hrun Hi. destruct (Labrpc.done (net w)); [|done]. by eapply withheld_set_call.
  - at_call Hrun Hi. by eapply withheld_set_call.
  - at_call Hrun Hi. eapply withheld_set_call; [done| |done]. apply doomed_wake.
  - destruct (calls w !! i0) as [[rq p [s0|]]|] eqn:Hi; try by injection Hrun as <-.
    destruct (heap w !! s0) as [rs|] eqn:Hs; [|by injection Hrun as <-].
    apply bind_Done in Hrun as ([[r rs'] a'] & _ & [= <-]).
    apply (withheld_set_call i s i0 _ (match p with
        | Waiting n s' rel lr _ => Waiting n s' rel lr (Some r) | _ => p end) None w Hi) in HW; [exact HW|].
    by destruct p.
  - at_call Hrun Hi. eapply withheld_set_call; [done| |done]. apply doomed_wait.
  - at_call Hrun Hi.
    destruct (processReq_end r1 r2 r3 r4 _ _ _ _ _ _ _) as [p rn'] eqn:E. injection Hrun as <-.
    apply withheld_on_net.
    + intros m. simpl. by rewrite <- (processReq_end_servers _ _ _ _ _ _ _ _ _ _ _ _ _ E m).
    + eapply withheld_set_call; [done| |done]. intros Hd.
      rewrite (doomed_end _ _ _ _ _ _ _ _ _ _ _ s Hn Hd) in E. by injection E as <- _.
  - at_call Hrun Hi.
    assert (withheld i s (set_call i0 (Answered r) h w)) as HW'.
    { by eapply withheld_set_call. }
    destruct counted; [|done]. by apply withheld_on_net.
Qed.

(** (C13) Once a server is not registered under any name (it was deleted, or
    replaced by [AddServer]), no call that is with it ever gets a positive
    reply, whatever else happens, until it is registered again: what the
    replaced server wrote to its old persister is never acknowledged. *)
Theorem deleted_server_never_answers acts w w' i c s :
  (∀ n, server_at n (net w) ≠ Some s) → calls w !! i = Some c → doomed s (at_phase c) →
  (∀ n, AddServer_ n s ∉ acts) → run acts w = Done w' →
  ∃ c', calls w' !! i = Some c' ∧
    ∀ r, at_phase c' = Answered r ∨ (∃ ms b, at_phase c' = Delayed ms b r) → ok r = false.
Proof.
  intros Hn Hi Hd Hacts Hrun.
  assert (withheld i s w') as [_ (c' & Hi' & Hd')].
  { eapply (for_each_ind (withheld i s)); [by split; eauto| |exact Hrun].
    intros a w1 w2 Ha. apply exec_withheld. intros n ->. by apply (Hacts n). }
  exists c'. split; [done|]. intros r [Hr|(ms & b & Hr)]; rewrite Hr in Hd'; [|done].
  simpl in Hd'. by subst.
Qed.

(** ** Progress *)

(** How many of the six kinds of step are still ahead of a call. *)
Definition ahead (p : phase) : nat :=
  match p with
  | Sending | Destroyed => 7
  | Accepted => 6
  | Sleeping _ _ _ _ => 5
  | Waiting _ _ _ _ None => 4
  | Waiting _ _ _ _ (Some _) => 3
  | Exited _ _ _ _ _ => 2
  | Delayed _ _ _ => 1
  | Answered _ => 0
  end.

(** The step that brings call [i] to at most [k] steps from its answer. *)
Definition advances (i k : nat) (a : @action Val App) : Prop :=
  match a with
  | Begin j _ => j = i ∧ k = 5%nat
  | Wake j _ => j = i ∧ k = 4%nat
  | Dispatch j => j = i ∧ k = 3%nat
  | Wait j timeout => j = i ∧ timeout = false ∧ k = 2%nat
  | End j _ _ _ _ => j = i ∧ k = 1%nat
  | Fire j => j = i ∧ k = 0%nat
  | _ => False
  end.

(** Every server's handler for the request of [c] returns. *)
Definition handler_returns (c : Call) (w : World) : Prop :=
  ∀ rs, rs ∈ heap w → is_done (Server_dispatch encode decode rs (req c) (app w)) = true.

Definition within (i k : nat) (rq : reqMsg) (w : World) : Prop :=
  Inv w ∧ ∃ c, calls w !! i = Some c ∧ req c = rq ∧ (ahead (at_phase c) <= k)%nat ∧
    ((4 <= k)%nat → handler_returns c w).

Lemma set_call_within i k c p h (w : World) :
  calls w !! i = Some c → Inv (set_call i p h w) → (ahead p <= k)%nat →
  ((4 <= k)%nat → handler_returns c w) → within i k (req c) (set_call i p h w).
Proof.
  intros Hi HI Hp Hr. split; [done|]. exists (mkCall (req c) p h). simpl.
  rewrite list_lookup_alter_eq, Hi. split_and!; done.
Qed.

Lemma on_net_within f i k rq (w : World) :
  (∀ n, server_at n (f (net w)) = server_at n (net w)) → within i k rq w → within i k rq (on_net f w).
Proof. intros Hf [HI Hc]. split; [by apply on_net_keep|exact Hc]. Qed.

Lemma ahead_begin r1 e rn : (ahead (processReq_begin r1 e rn) <= 5)%nat.
Proof. unfold processReq_begin, readEndnameInfo. repeat case_match; simpl; lia. Qed.
Lemma ahead_wake r n s lr : (ahead (processReq_wake r n s lr) <= 4)%nat.
Proof. unfold processReq_wake. case_match; simpl; lia. Qed.
Lemma ahead_end r1 r2 r3 r4 e n s rel lr got rn :
  (ahead (processReq_end r1 r2 r3 r4 e n s rel lr got rn).1 <= 1)%nat.
Proof. unfold processReq_end. repeat case_match; simpl; lia. Qed.

Lemma within_skip i k rq c (w : World) :
  within i (S k) rq w → calls w !! i = Some c → (ahead (at_phase c) <= k)%nat → within i k rq w.
Proof.
  intros [HI (c' & Hi & Hrq & _ & Hr)] Hi' Ha. rewrite Hi in Hi'. injection Hi' as ->.
  split; [done|]. exists c. split_and!; try done. intros. apply Hr. lia.
Qed.

Ltac skipping := eexists; split; [reflexivity|]; eapply within_skip; [done..|simpl; repeat case_match; lia].
Ltac moved Hi Hnext := eexists; split; [reflexivity|]; apply (set_call_within _ _ _ _ _ _ Hi); [by apply Hnext| |].

Lemma exec_within i k a rq (w : World) :
  advances i k a → within i (S k) rq w → ∃ w', exec a w = Done w' ∧ within i k rq w'.
Proof.
  intros Ha HW. pose proof HW as [HI (c & Hi & Hrq & Hahead & Hret)].
  assert (∀ w', exec a w = Done w' → Inv w') as Hnext by (intros w'; by apply exec_Inv).
  destruct a; try done; simpl in Ha; destruct Ha as [-> Ha];
    [subst k|subst k|subst k|destruct Ha as [-> ->]|subst k|subst k];
    simpl in Hnext |- *; rewrite Hi in Hnext |- *; destruct c as [rq' p h]; simpl in Hrq, Hahead; subst rq'.
  - destruct p; try (simpl in Hahead; lia); try skipping.
    moved Hi Hnext; [apply ahead_begin|intros; apply Hret; lia].
  - destruct p; try (simpl in Hahead; lia); try skipping.
    moved Hi Hnext; [apply ahead_wake|intros; apply Hret; lia].
  - pose proof (inv_calls w HI i _ Hi) as [Hh Hc].
    destruct h as [s|].
    + destruct (Hh s eq_refl) as [_ Hlt]. apply lookup_lt_is_Some in Hlt as [rs Hs].
      rewrite Hs in Hnext |- *.
      assert (rs ∈ heap w) as Hin by (by apply list_elem_of_lookup; exists s).
      pose proof (Hret ltac:(lia) rs Hin) as Hd. simpl in Hd.
      destruct (Server_dispatch encode decode rs rq (app w)) as [[[r rs'] a']| | |]; try done.
      simpl in Hnext |- *. eexists. split; [reflexivity|]. split; [by apply Hnext|]. simpl.
      rewrite list_lookup_alter_eq, Hi. eexists. split; [reflexivity|]. split; [done|].
      split; [|lia]. simpl. destruct p as [| | |n s' rel lr ech| | | |]; simpl in *; try lia; try naive_solver.
    + destruct p as [| | |n s' rel lr [r|]| | | |]; try (simpl in Hahead; lia); try skipping; simpl in Hc; naive_solver.
  - destruct p as [| | |n s' rel lr [r|]| | | |]; try (simpl in Hahead; lia); try skipping.
    moved Hi Hnext; [simpl; lia|lia].
  - destruct p as [| | |? ? ? ? [|]|n s rel lr got| | |]; try (simpl in Hahead; lia); try skipping.
    pose proof (ahead_end r1 r2 r3 r4 (endname rq) n s rel lr got (net w)) as Hle.
    destruct (processReq_end_ok r1 r2 r3 r4 _ _ _ _ _ _ _ _ _ Hi HI) as [Hok Hkeep].
    destruct (processReq_end r1 r2 r3 r4 (endname rq) n s rel lr got (net w)) as [p rn'].
    eexists. split; [reflexivity|]. apply on_net_within; [exact Hkeep|].
    apply (set_call_within _ _ _ _ _ _ Hi); [|exact Hle|lia].
    by apply (set_call_Inv _ _ _ _ _ Hi).
  - destruct p as [| | |? ? ? ? [|]| |ms counted r| |]; try (simpl in Hahead; lia); try skipping.
    assert (within i 0 rq (set_call i (Answered r) h w)) as HW'.
    { apply (set_call_within _ _ _ _ _ _ Hi); [|simpl; lia|lia].
      apply (set_call_Inv _ _ _ _ _ Hi); [|done]. exact (inv_calls w HI i _ Hi). }
    eexists. split; [reflexivity|]. destruct counted; [by apply on_net_within|done].
Qed.

Lemma run_within i rq (acts : list (@action Val App)) : ∀ k w,
  (length acts <= k)%nat → (∀ j a, acts !! j = Some a → advances i (k - S j) a) →
  within i k rq w → ∃ w', run acts w = Done w' ∧ within i (k - length acts) rq w'.
Proof.
  induction acts as [|a acts IH]; intros k w Hk Hacts HW; simpl.
  - exists w. by rewrite Nat.sub_0_r.
  - simpl in Hk. destruct k as [|k]; [lia|].
    destruct (exec_within i k a rq w) as (w1 & Hw1 & HW1); [|done|].
    { pose proof (Hacts 0%nat a eq_refl) as H. by rewrite Nat.sub_succ, Nat.sub_0_r in H. }
    unfold run. simpl. rewrite Hw1. apply IH; [lia| |done].
    intros j b Hj. exact (Hacts (S j) b Hj).
Qed.

(** (C14) Progress: a call the network has accepted can always be brought to
    its answer by its own six steps, whatever has happened before (its end
    disabled, its server deleted) and whatever numbers are drawn, provided
    the handlers return. *)
Theorem accepted_call_is_answered acts a w i c r1 r2 r3 r4 r5 r6 :
  run acts (start a) = Done w → calls w !! i = Some c →
  at_phase c ≠ Sending → at_phase c ≠ Destroyed → handler_returns c w →
  ∃ w' c' r,
    run [Begin i r1; Wake i r2; Dispatch i; Wait i false; End i r3 r4 r5 r6; Fire i] w = Done w' ∧
    calls w' !! i = Some c' ∧ at_phase c' = Answered r.
Proof.
  intros Hrun Hi Hs Hd Hret.
  destruct (run_within i (req c) [Begin i r1; Wake i r2; Dispatch i; Wait i false; End i r3 r4 r5 r6; Fire i]
    6 w) as (w' & Hw' & _ & c' & Hi' & _ & Hahead & _).
  - simpl. lia.
  - intros [|[|[|[|[|[|j]]]]]] b Hj; simpl in Hj; simplify_eq; simpl; auto.
  - split; [exact (run_Inv acts _ w (start_Inv a) Hrun)|]. exists c. split_and!; try done.
    destruct (at_phase c) as [| | |? ? ? ? []| | | |]; try done; simpl; lia.
  - exists w', c'. destruct (at_phase c') as [| | |? ? ? ? []| | |r|]; simpl in Hahead; try lia. by exists r.
Qed.

(** ** Delivery *)

Lemma Server_dispatch_ok (rs : @Server Val App) svc m (rq : @reqMsg Typ) svcname meth arg v a a' :
  svcMeth rq = svcname +:+ "." +:+ meth → dot ∉ String.list_ascii_of_string meth →
  services rs !! svcname = Some svc → methods svc !! meth = Some m →
  decode (argsType rq) (args rq) = (arg, true) → Func m arg a = Done (v, a') →
  Server_dispatch encode decode rs rq a =
    Done (mkReplyMsg true (encode v).1, mkServer (services rs) (int64 (rpcs rs + 1)), a').
Proof.
  intros Hrq Hdot Hsvc Hm Hdec Hf. unfold Server_dispatch. rewrite Hrq, split_svcMeth_app by done.
  simpl. rewrite Hsvc. unfold Service_dispatch. rewrite Hm, Hdec. simpl. by rewrite Hf.
Qed.

(** The steps of the call that was made last. *)
Lemma receive_last rn hp a cs rq h ex :
  serving rn = true →
  exec (Receive (length cs)) (mkWorld rn hp a (cs ++ [mkCall rq Sending h]) ex) =
    Done (mkWorld (add_bytes (length (args rq)) (add_count rn)) hp a (cs ++ [mkCall rq Accepted h]) ex).
Proof.
  intros Hs. cbn [Labrpc.exec net calls]. rewrite lookup_last, Hs.
  unfold on_net, set_call. cbn [net calls heap app executed]. by rewrite alter_snoc.
Qed.

Lemma begin_last r1 rn hp a cs rq h ex s :
  enabled_at (endname rq) rn = true → connection_at (endname rq) rn ≠ any_nil →
  server_at (connection_at (endname rq) rn) rn = Some s →
  reliable rn = true → longReordering rn = false →
  exec (Begin (length cs) r1) (mkWorld rn hp a (cs ++ [mkCall rq Accepted h]) ex) =
    Done (mkWorld rn hp a
      (cs ++ [mkCall rq (Waiting (connection_at (endname rq) rn) s true false None) (Some s)]) ex).
Proof.
  intros Hen Hcon Hs Hrel Hlr. cbn [Labrpc.exec net calls]. rewrite lookup_last.
  unfold processReq_begin, readEndnameInfo.
  rewrite decide_False, Hen, Hs, bool_decide_eq_false_2, Hrel, Hlr by done.
  unfold set_call. cbn [net calls heap app executed negb andb]. by rewrite alter_snoc.
Qed.

Lemma dispatch_last rn hp a cs rq n rel lr ech s rs ex r rs' a' :
  hp !! s = Some rs → Server_dispatch encode decode rs rq a = Done (r, rs', a') →
  exec (Dispatch (length cs)) (mkWorld rn hp a (cs ++ [mkCall rq (Waiting n s rel lr ech) (Some s)]) ex) =
    Done (mkWorld rn (<[s := rs']> hp) a' (cs ++ [mkCall rq (Waiting n s rel lr (Some r)) None])
            ((length cs, s, r) :: ex)).
Proof.
  intros Hs Hd. cbn [Labrpc.exec calls heap app]. rewrite lookup_last, Hs, Hd.
  cbn [mbind outcome_bind net calls executed]. by rewrite alter_snoc.
Qed.

Lemma wait_last rn hp a cs rq n s rel lr r h ex :
  exec (Wait (length cs) false) (mkWorld rn hp a (cs ++ [mkCall rq (Waiting n s rel lr (Some r)) h]) ex) =
    Done (mkWorld rn hp a (cs ++ [mkCall rq (Exited n s rel lr (Some r)) h]) ex).
Proof.
  cbn [Labrpc.exec calls]. rewrite lookup_last.
  unfold set_call. cbn [net calls heap app executed processReq_wait]. by rewrite alter_snoc.
Qed.

Lemma end_last r1 r2 r3 r4 rn hp a cs rq n s r h ex :
  enabled_at (endname rq) rn = true → server_at n rn = Some s →
  exec (End (length cs) r1 r2 r3 r4) (mkWorld rn hp a (cs ++ [mkCall rq (Exited n s true false (Some r)) h]) ex) =
    Done (mkWorld (add_bytes (length (reply r)) rn) hp a (cs ++ [mkCall rq (Answered r) h]) ex).
Proof.
  intros Hen Hs. cbn [Labrpc.exec calls net]. rewrite lookup_last.
  unfold processReq_end, isServerDead. rewrite Hen, Hs, bool_decide_eq_true_2 by done.
  unfold on_net, set_call. cbn [negb andb orb net calls heap app executed]. by rewrite alter_snoc.
Qed.

(** The five steps of the call that was made last, on a reliable network, and the world after them. *)
Lemma call_last r1 r2 r3 r4 r5 rn hp a cs rq h ex s rs svc svcname m meth arg v a' :
  reliable rn = true → longReordering rn = false → serving rn = true →
  enabled_at (endname rq) rn = true → connection_at (endname rq) rn ≠ any_nil →
  server_at (connection_at (endname rq) rn) rn = Some s → hp !! s = Some rs →
  svcMeth rq = svcname +:+ "." +:+ meth → dot ∉ String.list_ascii_of_string meth →
  services rs !! svcname = Some svc → methods svc !! meth = Some m →
  decode (argsType rq) (args rq) = (arg, true) → Func m arg a = Done (v, a') →
  let i := length cs in let r := mkReplyMsg true (encode v).1 in
  run [Receive i; Begin i r1; Dispatch i; Wait i false; End i r2 r3 r4 r5] (mkWorld rn hp a (cs ++ [mkCall rq Sending h]) ex) =
    Done (mkWorld (add_bytes (length (reply r)) (add_bytes (length (args rq)) (add_count rn)))
      (<[s := mkServer (services rs) (int64 (rpcs rs + 1))]> hp) a' (cs ++ [mkCall rq (Answered r) None]) ((i, s, r) :: ex)).
Proof.
  intros Hrel Hlr Hsv Hen Hcon Hs Hrs Hmeth Hdot Hsvc Hm Hdec Hf i r. subst i r. unfold run. cbn [for_each].
  rewrite receive_last by done. cbn [mbind outcome_bind]. erewrite begin_last by done. cbn [mbind outcome_bind].
  erewrite dispatch_last; [|exact Hrs|by eapply Server_dispatch_ok]. cbn [mbind outcome_bind].
  rewrite wait_last. cbn [mbind outcome_bind]. by rewrite end_last.
Qed.

(** With a reliable network and no reordering, a call on an enabled end
    connected to a registered server executes the method on the value that
    was sent and returns what the method replied: remote calls behave like
    local ones. labgob is assumed to read back what it wrote. *)
Theorem Call_delivers w e n s rs svcname svc meth m arg v a' t r1 r2 r3 r4 r5 :
  reliable (net w) = true → longReordering (net w) = false → serving (net w) = true →
  enabled_at e (net w) = true → connection_at e (net w) = n → n ≠ any_nil →
  server_at n (net w) = Some s → heap w !! s = Some rs →
  services rs !! svcname = Some svc → methods svc !! meth = Some m →
  dot ∉ String.list_ascii_of_string meth →
  (encode arg).2 = true → decode (typeOf arg) (encode arg).1 = (arg, true) →
  decode t (encode v).1 = (v, true) →
  Func m arg (app w) = Done (v, a') →
  let i := length (calls w) in
  ∃ w' c r,
    run [Call_ e (svcname +:+ "." +:+ meth) arg; Receive i; Begin i r1; Dispatch i; Wait i false;
         End i r2 r3 r4 r5] w = Done w' ∧
    app w' = a' ∧ calls w' !! i = Some c ∧ at_phase c = Answered r ∧
    Call_result decode t r = Done (Some v) ∧ executed w' = (i, s, r) :: executed w ∧
    GetCount n w' = Done (int64 (rpcs rs + 1)) ∧ count (net w') = int32 (count (net w) + 1).
Proof.
  intros Hrel Hlr Hsv Hen Hcon Hn Hs Hrs Hsvc Hm Hdot Henc Hdec Hdecr Hf i. subst i.
  destruct (encode arg) as [bs good] eqn:Ea. simpl in Henc, Hdec. subst good n.
  set (rq := mkReqMsg e (svcname +:+ "." +:+ meth) (typeOf arg) bs).
  assert (exec (Call_ e (svcname +:+ "." +:+ meth) arg) w =
    Done (mkWorld (net w) (heap w) (app w) (calls w ++ [mkCall rq Sending None]) (executed w))) as Hcall.
  { simpl. unfold Call_request. by rewrite Ea. }
  eexists _, _, (mkReplyMsg true (encode v).1). split.
  { unfold run. cbn [for_each]. rewrite Hcall. cbn [mbind outcome_bind].
    exact (call_last r1 r2 r3 r4 r5 (net w) (heap w) (app w) (calls w) rq None (executed w) s rs svc svcname m meth arg v a'
      Hrel Hlr Hsv Hen Hn Hs Hrs eq_refl Hdot Hsvc Hm Hdec Hf). }
  split_and!; [done|apply lookup_last|reflexivity|..]; try done.
  - unfold Call_result. simpl. by rewrite Hdecr.
  - unfold GetCount. change (server_at _ _) with (server_at (connection_at e (net w)) (net w)).
    rewrite Hs. cbn [heap]. by rewrite list_lookup_insert_eq by (by eapply lookup_lt_Some).
Qed.
End Rpc.

(** ** A concrete network

    One service [S] with one method [Add] on a counter; numbers are encoded as
    themselves. *)
Definition enc (v : Z) : list Z * bool := ([v], true).
Definition dec (t : unit) (bs : list Z) : Z * bool := match bs with [v] => (v, true) | _ => (0, false) end.
Definition ty (v : Z) : unit := ().

Definition adder : @Service Z Z :=
  MakeService "S" [("Add"%string, mkMethod "" 3 true 0 (λ v a, Done (a + v, a + v)));
                   ("add"%string, mkMethod "main" 3 true 0 (λ v a, Done (v, a)))].

Definition setup : list (@action Z Z) :=
  [MakeServer_; AddService_ 0 adder; AddServer_ (any_string "srv") 0;
   MakeEnd_ (any_string "e"); Connect_ (any_string "e") (any_string "srv"); Enable_ (any_string "e") true].

Definition add_call : list (@action Z Z) := [Call_ (any_string "e") "S.Add" 5; Receive 0].

Definition run_adder (acts : list (@action Z Z)) : outcome (@World unit Z Z) :=
  run enc dec ty acts (start 0).

Definition world_of (acts : list (@action Z Z)) : @World unit Z Z :=
  match run_adder acts with Done w => w | _ => start 0 end.

(** A negative reply does not tell whether the call was executed: with no
    server deleted and no end disabled, an unreliable network can execute a
    call and drop its reply. *)
Theorem failed_call_may_have_executed :
  ∃ acts w c s r,
    (∀ n, DeleteServer_ n ∉ acts) ∧ (∀ e, Enable_ e false ∉ acts) ∧
    run_adder acts = Done w ∧ calls w !! 0%nat = Some c ∧ at_phase c = Answered no_reply ∧
    (0%nat, s, r) ∈ executed w ∧ app w = 5.
Proof.
  set (acts := setup ++ add_call ++
    [Reliable_ false; Begin 0 3; Wake 0 500; Dispatch 0; Wait 0 false; End 0 50 0 0 0]).
  exists acts, (world_of acts),
    (mkCall (mkReqMsg (any_string "e") "S.Add" () [5]) (Answered no_reply) None), 0%nat, (mkReplyMsg true [5]).
  split_and!.
  - intros n H. repeat (apply elem_of_cons in H as [H|H]; [discriminate|]). by apply not_elem_of_nil in H.
  - intros e H. repeat (apply elem_of_cons in H as [H|H]; [discriminate|]). by apply not_elem_of_nil in H.
  - vm_compute. reflexivity.
  - vm_compute. reflexivity.
  - vm_compute. reflexivity.
  - vm_compute. by left.
  - vm_compute. reflexivity.
Qed.

Lemma processReq_begin_spec_witness :
  let e := any_string "e" in
  let n := any_string "srv" in
  let rn := net (world_of (setup ++ [Reliable_ false])) in
  processReq_begin 30 e rn = Sleeping n 0 false 3 ∧
  (enabled_at e rn = true ∧ connection_at e rn = n ∧ n ≠ any_nil ∧
   server_at n rn = Some 0%nat ∧ reliable rn = false ∧ false = longReordering rn ∧ 0 <= 3 < SHORTDELAY).
Proof.
  intros e n rn.
  assert (H : processReq_begin 30 e rn = Sleeping n 0 false 3) by (vm_compute; reflexivity).
  split; [exact H|].
  pose proof (processReq_begin_spec 30 e rn) as Hspec. rewrite H in Hspec. apply Hspec. lia.
Defined.

Lemma positive_reply_was_executed_witness :
  let w := world_of (setup ++ add_call ++ [Begin 0 0; Dispatch 0; Wait 0 false; End 0 0 0 0 0]) in
  (∃ s, (0%nat, s, mkReplyMsg true [5]) ∈ executed w) ∧ GetCount (any_string "srv") w = Done 1.
Proof.
  set (acts := setup ++ add_call ++ [Begin 0 0; Dispatch 0; Wait 0 false; End 0 0 0 0 0]). intros w.
  destruct (positive_reply_was_executed enc dec ty acts 0 w) as (_ & H & _).
  - vm_compute. reflexivity.
  - split; [|vm_compute; reflexivity]. eapply (H 0%nat); [vm_compute; reflexivity|reflexivity|reflexivity].
Defined.

Lemma deleted_server_never_answers_witness :
  let w := world_of (setup ++ add_call ++ [Begin 0 0; DeleteServer_ (any_string "srv")]) in
  ∃ w' c', run enc dec ty [Dispatch 0; Wait 0 false; End 0 0 0 0 0] w = Done w' ∧
    calls w' !! 0%nat = Some c' ∧ at_phase c' = Answered no_reply ∧
    ∀ r, at_phase c' = Answered r ∨ (∃ ms b, at_phase c' = Delayed ms b r) → ok r = false.
Proof.
  intros w.
  assert (∃ w', run enc dec ty [Dispatch 0; Wait 0 false; End 0 0 0 0 0] w = Done w' ∧
    ∃ c', calls w' !! 0%nat = Some c' ∧ at_phase c' = Answered no_reply) as (w' & Hrun & c1 & H1 & H2).
  { eexists. split; [vm_compute; reflexivity|]. eexists. split; reflexivity. }
  assert (∃ c, calls w !! 0%nat = Some c ∧ doomed 0 (at_phase c)) as (c & Hc & Hd).
  { eexists. split; vm_compute; reflexivity. }
  assert (∀ n, server_at n (net w) ≠ Some 0%nat) as Hn.
  { intros n. unfold server_at. change (servers (net w)) with ({[any_string "srv" := @None nat]} : gmap any (option nat)).
    destruct (decide (any_string "srv" = n)) as [<-|Hne];
      [by rewrite lookup_singleton_eq|by rewrite lookup_singleton_ne]. }
  destruct (deleted_server_never_answers enc dec ty [Dispatch 0; Wait 0 false; End 0 0 0 0 0] w w' 0 c 0 Hn Hc Hd)
    as (c' & Hc' & Hr); [|exact Hrun|].
  { intros n H. repeat (apply elem_of_cons in H as [H|H]; [discriminate|]). by apply not_elem_of_nil in H. }
  rewrite H1 in Hc'. injection Hc' as <-. exists w', c1. exact (conj Hrun (conj H1 (conj H2 Hr))).
Defined.

Lemma accepted_call_is_answered_witness :
  let w := world_of (setup ++ add_call ++ [Begin 0 0]) in
  ∃ w' c' r, run enc dec ty [Begin 0 1; Wake 0 2; Dispatch 0; Wait 0 false; End 0 3 4 5 6; Fire 0] w = Done w' ∧
    calls w' !! 0%nat = Some c' ∧ at_phase c' = Answered r.
Proof.
  intros w.
  assert (∃ c, calls w !! 0%nat = Some c ∧ at_phase c = Waiting (any_string "srv") 0 true false None ∧
    handler_returns enc dec c w) as (c & Hc & Hp & Hh).
  { eexists. split; [vm_compute; reflexivity|]. split; [reflexivity|].
    intros rs Hrs. vm_compute in Hrs. apply list_elem_of_singleton in Hrs as ->. reflexivity. }
  apply (accepted_call_is_answered enc dec ty (setup ++ add_call ++ [Begin 0 0]) 0 w 0 c).
  - vm_compute. reflexivity.
  - exact Hc.
  - by rewrite Hp.
  - by rewrite Hp.
  - exact Hh.
Defined.

Lemma Call_delivers_witness :
  let w := world_of setup in
  ∃ w' c r, run enc dec ty [Call_ (any_string "e") "S.Add" 5; Receive 0; Begin 0 1; Dispatch 0; Wait 0 false;
    End 0 2 3 4 5] w = Done w' ∧ app w' = 5 ∧ calls w' !! 0%nat = Some c ∧ at_phase c = Answered r ∧
    Call_result dec () r = Done (Some 5).
Proof.
  intros w.
  destruct (Call_delivers enc dec ty w (any_string "e") (any_string "srv") 0
    (mkServer {["S"%string := adder]} 0) "S" adder "Add" (mkMethod "" 3 true 0 (λ v a, Done (a + v, a + v)))
    5 5 5 () 1 2 3 4 5)
    as (w' & c & r & H1 & H2 & H3 & H4 & H5 & _).
  all: try (vm_compute; reflexivity).
  - discriminate.
  - by apply (bool_decide_eq_true_1 _); vm_compute.
  - exists w', c, r. by split_and!.
Defined.
