(* ===== verification/Group.v ===== *)
(** * Group: the tester's groups of servers (src/src/tester1/group.go, srv.go
    and the groups of config.go)

    A [ServerGrp] owns the servers of one group: for each the ends it uses to
    reach its peers, its persister and its services. The group connects,
    partitions, shuts down and restarts its servers by enabling ends, deleting
    servers and copying persisters. The network and the labrpc servers are
    those of [Labrpc], the persisters those of [Persister].

    The services are made by the program under test: their type, the function
    [mks] that makes them, their [Kill] and the methods that reflection finds
    in them are parameters. The random names of new ends are drawn from
    [rand]. *)

From stdpp Require Import pretty.
From S2P Require Import Prelude Persister Labrpc.

Local Open Scope Z_scope.

(** ["server-" + strconv.Itoa(int(gid)) + "-" + strconv.Itoa(i)] *)
Definition ServerName (gid i : Z) : string := "server-" +:+ pretty gid +:+ "-" +:+ pretty i.

(** The indices [0 .. n-1], as [range] or a counting loop visits them. *)
Definition indices (n : nat) : list Z := Z.of_nat <$> seq 0 n.

Section Tester.
Context {Typ Val A Svc : Type}.
Variable mks : list string → Z → Z → nat → Store → A → outcome (list (option Svc) * Store * A).
Variable Kill : Svc → Store → A → outcome (Store * A).
Variable service_of : Svc → @Service Val A.

Abbreviation World := (@World Typ Val A).

(** The network, the servers registered on it, the services' state and the
    persisters. *)
Record Tester := mkTester { world : World; store : Store }.

Definition with_net (rn : Network) (T : Tester) : Tester := mkTester (on_net (λ _, rn) (world T)) (store T).
Definition with_app (a : A) (T : Tester) : Tester :=
  let w := world T in mkTester (mkWorld (net w) (heap w) a (calls w) (executed w)) (store T).
Definition with_store (st : Store) (T : Tester) : Tester := mkTester (world T) st.
Definition with_heap (h : list (@Server Val A)) (T : Tester) : Tester :=
  let w := world T in mkTester (mkWorld (net w) h (app w) (calls w) (executed w)) (store T).
Definition tnet (T : Tester) : Network := net (world T).

(** ** srv.go *)
Record Srv := mkSrv {
  saved : option nat;                 (* the persister, nil before the first start *)
  svcs : list (option Svc);
  endNames : option (list string);
  clntEnds : list string
}.

Definition makeServer (rand : nat → string) (gid : Z) (nsrv : nat) (rn : Network) :
    outcome (Srv * Network) :=
  rn' ← for_each (seq 0 nsrv) (λ j rn,
          rn1 ← MakeEnd (any_string (rand j)) rn;
          Done (Connect (any_string (rand j)) (any_string (ServerName gid (Z.of_nat j))) rn1)) rn;
  let names := rand <$> seq 0 nsrv in
  Done (mkSrv None [] (Some names) names, rn').

(** [s.endNames[j]] *)
Definition end_name (s : Srv) (j : Z) : outcome string :=
  match endNames s with
  | Some names => slice_get names j
  | None => Panic "index out of range"
  end.

Definition startServer (rand : nat → string) (s : Srv) (gid : Z) (T : Tester) :
    outcome (Srv * nat * Tester) :=
  '(srv, rn) ← makeServer rand gid (length (default [] (endNames s))) (tnet T);
  '(p, st) ← match saved s with
             | Some p => Copy p (store T)
             | None => Done (MakePersister (store T))
             end;
  Done (mkSrv (Some p) (svcs srv) (endNames srv) (clntEnds srv), p, with_store st (with_net rn T)).

(** [connect] of srv.go; [connected] is the group's. *)
Definition Srv_connect (s : Srv) (connected : list bool) (to : list Z) (rn : Network) : outcome Network :=
  for_each to (λ t rn,
    b ← slice_get connected t;
    if (b : bool) then name ← end_name s t; Done (Enable (any_string name) true rn) else Done rn) rn.

Definition Srv_disconnect (s : Srv) (from : list Z) (rn : Network) : outcome Network :=
  match endNames s with
  | None => Done rn
  | Some _ => for_each from (λ f rn, name ← end_name s f; Done (Enable (any_string name) false rn)) rn
  end.

Definition shutdownServer (s : Srv) (T : Tester) : outcome (Srv * Tester) :=
  '(saved', st) ← match saved s with
                  | Some p => '(p', st) ← Copy p (store T); Done (Some p', st)
                  | None => Done (None, store T)
                  end;
  '(st, a) ← for_each (svcs s) (λ svc '(st, a), match svc with Some svc => Kill svc st a | None => Done (st, a) end)
               (st, app (world T));
  Done (mkSrv saved' [] (endNames s) (clntEnds s), with_app a (with_store st T)).

(** ** group.go *)
Record ServerGrp := mkServerGrp {
  srvs : list Srv;
  servernames : list string;
  gid : Z;
  connected : list bool
}.

Definition set_srvs l (sg : ServerGrp) := mkServerGrp l (servernames sg) (gid sg) (connected sg).
Definition set_connected l (sg : ServerGrp) := mkServerGrp (srvs sg) (servernames sg) (gid sg) l.

(** [rand k j] is the [j]-th name drawn for the [k]-th server made. *)
Definition makeSrvGrp (rand : nat → nat → string) (g : Z) (n : nat) (rn : Network) :
    outcome (ServerGrp * Network) :=
  '(ss, rn') ← for_each (seq 0 n) (λ i '(ss, rn),
                 '(s, rn1) ← makeServer (rand i) g n rn; Done (ss ++ [s], rn1)) ([], rn);
  Done (mkServerGrp ss (ServerName g <$> indices n) g (replicate n false), rn').

Definition N (sg : ServerGrp) : Z := Z.of_nat (length (srvs sg)).
Definition SrvNames (sg : ServerGrp) : list string := servernames sg.
Definition SrvName (sg : ServerGrp) (i : Z) : outcome string := slice_get (servernames sg) i.
Definition Services (sg : ServerGrp) : list (list (option Svc)) := svcs <$> srvs sg.
Definition SrvNamesTo (sg : ServerGrp) (to : list Z) : outcome (list string) :=
  for_each to (λ i ns, n ← slice_get (servernames sg) i; Done (ns ++ [n])) [].
Definition all (sg : ServerGrp) : list Z := indices (length (srvs sg)).
Definition IsConnected (sg : ServerGrp) (i : Z) : outcome bool := slice_get (connected sg) i.
Definition GetConnected (sg : ServerGrp) : list bool := connected sg.

Definition connect (i : Z) (to : list Z) (sg : ServerGrp) (rn : Network) : outcome (ServerGrp * Network) :=
  conn ← slice_set (connected sg) i true;
  let sg := set_connected conn sg in
  s ← slice_get (srvs sg) i;
  rn ← Srv_connect s (connected sg) to rn;
  rn ← for_each to (λ t rn,
         b ← IsConnected sg t;
         if (b : bool) then
           st ← slice_get (srvs sg) t;
           name ← end_name st i;
           Done (Enable (any_string name) true rn)
         else Done rn) rn;
  Done (sg, rn).

Definition disconnect (i : Z) (from : list Z) (sg : ServerGrp) (rn : Network) : outcome (ServerGrp * Network) :=
  conn ← slice_set (connected sg) i false;
  let sg := set_connected conn sg in
  s ← slice_get (srvs sg) i;
  rn ← Srv_disconnect s from rn;
  rn ← for_each from (λ f rn,
         s ← slice_get (srvs sg) f;
         match endNames s with
         | Some _ => name ← end_name s i; Done (Enable (any_string name) false rn)
         | None => Done rn
         end) rn;
  Done (sg, rn).

Definition ConnectOne (i : Z) (sg : ServerGrp) (rn : Network) := connect i (all sg) sg rn.
Definition ConnectAll (sg : ServerGrp) (rn : Network) : outcome (ServerGrp * Network) :=
  for_each (all sg) (λ i '(sg, rn), ConnectOne i sg rn) (sg, rn).
Definition DisconnectAll (i : Z) (sg : ServerGrp) (rn : Network) := disconnect i (all sg) sg rn.

(** [cleanup]: unlike in [shutdownServer], a nil service is called. *)
Definition cleanup (sg : ServerGrp) (m : Store * A) : outcome (Store * A) :=
  for_each (srvs sg) (λ s m,
    for_each (svcs s) (λ svc '(st, a),
      match svc with Some svc => Kill svc st a | None => Panic "nil pointer dereference" end) m) m.

Definition max_size (size : nat → Store → outcome Z) (sg : ServerGrp) (st : Store) : outcome Z :=
  for_each (srvs sg) (λ s m,
    match saved s with
    | Some p => n ← size p st; Done (if m <? n then n else m)
    | None => Panic "nil pointer dereference"
    end) 0.
Definition LogSize := max_size RaftStateSize.
Definition SnapshotSize := max_size Persister.SnapshotSize.

Definition StartServer (rand : nat → string) (i : Z) (sg : ServerGrp) (T : Tester) :
    outcome (ServerGrp * Tester) :=
  s ← slice_get (srvs sg) i;
  '(srv, p, T) ← startServer rand s (gid sg) T;
  '(sv, st, a) ← mks (clntEnds srv) (gid sg) i p (store T) (app (world T));
  let T := with_app a (with_store st T) in
  l ← slice_set (srvs sg) i (mkSrv (saved srv) sv (endNames srv) (clntEnds srv));
  labsrv ← for_each sv (λ svc ls, match svc with
                                  | Some svc => Done (AddService (service_of svc) ls)
                                  | None => Panic "MakeService of nil"
                                  end) MakeServer;
  let q := length (heap (world T)) in
  let T := with_heap (heap (world T) ++ [labsrv]) T in
  Done (set_srvs l sg, with_net (AddServer (any_string (ServerName (gid sg) i)) q (tnet T)) T).

Definition start (rand : nat → nat → string) (sg : ServerGrp) (T : Tester) : outcome (ServerGrp * Tester) :=
  for_each (seq 0 (length (srvs sg))) (λ i '(sg, T), StartServer (rand i) (Z.of_nat i) sg T) (sg, T).

Definition StartServers (rand : nat → nat → string) (sg : ServerGrp) (T : Tester) : outcome (ServerGrp * Tester) :=
  '(sg, T) ← start rand sg T;
  '(sg, rn) ← ConnectAll sg (tnet T);
  Done (sg, with_net rn T).

Definition ShutdownServer (i : Z) (sg : ServerGrp) (T : Tester) : outcome (ServerGrp * Tester) :=
  '(sg, rn) ← disconnect i (all sg) sg (tnet T);
  let T := with_net (DeleteServer (any_string (ServerName (gid sg) i)) rn) T in
  s ← slice_get (srvs sg) i;
  '(s, T) ← shutdownServer s T;
  l ← slice_set (srvs sg) i s;
  Done (set_srvs l sg, T).

Definition Shutdown (sg : ServerGrp) (T : Tester) : outcome (ServerGrp * Tester) :=
  for_each (all sg) (λ i '(sg, T), ShutdownServer i sg T) (sg, T).

(** The loop of [MakePartition] over [i], with [p1], [p2] and [j]. *)
Definition fill_partition (l : Z) : list Z → list Z * list Z * Z → outcome (list Z * list Z * Z) :=
  λ xs, for_each xs (λ i '(p1, p2, j),
    if i =? l then Done (p1, p2, j)
    else if j <? Z.of_nat (length p1) then p1 ← slice_set p1 j i; Done (p1, p2, j + 1)
    else p2 ← slice_set p2 (j - Z.of_nat (length p1)) i; Done (p1, p2, j + 1)).

Definition MakePartition (l : Z) (sg : ServerGrp) : outcome (list Z * list Z) :=
  let n := length (srvs sg) in
  let p1 := replicate (n / 2 + 1)%nat 0 in
  let p2 := replicate (n / 2)%nat 0 in
  '(p1, p2, _) ← fill_partition l (indices n) (p1, p2, 0);
  p2 ← slice_set p2 (Z.of_nat (length p2) - 1) l;
  Done (p1, p2).

(** One of the two loops of [Partition]. *)
Definition partition_side (mine other : list Z) : ServerGrp * Network → outcome (ServerGrp * Network) :=
  for_each mine (λ i '(sg, rn),
    '(sg, rn) ← disconnect i other sg rn; connect i mine sg rn).

Definition Partition (p1 p2 : list Z) (sg : ServerGrp) (rn : Network) : outcome (ServerGrp * Network) :=
  s ← partition_side p1 p2 (sg, rn); partition_side p2 p1 s.

Definition RpcCount (server : Z) (sg : ServerGrp) (T : Tester) : outcome Z :=
  GetCount (any_string (ServerName (gid sg) server)) (world T).

(** ** The groups of a configuration; an absent group is a nil pointer *)
Abbreviation Groups := (gmap Z ServerGrp).

Definition MakeGroup rand (g : Z) (n : nat) (gs : Groups) (T : Tester) : outcome (Groups * Tester) :=
  '(sg, rn) ← makeSrvGrp rand g n (tnet T); Done (<[g := sg]> gs, with_net rn T).

Definition lookupGroup (g : Z) (gs : Groups) : outcome ServerGrp :=
  match gs !! g with Some sg => Done sg | None => Panic "nil pointer dereference" end.

Definition Groups_cleanup (order : list Z) (gs : Groups) (m : Store * A) : outcome (Store * A) :=
  for_each order (λ g m, match gs !! g with Some sg => cleanup sg m | None => Done m end) m.

Definition MakeGroupStart rand1 rand2 (g : Z) (nsrv : nat) (gs : Groups) (T : Tester) : outcome (Groups * Tester) :=
  '(gs, T) ← MakeGroup rand1 g nsrv gs T;
  sg ← lookupGroup g gs;
  '(sg, T) ← StartServers rand2 sg T;
  Done (<[g := sg]> gs, T).

Definition ExitGroup (g : Z) (gs : Groups) (T : Tester) : outcome (Groups * Tester) :=
  sg ← lookupGroup g gs;
  '(_, T) ← Shutdown sg T;
  Done (delete g gs, T).
End Tester.
