(* ===== verification/GroupProps.v ===== *)
(** * GroupProps: partitions, restarts and names of the groups of [Group] *)

From stdpp Require Import pretty.
From S2P Require Import Prelude Persister Labrpc Group.

Local Open Scope Z_scope.

(** ** Generic lemmas *)
Lemma length_indices n : length (indices n) = n.
Proof. unfold indices. by rewrite length_fmap, length_seq. Qed.

Lemma elem_of_indices i n : i ∈ indices n ↔ 0 <= i < Z.of_nat n.
Proof.
  unfold indices. rewrite list_elem_of_fmap. split.
  - intros (k & -> & Hk%elem_of_seq). lia.
  - intros Hi. exists (Z.to_nat i). split; [lia|]. apply elem_of_seq. lia.
Qed.

Lemma NoDup_indices n : NoDup (indices n).
Proof. apply NoDup_fmap_2; [intros ???; lia|]. apply NoDup_seq. Qed.

Lemma slice_get_lt {A} (l : list A) i :
  0 <= i < Z.of_nat (length l) → ∃ a, slice_get l i = Done a ∧ l !! Z.to_nat i = Some a.
Proof.
  intros Hi. destruct (lookup_lt_is_Some_2 l (Z.to_nat i)) as [a Ha]; [lia|].
  exists a. split; [|done]. rewrite <- (Z2Nat.id i) by lia. by apply slice_get_Some.
Qed.

Lemma slice_set_lt {A} (l : list A) i a :
  0 <= i < Z.of_nat (length l) → slice_set l i a = Done (<[Z.to_nat i := a]> l).
Proof. intros Hi. unfold slice_set, in_range. by rewrite (proj2 (Z.leb_le _ _)), (proj2 (Z.ltb_lt _ _)) by lia. Qed.

(** ** MakePartition *)
Section Partitioning.
Context {Svc : Type}.

Definition others (l : Z) (n : nat) : list Z := filter (λ i, i ≠ l) (indices n).

Lemma others_perm l n : 0 <= l < Z.of_nat n → others l n ++ [l] ≡ₚ indices n.
Proof.
  intros Hl. unfold others. apply NoDup_Permutation.
  - apply NoDup_app. split_and!; [apply NoDup_filter, NoDup_indices| |apply NoDup_singleton].
    intros x (Hx & _)%list_elem_of_filter ->%list_elem_of_singleton. done.
  - apply NoDup_indices.
  - intros x. rewrite elem_of_app, list_elem_of_filter, list_elem_of_singleton, elem_of_indices.
    destruct (decide (x = l)); naive_solver.
Qed.

Lemma length_others l n : 0 <= l < Z.of_nat n → S (length (others l n)) = n.
Proof.
  intros Hl. pose proof (Permutation_length (others_perm l n Hl)) as H.
  rewrite length_app, length_indices in H. simpl in H. lia.
Qed.

(** The two arrays are filled like one array that is their concatenation. *)
Lemma fill_partition_spec l xs : ∀ filled r p1 p2,
  p1 ++ p2 = filled ++ replicate r 0 → (length (filter (λ i, i ≠ l) xs) <= r)%nat →
  ∃ p1' p2' j, fill_partition l xs (p1, p2, Z.of_nat (length filled)) = Done (p1', p2', j) ∧
    length p1' = length p1 ∧ length p2' = length p2 ∧
    p1' ++ p2' = filled ++ filter (λ i, i ≠ l) xs ++ replicate (r - length (filter (λ i, i ≠ l) xs)) 0.
Proof.
  induction xs as [|x xs IH]; intros filled r p1 p2 E Hr; unfold fill_partition; simpl.
  { exists p1, p2, (Z.of_nat (length filled)). by rewrite Nat.sub_0_r. }
  rewrite filter_cons in Hr |- *. destruct (Z.eqb_spec x l) as [->|Hne].
  { rewrite decide_False in Hr |- * by tauto. by apply IH. }
  rewrite decide_True in Hr |- * by done. simpl in Hr. destruct r as [|r]; [lia|].
  assert (<[length filled := x]> (p1 ++ p2) = (filled ++ [x]) ++ replicate r 0) as E'.
  { rewrite E. simpl. by rewrite insert_app_r_alt, Nat.sub_diag, <- (assoc_L (++)) by lia. }
  assert (length p1 + length p2 = length filled + S r)%nat as Hlen.
  { rewrite <- length_app, E, length_app, length_replicate. done. }
  assert (∀ q1 q2, q1 ++ q2 = <[length filled := x]> (p1 ++ p2) → length q1 = length p1 → length q2 = length p2 →
    ∃ p1' p2' j, fill_partition l xs (q1, q2, Z.of_nat (length filled) + 1) = Done (p1', p2', j) ∧
      length p1' = length p1 ∧ length p2' = length p2 ∧
      p1' ++ p2' = filled ++ (x :: filter (λ i, i ≠ l) xs) ++
        replicate (S r - length (x :: filter (λ i, i ≠ l) xs)) 0) as Hnext.
  { intros q1 q2 Eq L1 L2. rewrite E' in Eq.
    destruct (IH (filled ++ [x]) r q1 q2 Eq ltac:(lia)) as (p1' & p2' & j & Hf & H1 & H2 & H3).
    rewrite length_app in Hf. simpl in Hf.
    replace (Z.of_nat (length filled) + 1) with (Z.of_nat (length filled + 1)) by lia.
    exists p1', p2', j. split_and!; [exact Hf|by rewrite H1|by rewrite H2|].
    rewrite H3, <- (assoc_L (++)). simpl. done. }
  case_match eqn:Hj; [apply Z.ltb_lt in Hj|apply Z.ltb_ge in Hj].
  - rewrite slice_set_lt by lia. simpl. apply Hnext.
    + by rewrite Nat2Z.id, insert_app_l by lia.
    + by rewrite length_insert.
    + done.
  - rewrite slice_set_lt by lia. simpl. apply Hnext; [|done|by rewrite length_insert].
    rewrite insert_app_r_alt by lia. do 2 f_equal. lia.
Qed.

(** What [MakePartition] computes, for any number of servers above one. *)
Lemma MakePartition_eq l (sg : @ServerGrp Svc) n :
  length (srvs sg) = n → (2 <= n)%nat → 0 <= l < Z.of_nat n →
  ∃ p1 p2, MakePartition l sg = Done (p1, p2) ∧
    length p1 = (n / 2 + 1)%nat ∧ length p2 = (n / 2)%nat ∧
    p1 ++ p2 = others l n ++ (if Nat.odd n then [] else [0]) ++ [l].
Proof.
  intros Hn H2 Hl. unfold MakePartition. rewrite Hn.
  pose proof (length_others l n Hl) as Hlo. pose proof (Nat.div_mod_eq n 2) as Hdiv.
  pose proof (Nat.mod_upper_bound n 2 ltac:(lia)) as Hmod.
  assert (Nat.odd n = true ↔ n mod 2 = 1)%nat as Hodd.
  { rewrite Nat.odd_spec. split; [intros [k Hk]|intros Hk; exists (n / 2)%nat; lia]. lia. }
  remember (n / 2)%nat as h eqn:Hh. clear Hh.
  destruct (fill_partition_spec l (indices n) [] (h + 1 + h)
    (replicate (h + 1) 0) (replicate h 0)) as (p1 & p2 & j & Hf & L1 & L2 & E).
  { by rewrite <- replicate_add. }
  { fold (others l n). lia. }
  change (Z.of_nat (length [])) with 0 in Hf. rewrite Hf. cbn [mbind outcome_bind]. rewrite length_replicate in L1, L2.
  fold (others l n) in E. simpl in E.
  rewrite slice_set_lt by lia. simpl. exists p1, (<[Z.to_nat (Z.of_nat (length p2) - 1) := l]> p2).
  split_and!; [done|done|by rewrite length_insert|].
  assert (p1 ++ <[Z.to_nat (Z.of_nat (length p2) - 1) := l]> p2 =
          <[(length p1 + length p2 - 1)%nat := l]> (p1 ++ p2)) as ->.
  { rewrite insert_app_r_alt by lia. do 2 f_equal. lia. }
  rewrite E. rewrite insert_app_r_alt by lia. f_equal.
  destruct (Nat.odd n) eqn:Ho.
  - pose proof (proj1 Hodd eq_refl). replace (h + 1 + h - length (others l n))%nat with 1%nat by lia.
    replace (length p1 + length p2 - 1 - length (others l n))%nat with 0%nat by lia. done.
  - assert (n mod 2 ≠ 1)%nat by (intros H%Hodd; congruence).
    replace (h + 1 + h - length (others l n))%nat with 2%nat by lia.
    replace (length p1 + length p2 - 1 - length (others l n))%nat with 1%nat by lia. done.
Qed.

(** With an odd number of servers above one, [MakePartition] splits all
    of them into a majority and a minority, and the leader [l] it is given is
    in the minority. *)
Theorem MakePartition_splits l (sg : @ServerGrp Svc) n :
  length (srvs sg) = n → Nat.odd n = true → (2 <= n)%nat → 0 <= l < Z.of_nat n →
  ∃ p1 p2, MakePartition l sg = Done (p1, p2) ∧ p1 ++ p2 ≡ₚ all sg ∧ NoDup (p1 ++ p2) ∧
    length p1 = S (length p2) ∧ l ∈ p2.
Proof.
  intros Hn Ho H2 Hl. destruct (MakePartition_eq l sg n Hn H2 Hl) as (p1 & p2 & -> & L1 & L2 & E).
  rewrite Ho in E. simpl in E. exists p1, p2. unfold all. rewrite Hn.
  assert (p1 ++ p2 ≡ₚ indices n) as HP by (rewrite E; by apply others_perm).
  split_and!; [done|done|rewrite HP; apply NoDup_indices|lia|].
  assert (last (p1 ++ p2) = Some l) as Hlast by (by rewrite E, last_snoc).
  assert (1 <= n / 2)%nat by (by apply Nat.div_le_lower_bound).
  destruct p2 as [|x p2] using rev_ind; [change (length []) with 0%nat in L2; lia|].
  rewrite (assoc_L (++)), last_snoc in Hlast. injection Hlast as ->. apply elem_of_app. right. by left.
Qed.

(** With an even number of servers one slot of the minority is never
    written and keeps its zero: server 0 is in both halves whenever it is not
    the leader. *)
Theorem MakePartition_even_overlaps l (sg : @ServerGrp Svc) n :
  length (srvs sg) = n → Nat.odd n = false → (3 <= n)%nat → 0 < l < Z.of_nat n →
  ∃ p1 p2, MakePartition l sg = Done (p1, p2) ∧ 0 ∈ p1 ∧ 0 ∈ p2.
Proof.
  intros Hn Ho H3 Hl.
  destruct (MakePartition_eq l sg n Hn ltac:(lia) ltac:(lia)) as (p1 & p2 & -> & L1 & L2 & E).
  rewrite Ho in E. exists p1, p2. pose proof (length_others l n ltac:(lia)) as Hlo.
  assert (n mod 2 = 0)%nat as Hmod.
  { apply Nat.even_spec in Ho as [k ->] || (rewrite <- Nat.negb_even in Ho; apply negb_false_iff in Ho;
      apply Nat.even_spec in Ho as [k ->]). rewrite Nat.mul_comm. by apply Nat.Div0.mod_mul. }
  pose proof (Nat.div_mod_eq n 2) as Hdiv. remember (n / 2)%nat as h eqn:Hh. clear Hh.
  split_and!; [done| |].
  - apply (list_elem_of_lookup_2 _ 0). rewrite <- (lookup_app_l p1 p2) by lia. rewrite E.
    destruct n as [|n]; [lia|]. unfold others, indices. simpl. rewrite filter_cons, decide_True by lia. done.
  - apply (list_elem_of_lookup_2 _ (n - 1 - length p1)). rewrite <- (lookup_app_r p1 p2) by lia. rewrite E.
    rewrite lookup_app_r by lia. replace (n - 1 - length (others l n))%nat with 0%nat by lia. done.
Qed.
End Partitioning.

(** ** Which ends are enabled *)
Definition enable_links (es : list any) (b : bool) (rn : Network) : Network :=
  foldl (λ rn e, Enable e b rn) rn es.

Lemma enabled_at_Enable e e' b rn :
  enabled_at e (Enable e' b rn) = if decide (e' = e) then b else enabled_at e rn.
Proof.
  unfold enabled_at, Enable. simpl. case_decide as E; [subst; by rewrite lookup_insert_eq|].
  by rewrite lookup_insert_ne.
Qed.

Lemma enabled_at_links es b : ∀ rn e,
  enabled_at e (enable_links es b rn) = if decide (e ∈ es) then b else enabled_at e rn.
Proof.
  induction es as [|e' es IH]; intros rn e; [done|].
  unfold enable_links in IH |- *. cbn [foldl]. rewrite IH, enabled_at_Enable.
  repeat case_decide; set_solver.
Qed.

Lemma loop_enable (body : Z → Network → outcome Network) (c : Z → bool) f b to rn :
  (∀ t rn, t ∈ to → body t rn = Done (if c t then Enable (f t) b rn else rn)) →
  for_each to body rn = Done (enable_links (f <$> filter (λ t, c t = true) to) b rn).
Proof.
  revert rn. induction to as [|t to IH]; intros rn H; [done|]. simpl.
  rewrite (H t rn) by (by left). simpl. rewrite filter_cons. rewrite IH by (intros; apply H; by right).
  by destruct (c t).
Qed.

Section Links.
Context {Svc : Type}.
Abbreviation ServerGrp := (@ServerGrp Svc).

(** Server [i]'s end to its peer [j]. *)
Definition link (sg : ServerGrp) (i j : Z) : any :=
  any_string (default "" (s ← srvs sg !! Z.to_nat i; names ← endNames s; names !! Z.to_nat j)).

Definition valid (n : nat) (i : Z) : Prop := 0 <= i < Z.of_nat n.

(** A group of [n] servers as [makeSrvGrp] makes it: every server has an end
    of its own to every server. *)
Record group_ok (n : nat) (sg : ServerGrp) : Prop := {
  ok_srvs : length (srvs sg) = n;
  ok_connected : length (connected sg) = n;
  ok_names : ∀ i s, srvs sg !! i = Some s → ∃ names, endNames s = Some names ∧ length names = n;
  ok_distinct : ∀ i j i' j', valid n i → valid n j → valid n i' → valid n j' →
    link sg i j = link sg i' j' → i = i' ∧ j = j'
}.

Definition is_connected (sg : ServerGrp) (i : Z) : bool := default false (connected sg !! Z.to_nat i).

Lemma set_connected_ok n sg l : length l = n → group_ok n sg → group_ok n (set_connected l sg).
Proof. intros Hl [H1 H2 H3 H4]. by split. Qed.

Lemma IsConnected_eq n sg i : group_ok n sg → valid n i → IsConnected sg i = Done (is_connected sg i).
Proof.
  intros Hok Hi. unfold IsConnected, is_connected.
  destruct (slice_get_lt (connected sg) i) as (b & -> & ->); [by rewrite (ok_connected n sg Hok)|done].
Qed.

Lemma link_name n sg i j :
  group_ok n sg → valid n i → valid n j →
  ∃ s names name, slice_get (srvs sg) i = Done s ∧ endNames s = Some names ∧
    end_name s j = Done name ∧ any_string name = link sg i j.
Proof.
  intros Hok Hi Hj. destruct (slice_get_lt (srvs sg) i) as (s & Hs & Hs'); [by rewrite (ok_srvs n sg Hok)|].
  destruct (ok_names n sg Hok _ _ Hs') as (names & Hn & Hlen).
  destruct (slice_get_lt names j) as (name & Hg & Hg'); [by rewrite Hlen|].
  exists s, names, name. split_and!; [done|done| |].
  - unfold end_name. by rewrite Hn.
  - unfold link. rewrite Hs'. simpl. rewrite Hn. simpl. by rewrite Hg'.
Qed.

(** The ends that [connect i to] or [disconnect i to] switches. *)
Definition switched (sg : ServerGrp) (c : Z → bool) (i : Z) (to : list Z) (e : any) : Prop :=
  ∃ t, t ∈ to ∧ c t = true ∧ (e = link sg i t ∨ e = link sg t i).

Lemma switched_elem sg c i to e :
  e ∈ (link sg i <$> filter (λ t, c t = true) to) ++ ((λ t, link sg t i) <$> filter (λ t, c t = true) to) ↔
  switched sg c i to e.
Proof.
  rewrite elem_of_app, !list_elem_of_fmap. setoid_rewrite list_elem_of_filter. unfold switched. naive_solver.
Qed.

(** A link is switched by its two ends. *)
Lemma switched_link n sg c i to a b :
  group_ok n sg → valid n i → (∀ t, t ∈ to → valid n t) → valid n a → valid n b →
  switched sg c i to (link sg a b) ↔ (a = i ∧ b ∈ to ∧ c b = true) ∨ (b = i ∧ a ∈ to ∧ c a = true).
Proof.
  intros Hok Hi Hto Ha Hb. pose proof (ok_distinct n sg Hok) as Hinj. unfold switched. split.
  - intros (t & Ht & Hc & [E|E]); apply Hinj in E as [-> ->]; auto.
  - intros [(-> & Hb' & Hc)|(-> & Ha' & Hc)]; [exists b|exists a]; auto.
Qed.

Lemma connect_spec n sg rn i to :
  group_ok n sg → valid n i → (∀ t, t ∈ to → valid n t) →
  let sg' := set_connected (<[Z.to_nat i := true]> (connected sg)) sg in
  ∃ es, connect i to sg rn = Done (sg', enable_links es true rn) ∧
    ∀ e, e ∈ es ↔ switched sg (is_connected sg') i to e.
Proof.
  intros Hok Hi Hto sg'.
  assert (group_ok n sg') as Hok'.
  { apply set_connected_ok; [|done]. by rewrite length_insert, (ok_connected n sg Hok). }
  destruct (link_name n sg' i i Hok' Hi Hi) as (s & names & _ & Hs & Hn & _).
  exists ((link sg i <$> filter (λ t, is_connected sg' t = true) to) ++
          ((λ t, link sg t i) <$> filter (λ t, is_connected sg' t = true) to)).
  split; [|intros e; apply switched_elem].
  unfold connect. rewrite slice_set_lt by (rewrite (ok_connected n sg Hok); apply Hi).
  cbn [mbind outcome_bind]. fold sg'. rewrite Hs. cbn [mbind outcome_bind].
  unfold Srv_connect. rewrite (loop_enable _ (is_connected sg') (link sg i) true).
  2:{ intros t rn' Ht. change (slice_get (connected sg') t) with (IsConnected sg' t).
      rewrite (IsConnected_eq n) by auto. simpl. destruct (is_connected sg' t); [|done].
      destruct (link_name n sg' i t Hok' Hi (Hto t Ht)) as (s' & ? & name & Hs' & _ & He & Hl).
      rewrite Hs in Hs'. injection Hs' as <-. rewrite He. simpl. by rewrite Hl. }
  cbn [mbind outcome_bind]. rewrite (loop_enable _ (is_connected sg') (λ t, link sg t i) true).
  2:{ intros t rn' Ht. rewrite (IsConnected_eq n) by auto. simpl. destruct (is_connected sg' t); [|done].
      destruct (link_name n sg' t i Hok' (Hto t Ht) Hi) as (s' & ? & name & Hs' & _ & He & Hl).
      simpl in Hs'. rewrite Hs'. simpl. rewrite He. simpl. by rewrite Hl. }
  simpl. unfold enable_links. by rewrite foldl_app.
Qed.

Lemma disconnect_spec n sg rn i from :
  group_ok n sg → valid n i → (∀ t, t ∈ from → valid n t) →
  let sg' := set_connected (<[Z.to_nat i := false]> (connected sg)) sg in
  ∃ es, disconnect i from sg rn = Done (sg', enable_links es false rn) ∧
    ∀ e, e ∈ es ↔ switched sg (λ _, true) i from e.
Proof.
  intros Hok Hi Hfrom sg'.
  assert (group_ok n sg') as Hok'.
  { apply set_connected_ok; [|done]. by rewrite length_insert, (ok_connected n sg Hok). }
  destruct (link_name n sg' i i Hok' Hi Hi) as (s & names & _ & Hs & Hn & _).
  exists ((link sg i <$> filter (λ t, (λ _, true) t = true) from) ++
          ((λ t, link sg t i) <$> filter (λ t, (λ _, true) t = true) from)).
  split; [|intros e; apply switched_elem].
  unfold disconnect. rewrite slice_set_lt by (rewrite (ok_connected n sg Hok); apply Hi).
  cbn [mbind outcome_bind]. fold sg'. rewrite Hs. cbn [mbind outcome_bind].
  unfold Srv_disconnect. rewrite Hn. rewrite (loop_enable _ (λ _, true) (link sg i) false).
  2:{ intros t rn' Ht. destruct (link_name n sg' i t Hok' Hi (Hfrom t Ht)) as (s' & ? & name & Hs' & _ & He & Hl).
      rewrite Hs in Hs'. injection Hs' as <-. rewrite He. simpl. by rewrite Hl. }
  cbn [mbind outcome_bind]. rewrite (loop_enable _ (λ _, true) (λ t, link sg t i) false).
  2:{ intros t rn' Ht. destruct (link_name n sg' t i Hok' (Hfrom t Ht) Hi) as (s' & ? & name & Hs' & Hn' & He & Hl).
      rewrite Hs'. simpl. rewrite Hn', He. simpl. by rewrite Hl. }
  simpl. unfold enable_links. by rewrite foldl_app.
Qed.

(** What the servers of [marked] have been brought to: all on, among
    themselves, cut off from [other], whose own links are those of [rn0]. *)
Record side_done (n : nat) (sg0 : ServerGrp) (rn0 : Network) (other marked : list Z)
    (s : ServerGrp * Network) : Prop := {
  sd_ok : group_ok n s.1;
  sd_srvs : srvs s.1 = srvs sg0;
  sd_conn : ∀ i, i ∈ marked → is_connected s.1 i = true;
  sd_on : ∀ i j, i ∈ marked → j ∈ marked → enabled_at (link sg0 i j) s.2 = true;
  sd_off : ∀ i j, i ∈ marked → j ∈ other →
    enabled_at (link sg0 i j) s.2 = false ∧ enabled_at (link sg0 j i) s.2 = false;
  sd_other : ∀ i j, i ∈ other → j ∈ other →
    enabled_at (link sg0 i j) s.2 = enabled_at (link sg0 i j) rn0
}.

Lemma is_connected_insert (sg : ServerGrp) i b t :
  valid (length (connected sg)) i → valid (length (connected sg)) t →
  is_connected (set_connected (<[Z.to_nat i := b]> (connected sg)) sg) t =
  if decide (i = t) then b else is_connected sg t.
Proof.
  unfold valid, is_connected. intros Hi Ht. simpl. case_decide as E.
  - subst. by rewrite list_lookup_insert_eq by lia.
  - by rewrite list_lookup_insert_ne by lia.
Qed.

(** One turn of a loop of [Partition]. *)
Lemma partition_turn n sg0 rn0 mine other marked i s :
  (∀ t, t ∈ mine → valid n t) → (∀ t, t ∈ other → valid n t) →
  (∀ t, t ∈ mine → t ∈ other → False) → i ∈ mine → (∀ t, t ∈ marked → t ∈ mine) →
  side_done n sg0 rn0 other marked s →
  ∃ s', ('(sg, rn) ← disconnect i other s.1 s.2; connect i mine sg rn) = Done s' ∧
    side_done n sg0 rn0 other (i :: marked) s'.
Proof.
  intros Hm Ho Hdisj Hi Hmk [Hok Hsrvs Hconn Hon Hoff Hoth]. destruct s as [sg rn]. simpl in *.
  assert (∀ a b, link sg a b = link sg0 a b) as Hlink by (intros; unfold link; by rewrite Hsrvs).
  destruct (disconnect_spec n sg rn i other Hok (Hm i Hi) Ho) as (es1 & -> & He1).
  cbn [mbind outcome_bind]. set (sg1 := set_connected _ sg) in *. set (rn1 := enable_links es1 false rn).
  assert (group_ok n sg1) as Hok1.
  { apply set_connected_ok; [|done]. by rewrite length_insert, (ok_connected n sg Hok). }
  destruct (connect_spec n sg1 rn1 i mine Hok1 (Hm i Hi) Hm) as (es2 & -> & He2).
  set (sg2 := set_connected _ sg1) in *. eexists. split; [reflexivity|].
  assert (group_ok n sg2) as Hok2.
  { apply set_connected_ok; [|done]. by rewrite length_insert, (ok_connected n sg1 Hok1). }
  assert (∀ t, t ∈ i :: marked → is_connected sg2 t = true) as Hconn2.
  { intros t Ht. assert (valid n t) as Hv by (apply elem_of_cons in Ht as [->|Ht]; auto).
    unfold sg2, sg1. rewrite !is_connected_insert; rewrite ?length_insert; simpl;
      rewrite ?length_insert, ?(ok_connected n sg Hok); auto.
    repeat case_decide; try done. apply Hconn. by apply elem_of_cons in Ht as [->|Ht]. }
  assert (∀ t, t ∈ i :: marked → t ∈ mine) as Hmk' by (intros t [->|Ht]%elem_of_cons; auto).
  assert (∀ a b, valid n a → valid n b → link sg0 a b ∈ es2 ↔
    (a = i ∧ b ∈ mine ∧ is_connected sg2 b = true) ∨ (b = i ∧ a ∈ mine ∧ is_connected sg2 a = true)) as Hes2.
  { intros a b Ha Hb. rewrite He2, <- Hlink. apply (switched_link n sg1); auto. }
  assert (∀ a b, valid n a → valid n b → link sg0 a b ∈ es1 ↔ (a = i ∧ b ∈ other) ∨ (b = i ∧ a ∈ other)) as Hes1.
  { intros a b Ha Hb. rewrite He1, <- Hlink, (switched_link n) by auto. naive_solver. }
  assert (∀ a b, enabled_at (link sg0 a b) (enable_links es2 true rn1) =
    if decide (link sg0 a b ∈ es2) then true
    else if decide (link sg0 a b ∈ es1) then false else enabled_at (link sg0 a b) rn) as Hen.
  { intros a b. unfold rn1. by rewrite !enabled_at_links. }
  split; simpl; [done|exact Hsrvs|exact Hconn2| | |].
  - intros a b Ha Hb. rewrite Hen. case_decide as H2; [done|]. rewrite Hes2 in H2 by auto.
    case_decide as H1; [rewrite Hes1 in H1 by auto; naive_solver|].
    pose proof (Hmk' a Ha). pose proof (Hmk' b Hb). pose proof (Hconn2 a Ha). pose proof (Hconn2 b Hb).
    apply elem_of_cons in Ha as [->|Ha], Hb as [->|Hb]; [tauto..|by apply Hon].
  - intros a b Ha Hb. rewrite !Hen. assert (valid n a) by auto. assert (valid n b) by auto.
    rewrite !(decide_False (P := _ ∈ es2)) by (rewrite Hes2 by done; naive_solver).
    apply elem_of_cons in Ha as [->|Ha].
    + rewrite !decide_True by (rewrite Hes1 by done; auto). done.
    + destruct (Hoff a b Ha Hb) as [-> ->]. by repeat case_decide.
  - intros a b Ha Hb. rewrite Hen. assert (valid n a) by auto. assert (valid n b) by auto.
    rewrite !decide_False; [by apply Hoth|rewrite Hes1 by done; naive_solver|rewrite Hes2 by done; naive_solver].
Qed.

Lemma side_done_weaken n sg0 rn0 other m m' s :
  (∀ t, t ∈ m' → t ∈ m) → side_done n sg0 rn0 other m s → side_done n sg0 rn0 other m' s.
Proof. intros Hm [H1 H2 H3 H4 H5 H6]. split; auto. Qed.

Lemma partition_side_spec n mine other sg0 rn0 :
  (∀ t, t ∈ mine → valid n t) → (∀ t, t ∈ other → valid n t) →
  (∀ t, t ∈ mine → t ∈ other → False) → group_ok n sg0 →
  ∃ s', partition_side mine other (sg0, rn0) = Done s' ∧ side_done n sg0 rn0 other mine s'.
Proof.
  intros Hm Ho Hdisj Hok.
  assert (∀ todo marked s, (∀ t, t ∈ todo → t ∈ mine) → (∀ t, t ∈ marked → t ∈ mine) →
    side_done n sg0 rn0 other marked s →
    ∃ s', for_each todo (λ i '(sg, rn), '(sg, rn) ← disconnect i other sg rn; connect i mine sg rn) s = Done s' ∧
      ∀ m, (∀ t, t ∈ m → t ∈ todo ∨ t ∈ marked) → side_done n sg0 rn0 other m s') as Hloop.
  { induction todo as [|i todo IH]; intros marked s Htodo Hmk Hs; simpl.
    { exists s. split; [done|]. intros m Hmarked. apply (side_done_weaken _ _ _ _ marked); [|done].
      intros t Ht. by destruct (Hmarked t Ht) as [?%elem_of_nil|]. }
    destruct (partition_turn n sg0 rn0 mine other marked i s) as (s1 & E & Hs1); try done.
    { apply Htodo. by left. }
    destruct s as [sg rn]. simpl in E. rewrite E. cbn [mbind outcome_bind].
    destruct (IH (i :: marked) s1) as (s' & E' & Hs').
    - intros t Ht. apply Htodo. by right.
    - intros t [->|Ht]%elem_of_cons; [apply Htodo; by left|by apply Hmk].
    - done.
    - exists s'. split; [done|]. intros m Hmarked. apply Hs'. intros t Ht.
      destruct (Hmarked t Ht) as [[->|?]%elem_of_cons|]; [right; by left|by left|right; by right]. }
  destruct (Hloop mine [] (sg0, rn0)) as (s' & E & Hs'); [done|by intros t H%elem_of_nil| |].
  { split; simpl; try done; [intros i H|intros i j H|intros i j H]; by apply elem_of_nil in H. }
  exists s'. split; [exact E|]. apply Hs'. auto.
Qed.

(** (C29) [Partition] does what its name says, from any state of the group's
    ends and connection flags: afterwards the end from one server to another
    is enabled exactly when both are on the same side. *)
Theorem Partition_spec n p1 p2 (sg : ServerGrp) rn :
  group_ok n sg → (∀ i, i ∈ p1 ++ p2 → valid n i) → (∀ i, i ∈ p1 → i ∈ p2 → False) →
  ∃ sg' rn', Partition p1 p2 sg rn = Done (sg', rn') ∧ srvs sg' = srvs sg ∧
    ∀ i j, i ∈ p1 ++ p2 → j ∈ p1 ++ p2 →
      enabled_at (link sg i j) rn' = bool_decide ((i ∈ p1 ∧ j ∈ p1) ∨ (i ∈ p2 ∧ j ∈ p2)).
Proof.
  intros Hok Hv Hdisj.
  assert (∀ t, t ∈ p1 → valid n t) as H1 by (intros; apply Hv; apply elem_of_app; auto).
  assert (∀ t, t ∈ p2 → valid n t) as H2 by (intros; apply Hv; apply elem_of_app; auto).
  destruct (partition_side_spec n p1 p2 sg rn H1 H2 Hdisj Hok) as ([sg1 rn1] & E1 & D1).
  destruct (partition_side_spec n p2 p1 sg1 rn1 H2 H1) as ([sg2 rn2] & E2 & D2);
    [intros t A B; by apply (Hdisj t)|exact (sd_ok _ _ _ _ _ _ D1)|].
  pose proof (sd_srvs _ _ _ _ _ _ D1) as S1. simpl in S1.
  assert (∀ a b, link sg1 a b = link sg a b) as Hlink by (intros; unfold link; by rewrite S1).
  exists sg2, rn2. unfold Partition. rewrite E1. cbn [mbind outcome_bind]. split_and!; [done| |].
  { pose proof (sd_srvs _ _ _ _ _ _ D2) as S2. simpl in S2. by rewrite S2. }
  intros i j [Hi|Hi]%elem_of_app [Hj|Hj]%elem_of_app; rewrite <- Hlink.
  - rewrite bool_decide_eq_true_2 by auto. pose proof (sd_other _ _ _ _ _ _ D2 i j Hi Hj) as X. simpl in X. rewrite X, Hlink.
    by apply (sd_on _ _ _ _ _ _ D1).
  - rewrite bool_decide_eq_false_2 by (intros [[? ?]|[? ?]]; eauto). exact (proj2 (sd_off _ _ _ _ _ _ D2 j i Hj Hi)).
  - rewrite bool_decide_eq_false_2 by (intros [[? ?]|[? ?]]; eauto). exact (proj1 (sd_off _ _ _ _ _ _ D2 i j Hi Hj)).
  - rewrite bool_decide_eq_true_2 by auto. exact (sd_on _ _ _ _ _ _ D2 i j Hi Hj).
Qed.
End Links.

(** ** Shutting down and restarting *)
Section Restart.
Context {Typ Val A Svc : Type}.
Variable mks : list string → Z → Z → nat → Store → A → outcome (list (option Svc) * Store * A).
Variable Kill : Svc → Store → A → outcome (Store * A).
Variable service_of : Svc → @Service Val A.
Abbreviation Tester := (@Tester Typ Val A).

Lemma startServer_inv rand (s : @Srv Svc) g (T : Tester) srv q T' p :
  saved s = Some p → startServer rand s g T = Done (srv, q, T') →
  Copy p (store T) = Done (q, store T') ∧ saved srv = Some q.
Proof.
  intros Hp. unfold startServer. rewrite Hp. intros ([srv0 rn] & _ & Hrun)%bind_Done.
  apply bind_Done in Hrun as ([q' st'] & HC & [= <- <- <-]). by split.
Qed.

Lemma shutdownServer_inv (s s' : @Srv Svc) (T T' : Tester) p :
  saved s = Some p → shutdownServer Kill s T = Done (s', T') →
  ∃ p' st, Copy p (store T) = Done (p', st) ∧ saved s' = Some p' ∧ svcs s' = [] ∧ tnet T' = tnet T ∧
    for_each (svcs s) (λ svc '(st, a), match svc with Some svc => Kill svc st a | None => Done (st, a) end)
      (st, app (world T)) = Done (store T', app (world T')).
Proof.
  intros Hp. unfold shutdownServer. rewrite Hp. intros ([o st] & HC & Hrun)%bind_Done.
  apply bind_Done in HC as ([p' st1] & HC & [= <- <-]).
  apply bind_Done in Hrun as ([st2 a] & Hk & [= <- <-]). by exists p', st1.
Qed.

(** A service that is killed may save, but only to its persister. *)
Definition saves_only (p : nat) (svc : Svc) : Prop := ∀ st a st' a', Kill svc st a = Done (st', a') → store_valid st →
  store_valid st' ∧ ∀ q, q ≠ p → contents q st' = contents q st.

Lemma kills_save_only p svs : (∀ svc, Some svc ∈ svs → saves_only p svc) → ∀ st (a : A) st' a',
  for_each svs (λ svc '(st, a), match svc with Some svc => Kill svc st a | None => Done (st, a) end) (st, a) = Done (st', a') →
  store_valid st → store_valid st' ∧ ∀ q, q ≠ p → contents q st' = contents q st.
Proof.
  induction svs as [|svc svs IH]; intros Hall st a st' a'; cbn [for_each]; [by intros [= <- <-]|].
  intros ([st1 a1] & H1 & Hrun)%bind_Done Hv.
  assert (store_valid st1 ∧ ∀ q, q ≠ p → contents q st1 = contents q st) as [Hv1 E1].
  { destruct svc as [svc|]; [|by injection H1 as <- <-]. eapply (Hall svc); [by left|exact H1|exact Hv]. }
  destruct (IH (λ svc H, Hall svc (list_elem_of_further _ _ _ H)) _ _ _ _ Hrun Hv1) as [Hv' E']. split; [done|].
  intros q Hq. by rewrite E', E1.
Qed.

Lemma disconnect_srvs i from (sg sg' : @ServerGrp Svc) rn rn' :
  disconnect i from sg rn = Done (sg', rn') → srvs sg' = srvs sg ∧ gid sg' = gid sg.
Proof.
  unfold disconnect. intros (conn & _ & Hrun)%bind_Done.
  apply bind_Done in Hrun as (s & _ & Hrun). apply bind_Done in Hrun as (rn1 & _ & Hrun).
  by apply bind_Done in Hrun as (rn2 & _ & [= <- _]).
Qed.

(** (C28) Shutting a server down unregisters it, and the persister that will be
    handed to the next instance is a fresh one with the state as it was when the
    shutdown began: whatever the old instance saves to its own persister, when it is told to stop or,
    as it is still running, afterwards, the next instance starts from that state.
    Together with the network, which withholds the replies of a
    server that is not registered, nothing the old instance saves after the
    shutdown can have been acknowledged. *)
Theorem ShutdownServer_isolates i (sg sg1 : @ServerGrp Svc) (T T1 : Tester) s p :
  store_valid (store T) → slice_get (srvs sg) i = Done s → saved s = Some p →
  (∀ svc, Some svc ∈ svcs s → saves_only p svc) → ShutdownServer Kill i sg T = Done (sg1, T1) →
  server_at (any_string (ServerName (gid sg) i)) (tnet T1) = None ∧
  ∃ s1 p1, slice_get (srvs sg1) i = Done s1 ∧ saved s1 = Some p1 ∧ svcs s1 = [] ∧ p1 ≠ p ∧
    contents p1 (store T1) = contents p (store T) ∧
    ∀ rs snap (T2 : Tester) rand srv q T3,
      slice_valid (store T1) snap → Save p rs snap (store T1) = Done (store T2) →
      startServer rand s1 (gid sg1) T2 = Done (srv, q, T3) →
      contents q (store T3) = contents p (store T).
Proof.
  intros Hv Hs Hp Hkill Hrun. unfold ShutdownServer in Hrun.
  apply bind_Done in Hrun as ([sgd rnd] & Hd & Hrun).
  destruct (disconnect_srvs _ _ _ _ _ _ Hd) as [Hsrvs Hgid].
  rewrite Hsrvs, Hs in Hrun. cbn [mbind outcome_bind] in Hrun.
  apply bind_Done in Hrun as ([s1 T1'] & Hsd & Hrun).
  apply bind_Done in Hrun as (l & Hl & [= <- <-]).
  destruct (shutdownServer_inv _ _ _ _ _ Hp Hsd) as (p1 & st1 & HC & Hp1 & Hsv & Hnet & Hks).
  apply slice_set_Done in Hl as [Hi ->]. simpl in HC.
  destruct (Copy_spec _ _ _ _ Hv HC) as (Hne & _ & _ & Hv0 & Hcont0 & _).
  destruct (kills_save_only p _ Hkill _ _ _ _ Hks Hv0) as [Hv1 Hkeep].
  pose proof (eq_trans (Hkeep p1 Hne) Hcont0) as Hcont.
  split.
  { rewrite Hnet. unfold tnet, with_net, on_net, DeleteServer, server_at. simpl.
    by rewrite Hgid, lookup_insert_eq. }
  exists s1, p1. split_and!; [|done|done|done|done|].
  - simpl. rewrite <- (Z2Nat.id i) at 2 by lia. apply slice_get_Some.
    apply list_lookup_insert_eq. rewrite <- Hsrvs in Hi |- *. lia.
  - intros rs snap T2 rand srv q T3 Hsl HS Hst.
    destruct (startServer_inv _ _ _ _ _ _ _ _ Hp1 Hst) as [HC2 _].
    pose proof (Save_valid _ _ _ _ _ Hv1 Hsl HS) as Hv2.
    destruct (Copy_spec _ _ _ _ Hv2 HC2) as (_ & _ & _ & _ & Hq & _).
    rewrite Hq, (Save_other p p1 rs snap _ _ Hv1 Hsl HS Hne). exact Hcont.
Qed.
End Restart.

(** ** The ends of a group are its own *)
Section Ends.
Context {Svc : Type}.
Abbreviation Srv := (@Srv Svc).

Definition has_end (ss : list Srv) (i j : nat) (x : string) : Prop :=
  ∃ s names, ss !! i = Some s ∧ endNames s = Some names ∧ names !! j = Some x.

(** Servers with [n] ends each, all registered, all different. *)
Record ends_ok (n : nat) (ss : list Srv) (rn : Network) : Prop := {
  eo_names : ∀ i s, ss !! i = Some s → ∃ names, endNames s = Some names ∧ length names = n;
  eo_in : ∀ i j x, has_end ss i j x → any_string x ∈ ends rn;
  eo_distinct : ∀ i j i' j' x, has_end ss i j x → has_end ss i' j' x → i = i' ∧ j = j'
}.

Lemma ends_ok_group n (sg : @ServerGrp Svc) rn :
  length (srvs sg) = n → length (connected sg) = n → ends_ok n (srvs sg) rn → group_ok n sg.
Proof.
  intros H1 H2 [H3 H4 H5]. split; [done..|].
  assert (∀ i j, valid n i → valid n j → ∃ x, has_end (srvs sg) (Z.to_nat i) (Z.to_nat j) x ∧ link sg i j = any_string x)
    as Hlink.
  { intros i j [? ?] [? ?]. destruct (lookup_lt_is_Some_2 (srvs sg) (Z.to_nat i)) as [s Hs]; [lia|].
    destruct (H3 _ _ Hs) as (names & Hn & Hl).
    destruct (lookup_lt_is_Some_2 names (Z.to_nat j)) as [x Hx]; [lia|].
    exists x. split; [by exists s, names|]. unfold link. rewrite Hs. simpl. rewrite Hn. simpl. by rewrite Hx. }
  intros i j i' j' Hi Hj Hi' Hj' E.
  destruct (Hlink i j Hi Hj) as (x & Hx & Ex), (Hlink i' j' Hi' Hj') as (x' & Hx' & Ex').
  rewrite Ex, Ex' in E. injection E as <-. unfold valid in *.
  destruct (H5 _ _ _ _ _ Hx Hx'). split; lia.
Qed.

Lemma makeServer_loop rand g n : ∀ rn rn',
  for_each (seq 0 n) (λ j rn,
    rn1 ← MakeEnd (any_string (rand j)) rn;
    Done (Connect (any_string (rand j)) (any_string (ServerName g (Z.of_nat j))) rn1)) rn = Done rn' →
  (∀ j, (j < n)%nat → any_string (rand j) ∉ ends rn) ∧
  (∀ j k, (j < n)%nat → (k < n)%nat → rand j = rand k → j = k) ∧
  (∀ e, e ∈ ends rn' ↔ e ∈ ends rn ∨ ∃ j, (j < n)%nat ∧ e = any_string (rand j)).
Proof.
  induction n as [|n IH]; intros rn rn' Hrun.
  { injection Hrun as <-. split_and!; [lia|lia|naive_solver lia]. }
  rewrite seq_S, for_each_app in Hrun. apply bind_Done in Hrun as (rn1 & Hrun1 & Hrun).
  destruct (IH _ _ Hrun1) as (Hfresh & Hinj & Hends). simpl in Hrun.
  apply bind_Done in Hrun as (rn2 & Hrun & [= <-]). apply bind_Done in Hrun as (rn3 & Hmk & [= <-]).
  unfold MakeEnd in Hmk. case_decide as Hnew; [done|]. injection Hmk as <-.
  rewrite Hends in Hnew. split_and!.
  - intros j Hj. destruct (decide (j = n)) as [->|]; [naive_solver|]. apply Hfresh. lia.
  - intros j k Hj Hk E. destruct (decide (j = n)) as [->|], (decide (k = n)) as [->|]; [done| | |apply Hinj; [lia..|done]].
    + exfalso. apply Hnew. right. exists k. split; [lia|congruence].
    + exfalso. apply Hnew. right. exists j. split; [lia|congruence].
  - intros e. simpl. rewrite elem_of_union, elem_of_singleton, Hends. split.
    + intros [->|[?|(j & ? & ->)]]; [right; exists n; eauto with lia|by left|right; exists j; split; [lia|done]].
    + intros [?|(j & Hj & ->)]; [auto|]. destruct (decide (j = n)) as [->|]; [by left|].
      right. right. exists j. split; [lia|done].
Qed.

Lemma makeServer_spec rand g n rn (s : Srv) rn' :
  makeServer rand g n rn = Done (s, rn') →
  endNames s = Some (rand <$> seq 0 n) ∧
  (∀ j x, (rand <$> seq 0 n) !! j = Some x → (any_string x ∉ ends rn) ∧ any_string x ∈ ends rn') ∧
  (∀ j k x, (rand <$> seq 0 n) !! j = Some x → (rand <$> seq 0 n) !! k = Some x → j = k) ∧
  ends rn ⊆ ends rn'.
Proof.
  unfold makeServer. intros (rn1 & Hloop & [= <- <-])%bind_Done.
  destruct (makeServer_loop _ _ _ _ _ Hloop) as (Hfresh & Hinj & Hends).
  assert (∀ j x, (rand <$> seq 0 n) !! j = Some x → (j < n)%nat ∧ x = rand j) as Hget.
  { intros j x Hj. rewrite list_lookup_fmap in Hj. destruct (seq 0 n !! j) as [k|] eqn:E; [|done].
    apply lookup_seq in E as [-> ?]. by injection Hj as <-. }
  split_and!; [done| | |].
  - intros j x (Hj & ->)%Hget. split; [by apply Hfresh|]. apply Hends. right. eauto.
  - intros j k x (Hj & ->)%Hget (Hk & E)%Hget. by apply Hinj.
  - intros e He. apply Hends. by left.
Qed.

(** Adding or replacing one server by one that was just made. *)
Lemma ends_ok_new n rand g (ss ss' : list Srv) i0 (s : Srv) rn rn' :
  ends_ok n ss rn → makeServer rand g n rn = Done (s, rn') →
  (∀ i x, ss' !! i = Some x → (i = i0 ∧ endNames x = endNames s) ∨ (i ≠ i0 ∧ ss !! i = Some x)) →
  ends_ok n ss' rn'.
Proof.
  intros [H1 H2 H3] Hmk Hss. destruct (makeServer_spec _ _ _ _ _ _ Hmk) as (Hn & Hnew & Hinj & Hsub).
  assert (∀ i j x, has_end ss' i j x →
    (i = i0 ∧ (rand <$> seq 0 n) !! j = Some x) ∨ (i ≠ i0 ∧ has_end ss i j x)) as Hend.
  { intros i j x (y & names & Hy & Hnames & Hx).
    destruct (Hss i y Hy) as [[-> E]|[Hne E]]; [left|right; split; [done|by exists y, names]].
    rewrite E, Hn in Hnames. injection Hnames as <-. done. }
  split.
  - intros i x Hx. destruct (Hss i x Hx) as [[-> E]|[Hne E]]; [|by eapply H1].
    rewrite E, Hn. eexists. split; [done|]. by rewrite length_fmap, length_seq.
  - intros i j x [[-> Hx]|[_ Hx]]%Hend; [by eapply Hnew|]. apply Hsub. by eapply H2.
  - intros i j i' j' x Hx Hx'.
    destruct (Hend _ _ _ Hx) as [[-> A]|[Hne A]], (Hend _ _ _ Hx') as [[-> B]|[Hne' B]].
    + split; [done|]. by eapply Hinj.
    + exfalso. eapply (proj1 (Hnew _ _ A)), H2, B.
    + exfalso. eapply (proj1 (Hnew _ _ B)), H2, A.
    + by eapply H3.
Qed.

Lemma ends_ok_sub n ss rn rn' : ends rn ⊆ ends rn' → ends_ok n ss rn → ends_ok n ss rn'.
Proof. intros Hsub [H1 H2 H3]. split; [done| |done]. intros i j x Hx. apply Hsub. by eapply H2. Qed.

Lemma makeSrvGrp_spec rand g n rn (sg : @ServerGrp Svc) rn' :
  makeSrvGrp rand g n rn = Done (sg, rn') →
  group_ok n sg ∧ ends_ok n (srvs sg) rn' ∧ gid sg = g ∧ connected sg = replicate n false ∧
  servernames sg = ServerName g <$> indices n.
Proof.
  unfold makeSrvGrp. intros ([ss rn1] & Hloop & [= <- <-])%bind_Done.
  assert (∀ k rn1 ss, for_each (seq 0 k) (λ i '(ss, rn),
            '(s, rn1) ← makeServer (rand i) g n rn; Done (ss ++ [s], rn1)) ([], rn) = Done (ss, rn1) →
          length ss = k ∧ ends_ok n ss rn1) as H.
  { clear. induction k as [|k IH]; intros rn1 ss Hrun.
    - injection Hrun as <- <-. split; [done|]. split; unfold has_end; intros *; rewrite ?lookup_nil; naive_solver.
    - rewrite seq_S, for_each_app in Hrun. apply bind_Done in Hrun as ([ss0 rn0] & Hrun0 & Hrun).
      destruct (IH _ _ Hrun0) as [Hlen Hok]. simpl in Hrun.
      apply bind_Done in Hrun as ([ss1 rn2] & Hrun & [= <- <-]).
      apply bind_Done in Hrun as ([s rn3] & Hmk & [= <- <-]).
      split; [rewrite length_app; simpl; lia|].
      apply (ends_ok_new n (rand k) g ss0 _ k s rn0 _ Hok Hmk).
      intros i x [[Hi Hx]|[-> <-]]%lookup_snoc_Some; [right; split; [lia|done]|by left]. }
  destruct (H n rn1 ss Hloop) as [Hlen Hok]. split_and!; try done.
  apply (ends_ok_group n _ rn1); simpl; [done|by rewrite length_replicate|done].
Qed.

(** A group is made with an end of its own for every ordered pair of
    servers (the random names cannot clash: a clash ends the program), which is what
    [Partition] and the other operations on connections rely on. *)
Theorem makeSrvGrp_ok rand g n rn (sg : @ServerGrp Svc) rn' :
  makeSrvGrp rand g n rn = Done (sg, rn') →
  group_ok n sg ∧ ends_ok n (srvs sg) rn' ∧ gid sg = g ∧ connected sg = replicate n false ∧
  servernames sg = ServerName g <$> indices n.
Proof. apply makeSrvGrp_spec. Qed.
End Ends.

(** ** Server names *)
Definition dash : Ascii.ascii := Ascii.ascii_of_nat 45.

Lemma pretty_N_char_dash n : pretty_N_char n ≠ dash.
Proof. unfold pretty_N_char. by repeat case_match. Qed.

Lemma pretty_N_go_dash : ∀ (x : BinNums.N) s,
  dash ∉ String.list_ascii_of_string s → dash ∉ String.list_ascii_of_string (pretty_N_go x s).
Proof.
  intros x. induction (N.lt_wf_0 x) as [x _ IH]. intros s Hs.
  destruct (decide (x = 0%N)) as [->|Hx]; [by rewrite pretty_N_go_0|].
  rewrite pretty_N_go_step by lia. apply IH; [apply N.div_lt; lia|].
  simpl. apply not_elem_of_cons. split; [|done]. intros E. by apply (pretty_N_char_dash (x `mod` 10)).
Qed.

Lemma pretty_dash (i : Z) : 0 <= i → dash ∉ String.list_ascii_of_string (pretty i).
Proof.
  intros Hi. assert (∀ p, dash ∉ String.list_ascii_of_string (pretty (N.pos p))) as Hpos.
  { intros p. unfold pretty, pretty_N. rewrite decide_False by done. apply pretty_N_go_dash, not_elem_of_nil. }
  destruct i as [|p|p]; [|apply Hpos|lia].
  vm_compute. intros H. repeat (apply elem_of_cons in H as [H|H]; [discriminate|]). by apply elem_of_nil in H.
Qed.

Lemma last_separator_inj {A} (d : A) (l1 l2 r1 r2 : list A) :
  (d ∉ r1) → (d ∉ r2) → l1 ++ d :: r1 = l2 ++ d :: r2 → l1 = l2 ∧ r1 = r2.
Proof.
  intros H1 H2. revert l2. induction l1 as [|x l1 IH]; intros [|y l2] E; simplify_eq/=.
  - done.
  - set_solver.
  - set_solver.
  - edestruct IH as [-> ->]; done.
Qed.

Lemma list_ascii_inj s1 s2 : String.list_ascii_of_string s1 = String.list_ascii_of_string s2 → s1 = s2.
Proof.
  intros E. apply (f_equal String.string_of_list_ascii) in E.
  by rewrite !String.string_of_list_ascii_of_string in E.
Qed.

Lemma list_ascii_append (s1 s2 : string) :
  String.list_ascii_of_string (s1 +:+ s2) =
  String.list_ascii_of_string s1 ++ String.list_ascii_of_string s2.
Proof. induction s1 as [|c s1 IH]; simpl; [done|]. by rewrite IH. Qed.

(** Server names identify servers: different servers, of whatever groups,
    are registered on the network under different names. *)
Theorem ServerName_inj g i g' i' :
  0 <= i → 0 <= i' → ServerName g i = ServerName g' i' → g = g' ∧ i = i'.
Proof.
  intros Hi Hi' E. unfold ServerName in E.
  apply (f_equal String.list_ascii_of_string) in E. rewrite !list_ascii_append in E.
  apply app_inv_head in E. simpl in E.
  apply last_separator_inj in E as [Eg Ei]; [|by apply pretty_dash..].
  split; [by apply (inj pretty), list_ascii_inj|by apply (inj pretty), list_ascii_inj].
Qed.

(** ** Witnesses *)
Definition demo_rand (i j : nat) : string := "e" +:+ pretty i +:+ "-" +:+ pretty j.

Definition demo (n : nat) : @ServerGrp Z * Network :=
  result (makeSrvGrp demo_rand 0 n MakeNetwork) (mkServerGrp [] [] 0 [], MakeNetwork).

Lemma demo_eq : makeSrvGrp demo_rand 0 3 MakeNetwork = Done ((demo 3).1, (demo 3).2).
Proof. rewrite <- surjective_pairing. apply result_Done. vm_compute. reflexivity. Qed.

Lemma MakePartition_splits_witness :
  ∃ p1 p2, MakePartition 1 (demo 3).1 = Done (p1, p2) ∧ p1 ++ p2 = [0; 2; 1] ∧ 1 ∈ p2.
Proof.
  destruct (MakePartition_splits 1 (demo 3).1 3) as (p1 & p2 & H & _ & _ & _ & Hl);
    [vm_compute; reflexivity|reflexivity|lia|lia|].
  exists p1, p2. split; [exact H|]. split; [|exact Hl]. vm_compute in H. by injection H as <- <-.
Defined.

Lemma MakePartition_even_overlaps_witness :
  ∃ p1 p2, MakePartition 1 (demo 4).1 = Done (p1, p2) ∧ p1 = [0; 2; 3] ∧ p2 = [0; 1] ∧ 0 ∈ p1 ∧ 0 ∈ p2.
Proof.
  destruct (MakePartition_even_overlaps 1 (demo 4).1 4) as (p1 & p2 & H & H1 & H2);
    [vm_compute; reflexivity|reflexivity|lia|lia|].
  exists p1, p2. split; [exact H|]. pose proof H as H'. vm_compute in H'. injection H' as E1 E2. subst p1 p2. auto.
Defined.

Lemma makeSrvGrp_ok_witness :
  group_ok 3 (demo 3).1 ∧ link (demo 3).1 2 0 = any_string "e2-0".
Proof.
  destruct (makeSrvGrp_ok demo_rand 0 3 MakeNetwork (demo 3).1 (demo 3).2 demo_eq) as [H _].
  split; [exact H|vm_compute; reflexivity].
Defined.

Lemma demo_group_ok : group_ok 3 (demo 3).1.
Proof.
  exact (proj1 (makeSrvGrp_spec demo_rand 0 3 MakeNetwork (demo 3).1 (demo 3).2 demo_eq)).
Qed.

Lemma Partition_spec_witness :
  ∃ sg' rn', Partition [0; 2] [1] (demo 3).1 (demo 3).2 = Done (sg', rn') ∧
    enabled_at (link (demo 3).1 0 2) rn' = true ∧ enabled_at (link (demo 3).1 0 1) rn' = false.
Proof.
  destruct (Partition_spec 3 [0; 2] [1] (demo 3).1 (demo 3).2 demo_group_ok) as (sg' & rn' & H & _ & Hl).
  - intros i Hi. repeat (apply elem_of_cons in Hi as [->|Hi]; [unfold valid; lia|]). by apply elem_of_nil in Hi.
  - intros i. rewrite list_elem_of_singleton. intros Hi ->.
    repeat (apply elem_of_cons in Hi as [E|Hi]; [discriminate|]). by apply elem_of_nil in Hi.
  - exists sg', rn'. split; [exact H|]. split.
    + rewrite Hl; [vm_compute; reflexivity| |]; apply (bool_decide_eq_true_1 _); vm_compute; reflexivity.
    + rewrite Hl; [vm_compute; reflexivity| |]; apply (bool_decide_eq_true_1 _); vm_compute; reflexivity.
Defined.

Definition no_services (cl : list string) (g i : Z) (p : nat) (st : Store) (a : unit) :
  outcome (list (option Z) * Store * unit) := Done ([Some 7], st, a).
Definition no_kill (s : Z) (st : Store) (a : unit) : outcome (Store * unit) := Done (st, a).
Definition no_methods (s : Z) : @Service Z unit := mkService "S" ∅.

Definition demo_tester : @Tester unit Z unit :=
  mkTester (mkWorld (demo 3).2 [] () [] []) (mkStore ∅ ∅).

Definition demo_started : @ServerGrp Z * @Tester unit Z unit :=
  result (StartServers no_services no_methods (λ i j, "r" +:+ demo_rand i j) (demo 3).1 demo_tester)
    ((demo 3).1, demo_tester).

(** A service of server 1 that saves when it is told to stop. *)
Definition last_save (s : Z) (st : Store) (a : unit) : outcome (Store * unit) := st ← Save 1 None None st; Done (st, a).

Lemma last_save_only s : saves_only last_save 1 s.
Proof.
  intros st a st' a'. unfold last_save. intros (st1 & HS & [= <- <-])%bind_Done Hv. split.
  - exact (Save_valid 1 None None st st1 Hv I HS).
  - intros q Hq. exact (Save_other 1 q None None st st1 Hv I HS Hq).
Qed.

Definition demo_down : @ServerGrp Z * @Tester unit Z unit :=
  result (ShutdownServer last_save 1 demo_started.1 demo_started.2) demo_started.

Lemma ShutdownServer_isolates_witness :
  server_at (any_string "server-0-1") (tnet demo_down.2) = None ∧
  server_at (any_string "server-0-2") (tnet demo_down.2) = Some 2%nat.
Proof.
  assert (ShutdownServer last_save 1 demo_started.1 demo_started.2 = Done (demo_down.1, demo_down.2)) as H.
  { rewrite <- surjective_pairing. apply result_Done. vm_compute. reflexivity. }
  assert (∃ s, slice_get (srvs demo_started.1) 1 = Done s ∧ saved s = Some 1%nat) as (s & Hs & Hp).
  { eexists. split; vm_compute; reflexivity. }
  assert (store_valid (store demo_started.2)) as Hv.
  { assert (persisters (store demo_started.2) =
      list_to_map [(0%nat, mkPersister None None); (1%nat, mkPersister None None); (2%nat, mkPersister None None)])
      as E by (vm_compute; reflexivity).
    intros p ps. rewrite E. intros Hps%elem_of_list_to_map_2.
    repeat (apply elem_of_cons in Hps as [[= -> ->]|Hps]; [split; exact I|]).
    destruct (proj1 (elem_of_nil _) Hps). }
  destruct (ShutdownServer_isolates last_save 1 _ _ _ _ s 1 Hv Hs Hp (λ svc _, last_save_only svc) H) as [Hn _].
  split; [exact Hn|vm_compute; reflexivity].
Defined.

Lemma ServerName_inj_witness : ServerName 1 12 = "server-1-12" ∧ (ServerName 1 12 = ServerName 11 2 → False).
Proof.
  split; [vm_compute; reflexivity|]. intros E.
  apply (ServerName_inj 1 12 11 2) in E as [E _]; [discriminate|lia|lia].
Defined.
