(* ===== verification/GroupStart.v ===== *)
(** * GroupStart: groups that start and exit

    Starting a group ends, and makes it [running]: every server is
    registered with its services, and the end from any server to any other is
    enabled and leads there. Exiting unregisters the servers. Neither disturbs
    other groups, so a cluster of running groups stays one. The random names that are
    drawn have to be new, and the services' constructors and [Kill] have to return. *)

From S2P Require Import Prelude Persister Labrpc Group GroupProps.

Local Open Scope Z_scope.

(** ** The network, as the groups change it *)

(** From [rn] to [rn'] the ends of [rn] outside [own] and the servers outside
    [names] are what they were. *)
Record net_kept (own names : any → Prop) (rn rn' : Network) : Prop := {
  nk_ends : ∀ e, e ∈ ends rn → e ∈ ends rn';
  nk_conn : ∀ e, e ∈ ends rn → connection_at e rn' = connection_at e rn;
  nk_enabled : ∀ e, e ∈ ends rn → ¬ own e → enabled_at e rn' = enabled_at e rn;
  nk_server : ∀ s, ¬ names s → server_at s rn' = server_at s rn
}.

Lemma net_kept_refl own names rn : net_kept own names rn rn.
Proof. by split. Qed.

(** A second change may also touch the ends that the first one made. *)
Lemma net_kept_then (own own2 names names2 : any → Prop) rn1 rn2 rn3 :
  net_kept own names rn1 rn2 → net_kept own2 names2 rn2 rn3 →
  (∀ e, e ∈ ends rn1 → own2 e → own e) → (∀ s, names2 s → names s) → net_kept own names rn1 rn3.
Proof.
  intros [E1 C1 N1 S1] [E2 C2 N2 S2] Ho Hn. split.
  - auto.
  - intros e He. by rewrite C2, C1 by auto.
  - intros e He Hne. rewrite N2, N1; auto.
  - intros s Hs. rewrite S2, S1; auto.
Qed.

Lemma net_kept_trans (own names : any → Prop) rn1 rn2 rn3 :
  net_kept own names rn1 rn2 → net_kept own names rn2 rn3 → net_kept own names rn1 rn3.
Proof. intros H1 H2. by eapply net_kept_then. Qed.

Lemma net_kept_weaken (own own' names names' : any → Prop) rn rn' :
  (∀ e, e ∈ ends rn → own e → own' e) → (∀ s, names s → names' s) → net_kept own names rn rn' → net_kept own' names' rn rn'.
Proof.
  intros Ho Hn [E C N S]. split; [done|done| |].
  - intros e He Hne. apply N; [done|]. intros H. by apply Hne, Ho.
  - intros s Hs. apply S. auto.
Qed.

Lemma enable_links_kept es b rn : net_kept (.∈ es) (λ _, False) rn (enable_links es b rn) ∧ ends (enable_links es b rn) = ends rn.
Proof.
  assert (∀ rn, ends (enable_links es b rn) = ends rn ∧ connections (enable_links es b rn) = connections rn ∧
    servers (enable_links es b rn) = servers rn) as Hsame.
  { induction es as [|e es IH]; intros rn0; [done|]. apply (IH (Enable e b rn0)). }
  destruct (Hsame rn) as (E & C & S). split; [|done]. split.
  - by rewrite E.
  - intros e _. unfold connection_at. by rewrite C.
  - intros e _ He. rewrite enabled_at_links. by rewrite decide_False.
  - intros s _. unfold server_at. by rewrite S.
Qed.

(** ** Making servers *)

(** The names that are drawn: new, and all different. *)
Record fresh_names (n : nat) (rand : nat → nat → string) (rn : Network) : Prop := {
  fn_new : ∀ i j, (i < n)%nat → (j < n)%nat → any_string (rand i j) ∉ ends rn;
  fn_inj : ∀ i j i' j', (i < n)%nat → (j < n)%nat → (i' < n)%nat → (j' < n)%nat →
    rand i j = rand i' j' → i = i' ∧ j = j'
}.

Record made (g : Z) (n : nat) (rand : nat → string) (rn rn' : Network) : Prop := {
  m_kept : net_kept (λ _, False) (λ _, False) rn rn';
  m_ends : ∀ e, e ∈ ends rn' ↔ e ∈ ends rn ∨ ∃ j, (j < n)%nat ∧ e = any_string (rand j);
  m_conn : ∀ j, (j < n)%nat → connection_at (any_string (rand j)) rn' = any_string (ServerName g (Z.of_nat j))
}.

Definition new_server {Svc} (n : nat) (rand : nat → string) : @Srv Svc :=
  mkSrv None [] (Some (rand <$> seq 0 n)) (rand <$> seq 0 n).

(** A new end, connected to a server. *)
Lemma new_end_kept x y rn :
  x ∉ ends rn →
  ∃ rn', MakeEnd x rn = Done rn' ∧ net_kept (λ _, False) (λ _, False) rn (Connect x y rn') ∧
    (∀ e, e ∈ ends (Connect x y rn') ↔ e ∈ ends rn ∨ e = x) ∧ connection_at x (Connect x y rn') = y.
Proof.
  intros Hx. unfold MakeEnd. rewrite decide_False by done. eexists. split; [done|]. split_and!.
  - split; simpl; [set_solver| | |done].
    + intros e He. unfold connection_at. simpl. by rewrite !lookup_insert_ne by set_solver.
    + intros e He _. unfold enabled_at. simpl. by rewrite !lookup_insert_ne by set_solver.
  - simpl. set_solver.
  - unfold connection_at. simpl. by rewrite lookup_insert_eq.
Qed.

Lemma makeServer_total {Svc} g n (rand : nat → string) rn :
  (∀ j, (j < n)%nat → any_string (rand j) ∉ ends rn) →
  (∀ j k, (j < n)%nat → (k < n)%nat → rand j = rand k → j = k) →
  ∃ rn', makeServer rand g n rn = Done (@new_server Svc n rand, rn') ∧ made g n rand rn rn'.
Proof.
  intros Hnew Hinj. unfold makeServer.
  assert (∀ k, (k <= n)%nat → ∃ rn', for_each (seq 0 k) (λ j rn,
    rn1 ← MakeEnd (any_string (rand j)) rn;
    Done (Connect (any_string (rand j)) (any_string (ServerName g (Z.of_nat j))) rn1)) rn = Done rn' ∧
    made g k rand rn rn') as Hloop.
  { induction k as [|k IH]; intros Hk.
    - exists rn. split; [done|]. split; [apply net_kept_refl|naive_solver lia|lia].
    - destruct IH as (rn1 & Hrun & [K1 E1 C1]); [lia|]. rewrite seq_S, for_each_app, Hrun. cbn [mbind outcome_bind for_each].
      assert (any_string (rand k) ∉ ends rn1) as Hk1.
      { rewrite E1. intros [Hin|(j & Hj & [= E])]; [by apply (Hnew k)|]. apply Hinj in E; lia. }
      destruct (new_end_kept _ (any_string (ServerName g (Z.of_nat k))) rn1 Hk1) as (rn2 & Hnew2 & K2 & E2 & C2).
      rewrite Nat.add_0_l, Hnew2. cbn [mbind outcome_bind]. eexists. split; [done|]. split.
      + by eapply net_kept_trans.
      + intros e. rewrite E2, E1. split.
        * intros [[?|(j & ? & ->)]| ->]; [by left|right; exists j; split; [lia|done]|right; exists k; split; [lia|done]].
        * intros [?|(j & Hj & ->)]; [by left; left|]. destruct (decide (j = k)) as [->|]; [by right|].
          left. right. exists j. split; [lia|done].
      + intros j Hj. destruct (decide (j = k)) as [->|]; [done|].
        rewrite (nk_conn _ _ _ _ K2) by (apply E1; right; exists j; split; [lia|done]). apply C1. lia. }
  destruct (Hloop n) as (rn' & -> & Hm); [done|]. exists rn'. by split.
Qed.

Lemma made_no_ends g n rand rn rn' e :
  made g n rand rn rn' → e ∉ ends rn → (∀ j, (j < n)%nat → e ≠ any_string (rand j)) → e ∉ ends rn'.
Proof. intros [_ E _] He Hne [?|(j & Hj & ->)]%E; [done|]. by apply (Hne j). Qed.

Lemma makeSrvGrp_total {Svc} g n rand rn :
  fresh_names n rand rn →
  ∃ (sg : @ServerGrp Svc) rn', makeSrvGrp rand g n rn = Done (sg, rn') ∧
    net_kept (λ _, False) (λ _, False) rn rn' ∧ length (srvs sg) = n ∧
    (∀ e, e ∈ ends rn' ↔ e ∈ ends rn ∨ ∃ i j, (i < n)%nat ∧ (j < n)%nat ∧ e = any_string (rand i j)) ∧
    Forall (λ s, saved s = None) (srvs sg).
Proof.
  intros [Hnew Hinj]. unfold makeSrvGrp.
  assert (∀ k, (k <= n)%nat → ∃ (ss : list (@Srv Svc)) rn', for_each (seq 0 k) (λ i '(ss, rn),
      '(s, rn1) ← makeServer (rand i) g n rn; Done (ss ++ [s], rn1)) ([], rn) = Done (ss, rn') ∧
      net_kept (λ _, False) (λ _, False) rn rn' ∧ length ss = k ∧
      (∀ e, e ∈ ends rn' ↔ e ∈ ends rn ∨ ∃ i j, (i < k)%nat ∧ (j < n)%nat ∧ e = any_string (rand i j)) ∧
      Forall (λ s, saved s = None) ss) as Hloop.
  { induction k as [|k IH]; intros Hk.
    - exists [], rn. split_and!; [done|apply net_kept_refl|done|naive_solver lia|done].
    - destruct IH as (ss & rn1 & Hrun & K1 & L1 & E1 & F1); [lia|].
      rewrite seq_S, for_each_app, Hrun. cbn [mbind outcome_bind for_each].
      destruct (@makeServer_total Svc g n (rand k) rn1) as (rn2 & Hm & Hmade).
      { intros j Hj [Hin|(i & j' & Hi & Hj' & [= E])]%E1; [by apply (Hnew k j)|]. apply Hinj in E; lia. }
      { intros j j' Hj Hj' E. apply Hinj in E; lia. }
      rewrite Nat.add_0_l, Hm. cbn [mbind outcome_bind].
      eexists _, _. split; [done|]. split_and!.
      + eapply net_kept_trans; [exact K1|exact (m_kept _ _ _ _ _ Hmade)].
      + rewrite length_app, L1. simpl. lia.
      + intros e. rewrite (m_ends _ _ _ _ _ Hmade), E1. split.
        * intros [[?|(i & j & ? & ? & ->)]|(j & ? & ->)]; [by left|right; exists i, j; eauto with lia|].
          right. exists k, j. eauto with lia.
        * intros [?|(i & j & Hi & Hj & ->)]; [by left; left|]. destruct (decide (i = k)) as [->|].
          -- right. by exists j.
          -- left. right. exists i, j. eauto with lia.
      + apply Forall_app. split; [done|]. by constructor. }
  destruct (Hloop n) as (ss & rn' & -> & K & L & E & F); [done|]. cbn [mbind outcome_bind]. by eexists _, _.
Qed.

(** ** Connecting everybody *)
Section Connecting.
Context {Svc : Type}.
Abbreviation ServerGrp := (@ServerGrp Svc).

Definition link_names (sg : ServerGrp) (e : any) : Prop :=
  ∃ i j, valid (length (srvs sg)) i ∧ valid (length (srvs sg)) j ∧ e = link sg i j.

Lemma ConnectAll_ok n (sg : ServerGrp) rn :
  group_ok n sg →
  ∃ rn', ConnectAll sg rn = Done (set_connected (replicate n true) sg, rn') ∧
    net_kept (link_names sg) (λ _, False) rn rn' ∧ ends rn' = ends rn ∧
    ∀ i j, valid n i → valid n j → enabled_at (link sg i j) rn' = true.
Proof.
  intros Hok. unfold ConnectAll, all, indices. rewrite (ok_srvs n sg Hok).
  assert (∀ k, (k <= n)%nat → ∃ conn rn',
    for_each (Z.of_nat <$> seq 0 k) (λ i '(sg, rn), ConnectOne i sg rn) (sg, rn) = Done (set_connected conn sg, rn') ∧
    length conn = n ∧ (∀ i, (i < k)%nat → conn !! i = Some true) ∧
    net_kept (link_names sg) (λ _, False) rn rn' ∧ ends rn' = ends rn ∧
    ∀ i j, valid k i → valid k j → enabled_at (link sg i j) rn' = true) as Hloop.
  { induction k as [|k IH]; intros Hk.
    - exists (connected sg), rn. split_and!; [by destruct sg|apply (ok_connected n sg Hok)|lia|apply net_kept_refl|done|].
      unfold valid. lia.
    - destruct IH as (conn & rn1 & Hrun & Hl & Hc & K1 & E1 & Hen); [lia|].
      rewrite seq_S, fmap_app, for_each_app, Hrun. cbn [mbind outcome_bind fmap list_fmap for_each].
      set (sg1 := set_connected conn sg) in *. rewrite Nat.add_0_l.
      assert (group_ok n sg1) as Hok1 by by apply set_connected_ok.
      assert (valid n (Z.of_nat k)) as Hvk by (unfold valid; lia).
      assert (∀ t, t ∈ all sg1 → valid n t) as Hall.
      { intros t Ht. unfold all in Ht. apply elem_of_indices in Ht. by rewrite (ok_srvs n sg1 Hok1) in Ht. }
      destruct (connect_spec n sg1 rn1 (Z.of_nat k) (all sg1) Hok1 Hvk Hall) as (es & Hconn & Hes).
      unfold ConnectOne. rewrite Hconn. cbn [mbind outcome_bind]. rewrite Nat2Z.id in *.
      set (conn' := <[k:=true]> (connected sg1)) in *.
      destruct (enable_links_kept es true rn1) as [K2 E2].
      exists conn', (enable_links es true rn1). split_and!.
      + done.
      + unfold conn'. by rewrite length_insert.
      + intros i Hi. unfold conn'. simpl. destruct (decide (i = k)) as [->|].
        * apply list_lookup_insert_eq. lia.
        * rewrite list_lookup_insert_ne by done. apply Hc. lia.
      + eapply net_kept_trans; [exact K1|]. eapply net_kept_weaken; [| |exact K2]; [|done]. simpl.
        intros e _ (t & Ht & _ & E)%Hes. apply Hall in Ht. rewrite <- (ok_srvs n sg Hok) in Ht, Hvk.
        unfold link_names. destruct E as [->| ->]; [by exists (Z.of_nat k), t|by exists t, (Z.of_nat k)].
      + by rewrite E2.
      + intros i j Hi Hj. rewrite enabled_at_links. case_decide as Hin; [done|].
        assert (∀ t, valid (S k) t → t ∈ all sg1 ∧ is_connected (set_connected conn' sg1) t = true) as Hct.
        { intros t Ht. unfold valid in Ht. split.
          - unfold all. apply elem_of_indices. rewrite (ok_srvs n sg1 Hok1). lia.
          - unfold is_connected, conn'. simpl. destruct (decide (Z.to_nat t = k)) as [->|].
            + rewrite list_lookup_insert_eq; [done|lia].
            + rewrite list_lookup_insert_ne by done. rewrite Hc by lia. done. }
        destruct (Hct i Hi) as [Hi1 Hi2], (Hct j Hj) as [Hj1 Hj2].
        destruct (decide (i = Z.of_nat k)) as [->|].
        { exfalso. apply Hin, Hes. exists j. split_and!; [done|done|by left]. }
        destruct (decide (j = Z.of_nat k)) as [->|].
        { exfalso. apply Hin, Hes. exists i. split_and!; [done|done|by right]. }
        apply Hen; unfold valid in *; lia. }
  destruct (Hloop n) as (conn & rn' & Hrun & Hl & Hc & K & E & Hen); [done|].
  assert (conn = replicate n true) as ->.
  { apply list_eq. intros i. destruct (decide (i < n)%nat) as [Hi|Hi].
    - rewrite Hc by done. symmetry. by apply lookup_replicate_2.
    - rewrite !lookup_ge_None_2; [done|rewrite length_replicate; lia|lia]. }
  by exists rn'.
Qed.
End Connecting.

(** ** Starting the servers

    On which persisters a server can be started is known to the program under test: on any of them,
    if it does not mind what they hold. *)
Class Usable := {
  usable : Store → nat → Prop;
  usable_is_Some st p : usable st p → is_Some (persisters st !! p);
  usable_new st : let '(p, st') := MakePersister st in usable st' p ∧ ∀ q, usable st q → usable st' q;
  usable_copy st p p' st' : usable st p → Copy p st = Done (p', st') → usable st' p' ∧ ∀ q, usable st q → usable st' q
}.

#[export] Program Instance any_persister : Usable | 100 := {| usable st p := is_Some (persisters st !! p) |}.
Next Obligation. done. Qed.
Next Obligation.
  intros st. simpl. split; [rewrite lookup_insert_eq; by eexists|]. intros q Hq. apply lookup_insert_is_Some'. by right.
Qed.
Next Obligation.
  intros st p p' st' Hp (ps & Hps & Hnp & ->)%Copy_inv. simpl. split; [rewrite lookup_insert_eq; by eexists|].
  intros q Hq. apply lookup_insert_is_Some'. by right.
Qed.

Section Starting.
Context {persisted : Usable}.
Context {Typ Val A Svc : Type}.
Context (mks : list string → Z → Z → nat → Store → A → outcome (list (option Svc) * Store * A)).
Context (Kill : Svc → Store → A → outcome (Store * A)).
Context (service_of : Svc → @Service Val A).

(** What is known of the services of server [i] of group [g] that was given the ends [cl] and a persister; it must
    survive whatever other servers do. *)
Context (made : Z → list string → Z → nat → list Svc → A → Prop).
Abbreviation ServerGrp := (@ServerGrp Svc).
Abbreviation Tester := (@Tester Typ Val A).
Abbreviation StartServer := (@StartServer Typ Val A Svc mks service_of).

Definition made_kept (a a' : A) : Prop := ∀ g cl i p sv, made g cl i p sv a → made g cl i p sv a'.

(** No persister is lost, or spoilt. *)
Definition persisters_kept (st st' : Store) : Prop := ∀ q, usable st q → usable st' q.

(** What the tester needs from the program under test, for groups of [n] servers and for all: a server can be
    started on any persister, and a service that was made can be killed. *)
Definition starts_n (n : nat) : Prop := ∀ cl g i p st a, length cl = n → valid n i → usable st p →
  ∃ sv st' a', mks cl g i p st a = Done (Some <$> sv, st', a') ∧ made g cl i p sv a' ∧ made_kept a a' ∧ persisters_kept st st'.

Definition starts : Prop := ∀ n, starts_n n.

Definition stops : Prop := ∀ g cl i p sv svc st a, made g cl i p sv a → svc ∈ sv → usable st p →
  ∃ st' a', Kill svc st a = Done (st', a') ∧ made_kept a a' ∧ persisters_kept st st'.

(** Nothing that other groups rely on changes. *)
Record kept (own names : any → Prop) (T T' : Tester) : Prop := {
  k_net : net_kept own names (tnet T) (tnet T');
  k_heap : heap (world T) `prefix_of` heap (world T');
  k_store : persisters_kept (store T) (store T');
  k_made : made_kept (app (world T)) (app (world T'));
  k_calls : calls (world T') = calls (world T)
}.

Lemma kept_refl own names T : kept own names T T.
Proof. split; [apply net_kept_refl|done|by intros q|by intros g n i p sv|done]. Qed.

(** A change of the network alone. *)
Lemma kept_net own names rn T : net_kept own names (tnet T) rn → kept own names T (with_net rn T).
Proof. intros K. split; [exact K|done|by intros q|by intros g n i p sv|done]. Qed.

Lemma kept_then (own own2 names names2 : any → Prop) T1 T2 T3 :
  kept own names T1 T2 → kept own2 names2 T2 T3 →
  (∀ e, e ∈ ends (tnet T1) → own2 e → own e) → (∀ s, names2 s → names s) → kept own names T1 T3.
Proof.
  intros [N1 H1 S1 M1 C1] [N2 H2 S2 M2 C2] Ho Hn. split; [by eapply net_kept_then|by etrans|by intros q Hq; apply S2, S1| |by rewrite C2].
  intros g n i p sv H. by apply M2, M1.
Qed.

Lemma kept_trans own names T1 T2 T3 : kept own names T1 T2 → kept own names T2 T3 → kept own names T1 T3.
Proof. intros H1 H2. by eapply kept_then. Qed.

Lemma kept_weaken (own own' names names' : any → Prop) T T' :
  (∀ e, e ∈ ends (tnet T) → own e → own' e) → (∀ s, names s → names' s) → kept own names T T' → kept own' names' T T'.
Proof. intros Ho Hn [N H S M C]. split; [by eapply net_kept_weaken|done..]. Qed.

Lemma server_name_inj g i g' i' :
  0 <= i → 0 <= i' → any_string (ServerName g i) = any_string (ServerName g' i') → g = g' ∧ i = i'.
Proof. intros Hi Hi' E. apply ServerName_inj; [done|done|]. congruence. Qed.

Definition group_names (g : Z) (n : nat) (s : any) : Prop := ∃ i, valid n i ∧ s = any_string (ServerName g i).

(** Server [i] of group [g] is up. *)
Record server_up (g i : Z) (T : Tester) (s : @Srv Svc) : Prop := {
  up_ends : ∀ names j x, endNames s = Some names → names !! j = Some x →
    any_string x ∈ ends (tnet T) ∧ connection_at (any_string x) (tnet T) = any_string (ServerName g (Z.of_nat j));
  up_clnt : endNames s = Some (clntEnds s);
  up_server : ∃ q p sv, server_at (any_string (ServerName g i)) (tnet T) = Some q ∧ saved s = Some p ∧
    usable (store T) p ∧ svcs s = Some <$> sv ∧ made g (clntEnds s) i p sv (app (world T)) ∧
    heap (world T) !! q = Some (foldl (λ ls svc, AddService (service_of svc) ls) MakeServer sv)
}.

Lemma server_up_kept own names g i T T' s :
  kept own names T T' → ¬ names (any_string (ServerName g i)) → server_up g i T s → server_up g i T' s.
Proof.
  intros [N Hh Hs Hm _] Hn [E Hcl (q & p & sv & Hq & Hp & Hpp & Hsv & Hmd & Hls)]. split.
  - intros ns j x Hns Hx. destruct (E ns j x Hns Hx) as [Hin Hc]. split; [by eapply nk_ends|].
    by rewrite (nk_conn _ _ _ _ N).
  - exact Hcl.
  - exists q, p, sv. split_and!; [by rewrite (nk_server _ _ _ _ N)|done|by apply Hs|done|by apply Hm|]. by eapply prefix_lookup_Some.
Qed.

Lemma add_services (sv : list Svc) ls :
  for_each (Some <$> sv) (λ svc ls, match svc with
    | Some svc => Done (AddService (service_of svc) ls)
    | None => Panic "MakeService of nil"
    end) ls = Done (foldl (λ ls svc, AddService (service_of svc) ls) ls sv).
Proof. revert ls. induction sv as [|s sv IH]; intros ls; [done|]. cbn [fmap list_fmap for_each mbind outcome_bind]. apply IH. Qed.

(** A server that can be started, for the first time or again. *)
Definition startable (n : nat) (T : Tester) (s : @Srv Svc) : Prop :=
  (∃ names, endNames s = Some names ∧ length names = n) ∧
  (saved s = None ∨ ∃ p, saved s = Some p ∧ usable (store T) p).

Lemma startable_kept own names n T T' s : kept own names T T' → startable n T s → startable n T' s.
Proof.
  intros K [Hn [Hs|(p & Hs & Hp)]]; (split; [done|]); [by left|]. right. exists p. split; [done|]. by apply (k_store _ _ _ _ K).
Qed.

Lemma MakePersister_keeps st : let '(p, st') := MakePersister st in usable st' p ∧ persisters_kept st st'.
Proof. pose proof (usable_new st) as H. by destruct (MakePersister st). Qed.

Lemma Copy_keeps p st : usable st p →
  ∃ p' st', Copy p st = Done (p', st') ∧ usable st' p' ∧ persisters_kept st st'.
Proof.
  intros Hp. destruct (usable_is_Some st p Hp) as [ps Hps].
  destruct (Copy p st) as [[p' st']| | |] eqn:E; try (unfold Copy, with_persister in E; by rewrite Hps in E).
  destruct (usable_copy st p p' st' Hp E) as [H1 H2]. by exists p', st'.
Qed.

Lemma StartServer_ok rand i n (sg : ServerGrp) (T : Tester) s :
  starts_n n → srvs sg !! i = Some s → (i < n)%nat → startable n T s →
  (∀ j, (j < n)%nat → any_string (rand j) ∉ ends (tnet T)) →
  (∀ j k, (j < n)%nat → (k < n)%nat → rand j = rand k → j = k) →
  ∃ s' T', StartServer rand (Z.of_nat i) sg T = Done (set_srvs (<[i := s']> (srvs sg)) sg, T') ∧
    endNames s' = Some (rand <$> seq 0 n) ∧ server_up (gid sg) (Z.of_nat i) T' s' ∧
    kept (λ _, False) (λ x, x = any_string (ServerName (gid sg) (Z.of_nat i))) T T' ∧
    (∀ e, e ∈ ends (tnet T') ↔ e ∈ ends (tnet T) ∨ ∃ j, (j < n)%nat ∧ e = any_string (rand j)).
Proof.
  intros Hmks Hs Hi [(names & Hnames & Hlen) Hsaved] Hnew Hinj.
  destruct (@makeServer_total Svc (gid sg) n rand (tnet T) Hnew Hinj) as (rn & Hmk & [K E C]).
  unfold StartServer, startServer. rewrite (slice_get_Some _ _ _ Hs). cbn [mbind outcome_bind].
  rewrite Hnames. cbn [default from_option id]. rewrite Hlen, Hmk. cbn [mbind outcome_bind].
  assert (∃ p st, match saved s with Some p => Copy p (store T) | None => Done (MakePersister (store T)) end = Done (p, st) ∧
    usable st p ∧ persisters_kept (store T) st)
    as (p & st & -> & Hpst & Hst).
  { destruct Hsaved as [->|(p0 & -> & Hp0)]; [|by apply Copy_keeps]. pose proof (MakePersister_keeps (store T)) as H.
    destruct (MakePersister (store T)) as [p st]. by exists p, st. }
  cbn [mbind outcome_bind].
  unfold new_server. cbn [svcs endNames clntEnds saved].
  assert (length (rand <$> seq 0 n) = n) as Hlr by (by rewrite length_fmap, length_seq).
  assert (valid n (Z.of_nat i)) as Hvi by (unfold valid; lia).
  destruct (Hmks (rand <$> seq 0 n) (gid sg) (Z.of_nat i) p st (app (world T)) Hlr Hvi Hpst) as (sv & st' & a' & Hrun & Hsv & Hmade & Hkeep).
  change (store (with_store st (with_net rn T))) with st.
  change (app (world (with_store st (with_net rn T)))) with (app (world T)).
  rewrite Hrun. cbn [mbind outcome_bind].
  rewrite slice_set_lt, Nat2Z.id by (apply lookup_lt_Some in Hs; lia). cbn [mbind outcome_bind]. rewrite add_services. cbn [mbind outcome_bind].
  eexists _, _. split; [reflexivity|]. split_and!.
  - done.
  - split.
    + intros ns j x Hns Hx. injection Hns as <-. apply list_lookup_fmap_Some in Hx as (k & -> & [-> Hj]%lookup_seq).
      split; [apply E; right; by exists j|].
      change (connection_at (any_string (rand j)) rn = any_string (ServerName (gid sg) (Z.of_nat j))). by apply C.
    + done.
    + eexists _, p, sv. split_and!; [|done|by apply Hkeep|done|exact Hsv|].
      * unfold server_at. simpl. rewrite lookup_insert_eq. reflexivity.
      * simpl. by rewrite lookup_app_r, Nat.sub_diag.
  - split.
    + destruct K as [K1 K2 K3 K4]. split.
      * exact K1.
      * exact K2.
      * exact K3.
      * intros x Hx. rewrite <- (K4 x (λ H, H)). unfold server_at. simpl.
        rewrite lookup_insert_ne; [done|]. intros E'. by apply Hx.
    + simpl. by eexists.
    + intros q Hq. simpl. by apply Hkeep, Hst.
    + exact Hmade.
    + done.
  - exact E.
Qed.
(** The loop of [start]. *)
Lemma start_loop g rand n (sg : ServerGrp) (T : Tester) :
  starts_n n → gid sg = g → length (srvs sg) = n → fresh_names n rand (tnet T) →
  (∀ i s, srvs sg !! i = Some s → startable n T s) →
  ∃ ss T', start mks service_of rand sg T = Done (set_srvs ss sg, T') ∧ length ss = n ∧
    (∀ i s, ss !! i = Some s → server_up g (Z.of_nat i) T' s ∧ endNames s = Some (rand i <$> seq 0 n)) ∧
    kept (λ _, False) (group_names g n) T T' ∧
    ∀ e, e ∈ ends (tnet T') ↔ e ∈ ends (tnet T) ∨ ∃ i j, (i < n)%nat ∧ (j < n)%nat ∧ e = any_string (rand i j).
Proof.
  intros Hmks <- Hlen [Hnew Hinj] Hsrvs. unfold start. rewrite Hlen.
  assert (∀ k, (k <= n)%nat → ∃ ss T',
    for_each (seq 0 k) (λ i '(sg, T), StartServer (rand i) (Z.of_nat i) sg T) (sg, T) = Done (set_srvs ss sg, T') ∧
    length ss = n ∧
    (∀ i s, (i < k)%nat → ss !! i = Some s → server_up (gid sg) (Z.of_nat i) T' s ∧ endNames s = Some (rand i <$> seq 0 n)) ∧
    (∀ i, (k <= i)%nat → ss !! i = srvs sg !! i) ∧
    kept (λ _, False) (group_names (gid sg) n) T T' ∧
    ∀ e, e ∈ ends (tnet T') ↔ e ∈ ends (tnet T) ∨ ∃ i j, (i < k)%nat ∧ (j < n)%nat ∧ e = any_string (rand i j)) as Hloop.
  { induction k as [|k IH]; intros Hk.
    - exists (srvs sg), T. split_and!; [by destruct sg|done|lia|done|apply kept_refl|naive_solver lia].
    - destruct IH as (ss & T1 & Hrun & L1 & U1 & D1 & K1 & E1); [lia|].
      rewrite seq_S, for_each_app, Hrun. cbn [mbind outcome_bind for_each]. rewrite Nat.add_0_l.
      destruct (lookup_lt_is_Some_2 ss k) as [s Hs]; [lia|]. pose proof Hs as Hs0. rewrite D1 in Hs0 by done.
      pose proof (startable_kept _ _ _ _ _ _ K1 (Hsrvs k s Hs0)) as Hstart.
      destruct (StartServer_ok (rand k) k n (set_srvs ss sg) T1 s Hmks) as (s' & T2 & Hst & Hn' & Hup & K2 & E2);
        [done|lia|done| | |].
      { intros j Hj [Hin|(i & j' & Hi & Hj' & [= E])]%E1; [by apply (Hnew k j)|]. apply Hinj in E; lia. }
      { intros j j' Hj Hj' E. apply Hinj in E; lia. }
      rewrite Hst. cbn [mbind outcome_bind]. exists (<[k := s']> ss), T2. split_and!.
      + done.
      + by rewrite length_insert.
      + intros i x Hi Hx. destruct (decide (i = k)) as [->|Hne].
        * rewrite list_lookup_insert_eq in Hx by lia. by injection Hx as <-.
        * rewrite list_lookup_insert_ne in Hx by done. destruct (U1 i x ltac:(lia) Hx) as [Hu Hn]. split; [|done].
          eapply server_up_kept; [exact K2| |exact Hu]. simpl. intros E. apply server_name_inj in E; lia.
      + intros i Hi. rewrite list_lookup_insert_ne by lia. apply D1. lia.
      + eapply kept_trans; [exact K1|]. eapply kept_weaken; [| |exact K2]; [done|]. simpl. intros x ->.
        exists (Z.of_nat k). split; [unfold valid; lia|done].
      + intros e. rewrite E2, E1. split.
        * intros [[?|(i & j & ? & ? & ->)]|(j & ? & ->)]; [by left|right; exists i, j; eauto with lia|].
          right. exists k, j. eauto with lia.
        * intros [?|(i & j & Hi & Hj & ->)]; [by left; left|]. destruct (decide (i = k)) as [->|].
          -- right. by exists j.
          -- left. right. exists i, j. eauto with lia. }
  destruct (Hloop n) as (ss & T' & Hrun & L & U & _ & K & E); [done|]. exists ss, T'. split_and!; try done.
  intros i s Hs. apply U; [|done]. rewrite <- L. by eapply lookup_lt_Some.
Qed.

(** A group that is running: every server is up, and connected to every other. *)
Record running (g : Z) (n : nat) (sg : ServerGrp) (T : Tester) : Prop := {
  run_ok : group_ok n sg;
  run_gid : gid sg = g;
  run_names : servernames sg = ServerName g <$> indices n;
  run_conn : connected sg = replicate n true;
  run_up : ∀ i s, srvs sg !! i = Some s → server_up g (Z.of_nat i) T s;
  run_links : ∀ i j, valid n i → valid n j → enabled_at (link sg i j) (tnet T) = true
}.

(** What is drawn when a group is made, and when its servers start. *)
Record fresh_draws (n : nat) (rand1 rand2 : nat → nat → string) (rn : Network) : Prop := {
  fd_1 : fresh_names n rand1 rn;
  fd_2 : fresh_names n rand2 rn;
  fd_12 : ∀ i j i' j', (i < n)%nat → (j < n)%nat → (i' < n)%nat → (j' < n)%nat → rand1 i j ≠ rand2 i' j'
}.

Lemma link_drawn rand n (ss : list Srv) (sg : ServerGrp) i j :
  (∀ i s, ss !! i = Some s → endNames s = Some (rand i <$> seq 0 n)) → length ss = n →
  valid n i → valid n j → link (set_srvs ss sg) i j = any_string (rand (Z.to_nat i) (Z.to_nat j)).
Proof.
  intros Hn Hl Hi Hj. unfold valid in *. unfold link. simpl.
  destruct (lookup_lt_is_Some_2 ss (Z.to_nat i)) as [s Hs]; [lia|]. rewrite Hs. simpl. rewrite (Hn _ _ Hs). simpl.
  rewrite list_lookup_fmap, lookup_seq_lt by lia. done.
Qed.

(** Starting the servers of a group, and connecting them. *)
Lemma StartServers_ok rand g n (sg : ServerGrp) (T : Tester) :
  starts_n n → gid sg = g → group_ok n sg → servernames sg = ServerName g <$> indices n → fresh_names n rand (tnet T) →
  (∀ i s, srvs sg !! i = Some s → startable n T s) →
  ∃ sg' T', StartServers mks service_of rand sg T = Done (sg', T') ∧ running g n sg' T' ∧
    kept (λ _, False) (group_names g n) T T' ∧
    (∀ e, link_names sg' e → (e ∉ ends (tnet T)) ∧ e ∈ ends (tnet T')).
Proof.
  intros Hmks Hg Hok Hnames Hfresh Hsrvs.
  destruct (start_loop g rand n sg T Hmks Hg (ok_srvs n sg Hok) Hfresh Hsrvs) as (ss & T1 & Hst & L1 & U1 & K1 & E1).
  unfold StartServers. rewrite Hst. cbn [mbind outcome_bind].
  assert (∀ i s, ss !! i = Some s → endNames s = Some (rand i <$> seq 0 n)) as Hends by (intros i s Hs; by apply U1).
  assert (∀ i j, valid n i → valid n j → link (set_srvs ss sg) i j = any_string (rand (Z.to_nat i) (Z.to_nat j))) as Hlink.
  { intros i j. by apply link_drawn. }
  assert (group_ok n (set_srvs ss sg)) as Hok1.
  { split; [done|by rewrite <- (ok_connected n sg Hok)| |].
    - intros i s Hs. eexists. split; [by apply (Hends i)|]. by rewrite length_fmap, length_seq.
    - intros i j i' j' Hi Hj Hi' Hj' E. rewrite !Hlink in E by done. injection E as E. unfold valid in *.
      apply (fn_inj _ _ _ Hfresh) in E; lia. }
  destruct (ConnectAll_ok n (set_srvs ss sg) (tnet T1) Hok1) as (rn' & Hconn & K2 & E2 & Hen).
  rewrite Hconn. cbn [mbind outcome_bind]. eexists _, _. split; [reflexivity|].
  assert (kept (link_names (set_srvs ss sg)) (λ _, False) T1 (with_net rn' T1)) as K2' by by apply kept_net.
  assert (∀ e, link_names (set_srvs ss sg) e → (e ∉ ends (tnet T)) ∧ e ∈ ends (tnet T1)) as Hnew.
  { intros e (i & j & Hi & Hj & ->). simpl in Hi, Hj. rewrite L1 in Hi, Hj. rewrite Hlink by done. unfold valid in *.
    split; [apply (fn_new _ _ _ Hfresh); lia|]. apply E1. right. eexists _, _. split_and!; [| |done]; lia. }
  split_and!.
  - split.
    + by apply set_connected_ok; [rewrite length_replicate|].
    + done.
    + done.
    + done.
    + intros i s Hs. eapply server_up_kept; [exact K2'|by intros []|]. by apply U1.
    + exact Hen.
  - eapply kept_then; [exact K1|exact K2'| |by intros ? []]. intros e He Hl. by destruct (Hnew e Hl).
  - intros e He. destruct (Hnew e He) as [? Hin]. split; [done|].
    change (e ∈ ends rn'). by rewrite E2.
Qed.

(** Starting a new group, in full. *)
Lemma MakeGroupStart_ok rand1 rand2 g n gs (T : Tester) :
  starts_n n → fresh_draws n rand1 rand2 (tnet T) →
  ∃ sg T', MakeGroupStart mks service_of rand1 rand2 g n gs T = Done (<[g := sg]> gs, T') ∧ running g n sg T' ∧
    kept (λ _, False) (group_names g n) T T' ∧
    (∀ e, link_names sg e → (e ∉ ends (tnet T)) ∧ e ∈ ends (tnet T')).
Proof.
  intros Hmks [F1 F2 F12]. unfold MakeGroupStart, MakeGroup.
  destruct (@makeSrvGrp_total Svc g n rand1 (tnet T) F1) as (sg0 & rn & Hmk & K0 & L0 & E0 & S0).
  destruct (makeSrvGrp_spec _ _ _ _ _ _ Hmk) as (Hok0 & _ & Hg0 & Hc0 & Hn0).
  rewrite Hmk. cbn [mbind outcome_bind]. unfold lookupGroup. rewrite lookup_insert_eq. cbn [mbind outcome_bind].
  set (T0 := with_net rn T).
  assert (fresh_names n rand2 (tnet T0)) as F2'.
  { destruct F2 as [H1 H2]. split; [|done]. intros i j Hi Hj [Hin|(i' & j' & Hi' & Hj' & [= E])]%E0; [by apply (H1 i j)|].
    by apply (F12 i' j' i j). }
  destruct (StartServers_ok rand2 g n sg0 T0 Hmks Hg0 Hok0 Hn0 F2') as (sg & T' & -> & Hr & K & Hnew).
  { intros i s Hs. split; [by apply (ok_names n sg0 Hok0 i)|left]. by apply (Forall_lookup_1 _ _ _ _ S0 Hs). }
  cbn [mbind outcome_bind]. rewrite insert_insert_eq. exists sg, T'. split_and!; [done|done| |].
  - eapply kept_trans; [|exact K]. eapply (kept_weaken (λ _, False) _ (λ _, False)); [done|done|by apply kept_net].
  - intros e He. destruct (Hnew e He) as [Hne Hin]. split; [|done]. intros Hin0. apply Hne. apply E0. by left.
Qed.

(** ** Exiting *)
Abbreviation ShutdownServer := (@ShutdownServer Typ Val A Svc Kill).

(** A server whose services can be killed. *)
Definition alive (T : Tester) (s : @Srv Svc) (p : nat) : Prop :=
  saved s = Some p ∧ usable (store T) p ∧
  ∃ g cl i sv, svcs s = Some <$> sv ∧ made g cl i p sv (app (world T)).

Lemma alive_kept own names T T' s p : kept own names T T' → alive T s p → alive T' s p.
Proof.
  intros [_ _ Hs Hm _] (H1 & H2 & g & cl & i & sv & H3 & H4). split_and!; [done|by apply Hs|].
  exists g, cl, i, sv. split; [done|by apply Hm].
Qed.

Lemma running_alive g n (sg : ServerGrp) (T : Tester) i s :
  running g n sg T → srvs sg !! i = Some s → ∃ p, alive T s p.
Proof.
  intros Hr Hs. destruct (up_server _ _ _ _ (run_up _ _ _ _ Hr i s Hs)) as (q & p & sv & _ & H1 & H2 & H3 & H4 & _).
  exists p. split_and!; [done|done|]. by exists g, (clntEnds s), (Z.of_nat i), sv.
Qed.

Abbreviation kill_each := (λ svs, for_each svs (λ svc '(st, a), match svc with Some svc => Kill svc st a | None => Done (st, a) end)).

Lemma kill_all g cl i p sv (Hk : stops) : ∀ svs st (a : A), svs ⊆ sv → made g cl i p sv a → usable st p →
  ∃ st' a', kill_each (Some <$> svs) (st, a) = Done (st', a') ∧ made_kept a a' ∧ persisters_kept st st'.
Proof.
  induction svs as [|svc svs IH]; intros st a Hsub Hm Hp; cbn [fmap list_fmap for_each].
  { exists st, a. split_and!; [done|by intros ? ? ? ? ?|by intros q]. }
  destruct (Hk g cl i p sv svc st a Hm (Hsub svc (list_elem_of_here _ _)) Hp) as (st1 & a1 & -> & M1 & S1). cbn [mbind outcome_bind].
  destruct (IH st1 a1) as (st2 & a2 & E & M2 & S2); [intros x Hx; apply Hsub; by right|by apply M1|by apply S1|].
  exists st2, a2. split_and!; [exact E|intros ? ? ? ? ? H; by apply M2, M1|intros q Hq; by apply S2, S1].
Qed.

Lemma ShutdownServer_ok n i (sg : ServerGrp) (T : Tester) s p :
  stops → group_ok n sg → (i < n)%nat → srvs sg !! i = Some s → alive T s p →
  ∃ s' T', ShutdownServer (Z.of_nat i) sg T =
      Done (set_srvs (<[i := s']> (srvs sg)) (set_connected (<[i := false]> (connected sg)) sg), T') ∧
    endNames s' = endNames s ∧ server_at (any_string (ServerName (gid sg) (Z.of_nat i))) (tnet T') = None ∧
    (ends (tnet T') = ends (tnet T) ∧ ∃ p' st, Copy p (store T) = Done (p', st) ∧ saved s' = Some p' ∧
      kill_each (svcs s) (st, app (world T)) = Done (store T', app (world T'))) ∧
    kept (link_names sg) (λ x, x = any_string (ServerName (gid sg) (Z.of_nat i))) T T' ∧
    ∃ q, saved s' = Some q ∧ usable (store T') q.
Proof.
  intros Hk Hok Hi Hs (Hp & Hps & g & cl & j & sv & Hsv & Hmd). unfold ShutdownServer.
  assert (valid n (Z.of_nat i)) as Hv by (unfold valid; lia).
  assert (∀ t, t ∈ all sg → valid n t) as Hall.
  { intros t Ht. unfold all in Ht. apply elem_of_indices in Ht. by rewrite (ok_srvs n sg Hok) in Ht. }
  destruct (disconnect_spec n sg (tnet T) (Z.of_nat i) (all sg) Hok Hv Hall) as (es & -> & Hes).
  cbn [mbind outcome_bind]. rewrite Nat2Z.id. set (sg1 := set_connected _ sg).
  change (srvs sg1) with (srvs sg). rewrite (slice_get_Some _ _ _ Hs). cbn [mbind outcome_bind].
  unfold shutdownServer. rewrite Hp. set (T1 := with_net _ T). change (store T1) with (store T).
  destruct (Copy_keeps p (store T) Hps) as (np & st1 & -> & Hnp & Hst1).
  cbn [mbind outcome_bind].
  destruct (kill_all g cl j p sv Hk sv st1 (app (world T1))) as (st2 & a' & Hkill & Hmade & Hst2); [done|exact Hmd|by apply Hst1|].
  rewrite Hsv, Hkill. cbn [mbind outcome_bind].
  rewrite slice_set_lt, Nat2Z.id by (rewrite (ok_srvs n sg Hok); lia). cbn [mbind outcome_bind].
  eexists _, _. split; [reflexivity|]. split_and!.
  - done.
  - unfold server_at. simpl. by rewrite lookup_insert_eq.
  - exact (proj2 (enable_links_kept es false (tnet T))).
  - exists np, st1. split_and!; [reflexivity|done|]. exact Hkill.
  - destruct (enable_links_kept es false (tnet T)) as [[K1 K2 K3 K4] E]. split.
    + split.
      * exact K1.
      * exact K2.
      * intros e He Hne. apply K3; [done|]. intros (t & Ht & _ & Eq)%Hes. apply Hne.
        apply Hall in Ht. unfold link_names. rewrite (ok_srvs n sg Hok).
        destruct Eq as [->| ->]; [by exists (Z.of_nat i), t|by exists t, (Z.of_nat i)].
      * intros x Hx. rewrite <- (K4 x (λ H, H)). unfold server_at. simpl.
        rewrite lookup_insert_ne; [done|]. intros E'. by apply Hx.
    + simpl. done.
    + intros q Hq. by apply Hst2, Hst1.
    + exact Hmade.
    + done.
  - exists np. split; [done|by apply Hst2].
Qed.

Lemma Shutdown_ok n (sg : ServerGrp) (T : Tester) :
  stops → group_ok n sg → (∀ i s, srvs sg !! i = Some s → ∃ p, alive T s p) →
  ∃ sg' T', Shutdown Kill sg T = Done (sg', T') ∧ gid sg' = gid sg ∧ servernames sg' = servernames sg ∧ group_ok n sg' ∧
    (∀ i s, srvs sg' !! i = Some s → startable n T' s) ∧
    (∀ i, valid n i → server_at (any_string (ServerName (gid sg) i)) (tnet T') = None) ∧
    kept (link_names sg) (group_names (gid sg) n) T T'.
Proof.
  intros Hk Hok Hsaved. unfold Shutdown, all, indices. rewrite (ok_srvs n sg Hok).
  assert (∀ k, (k <= n)%nat → ∃ ss conn T',
    for_each (Z.of_nat <$> seq 0 k) (λ i '(sg, T), ShutdownServer i sg T) (sg, T) =
      Done (set_srvs ss (set_connected conn sg), T') ∧ group_ok n (set_srvs ss (set_connected conn sg)) ∧
    length ss = n ∧ length conn = n ∧ (∀ i j, link (set_srvs ss (set_connected conn sg)) i j = link sg i j) ∧
    (∀ i s, (i < k)%nat → ss !! i = Some s → startable n T' s) ∧
    (∀ i, (k <= i)%nat → ss !! i = srvs sg !! i) ∧
    (∀ i, (i < k)%nat → server_at (any_string (ServerName (gid sg) (Z.of_nat i))) (tnet T') = None) ∧
    kept (link_names sg) (group_names (gid sg) n) T T') as Hloop.
  { induction k as [|k IH]; intros Hkn.
    - exists (srvs sg), (connected sg), T.
      split_and!; [by destruct sg|by destruct sg|apply Hok|apply Hok|by destruct sg|lia|done|lia|apply kept_refl].
    - destruct IH as (ss & conn & T1 & Hrun & Hok1 & L1 & C1 & Hlink & U1 & D1 & S1 & K1); [lia|].
      rewrite seq_S, fmap_app, for_each_app, Hrun. cbn [mbind outcome_bind fmap list_fmap for_each]. rewrite Nat.add_0_l.
      set (sg1 := set_srvs ss (set_connected conn sg)) in *.
      destruct (lookup_lt_is_Some_2 ss k) as [s Es]; [lia|]. pose proof Es as Es0. rewrite D1 in Es0 by done.
      destruct (Hsaved k s Es0) as (p & Hp).
      destruct (ShutdownServer_ok n k sg1 T1 s p Hk Hok1) as (s' & T2 & Hsd & Hn & Hnone & _ & K2 & q & Hq & Hqp);
        [lia|done|by eapply alive_kept|].
      rewrite Hsd. cbn [mbind outcome_bind]. exists (<[k := s']> ss), (<[k := false]> conn), T2.
      assert (∀ i j, link (set_srvs (<[k := s']> ss) (set_connected (<[k := false]> conn) sg)) i j = link sg i j) as Hlink2.
      { intros i j. rewrite <- Hlink. unfold link, sg1. simpl. destruct (decide (Z.to_nat i = k)) as [->|Hne].
        - rewrite list_lookup_insert_eq, Es by lia. simpl. by rewrite Hn.
        - by rewrite list_lookup_insert_ne. }
      destruct (ok_names n sg1 Hok1 k s Es) as (names & Hnames & Hlen).
      split_and!.
      + done.
      + split; simpl; [by rewrite length_insert|by rewrite length_insert| |].
        * intros i x Hx. destruct (decide (i = k)) as [->|Hne].
          -- rewrite list_lookup_insert_eq in Hx by lia. injection Hx as <-. exists names. by rewrite Hn.
          -- rewrite list_lookup_insert_ne in Hx by done. by apply (ok_names n sg1 Hok1 i).
        * intros i j i' j'. rewrite !Hlink2. apply (ok_distinct n sg Hok).
      + by rewrite length_insert.
      + by rewrite length_insert.
      + exact Hlink2.
      + intros i x Hi Hx. destruct (decide (i = k)) as [->|].
        * rewrite list_lookup_insert_eq in Hx by lia. injection Hx as <-. split; [exists names; by rewrite Hn|].
          right. by exists q.
        * rewrite list_lookup_insert_ne in Hx by done. eapply startable_kept; [exact K2|]. apply (U1 i); [lia|done].
      + intros i Hi. rewrite list_lookup_insert_ne by lia. apply D1. lia.
      + intros i Hi. destruct (decide (i = k)) as [->|]; [exact Hnone|].
        rewrite (nk_server _ _ _ _ (k_net _ _ _ _ K2)); [apply S1; lia|]. simpl.
        intros E. apply server_name_inj in E; lia.
      + eapply kept_then; [exact K1|exact K2| |].
        * intros e _ (i & j & Hi & Hj & ->). rewrite Hlink. simpl in Hi, Hj. rewrite L1 in Hi, Hj.
          exists i, j. by rewrite (ok_srvs n sg Hok).
        * intros x ->. exists (Z.of_nat k). split; [unfold valid; lia|done]. }
  destruct (Hloop n) as (ss & conn & T' & -> & Hok' & L & _ & _ & U & _ & S & K); [done|].
  eexists _, T'. split_and!; [done|done|done|exact Hok'| | |exact K].
  - intros i s Hs. apply (U i); [|done]. rewrite <- L. by eapply lookup_lt_Some.
  - intros i Hi. unfold valid in Hi. rewrite <- (Z2Nat.id i) by lia. apply S. lia.
Qed.

Lemma ExitGroup_ok g n gs (sg : ServerGrp) (T : Tester) :
  stops → gs !! g = Some sg → running g n sg T →
  ∃ T', ExitGroup Kill g gs T = Done (delete g gs, T') ∧
    (∀ i, valid n i → server_at (any_string (ServerName g i)) (tnet T') = None) ∧
    kept (link_names sg) (group_names g n) T T'.
Proof.
  intros Hk Hg Hr. unfold ExitGroup, lookupGroup. rewrite Hg. cbn [mbind outcome_bind].
  destruct (Shutdown_ok n sg T Hk (run_ok _ _ _ _ Hr)) as (sg' & T' & -> & _ & _ & _ & _ & Hnone & K).
  { intros i s. by apply (running_alive g n). }
  rewrite (run_gid _ _ _ _ Hr) in Hnone, K. by exists T'.
Qed.

(** ** Going down, and coming back *)

(** A group none of whose servers runs: it can be started again. *)
Record stopped (g : Z) (n : nat) (sg : ServerGrp) (T : Tester) : Prop := {
  sp_ok : group_ok n sg;
  sp_gid : gid sg = g;
  sp_names : servernames sg = ServerName g <$> indices n;
  sp_startable : ∀ i s, srvs sg !! i = Some s → startable n T s
}.

Lemma stopped_kept own names g n (sg : ServerGrp) (T T' : Tester) : kept own names T T' → stopped g n sg T → stopped g n sg T'.
Proof. intros K [? ? ? Hs]. split; try done. intros i s Hi. eapply startable_kept; [exact K|by eapply Hs]. Qed.

Lemma Shutdown_stops g n (sg : ServerGrp) (T : Tester) :
  stops → running g n sg T →
  ∃ sg' T', Shutdown Kill sg T = Done (sg', T') ∧ stopped g n sg' T' ∧
    (∀ i, valid n i → server_at (any_string (ServerName g i)) (tnet T') = None) ∧
    kept (link_names sg) (group_names g n) T T'.
Proof.
  intros Hk Hr.
  destruct (Shutdown_ok n sg T Hk (run_ok _ _ _ _ Hr)) as (sg' & T' & -> & Hg & Hn & Hok & Hs & Hnone & K).
  { intros i s. by apply (running_alive g n). }
  rewrite (run_gid _ _ _ _ Hr) in Hg, Hnone, K. rewrite (run_names _ _ _ _ Hr) in Hn. by exists sg', T'.
Qed.

Lemma StartServers_restarts rand g n (sg : ServerGrp) (T : Tester) :
  starts_n n → stopped g n sg T → fresh_names n rand (tnet T) →
  ∃ sg' T', StartServers mks service_of rand sg T = Done (sg', T') ∧ running g n sg' T' ∧
    kept (λ _, False) (group_names g n) T T' ∧ (∀ e, link_names sg' e → e ∉ ends (tnet T)).
Proof.
  intros Hmks [Hok Hg Hn Hs] Hfresh.
  destruct (StartServers_ok rand g n sg T Hmks Hg Hok Hn Hfresh Hs) as (sg' & T' & -> & Hr & K & Hnew).
  exists sg', T'. split_and!; [done|done|done|]. intros e He. by apply Hnew.
Qed.

(** ** Several groups *)

(** Where the end from server [i] to server [j] leads. *)
Lemma running_link g n sg T i j :
  running g n sg T → valid n i → valid n j →
  link sg i j ∈ ends (tnet T) ∧ connection_at (link sg i j) (tnet T) = any_string (ServerName g j).
Proof.
  intros [Hok _ _ _ Hup _] Hi Hj.
  destruct (link_name n sg i j Hok Hi Hj) as (s & names & x & Hs & Hnames & Hx & <-).
  apply slice_get_Done in Hs as [_ Hs]. unfold end_name in Hx. rewrite Hnames in Hx.
  apply slice_get_Done in Hx as [? Hx]. destruct (up_ends _ _ _ _ (Hup _ _ Hs) _ _ _ Hnames Hx) as [Hin ->].
  split; [done|]. by rewrite Z2Nat.id.
Qed.

Lemma running_ends g n sg T e : running g n sg T → link_names sg e → e ∈ ends (tnet T).
Proof.
  intros Hr (i & j & Hi & Hj & ->). rewrite (ok_srvs n sg (run_ok _ _ _ _ Hr)) in Hi, Hj.
  by eapply running_link.
Qed.

(** The links of a group with one server that was made anew. *)
Lemma link_remade n i (s : @Srv Svc) rand (sg : ServerGrp) a b :
  endNames s = Some (rand <$> seq 0 n) → (i < length (srvs sg))%nat → valid n a → valid n b →
  link (set_srvs (<[i := s]> (srvs sg)) sg) a b =
    if decide (Z.to_nat a = i) then any_string (rand (Z.to_nat b)) else link sg a b.
Proof.
  intros Hs Hi Ha Hb. unfold link. simpl. case_decide as E.
  - rewrite E, list_lookup_insert_eq by done. simpl. rewrite Hs. simpl. unfold valid in Hb.
    by rewrite list_lookup_fmap, lookup_seq_lt by lia.
  - by rewrite list_lookup_insert_ne by done.
Qed.

Lemma group_ok_remade n i (s : @Srv Svc) rand (sg : ServerGrp) :
  group_ok n sg → (i < n)%nat → endNames s = Some (rand <$> seq 0 n) →
  (∀ j k, (j < n)%nat → (k < n)%nat → rand j = rand k → j = k) →
  (∀ a b j, valid n a → valid n b → (j < n)%nat → link sg a b ≠ any_string (rand j)) →
  group_ok n (set_srvs (<[i := s]> (srvs sg)) sg).
Proof.
  intros [H1 H2 H3 H4] Hi Hs Hinj Hnew. split; simpl; [by rewrite length_insert|done| |].
  - intros k x Hx. apply list_lookup_insert_Some in Hx as [(-> & <- & _)|[_ Hx]]; [|by eapply H3].
    eexists. split; [exact Hs|]. by rewrite length_fmap, length_seq.
  - intros a b a' b' Ha Hb Ha' Hb'. rewrite !(link_remade n i s rand) by (done || lia). unfold valid in *.
    do 2 case_decide; intros E.
    + injection E as E. apply Hinj in E; lia.
    + destruct (Hnew a' b' (Z.to_nat b)); unfold valid; [lia..|done].
    + destruct (Hnew a b (Z.to_nat b')); unfold valid; [lia..|done].
    + by apply H4.
Qed.

(** One server of a running group goes down and comes back, with other ends: the group runs again. *)
Lemma server_restarts rand g n i (sg : ServerGrp) (T : Tester) s :
  starts_n n → stops → running g n sg T → (i < n)%nat → srvs sg !! i = Some s →
  (∀ j, (j < n)%nat → any_string (rand j) ∉ ends (tnet T)) →
  (∀ j k, (j < n)%nat → (k < n)%nat → rand j = rand k → j = k) →
  ∃ sg1 T1 sg2 T2 sg3 rn, ShutdownServer (Z.of_nat i) sg T = Done (sg1, T1) ∧
    (∃ p p' st, saved s = Some p ∧ Copy p (store T) = Done (p', st) ∧
      kill_each (svcs s) (st, app (world T)) = Done (store T1, app (world T1))) ∧
    length (srvs sg1) = n ∧ StartServer rand (Z.of_nat i) sg1 T1 = Done (sg2, T2) ∧
    ConnectAll sg2 (tnet T2) = Done (sg3, rn) ∧ running g n sg3 (with_net rn T2) ∧ srvs sg3 = srvs sg2 ∧
    (∀ j, i ≠ j → srvs sg3 !! j = srvs sg !! j) ∧
    (calls (world T2) = calls (world T)).
Proof.
  intros Hmks Hk Hr Hi Hs Hnew Hinj. pose proof Hr as [Hok Hg Hn Hc Hup Hl].
  destruct (running_alive g n sg T i s Hr Hs) as (p & Hal).
  destruct (ShutdownServer_ok n i sg T s p Hk Hok Hi Hs Hal) as (s1 & T1 & Hrun1 & Hn1 & _ & (E1 & p' & st & Hcp & _ & Hkill) & K1 & q & Hq & Hqp).
  destruct (ok_names n sg Hok i s Hs) as (names & Hnames & Hlen).
  pose proof (ok_srvs n sg Hok) as Hlsg. set (sg1 := set_srvs _ _) in Hrun1.
  destruct (StartServer_ok rand i n sg1 T1 s1 Hmks) as (s2 & T2 & Hrun2 & Hn2 & Hup2 & K2 & E2).
  { simpl. by rewrite list_lookup_insert_eq by lia. }
  { done. }
  { split; [exists names; by rewrite Hn1|]. right. by exists q. }
  { intros j Hj. rewrite E1. by apply Hnew. }
  { done. }
  set (sg2 := set_srvs _ sg1) in Hrun2.
  assert (sg2 = set_connected (<[i := false]> (connected sg)) (set_srvs (<[i := s2]> (srvs sg)) sg)) as Esg2.
  { unfold sg2, sg1. simpl. by rewrite list_insert_insert_eq. }
  assert (group_ok n sg2) as Hok2.
  { rewrite Esg2. apply set_connected_ok; [by rewrite length_insert, (ok_connected n sg Hok)|].
    eapply group_ok_remade; [done..|]. intros a b j Ha Hb Hj E. apply (Hnew j Hj). rewrite <- E.
    by apply (running_link g n sg T a b). }
  destruct (ConnectAll_ok n sg2 (tnet T2) Hok2) as (rn & Hrun3 & K3 & _ & Hen).
  exists sg1, T1, sg2, T2, (set_connected (replicate n true) sg2), rn.
  destruct Hal as (Hp & _). split_and!; [exact Hrun1|by exists p, p', st|by simpl; rewrite length_insert|exact Hrun2|exact Hrun3| |done| |].
  - assert (kept (link_names sg2) (λ _, False) T2 (with_net rn T2)) as K3' by by apply kept_net.
    split; [by apply set_connected_ok; [rewrite length_replicate|]|by rewrite Esg2|by rewrite Esg2|done| |exact Hen].
    intros k x Hx. eapply server_up_kept; [exact K3'|by intros []|]. rewrite Esg2 in Hx. simpl in Hx.
    apply list_lookup_insert_Some in Hx as [(-> & <- & _)|[Hne Hx]]; [by rewrite <- Hg|].
    assert (any_string (ServerName g (Z.of_nat k)) ≠ any_string (ServerName (gid sg) (Z.of_nat i))) as Hother.
    { rewrite Hg. intros [_ E]%server_name_inj; lia. }
    eapply server_up_kept; [exact K2|exact Hother|]. eapply server_up_kept; [exact K1|exact Hother|]. by apply Hup.
  - intros j Hne. rewrite Esg2. simpl. by apply list_lookup_insert_ne.
  - by rewrite (k_calls _ _ _ _ K2), (k_calls _ _ _ _ K1).
Qed.

(** Another group goes on running. *)
Lemma running_kept own g g' n n' (sg : ServerGrp) (T T' : Tester) :
  running g n sg T → g ≠ g' → kept own (group_names g' n') T T' →
  (∀ e, link_names sg e → e ∈ ends (tnet T) → ¬ own e) → running g n sg T'.
Proof.
  intros Hr Hne K Hown. pose proof Hr as [Hok Hg Hn Hc Hup Hl]. split; try done.
  - intros i s Hs. eapply server_up_kept; [exact K| |by apply Hup].
    intros (j & Hj & E). unfold valid in Hj. apply server_name_inj in E; lia.
  - intros i j Hi Hj. destruct (running_link _ _ _ _ _ _ Hr Hi Hj) as [Hin _].
    rewrite (nk_enabled _ _ _ _ (k_net _ _ _ _ K)); [by apply Hl|done|]. apply Hown; [|done].
    exists i, j. by rewrite (ok_srvs n sg Hok).
Qed.

(** The groups of a configuration: running, with ends of their own. *)
Record cluster (gs : gmap Z ServerGrp) (T : Tester) : Prop := {
  cl_running : ∀ g sg, gs !! g = Some sg → running g (length (srvs sg)) sg T;
  cl_apart : ∀ g g' sg sg' e, gs !! g = Some sg → gs !! g' = Some sg' → g ≠ g' → link_names sg e → ¬ link_names sg' e
}.

Lemma cluster_empty T : cluster ∅ T.
Proof. split; intros *; by rewrite lookup_empty. Qed.

Lemma cluster_insert g n gs (sg : ServerGrp) (T T' : Tester) :
  cluster gs T → gs !! g = None → running g n sg T' → kept (λ _, False) (group_names g n) T T' →
  (∀ e, link_names sg e → e ∉ ends (tnet T)) → cluster (<[g := sg]> gs) T'.
Proof.
  intros [Hrun Hapart] Hg Hr K Hnew. pose proof (ok_srvs n sg (run_ok _ _ _ _ Hr)) as Hlen. split.
  - intros g0 sg0 [[<- <-]|[Hne H0]]%lookup_insert_Some; [by rewrite Hlen|].
    eapply running_kept; [by apply Hrun|by apply not_eq_sym|exact K|]. by intros ? ? ? [].
  - intros g1 g2 sg1 sg2 e [[<- <-]|[Hn1 H1]]%lookup_insert_Some [[<- <-]|[Hn2 H2]]%lookup_insert_Some Hne He He'; try done.
    + apply (Hnew e He). by eapply running_ends; [apply Hrun|].
    + apply (Hnew e He'). by eapply running_ends; [apply Hrun|].
    + by apply (Hapart g1 g2 sg1 sg2 e).
Qed.

Lemma cluster_delete g n gs (sg : ServerGrp) (T T' : Tester) :
  cluster gs T → gs !! g = Some sg → kept (link_names sg) (group_names g n) T T' → cluster (delete g gs) T'.
Proof.
  intros [Hrun Hapart] Hg K. split.
  - intros g0 sg0 [Hne H0]%lookup_delete_Some. eapply running_kept; [by apply Hrun|by apply not_eq_sym|exact K|].
    intros e He _ He'. by apply (Hapart g0 g sg0 sg e).
  - intros g1 g2 sg1 sg2 e [_ H1]%lookup_delete_Some [_ H2]%lookup_delete_Some. by apply (Hapart g1 g2 sg1 sg2 e).
Qed.

Lemma cluster_kept gs (T T' : Tester) : cluster gs T → kept (λ _, False) (λ _, False) T T' → cluster gs T'.
Proof.
  intros [Hrun Hapart] K. split; [|exact Hapart]. intros g sg Hg.
  apply (running_kept (λ _, False) g (g + 1) (length (srvs sg)) 0 sg T T'); [by apply Hrun|lia| |by intros ? ? ? []].
  apply (kept_weaken (λ _, False) (λ _, False) (λ _, False)); [by intros|by intros ? []|exact K].
Qed.

(** A new group can be started next to any others: the call returns, the
    group is running (every server is registered with its services, every end between two of them
    is enabled and leads to the right server), its servers have the names that are
    configured, and the groups that ran before still run. *)
Theorem MakeGroupStart_joins_cluster rand1 rand2 g n gs (T : Tester) :
  starts_n n → fresh_draws n rand1 rand2 (tnet T) → cluster gs T → gs !! g = None →
  ∃ sg T', MakeGroupStart mks service_of rand1 rand2 g n gs T = Done (<[g := sg]> gs, T') ∧
    cluster (<[g := sg]> gs) T' ∧ length (srvs sg) = n ∧ SrvNames sg = ServerName g <$> indices n ∧
    ∀ i j, valid n i → valid n j → ∃ q,
      readEndnameInfo (link sg i j) (tnet T') =
        (true, any_string (ServerName g j), Some q, reliable (tnet T'), longReordering (tnet T')).
Proof.
  intros Hmks Hfresh Hcl Hg.
  destruct (MakeGroupStart_ok rand1 rand2 g n gs T Hmks Hfresh) as (sg & T' & -> & Hr & K & Hnew).
  pose proof (ok_srvs n sg (run_ok _ _ _ _ Hr)) as Hlen.
  exists sg, T'. split; [done|]. split_and!.
  - eapply cluster_insert; [exact Hcl|done|exact Hr|exact K|]. intros e He. by apply Hnew.
  - done.
  - apply (run_names _ _ _ _ Hr).
  - intros i j Hi Hj. destruct (lookup_lt_is_Some_2 (srvs sg) (Z.to_nat j)) as [s Hs]; [unfold valid in Hj; lia|].
    destruct (up_server _ _ _ _ (run_up _ _ _ _ Hr _ _ Hs)) as (q & _ & _ & Hq & _).
    rewrite Z2Nat.id in Hq by apply Hj. exists q. unfold readEndnameInfo.
    destruct (running_link _ _ _ _ _ _ Hr Hi Hj) as [_ ->]. rewrite (run_links _ _ _ _ Hr) by done.
    by rewrite decide_False, Hq.
Qed.

(** A group can exit at any time: the call returns, its servers are not
    registered any more and the group is gone, and the other groups still run. *)
Theorem ExitGroup_leaves_cluster g gs (sg : ServerGrp) (T : Tester) :
  stops → cluster gs T → gs !! g = Some sg →
  ∃ T', ExitGroup Kill g gs T = Done (delete g gs, T') ∧ cluster (delete g gs) T' ∧
    ∀ i, valid (length (srvs sg)) i → server_at (any_string (ServerName g i)) (tnet T') = None.
Proof.
  intros Hk Hcl Hg.
  destruct (ExitGroup_ok g _ gs sg T Hk Hg (cl_running _ _ Hcl g sg Hg)) as (T' & -> & Hnone & K).
  exists T'. split_and!; [done|by eapply cluster_delete|done].
Qed.
End Starting.

(** Less may be asked of the persisters. *)
Lemma running_usable {Typ Val A Svc} (strong weak : Usable) (service_of : Svc → @Service Val A) made g n sg (T : @Tester Typ Val A) :
  (∀ st p, @usable strong st p → @usable weak st p) →
  running (persisted := strong) service_of made g n sg T → running (persisted := weak) service_of made g n sg T.
Proof.
  intros Hw [H1 H2 H3 H4 Hup H6]. split; try done. intros i s Hs.
  destruct (Hup i s Hs) as [E1 E2 (q & p & sv & F1 & F2 & F3 & F4)]. split; [done|done|].
  exists q, p, sv. split_and!; [done|done|by apply Hw|apply F4..].
Qed.

Lemma running_any {Typ Val A Svc} (strong : Usable) (service_of : Svc → @Service Val A) made g n sg (T : @Tester Typ Val A) :
  running (persisted := strong) service_of made g n sg T → running (persisted := any_persister) service_of made g n sg T.
Proof. refine (running_usable strong any_persister _ _ _ _ _ _ _). exact (@usable_is_Some strong). Qed.

(** What the network promises and what is saved may change: a group runs as before. *)
Lemma running_world {Typ Val A Svc} (persisted : Usable) (service_of : Svc → @Service Val A) made g n sg (T T' : @Tester Typ Val A) :
  running (persisted := persisted) service_of made g n sg T →
  (∀ e, e ∈ ends (tnet T) → e ∈ ends (tnet T') ∧ connection_at e (tnet T') = connection_at e (tnet T)) →
  (∀ e, enabled_at e (tnet T') = enabled_at e (tnet T)) → (∀ s, server_at s (tnet T') = server_at s (tnet T)) →
  (∀ p, usable (store T) p → usable (store T') p) → app (world T') = app (world T) → heap (world T') = heap (world T) →
  running (persisted := persisted) service_of made g n sg T'.
Proof.
  intros [H1 H2 H3 H4 Hup H6] He Hen Hsv Est Ea Eh. split; try done.
  - intros i s Hs. destruct (Hup i s Hs) as [E1 E2 (q & p & sv & F1 & F2 & F3 & F4 & F5 & F6)]. split.
    + intros names j x Hn Hx. destruct (E1 names j x Hn Hx) as [G1 G2]. destruct (He _ G1) as [G3 ->]. done.
    + done.
    + exists q, p, sv. rewrite Hsv, Ea, Eh. split_and!; [done|done|by apply Est|done..].
  - intros i j Hi Hj. rewrite Hen. by apply H6.
Qed.

(** Nothing need be known of the services. *)
Definition any_services {Svc A} (g : Z) (cl : list string) (i : Z) (p : nat) (sv : list Svc) (a : A) : Prop := True.

(** ** A source of new names

    Strings longer than every name in use. *)
Fixpoint stars (k : nat) : string := match k with O => "" | S k => String.String Ascii.zero (stars k) end.

Lemma length_stars k : String.length (stars k) = k.
Proof. induction k as [|k IH]; [done|]. exact (f_equal S IH). Qed.

Definition name_length (e : any) : nat := match e with any_string s => String.length s | _ => 0%nat end.
Definition longest (rn : Network) : nat := foldr (λ e m, Nat.max (name_length e) m) 0%nat (elements (ends rn)).

Lemma longest_spec rn e : e ∈ ends rn → (name_length e <= longest rn)%nat.
Proof.
  rewrite <- elem_of_elements. unfold longest. induction (elements (ends rn)) as [|x l IH]; [by intros ?%elem_of_nil|].
  intros [->|He]%elem_of_cons; simpl; [lia|]. specialize (IH He). lia.
Qed.

Definition new_names (n : nat) (rn : Network) (b : nat) (i j : nat) : string :=
  stars (S (longest rn) + (2 * (i * n + j) + b)).

Lemma new_names_fresh n rn : fresh_draws n (new_names n rn 0) (new_names n rn 1) rn.
Proof.
  assert (∀ b i j, any_string (new_names n rn b i j) ∉ ends rn) as Hnew.
  { intros b i j Hin%longest_spec. unfold new_names, name_length in Hin. rewrite length_stars in Hin. lia. }
  assert (∀ b i j b' i' j', (b < 2)%nat → (b' < 2)%nat → (j < n)%nat → (j' < n)%nat →
    new_names n rn b i j = new_names n rn b' i' j' → b = b' ∧ i = i' ∧ j = j') as Hinj.
  { intros b i j b' i' j' Hb Hb' Hj Hj' E%(f_equal String.length). unfold new_names in E. rewrite !length_stars in E.
    assert (i * n + j = i' * n + j')%nat as E' by lia. rewrite !(Nat.mul_comm _ n) in E'.
    destruct (Nat.div_mod_unique n i i' j j' Hj Hj' E') as [-> ->]. lia. }
  split.
  - split; [by intros|]. intros i j i' j' _ Hj _ Hj' E. by apply Hinj in E as (_ & ? & ?); [|lia..].
  - split; [by intros|]. intros i j i' j' _ Hj _ Hj' E. by apply Hinj in E as (_ & ? & ?); [|lia..].
  - intros i j i' j' _ Hj _ Hj' E. apply Hinj in E as (? & _); [done|lia..].
Qed.

(** ** Witnesses: two groups of servers with a service each *)
Definition boot_tester : @Tester unit Z unit := mkTester (mkWorld MakeNetwork [] () [] []) (mkStore ∅ ∅).

Lemma no_services_starts : starts no_services any_services.
Proof. intros n cl g i p st a _ _ _. exists [7], st, a. split_and!; [done..|]. by intros q. Qed.

Lemma no_kill_stops : stops no_kill any_services.
Proof. intros g cl i p sv svc st a _ _ _. exists st, a. split_and!; [done..|]. by intros q. Qed.

Lemma MakeGroupStart_joins_cluster_witness :
  ∃ sg T', MakeGroupStart no_services no_methods (new_names 2 MakeNetwork 0) (new_names 2 MakeNetwork 1) 5 2 ∅ boot_tester =
      Done (<[5 := sg]> ∅, T') ∧ SrvNames sg = ["server-5-0"; "server-5-1"]%string ∧
    cluster no_methods any_services (<[5 := sg]> ∅) T'.
Proof.
  destruct (MakeGroupStart_joins_cluster no_services no_methods any_services (new_names 2 MakeNetwork 0) (new_names 2 MakeNetwork 1)
    5 2 ∅ boot_tester (no_services_starts 2%nat) (new_names_fresh 2 MakeNetwork) (cluster_empty no_methods any_services boot_tester) (lookup_empty 5))
    as (sg & T' & Hrun & Hcl & _ & Hn & _).
  exists sg, T'. split; [exact Hrun|]. split; [|exact Hcl]. rewrite Hn. vm_compute. reflexivity.
Defined.

Lemma one_group_cluster :
  ∃ sg (T : @Tester unit Z unit), cluster no_methods any_services {[5 := sg]} T ∧ length (srvs sg) = 2%nat.
Proof.
  destruct (MakeGroupStart_ok no_services no_methods any_services (new_names 2 MakeNetwork 0) (new_names 2 MakeNetwork 1)
    5 2 ∅ boot_tester (no_services_starts 2%nat) (new_names_fresh 2 MakeNetwork)) as (sg & T' & _ & Hr & _).
  pose proof (ok_srvs _ _ (run_ok _ _ _ _ _ _ Hr)) as Hl. exists sg, T'. split; [|done]. split.
  - intros g sg' [<- <-]%lookup_singleton_Some. by rewrite Hl.
  - intros g g' sg1 sg2 e [<- _]%lookup_singleton_Some [<- _]%lookup_singleton_Some. done.
Qed.

Lemma ExitGroup_leaves_cluster_witness :
  ∃ sg (T T' : @Tester unit Z unit), ExitGroup no_kill 5 {[5 := sg]} T = Done (∅, T') ∧
    server_at (any_string "server-5-1") (tnet T') = None.
Proof.
  destruct one_group_cluster as (sg & T & Hcl & Hl).
  destruct (ExitGroup_leaves_cluster no_kill no_methods any_services 5 {[5 := sg]} sg T no_kill_stops Hcl) as (T' & Hrun & _ & Hnone).
  - apply lookup_singleton_Some. done.
  - exists sg, T, T'. split; [by rewrite delete_singleton_eq in Hrun|].
    apply (Hnone 1). rewrite Hl. unfold valid. lia.
Defined.
