(* ===== verification/Clnts.v ===== *)
(** * Clnts: the tester's clients (src/src/tester1/clnts.go)

    A clerk of the program under test has a [Clnt], which makes an end to a
    server when the clerk first calls it, and enables only ends to servers it
    is allowed to reach. [Clnts] is the set of clients of a configuration;
    clients are pointers into [clients]. Where the code ranges over a map, the
    order is an argument, a permutation of the map's bindings. *)

From S2P Require Import Prelude Labrpc.

Local Open Scope Z_scope.

(** [srvs]: nil allows every server. *)
Record Clnt := mkClnt { clnt_ends : gmap string string; srvs : option (list string) }.

Definition makeClntTo (l : option (list string)) : Clnt := mkClnt ∅ l.

Definition allowedL (server : string) (c : Clnt) : bool :=
  match srvs c with
  | None => true
  | Some l => existsb (λ n, bool_decide (n = server)) l
  end.

(** [makeEnd]; [name] is the random string that is drawn if one is needed. *)
Definition makeEnd (name server : string) (c : Clnt) (rn : Network) : outcome (string * Clnt * Network) :=
  match clnt_ends c !! server with
  | Some e => Done (e, c, rn)
  | None =>
      rn ← MakeEnd (any_string name) rn;
      let rn := Connect (any_string name) (any_string server) rn in
      let rn := Enable (any_string name) (allowedL server c) rn in
      Done (name, mkClnt (<[server := name]> (clnt_ends c)) (srvs c), rn)
  end.

Definition enable_ends (b : bool) (order : list (string * string)) (rn : Network) : Network :=
  foldl (λ rn '(_, e), Enable (any_string e) b rn) rn order.

Definition ConnectAll (order : list (string * string)) (c : Clnt) (rn : Network) : Clnt * Network :=
  (mkClnt (clnt_ends c) None, enable_ends true order rn).

Definition ConnectTo (order : list (string * string)) (l : list string) (c : Clnt) (rn : Network) : Clnt * Network :=
  let c := mkClnt (clnt_ends c) (Some l) in
  (c, foldl (λ rn '(srv, e), if allowedL srv c then Enable (any_string e) true rn else rn) rn order).

Definition Disconnect (order : list (string * string)) (server : string) (rn : Network) : Network :=
  foldl (λ rn '(s, e), if bool_decide (s = server) then Enable (any_string e) false rn else rn) rn order.

Definition DisconnectAll (order : list (string * string)) (c : Clnt) (rn : Network) : Clnt * Network :=
  (mkClnt (clnt_ends c) (Some []), enable_ends false order rn).

Definition remove (order : list (string * string)) (rn : Network) : outcome Network :=
  for_each order (λ '(_, e) rn, DeleteEnd (any_string e) rn) rn.

(** ** The clients of a configuration

    [clerks] is nil after [cleanup]. *)
Record Clnts := mkClnts { clients : list Clnt; clerks : option (gset nat); cnet : Network }.

Definition makeClnts (rn : Network) : Clnts := mkClnts [] (Some ∅) rn.

Definition Clnts_makeEnd (name servername : string) (rn : Network) : outcome Network :=
  rn ← MakeEnd (any_string name) rn;
  Done (Enable (any_string name) true (Connect (any_string name) (any_string servername) rn)).

Definition MakeClientTo (l : option (list string)) (cs : Clnts) : outcome (nat * Clnts) :=
  match clerks cs with
  | Some ks => Done (length (clients cs),
      mkClnts (clients cs ++ [makeClntTo l]) (Some ({[length (clients cs)]} ∪ ks)) (cnet cs))
  | None => Panic "assignment to entry in nil map"
  end.

Definition MakeClient (cs : Clnts) : outcome (nat * Clnts) := MakeClientTo None cs.

(** The order in which a client's ends are visited. *)
Definition ends_of (p : nat) (cs : Clnts) : list (string * string) :=
  map_to_list (default ∅ (clnt_ends <$> clients cs !! p)).

Definition cleanup (order : list nat) (cs : Clnts) : outcome Clnts :=
  rn ← for_each order (λ p rn, remove (ends_of p cs) rn) (cnet cs);
  Done (mkClnts (clients cs) None rn).

Definition DeleteClient (p : nat) (cs : Clnts) : outcome Clnts :=
  match clerks cs with
  | Some ks =>
      if decide (p ∈ ks) then
        rn ← remove (ends_of p cs) (cnet cs);
        Done (mkClnts (clients cs) (Some (ks ∖ {[p]})) rn)
      else Done cs
  | None => Done cs
  end.

(** ** What a test does with its clients *)
Inductive op :=
| op_make (l : option (list string))
| op_call (p : nat) (name server : string)     (* [Call] up to the end it uses *)
| op_connectAll (p : nat) | op_connectTo (p : nat) (l : list string)
| op_disconnect (p : nat) (server : string) | op_disconnectAll (p : nat)
| op_delete (p : nat).

Definition with_clnt (p : nat) (cs : Clnts) (f : Clnt → Network → outcome (Clnt * Network)) : outcome Clnts :=
  match clients cs !! p with
  | Some c => '(c, rn) ← f c (cnet cs); Done (mkClnts (<[p := c]> (clients cs)) (clerks cs) rn)
  | None => Panic "nil pointer dereference"
  end.

Definition exec (o : op) (cs : Clnts) : outcome Clnts :=
  match o with
  | op_make l => '(_, cs) ← MakeClientTo l cs; Done cs
  | op_call p name server => with_clnt p cs (λ c rn, '(_, c, rn) ← makeEnd name server c rn; Done (c, rn))
  | op_connectAll p => with_clnt p cs (λ c rn, Done (ConnectAll (map_to_list (clnt_ends c)) c rn))
  | op_connectTo p l => with_clnt p cs (λ c rn, Done (ConnectTo (map_to_list (clnt_ends c)) l c rn))
  | op_disconnect p s => with_clnt p cs (λ c rn, Done (c, Disconnect (map_to_list (clnt_ends c)) s rn))
  | op_disconnectAll p => with_clnt p cs (λ c rn, Done (DisconnectAll (map_to_list (clnt_ends c)) c rn))
  | op_delete p => DeleteClient p cs
  end.

Definition run (ops : list op) (cs : Clnts) : outcome Clnts := for_each ops exec cs.
