(* ===== verification/ClntsProps.v ===== *)
(** * ClntsProps: what the tester's clients can reach, and that their ends are
    deleted once *)

From S2P Require Import Prelude Labrpc Clnts.

Local Open Scope Z_scope.

(** ** Enabled ends *)
Definition on (e : string) (rn : Network) : bool := enabled_at (any_string e) rn.

Lemma on_Enable e e' b rn : on e (Enable (any_string e') b rn) = if decide (e' = e) then b else on e rn.
Proof.
  unfold on, enabled_at, Enable. simpl. case_decide as E; [subst; by rewrite lookup_insert_eq|].
  rewrite lookup_insert_ne; [done|]. by intros [= ->].
Qed.

(** A loop that sets to [b] the ends of the servers that pass a test. *)
Lemma on_switch (t : string → bool) b order : ∀ rn e,
  on e (foldl (λ rn '(s, e), if t s then Enable (any_string e) b rn else rn) rn order) =
  if existsb (λ '(s, e'), t s && bool_decide (e' = e)) order then b else on e rn.
Proof.
  induction order as [|[s' e'] order IH]; intros rn e; cbn [foldl existsb]; [done|].
  rewrite IH. destruct (t s') eqn:Et; simpl; [rewrite on_Enable|done].
  destruct (decide (e' = e)) as [->|Hne]; [rewrite bool_decide_eq_true_2 by done|rewrite bool_decide_eq_false_2 by done];
    simpl; [by destruct (existsb _ _)|done].
Qed.

Lemma enable_ends_switch b order rn :
  enable_ends b order rn = foldl (λ rn '(s, e), if (λ _ : string, true) s then Enable (any_string e) b rn else rn) rn order.
Proof. unfold enable_ends. revert rn. induction order as [|[s e] order IH]; intros rn; [done|apply IH]. Qed.

(** Different servers have different ends, and only ends to allowed servers
    are enabled. *)
Definition ends_inj (c : Clnt) : Prop :=
  ∀ s s' e, clnt_ends c !! s = Some e → clnt_ends c !! s' = Some e → s = s'.

Definition respects (c : Clnt) (rn : Network) : Prop :=
  ∀ s e, clnt_ends c !! s = Some e → on e rn = true → allowedL s c = true.

Lemma on_order (t : string → bool) b c order rn s e :
  ends_inj c → order ≡ₚ map_to_list (clnt_ends c) → clnt_ends c !! s = Some e →
  on e (foldl (λ rn '(s, e), if t s then Enable (any_string e) b rn else rn) rn order) =
  if (t s : bool) then b else on e rn.
Proof.
  intros Hinj Hperm Hs. rewrite on_switch. destruct (existsb _ order) eqn:E.
  - apply existsb_exists in E as ([s' e'] & Hs' & [Ht ->%bool_decide_eq_true]%andb_true_iff).
    rewrite <- list_elem_of_In, Hperm, elem_of_map_to_list in Hs'. by rewrite (Hinj s s' e Hs Hs'), Ht.
  - destruct (t s) eqn:Ht; [|done]. apply not_true_iff_false in E. exfalso. apply E, existsb_exists.
    exists (s, e). rewrite <- list_elem_of_In, Hperm, elem_of_map_to_list. split; [done|].
    by rewrite Ht, bool_decide_eq_true_2.
Qed.

Lemma MakeEnd_Done e rn rn' :
  MakeEnd e rn = Done rn' → (e ∉ ends rn) ∧ ends rn' = {[e]} ∪ ends rn ∧
    ∀ e', enabled_at e' rn' = if decide (e = e') then false else enabled_at e' rn.
Proof.
  unfold MakeEnd. case_decide; [done|]. intros [= <-]. split_and!; [done|done|].
  intros e'. unfold enabled_at. simpl. case_decide; [subst; by rewrite lookup_insert_eq|by rewrite lookup_insert_ne].
Qed.

(** [makeEnd] finds the server's end, or makes one. *)
Lemma makeEnd_Done name s c rn e c' rn' :
  makeEnd name s c rn = Done (e, c', rn') →
  clnt_ends c' !! s = Some e ∧ srvs c' = srvs c ∧
  ((c' = c ∧ rn' = rn) ∨
   (clnt_ends c !! s = None ∧ e = name ∧ clnt_ends c' = <[s := name]> (clnt_ends c) ∧
    (any_string name ∉ ends rn) ∧ ends rn' = {[any_string name]} ∪ ends rn ∧
    ∀ e', on e' rn' = if decide (name = e') then allowedL s c else on e' rn)).
Proof.
  unfold makeEnd. destruct (clnt_ends c !! s) as [e0|] eqn:Hs.
  { intros [= <- <- <-]. auto. }
  intros (rn1 & (Hnew & Hends & Hon)%MakeEnd_Done & [= <- <- <-])%bind_Done. simpl.
  rewrite lookup_insert_eq. split; [done|]. split; [done|]. right. split_and!; try done.
  intros e'. rewrite on_Enable. case_decide as E; [done|].
  unfold on. change (enabled_at (any_string e') rn1 = enabled_at (any_string e') rn).
  rewrite Hon. case_decide; [congruence|done].
Qed.

(** A client never has an enabled end to a server it is not allowed to
    reach, through all its operations but [ConnectTo]: that one enables the ends to the
    servers it is given, and leaves enabled the ends to all other servers that were. *)
Theorem client_respects_allowed c rn order l name server :
  ends_inj c → order ≡ₚ map_to_list (clnt_ends c) →
  (∀ s e, clnt_ends c !! s = Some e → any_string e ∈ ends rn) → respects c rn →
  (∀ e c' rn', makeEnd name server c rn = Done (e, c', rn') → ends_inj c' ∧ respects c' rn') ∧
  (let '(c', rn') := ConnectAll order c rn in
    respects c' rn' ∧ ∀ s e, clnt_ends c !! s = Some e → on e rn' = true) ∧
  respects c (Disconnect order server rn) ∧
  (let '(c', rn') := DisconnectAll order c rn in
    respects c' rn' ∧ ∀ s e, clnt_ends c !! s = Some e → on e rn' = false) ∧
  (let '(c', rn') := ConnectTo order l c rn in
    ∀ s e, clnt_ends c !! s = Some e → on e rn' = bool_decide (s ∈ l) || on e rn).
Proof.
  intros Hinj Hperm Hreg Hresp. split_and!.
  - intros e c' rn' (Hs & Hsrvs & [[-> ->]|(Hno & -> & Hends & Hnew & _ & Hon)])%makeEnd_Done; [done|]. split.
    + intros s s' e. rewrite Hends, !lookup_insert_Some. intros [[<- <-]|[N1 H1]] [[<- E]|[N2 H2]]; try done.
      * exfalso. by apply Hnew, (Hreg s').
      * subst. exfalso. by apply Hnew, (Hreg s).
      * by apply (Hinj s s' e).
    + intros s e. unfold allowedL. rewrite Hends, Hsrvs, lookup_insert_Some, Hon.
      intros [[<- <-]|[N1 H1]]; [by rewrite decide_True|].
      rewrite decide_False; [by apply Hresp|]. intros <-. by apply Hnew, (Hreg s).
  - simpl. split; [by intros|]. intros s e Hs.
    by rewrite enable_ends_switch, (on_order (λ _, true) true c order rn s e).
  - intros s e Hs. unfold Disconnect. rewrite (on_order (λ s, bool_decide (s = server)) false c order rn s e) by done.
    destruct (bool_decide _); [done|]. by apply Hresp.
  - assert (∀ s e, clnt_ends c !! s = Some e → on e (enable_ends false order rn) = false) as Hoff.
    { intros s e Hs. by rewrite enable_ends_switch, (on_order (λ _, true) false c order rn s e). }
    simpl. split; [|done]. intros s e Hs. by rewrite (Hoff s e Hs).
  - simpl. intros s e Hs.
    rewrite (on_order (λ srv, allowedL srv (mkClnt (clnt_ends c) (Some l))) true c order rn s e) by done.
    assert (allowedL s (mkClnt (clnt_ends c) (Some l)) = bool_decide (s ∈ l)) as ->.
    { unfold allowedL. simpl. apply eq_bool_prop_intro. rewrite bool_decide_spec, Is_true_true, existsb_exists.
      setoid_rewrite <- list_elem_of_In. setoid_rewrite bool_decide_eq_true. naive_solver. }
    by destruct (bool_decide (s ∈ l)).
Qed.

(** ** Ends are deleted once *)
Lemma elem_of_ends_of p cs s e :
  (s, e) ∈ ends_of p cs ↔ ∃ c, clients cs !! p = Some c ∧ clnt_ends c !! s = Some e.
Proof.
  unfold ends_of. rewrite elem_of_map_to_list. destruct (clients cs !! p) as [c|]; simpl; [naive_solver|].
  rewrite lookup_empty. naive_solver.
Qed.

(** The ends of the clients not yet deleted are registered, and no two of
    them are the same. *)
Record Inv (ks : gset nat) (cs : Clnts) : Prop := {
  inv_reg : ∀ p s e, p ∈ ks → (s, e) ∈ ends_of p cs → any_string e ∈ ends (cnet cs);
  inv_inj : ∀ p p' s s' e, p ∈ ks → p' ∈ ks → (s, e) ∈ ends_of p cs → (s', e) ∈ ends_of p' cs → p = p' ∧ s = s';
  inv_ptr : ∀ p, p ∈ ks → (p < length (clients cs))%nat
}.

Lemma DeleteEnd_ends e rn : e ∈ ends rn → ∃ rn', DeleteEnd e rn = Done rn' ∧ ends rn' = ends rn ∖ {[e]}.
Proof. intros H. unfold DeleteEnd. rewrite decide_True by done. by eexists. Qed.

Lemma remove_ends order : ∀ rn,
  (∀ s e, (s, e) ∈ order → any_string e ∈ ends rn) → NoDup order.*2 →
  ∃ rn', remove order rn = Done rn' ∧
    ∀ e, any_string e ∈ ends rn' ↔ any_string e ∈ ends rn ∧ e ∉ order.*2.
Proof.
  induction order as [|[s e] order IH]; intros rn Hin Hnd.
  { exists rn. split; [done|]. intros e. split; [|tauto]. intros. split; [done|apply not_elem_of_nil]. }
  apply NoDup_cons in Hnd as [He Hnd]. simpl in He.
  destruct (DeleteEnd_ends (any_string e) rn) as (rn1 & E1 & Hends); [apply (Hin s); by left|].
  destruct (IH rn1) as (rn2 & E2 & Hends2); [|done|].
  { intros s' e' H. rewrite Hends, elem_of_difference, elem_of_singleton. split; [apply (Hin s'); by right|].
    intros [= ->]. apply He, list_elem_of_fmap. by exists (s', e). }
  exists rn2. split; [unfold remove; cbn [for_each]; rewrite E1; exact E2|].
  intros e'. rewrite Hends2, Hends, elem_of_difference, elem_of_singleton. cbn [fmap list_fmap snd].
  rewrite not_elem_of_cons. naive_solver.
Qed.

(** Deleting one client's ends leaves the others theirs. *)
Lemma remove_client ks p cs :
  Inv ks cs → p ∈ ks →
  ∃ rn, remove (ends_of p cs) (cnet cs) = Done rn ∧
    Inv (ks ∖ {[p]}) (mkClnts (clients cs) (Some (ks ∖ {[p]})) rn) ∧
    (∀ s e, (s, e) ∈ ends_of p cs → any_string e ∉ ends rn) ∧
    (∀ e, any_string e ∈ ends rn → any_string e ∈ ends (cnet cs)).
Proof.
  intros [H1 H2 H3] Hp.
  destruct (remove_ends (ends_of p cs) (cnet cs)) as (rn & Hrun & Hends).
  { intros s e. by apply H1. }
  { apply NoDup_fmap_2_strong; [|apply NoDup_map_to_list].
    intros [s e] [s' e'] Hs Hs' E. simpl in E. subst e'. by destruct (H2 p p s s' e) as [_ ->]. }
  exists rn. split; [done|]. split_and!.
  - split; simpl.
    + intros q s e [Hq Hne]%elem_of_difference Hs. apply Hends. split; [by apply (H1 q s)|].
      intros ([s' e'] & E & Hs')%list_elem_of_fmap. simpl in E. subst e'.
      destruct (H2 q p s s' e) as [-> _]; try done. set_solver.
    + intros q q' s s' e [Hq _]%elem_of_difference [Hq' _]%elem_of_difference. by apply H2.
    + intros q [Hq _]%elem_of_difference. by apply H3.
  - intros s e Hs [_ Hno]%Hends. apply Hno, list_elem_of_fmap. by exists (s, e).
  - intros e [H _]%Hends. done.
Qed.

(** A client step that keeps the names and registers no end, or adds one new
    registered end. *)
Lemma with_clnt_Inv ks p cs f cs' :
  (∀ c c' rn', clients cs !! p = Some c → f c (cnet cs) = Done (c', rn') →
     (clnt_ends c' = clnt_ends c ∧ ends rn' = ends (cnet cs)) ∨
     ∃ s name, clnt_ends c' = <[s := name]> (clnt_ends c) ∧ (any_string name ∉ ends (cnet cs)) ∧
       ends rn' = {[any_string name]} ∪ ends (cnet cs)) →
  Inv ks cs → with_clnt p cs f = Done cs' → Inv ks cs'.
Proof.
  intros Hf [H1 H2 H3] Hrun. unfold with_clnt in Hrun. destruct (clients cs !! p) as [c|] eqn:Hp; [|done].
  apply bind_Done in Hrun as ([c' rn'] & Hc & [= <-]).
  assert (p < length (clients cs))%nat as Hlt by (by eapply lookup_lt_Some).
  set (cs' := mkClnts (<[p := c']> (clients cs)) (clerks cs) rn').
  assert (∀ q s e, (s, e) ∈ ends_of q cs' ↔
    if decide (q = p) then clnt_ends c' !! s = Some e else (s, e) ∈ ends_of q cs) as Hof.
  { intros q s e. rewrite !elem_of_ends_of. simpl. case_decide as E.
    - subst q. rewrite list_lookup_insert_eq by done. naive_solver.
    - rewrite list_lookup_insert_ne by done. by rewrite elem_of_ends_of. }
  assert (∀ s e, clnt_ends c !! s = Some e → (s, e) ∈ ends_of p cs) as Hold.
  { intros s e H. apply elem_of_ends_of. by exists c. }
  destruct (Hf c c' rn' eq_refl Hc) as [[He Hn]|(s0 & name & He & Hnew & Hn)].
  - assert (∀ q s e, (s, e) ∈ ends_of q cs' → (s, e) ∈ ends_of q cs) as Hsub.
    { intros q s e H%Hof. case_decide; [|done]. subst. rewrite He in H. by apply Hold. }
    split; simpl; [|naive_solver|intros; rewrite length_insert; auto].
    intros q s e Hq Hs. rewrite Hn. by eapply H1, Hsub.
  - assert (∀ q s e, q ∈ ks → (s, e) ∈ ends_of q cs' →
      (q = p ∧ s = s0 ∧ e = name) ∨ ((s, e) ∈ ends_of q cs ∧ e ≠ name)) as Hcase.
    { intros q s e Hq H%Hof. case_decide as E.
      - subst. rewrite He in H. apply lookup_insert_Some in H as [[-> ->]|[_ H]]; [by left|].
        right. split; [by apply Hold|]. intros ->. apply Hnew. by eapply H1, Hold.
      - right. split; [done|]. intros ->. apply Hnew. by eapply H1. }
    split; simpl; [| |intros; rewrite length_insert; auto].
    + intros q s e Hq Hs. rewrite Hn, elem_of_union, elem_of_singleton.
      destruct (Hcase q s e Hq Hs) as [(-> & -> & ->)|[Hs' _]]; [by left|right; by eapply H1].
    + intros q q' s s' e Hq Hq' Hs Hs'.
      destruct (Hcase q s e Hq Hs) as [(-> & -> & ->)|[A ?]],
               (Hcase q' s' _ Hq' Hs') as [(-> & -> & ?)|[B ?]]; try done. by eapply H2.
Qed.

Lemma foldl_ends (f : Network → string * string → Network) order :
  (∀ rn x, ends (f rn x) = ends rn) → ∀ rn, ends (foldl f rn order) = ends rn.
Proof. intros Hf. induction order as [|x order IH]; intros rn; simpl; [done|]. by rewrite IH, Hf. Qed.

Definition live (cs : Clnts) : gset nat := default ∅ (clerks cs).

Lemma clients_exec_Inv o cs cs' : Inv (live cs) cs → exec o cs = Done cs' → Inv (live cs') cs'.
Proof.
  intros HI Hrun.
  assert (∀ p f, with_clnt p cs f = Done cs' → live cs' = live cs) as Hlive.
  { intros p f. unfold with_clnt. destruct (clients cs !! p); [|done]. by intros ([c' rn'] & _ & [= <-])%bind_Done. }
  assert (∀ p (g : Clnt → Network → Clnt * Network), with_clnt p cs (λ c rn, Done (g c rn)) = Done cs' →
    (∀ c rn, clnt_ends (g c rn).1 = clnt_ends c ∧ ends (g c rn).2 = ends rn) → Inv (live cs') cs') as Hsimple.
  { intros p g H Hg. rewrite (Hlive _ _ H). eapply with_clnt_Inv; [|exact HI|exact H].
    intros c c' rn' _ [= E]. left. pose proof (Hg c (cnet cs)) as [E1 E2]. by rewrite E in E1, E2. }
  destruct o as [l|p name server|p|p l|p server|p|p]; simpl in Hrun.
  - unfold MakeClientTo in Hrun. destruct HI as [H1 H2 H3]. unfold live in *.
    destruct (clerks cs) as [ks|]; [|done]. injection Hrun as <-. simpl in *.
    assert (∀ q s e, q ∈ {[length (clients cs)]} ∪ ks →
      (s, e) ∈ ends_of q (mkClnts (clients cs ++ [makeClntTo l]) (Some ({[length (clients cs)]} ∪ ks)) (cnet cs)) →
      q ∈ ks ∧ (s, e) ∈ ends_of q cs) as Hold.
    { intros q s e Hq (c & [[Hlt Hc]|[-> <-]]%lookup_snoc_Some & He)%elem_of_ends_of; simpl in *.
      - split; [set_solver by lia|]. apply elem_of_ends_of. by exists c.
      - by rewrite lookup_empty in He. }
    split; simpl.
    + intros p s e Hp Hs. destruct (Hold p s e Hp Hs). by eapply H1.
    + intros p p' s s' e Hp Hp' Hs Hs'. destruct (Hold p s e Hp Hs), (Hold p' s' e Hp' Hs'). by eapply H2.
    + intros p [->%elem_of_singleton|Hp]%elem_of_union; rewrite length_app; simpl; [lia|]. pose proof (H3 p Hp). lia.
  - rewrite (Hlive _ _ Hrun). eapply with_clnt_Inv; [|exact HI|exact Hrun].
    intros c c' rn' _ ([[e c1] rn1] & Hmk & [= <- <-])%bind_Done.
    destruct (makeEnd_Done _ _ _ _ _ _ _ Hmk) as (_ & _ & [[-> ->]|(_ & -> & He & Hnew & Hn & _)]); [by left|].
    right. by exists server, name.
  - apply (Hsimple _ _ Hrun). intros c rn. split; [done|]. apply foldl_ends. by intros ? [].
  - apply (Hsimple _ _ Hrun). intros c rn. split; [done|]. simpl. apply foldl_ends. intros ? []. by case_match.
  - apply (Hsimple _ _ Hrun). intros c rn. split; [done|]. simpl. apply foldl_ends. intros ? []. by case_match.
  - apply (Hsimple _ _ Hrun). intros c rn. split; [done|]. apply foldl_ends. by intros ? [].
  - unfold DeleteClient, live in *. destruct (clerks cs) as [ks|] eqn:Ek; [|by injection Hrun as <-; rewrite Ek].
    case_decide as Hp; [|injection Hrun as <-; by rewrite Ek].
    destruct (remove_client ks p cs HI Hp) as (rn & E & HI' & _). rewrite E in Hrun. by injection Hrun as <-.
Qed.

Lemma cleanup_loop cs order : ∀ ks k rn,
  NoDup order → (∀ p, p ∈ order → p ∈ ks) → Inv ks (mkClnts (clients cs) k rn) →
  ∃ rn', for_each order (λ p rn, remove (ends_of p cs) rn) rn = Done rn' ∧
    (∀ e, any_string e ∈ ends rn' → any_string e ∈ ends rn) ∧
    ∀ p s e, p ∈ order → (s, e) ∈ ends_of p cs → any_string e ∉ ends rn'.
Proof.
  induction order as [|p order IH]; intros ks k rn Hnd Hin HI.
  { exists rn. split_and!; [done|done|]. by intros p s e H%elem_of_nil. }
  apply NoDup_cons in Hnd as [Hp Hnd].
  destruct (remove_client ks p _ HI (Hin p ltac:(by left))) as (rn1 & E1 & HI1 & Hgone & Hsub).
  destruct (IH (ks ∖ {[p]}) (Some (ks ∖ {[p]})) rn1) as (rn2 & E2 & Hsub2 & Hgone2); [done| |exact HI1|].
  { intros q Hq. apply elem_of_difference. split; [apply Hin; by right|].
    rewrite elem_of_singleton. by intros ->. }
  exists rn2. split_and!.
  - cbn [for_each]. change (ends_of p cs) with (ends_of p (mkClnts (clients cs) k rn)).
    change (cnet (mkClnts (clients cs) k rn)) with rn in E1. rewrite E1. exact E2.
  - intros e He. apply (Hsub e), Hsub2, He.
  - intros q s e [->|Hq]%elem_of_cons Hs; [|by eapply Hgone2]. intros He. by apply (Hgone s e Hs), Hsub2.
Qed.

Lemma clients_run_Inv ops rn cs : run ops (makeClnts rn) = Done cs → Inv (live cs) cs.
Proof.
  intros Hrun. eapply (for_each_ind (λ cs, Inv (live cs) cs)); [| |exact Hrun].
  - split; simpl; set_solver.
  - intros o c1 c2 _. apply clients_exec_Inv.
Qed.

(** However the clients of a configuration were made, used, connected and
    deleted, cleaning up deletes every end of every client that is left and
    never fails on an end that is not there; neither does deleting one of
    them. *)
Theorem clients_cleanup ops rn cs order :
  run ops (makeClnts rn) = Done cs → order ≡ₚ elements (live cs) →
  (∃ cs', cleanup order cs = Done cs' ∧ clerks cs' = None ∧
     ∀ p s e, p ∈ live cs → (s, e) ∈ ends_of p cs → any_string e ∉ ends (cnet cs')) ∧
  (∀ p, ∃ cs', DeleteClient p cs = Done cs').
Proof.
  intros Hrun Hperm. pose proof (clients_run_Inv ops rn cs Hrun) as HI. split.
  - destruct (cleanup_loop cs order (live cs) (clerks cs) (cnet cs)) as (rn' & E & _ & Hgone).
    + rewrite Hperm. apply NoDup_elements.
    + intros p. by rewrite Hperm, elem_of_elements.
    + destruct cs. exact HI.
    + exists (mkClnts (clients cs) None rn'). unfold cleanup. rewrite E. split_and!; [done|done|].
      intros p s e Hp. apply Hgone. by rewrite Hperm, elem_of_elements.
  - intros p. unfold DeleteClient. unfold live in HI. destruct (clerks cs) as [ks|]; [|by eexists].
    case_decide as Hp; [|by eexists].
    destruct (remove_client ks p cs HI Hp) as (rn' & -> & _). by eexists.
Qed.

(** ** Witnesses *)
Definition demo_ops : list op :=
  [op_make (Some ["s1"%string]); op_make None; op_call 0 "a" "s1"; op_call 1 "b" "s1"; op_call 0 "c" "s2";
   op_connectTo 0 ["s2"%string]; op_call 1 "d" "s2"; op_delete 1].

Definition demo_clnts : Clnts := result (run demo_ops (makeClnts MakeNetwork)) (makeClnts MakeNetwork).

Lemma demo_clnts_run : run demo_ops (makeClnts MakeNetwork) = Done demo_clnts.
Proof. apply result_Done. vm_compute. reflexivity. Qed.

Lemma clients_cleanup_witness :
  live demo_clnts = {[0%nat]} ∧ ∃ cs', cleanup [0%nat] demo_clnts = Done cs' ∧ any_string "c" ∉ ends (cnet cs').
Proof.
  split; [vm_compute; reflexivity|].
  destruct (clients_cleanup demo_ops MakeNetwork demo_clnts [0%nat] demo_clnts_run) as [(cs' & E & _ & Hgone) _].
  - vm_compute. reflexivity.
  - exists cs'. split; [exact E|]. apply (Hgone 0%nat "s2"%string).
    + apply (bool_decide_eq_true_1 _). vm_compute. reflexivity.
    + apply (bool_decide_eq_true_1 _). vm_compute. reflexivity.
Defined.

(** A client that may reach [s1], and has an enabled end to it; after
    [ConnectTo ["s2"]] the end to [s1] is still enabled. *)
Definition one_end : Clnt * Network :=
  match makeEnd "a" "s1" (makeClntTo (Some ["s1"%string])) MakeNetwork with
  | Done (_, c, rn) => (c, rn)
  | _ => (makeClntTo None, MakeNetwork)
  end.

Lemma client_respects_allowed_witness :
  let '(c', rn') := ConnectTo [("s1"%string, "a"%string)] ["s2"%string] one_end.1 one_end.2 in
  on "a" rn' = true ∧ allowedL "s1" c' = false.
Proof.
  assert (clnt_ends one_end.1 = {["s1"%string := "a"%string]}) as E by (vm_compute; reflexivity).
  assert (∀ s e, clnt_ends one_end.1 !! s = Some e ↔ "s1"%string = s ∧ "a"%string = e) as He.
  { intros s e. rewrite E. apply lookup_singleton_Some. }
  destruct (client_respects_allowed one_end.1 one_end.2 [("s1"%string, "a"%string)] ["s2"%string] "x" "y")
    as (_ & _ & _ & _ & H).
  - by intros s s' e [<- <-]%He [<- _]%He.
  - rewrite E, map_to_list_singleton. done.
  - intros s e [<- <-]%He. apply (bool_decide_eq_true_1 _). vm_compute. reflexivity.
  - intros s e [<- <-]%He _. vm_compute. reflexivity.
  - assert (clnt_ends one_end.1 !! "s1"%string = Some "a"%string) as Hs by (by apply He).
    split; [|reflexivity]. refine (eq_trans (H "s1"%string "a"%string Hs) _). vm_compute. reflexivity.
Defined.
