(* ===== verification/RaftTest.v ===== *)
(** * RaftTest: the checks of the Raft tests (src/src/raft1/server.go and
    src/src/raft1/test.go)

    An [rfsrv] stands for the service above one Raft peer: it reads the
    peer's apply channel into [logs] and checks each entry against the other
    servers' logs; every tenth entry it takes a snapshot. [Test] holds the
    servers and the checks the tests call: one leader, one term, agreement.

    A check that waits is given what it sees each time it looks: the loops on
    the clock run through a list of observations, whose end is the timeout.
    labgob is [encode] and [decode], a Raft peer is a pointer, and
    [rfGetState] is what its [GetState] returns. The annotations the checks
    leave are those of [Annotation] and are not repeated here; the texts of
    error messages are abridged. *)

From S2P Require Import Prelude Persister.
From Stdlib Require Import Strings.Byte.

Local Open Scope Z_scope.

Definition SnapShotInterval : Z := 10.

(** raftapi.ApplyMsg *)
Record ApplyMsg := mkApplyMsg {
  CommandValid : bool;
  Command : any;
  CommandIndex : Z;
  SnapshotValid : bool;
  Snapshot : option (list byte);
  SnapshotTerm : Z;
  SnapshotIndex : Z
}.

Record rfsrv := mkRfsrv {
  me : Z;
  applyErr : string;
  lastApplied : Z;
  persister : option nat;
  raft : option nat;
  logs : gmap Z any
}.

Record Test := mkTest {
  srvs : list (option rfsrv);
  maxIndex : Z;
  snapshot : bool
}.

Definition set_logs l rs := mkRfsrv (me rs) (applyErr rs) (lastApplied rs) (persister rs) (raft rs) l.
Definition set_lastApplied k rs := mkRfsrv (me rs) (applyErr rs) k (persister rs) (raft rs) (logs rs).
Definition set_raft r rs := mkRfsrv (me rs) (applyErr rs) (lastApplied rs) (persister rs) r (logs rs).
Definition set_srvs l ts := mkTest l (maxIndex ts) (snapshot ts).

(** A method call on a nil server. *)
Definition non_nil (o : option rfsrv) : outcome rfsrv :=
  match o with Some rs => Done rs | None => Panic "nil pointer dereference" end.

Definition srv_at (i : Z) (ts : Test) : outcome rfsrv := o ← slice_get (srvs ts) i; non_nil o.

Definition Logs (i : Z) (rs : rfsrv) : any * bool :=
  match logs rs !! i with Some v => (v, true) | None => (any_nil, false) end.

(** [checkLogs]: the error text, whether the server has the entry before, and
    the servers with the entry recorded. *)
Definition checkLogs (i : Z) (m : ApplyMsg) (ts : Test) : outcome (string * bool * Test) :=
  let v := Command m in
  mine ← slice_get (srvs ts) i;
  err_msg ← for_each (srvs ts) (λ o err,
    rs ← non_nil o;
    let '(old, oldok) := Logs (CommandIndex m) rs in
    Done (if oldok && negb (bool_decide (old = v)) then "commit index"%string else err)) ""%string;
  mine ← non_nil mine;
  let prevok := (Logs (CommandIndex m - 1) mine).2 in
  l ← slice_set (srvs ts) i (Some (set_logs (<[CommandIndex m := v]> (logs mine)) mine));
  Done (err_msg, prevok,
        mkTest l (if maxIndex ts <? CommandIndex m then CommandIndex m else maxIndex ts) (snapshot ts)).

(** [log.Fatalf] ends the program on an error. *)
Definition fail_on (err_msg : string) {A} (a : A) : outcome A :=
  if bool_decide (err_msg = ""%string) then Done a else Fatal "apply error".

(** One turn of [applier]'s loop. *)
Definition applier (i : Z) (m : ApplyMsg) (ts : Test) : outcome Test :=
  if CommandValid m then
    '(err_msg, prevok, ts) ← checkLogs i m ts;
    let err_msg := if (1 <? CommandIndex m) && negb prevok then "apply out of order"%string else err_msg in
    fail_on err_msg ts
  else Done ts.

Section Snapshots.
Variable encode : Z → list any → list byte.
Variable decode : list byte → option (Z * list any).

(** [rs.logs] after a snapshot. *)
Definition logs_of (xlog : list any) : gmap Z any :=
  list_to_map (imap (λ j v, (Z.of_nat j, v)) xlog).

(** [ingestSnap]: [inl] is an error text. *)
Definition ingestSnap (snap : option (list byte)) (index : Z) (rs : rfsrv) : outcome (string + rfsrv) :=
  match snap with
  | None => Fatal "nil snapshot"
  | Some bs =>
      match decode bs with
      | None => Fatal "snapshot decode error"
      | Some (lastIncludedIndex, xlog) =>
          if negb (index =? -1) && negb (index =? lastIncludedIndex) then
            Done (inl "snapshot doesn't match m.SnapshotIndex"%string)
          else Done (inr (set_lastApplied lastIncludedIndex (set_logs (logs_of xlog) rs)))
      end
  end.

(** [rs.logs[j]] for [j] from 0 to [k]. *)
Definition xlog_upto (k : Z) (l : gmap Z any) : list any :=
  (λ j, default any_nil (l !! Z.of_nat j)) <$> seq 0 (Z.to_nat (k + 1)).

(** One turn of [applierSnap]'s loop, with the snapshot it hands to Raft; [Kill] sets [raft] to nil. *)
Definition applierSnap (i : Z) (m : ApplyMsg) (ts : Test) : outcome (Test * option (Z * list byte)) :=
  rs ← srv_at i ts;
  if SnapshotValid m then
    r ← ingestSnap (Snapshot m) (SnapshotIndex m) rs;
    match r with
    | inl err_msg => fail_on err_msg (ts, None)
    | inr rs => l ← slice_set (srvs ts) i (Some rs); Done (set_srvs l ts, None)
    end
  else if CommandValid m then
    let err_msg := if CommandIndex m =? lastApplied rs + 1 then ""%string else "apply out of order"%string in
    '(err_msg, ts) ←
      (if bool_decide (err_msg = ""%string) then
         '(err_msg, prevok, ts) ← checkLogs i m ts;
         Done (if (1 <? CommandIndex m) && negb prevok then "apply out of order"%string else err_msg, ts)
       else Done (err_msg, ts));
    rs ← srv_at i ts;
    let rs := set_lastApplied (CommandIndex m) rs in
    l ← slice_set (srvs ts) i (Some rs);
    snap ←
      (if Z.rem (CommandIndex m + 1) SnapShotInterval =? 0 then
         match raft rs with
         | Some _ => Done (Some (CommandIndex m, encode (CommandIndex m) (xlog_upto (CommandIndex m) (logs rs))))
         | None => Panic "nil pointer dereference"
         end
       else Done None);
    fail_on err_msg (set_srvs l ts, snap)
  else Done (ts, None).

(** [newRfsrv], [rf] being the peer that [Make] returns. *)
Definition newRfsrv (srv : Z) (p rf : nat) (snap : bool) (st : Store) : outcome (rfsrv * Store) :=
  let s := mkRfsrv srv "" 0 (Some p) (Some rf) ∅ in
  if snap then
    '(sl, st) ← ReadSnapshot p st;
    match deref st sl with
    | [] => Done (s, st)
    | bs =>
        r ← ingestSnap (Some bs) (-1) s;
        match r with
        | inl err => Fatal err
        | inr s => Done (s, st)
        end
    end
  else Done (s, st).
End Snapshots.

Definition mksrv decode (srv : Z) (p rf : nat) (ts : Test) (st : Store) : outcome (Test * Store) :=
  '(s, st) ← newRfsrv decode srv p rf (snapshot ts) st;
  l ← slice_set (srvs ts) srv (Some s);
  Done (set_srvs l ts, st).

(** [Kill]: saves what is persisted once more. *)
Definition Kill (rs : rfsrv) (st : Store) : outcome (rfsrv * Store) :=
  let rs := set_raft None rs in
  match persister rs with
  | Some p =>
      '(raftlog, st) ← ReadRaftState p st;
      '(snap, st) ← ReadSnapshot p st;
      st ← Save p raftlog snap st;
      Done (rs, st)
  | None => Done (rs, st)
  end.

(** ** The checks of test.go *)
Section Checks.
Variable rfGetState : nat → Z * bool.

Definition GetState (rs : rfsrv) : outcome (Z * bool) :=
  match raft rs with Some rf => Done (rfGetState rf) | None => Panic "nil pointer dereference" end.

(** What one look at server [i] shows: nothing when it is not connected. *)
Definition look (i : Z) (connected : list bool) (ts : Test) : outcome (option (Z * bool)) :=
  c ← slice_get connected i;
  if (c : bool) then rs ← srv_at i ts; st ← GetState rs; Done (Some st) else Done None.

Definition checkTerms (connected : list bool) (ts : Test) : outcome Z :=
  for_each (seq 0 (length (srvs ts))) (λ i term,
    o ← look (Z.of_nat i) connected ts;
    match o with
    | Some (xterm, _) =>
        if term =? -1 then Done xterm
        else if negb (term =? xterm) then Fatal "servers disagree on term" else Done term
    | None => Done term
    end) (-1).

Definition checkNoLeader (connected : list bool) (ts : Test) : outcome unit :=
  for_each (seq 0 (length (srvs ts))) (λ i _,
    o ← look (Z.of_nat i) connected ts;
    match o with Some (_, true) => Fatal "leader" | _ => Done () end) ().
End Checks.

(** One round of [checkOneLeader]: [seen] is what each server showed, in
    order, each at its own moment. [leaders] maps a term to the servers that
    claimed to lead it; ranging over it goes through [order]. *)
Definition leaders_of (seen : list (option (Z * bool))) : gmap Z (list Z) :=
  foldl (λ m '(i, o), match o with
                      | Some (term, true) => <[term := default [] (m !! term) ++ [Z.of_nat i]]> m
                      | _ => m
                      end) ∅ (imap pair seen).

Definition one_leader_round (order : list Z) (leaders : gmap Z (list Z)) : outcome (option Z) :=
  last ← for_each order (λ term last,
    let l := default [] (leaders !! term) in
    if (1 <? Z.of_nat (length l)) then Fatal "term has more than one leader"
    else Done (if last <? term then term else last)) (-1);
  if decide (leaders = ∅) then Done None
  else i ← slice_get (default [] (leaders !! last)) 0; Done (Some i).

(** The rounds; each pairs an iteration order with what was seen. *)
Fixpoint leader_rounds (rounds : list (list Z * list (option (Z * bool)))) : outcome Z :=
  match rounds with
  | [] => Fatal "expected one leader, got none"
  | (order, seen) :: rounds =>
      r ← one_leader_round order (leaders_of seen);
      match r with Some i => Done i | None => leader_rounds rounds end
  end.

(** There are at most ten. *)
Definition checkOneLeader (rounds : list (list Z * list (option (Z * bool)))) : outcome Z :=
  leader_rounds (take 10 rounds).

(** [nCommitted]: how many servers have the entry, and the entry. *)
Definition nCommitted (index : Z) (l : list (option rfsrv)) : outcome (Z * any) :=
  for_each l (λ o '(count, cmd),
    rs ← non_nil o;
    if bool_decide (applyErr rs = ""%string) then
      let '(cmd1, ok) := Logs index rs in
      if (ok : bool) then
        if (0 <? count) && negb (bool_decide (cmd = cmd1)) then Fatal "committed values do not match"
        else Done (count + 1, cmd1)
      else Done (count, cmd)
    else Fatal (applyErr rs)) (0, any_nil).

Definition checkNoAgreement (index : Z) (l : list (option rfsrv)) : outcome unit :=
  '(n, _) ← nCommitted index l;
  if 0 <? n then Fatal "committed but no majority" else Done ().

(** One round of [one]: what each server answered to [Start] until one took
    the command ([None]: not connected, or killed), and the servers' logs at
    each look in the two seconds that follow. *)
Record Round := mkRound {
  answers : list (option (Z * bool));
  looks : list (list (option rfsrv))
}.

Fixpoint first_start (l : list (option (Z * bool))) : Z :=
  match l with
  | [] => -1
  | Some (index1, true) :: _ => index1
  | _ :: l => first_start l
  end.

(** Wait for [expectedServers] to commit [cmd] at [index]. *)
Fixpoint await (cmd : any) (expectedServers index : Z) (l : list (list (option rfsrv))) : outcome bool :=
  match l with
  | [] => Done false
  | srvs :: l =>
      '(nd, cmd1) ← nCommitted index srvs;
      if (0 <? nd) && (expectedServers <=? nd) && bool_decide (cmd1 = cmd) then Done true
      else await cmd expectedServers index l
  end.

(** [one]; [finished] is what [checkFinished] says at the end. *)
Fixpoint one (cmd : any) (expectedServers : Z) (retry finished : bool) (rounds : list Round) : outcome Z :=
  match rounds with
  | [] => if finished then Done (-1) else Fatal "failed to reach agreement"
  | r :: rounds =>
      let index := first_start (answers r) in
      if negb (index =? -1) then
        agreed ← await cmd expectedServers index (looks r);
        if (agreed : bool) then Done index
        else if negb retry then Fatal "failed to reach agreement"
        else one cmd expectedServers retry finished rounds
      else one cmd expectedServers retry finished rounds
  end.

(** The loop of [wait]: each look has the servers' logs, and the terms the
    peers report after the pause; [inl] is its early [return -1]. *)
Fixpoint wait_loop (index n startTerm : Z) (l : list (list (option rfsrv) * list Z)) : outcome (unit + unit) :=
  match l with
  | [] => Done (inr ())
  | (srvs, terms) :: l =>
      '(nd, _) ← nCommitted index srvs;
      if n <=? nd then Done (inr ())
      else if (-1 <? startTerm) && existsb (λ t, startTerm <? t) terms then Done (inl ())
      else wait_loop index n startTerm l
  end.

Definition wait (index n startTerm : Z) (l : list (list (option rfsrv) * list Z)) (at_end : list (option rfsrv)) :
    outcome any :=
  r ← wait_loop index n startTerm (take 30 l);
  match r with
  | inl _ => Done (any_int (-1))
  | inr _ =>
      '(nd, cmd) ← nCommitted index at_end;
      if nd <? n then Fatal "decided" else Done cmd
  end.
