(* ===== verification/RaftTestProps.v ===== *)
(** * RaftTestProps: what the checks of the Raft tests establish *)

From S2P Require Import Prelude Persister RaftTest.
From Stdlib Require Import Strings.Byte.

Local Open Scope Z_scope.

(** ** Committed entries *)

(** Server [i] of the list has [v] at [index]. *)
Definition has_entry (l : list (option rfsrv)) (i : nat) (index : Z) (v : any) : Prop :=
  ∃ rs, l !! i = Some (Some rs) ∧ logs rs !! index = Some v.

Definition agree (l : list (option rfsrv)) : Prop :=
  ∀ i j index v w, has_entry l i index v → has_entry l j index w → v = w.

(** Entries are applied in order: every entry but the first has the one
    before it. *)
Definition in_order (l : list (option rfsrv)) : Prop :=
  ∀ i index v, has_entry l i index v → 1 < index → ∃ w, has_entry l i (index - 1) w.

(** No server is nil, as is the case when [makeTest] has returned. *)
Definition all_made (l : list (option rfsrv)) : Prop := ∀ i o, l !! i = Some o → is_Some o.

Lemma has_entry_cons l o i index v : has_entry (o :: l) (S i) index v ↔ has_entry l i index v.
Proof. done. Qed.

(** The loop of [checkLogs] over the servers: the error text is empty exactly
    when no server has another value. *)
Lemma conflict_loop idx v l : ∀ e,
  all_made l →
  ∃ e', for_each l (λ o err,
      rs ← non_nil o;
      let '(old, oldok) := Logs idx rs in
      Done (if oldok && negb (bool_decide (old = v)) then "commit index"%string else err)) e = Done e' ∧
    (e' = ""%string ↔ e = ""%string ∧ ∀ i w, has_entry l i idx w → w = v).
Proof.
  induction l as [|o l IH]; intros e Hmade.
  { exists e. split; [done|]. split; [|tauto]. intros ->. split; [done|]. by intros i w (rs & ? & _). }
  destruct (Hmade 0%nat o eq_refl) as [rs ->]. cbn [for_each non_nil mbind outcome_bind].
  assert (all_made l) as Hmade' by (intros i o' Hi; by apply (Hmade (S i))).
  assert (∀ i w, has_entry (Some rs :: l) i idx w ↔
    match i with O => logs rs !! idx = Some w | S i => has_entry l i idx w end) as Hcase.
  { intros [|i] w; [|done]. split; [intros (rs' & [= <-] & H); done|intros H; by exists rs]. }
  assert (Logs idx rs = match logs rs !! idx with Some v => (v, true) | None => (any_nil, false) end) as -> by done.
  destruct (logs rs !! idx) as [old|] eqn:Eold; cbn [andb mbind outcome_bind].
  - destruct (decide (old = v)) as [->|Hne].
    + rewrite bool_decide_eq_true_2 by done. cbn [negb]. destruct (IH e Hmade') as (e' & E & Hiff).
      exists e'. split; [done|]. rewrite Hiff. split; intros [-> H]; (split; [done|]).
      * intros i w Hw%Hcase. destruct i; [congruence|by apply (H i)].
      * intros i w Hw. apply (H (S i)). by apply Hcase.
    + rewrite bool_decide_eq_false_2 by done. cbn [negb]. destruct (IH "commit index"%string Hmade') as (e' & E & Hiff).
      exists e'. split; [done|]. rewrite Hiff. split; [by intros [? _]|]. intros [_ H]. exfalso.
      apply Hne, (H 0%nat). by apply Hcase.
  - destruct (IH e Hmade') as (e' & E & Hiff). exists e'. split; [done|]. rewrite Hiff.
    split; intros [-> H]; (split; [done|]).
    + intros i w Hw%Hcase. destruct i; [congruence|by apply (H i)].
    + intros i w Hw. apply (H (S i)). by apply Hcase.
Qed.

(** [checkLogs] in one equation. *)
Lemma checkLogs_eq (i : nat) m ts rs :
  all_made (srvs ts) → srvs ts !! i = Some (Some rs) →
  ∃ err, checkLogs (Z.of_nat i) m ts = Done (err, (Logs (CommandIndex m - 1) rs).2,
    mkTest (<[i := Some (set_logs (<[CommandIndex m := Command m]> (logs rs)) rs)]> (srvs ts))
      (Z.max (maxIndex ts) (CommandIndex m)) (snapshot ts)) ∧
    (err = ""%string ↔ ∀ j w, has_entry (srvs ts) j (CommandIndex m) w → w = Command m).
Proof.
  intros Hmade Hi. unfold checkLogs. rewrite (slice_get_Some _ _ _ Hi). cbn [mbind outcome_bind].
  destruct (conflict_loop (CommandIndex m) (Command m) (srvs ts) ""%string Hmade) as (err & -> & Hiff).
  cbn [mbind outcome_bind non_nil]. exists err. split; [|rewrite Hiff; tauto].
  assert (in_range (srvs ts) (Z.of_nat i) = true) as Hr.
  { apply lookup_lt_Some in Hi. unfold in_range.
    rewrite (proj2 (Z.leb_le _ _)), (proj2 (Z.ltb_lt _ _)) by lia. done. }
  unfold slice_set. rewrite Hr, Nat2Z.id. cbn [mbind outcome_bind]. do 3 f_equal.
  destruct (Z.ltb_spec (maxIndex ts) (CommandIndex m)); lia.
Qed.

Lemma fail_on_Done {A} e (a b : A) : fail_on e a = Done b ↔ e = ""%string ∧ a = b.
Proof.
  unfold fail_on. destruct (decide (e = ""%string)) as [->|Hne].
  - rewrite bool_decide_eq_true_2 by done. naive_solver.
  - rewrite bool_decide_eq_false_2 by done. naive_solver.
Qed.

Lemma applier_eq (i : nat) m ts rs ts' :
  all_made (srvs ts) → srvs ts !! i = Some (Some rs) → CommandValid m = true →
  applier (Z.of_nat i) m ts = Done ts' ↔
    (∀ j w, has_entry (srvs ts) j (CommandIndex m) w → w = Command m) ∧
    (1 < CommandIndex m → is_Some (logs rs !! (CommandIndex m - 1))) ∧
    ts' = mkTest (<[i := Some (set_logs (<[CommandIndex m := Command m]> (logs rs)) rs)]> (srvs ts))
            (Z.max (maxIndex ts) (CommandIndex m)) (snapshot ts).
Proof.
  intros Hmade Hi Hv. unfold applier. rewrite Hv.
  destruct (checkLogs_eq i m ts rs Hmade Hi) as (err & -> & Hiff). cbn [mbind outcome_bind].
  assert ((Logs (CommandIndex m - 1) rs).2 = bool_decide (is_Some (logs rs !! (CommandIndex m - 1)))) as ->.
  { unfold Logs. by destruct (logs rs !! (CommandIndex m - 1)). }
  rewrite fail_on_Done. destruct (Z.ltb_spec 1 (CommandIndex m)) as [Hlt|Hle]; simpl.
  - case_bool_decide as Hp; simpl; [naive_solver|]. split; [by intros [? _]|]. intros (_ & H & _). by destruct Hp; apply H.
  - rewrite Hiff. split; [intros [H <-]; split_and!; [done|lia|done]|intros (H & _ & ->); done].
Qed.

(** The apply check accepts an entry exactly when no server has applied
    another one at its index and the server has the entry before it; it then
    records the entry and nothing else. In every other case the test fails. *)
Theorem applier_exact (i : nat) m ts rs ts' :
  all_made (srvs ts) → srvs ts !! i = Some (Some rs) → CommandValid m = true →
  applier (Z.of_nat i) m ts = Done ts' ↔
    (∀ j w, has_entry (srvs ts) j (CommandIndex m) w → w = Command m) ∧
    (1 < CommandIndex m → is_Some (logs rs !! (CommandIndex m - 1))) ∧
    ts' = mkTest (<[i := Some (set_logs (<[CommandIndex m := Command m]> (logs rs)) rs)]> (srvs ts))
            (Z.max (maxIndex ts) (CommandIndex m)) (snapshot ts).
Proof. apply applier_eq. Qed.

(** ** Agreement over a whole test *)
Inductive event :=
| ev_apply (i : nat) (m : ApplyMsg)
| ev_restart (i : nat) (p rf : nat).

Definition step decode (ev : event) (s : Test * Store) : outcome (Test * Store) :=
  match ev with
  | ev_apply i m => ts ← applier (Z.of_nat i) m s.1; Done (ts, s.2)
  | ev_restart i p rf => mksrv decode (Z.of_nat i) p rf s.1 s.2
  end.

Definition sound (s : Test * Store) : Prop :=
  snapshot s.1 = false ∧ all_made (srvs s.1) ∧ agree (srvs s.1) ∧ in_order (srvs s.1) ∧
  ∀ i index v, has_entry (srvs s.1) i index v → index <= maxIndex s.1.

Lemma has_entry_insert l i rs j index v :
  (i < length l)%nat →
  has_entry (<[i := Some rs]> l) j index v ↔
  if decide (i = j) then logs rs !! index = Some v else has_entry l j index v.
Proof.
  intros Hi. unfold has_entry. case_decide as E.
  - subst. rewrite list_lookup_insert_eq by done. naive_solver.
  - by rewrite list_lookup_insert_ne.
Qed.

Lemma all_made_insert l i rs : all_made l → all_made (<[i := Some rs]> l).
Proof. intros H j o Hj. apply list_lookup_insert_Some in Hj as [(_ & <- & _)|[_ Hj]]; [done|by eapply H]. Qed.

Lemma step_sound decode ev s s' : sound s → step decode ev s = Done s' → sound s'.
Proof.
  intros (Hsn & Hmade & Hag & Hord & Hmax) Hrun. destruct s as [ts st], ev as [i m|i p rf]; simpl in *.
  - apply bind_Done in Hrun as (ts' & Hrun & [= <-]).
    destruct (CommandValid m) eqn:Hv; [|by unfold applier in Hrun; rewrite Hv in Hrun; injection Hrun as <-].
    destruct (srvs ts !! i) as [o|] eqn:Hi.
    2:{ unfold applier, checkLogs in Hrun. rewrite Hv in Hrun.
        apply bind_Done in Hrun as (? & Hrun & _). apply bind_Done in Hrun as (? & Hg & _).
        apply slice_get_Done in Hg as [_ Hg]. by rewrite Nat2Z.id, Hi in Hg. }
    destruct (Hmade i o Hi) as [rs ->]. apply lookup_lt_Some in Hi as Hlt.
    apply (applier_eq i m ts rs) in Hrun as (Hc & Hp & ->); [|done..].
    assert (∀ j idx v, has_entry (<[i := Some (set_logs (<[CommandIndex m := Command m]> (logs rs)) rs)]> (srvs ts)) j idx v →
      (i = j ∧ idx = CommandIndex m ∧ v = Command m) ∨ ((i = j → idx ≠ CommandIndex m) ∧ has_entry (srvs ts) j idx v)) as Hent.
    { intros j idx v. rewrite has_entry_insert by done. case_decide as E; [|by right].
      subst j. simpl. rewrite lookup_insert_Some. intros [[<- <-]|[Hne H]]; [by left|]. right. split; [congruence|by exists rs]. }
    assert (∀ j idx v, has_entry (srvs ts) j idx v → ∃ w,
      has_entry (<[i := Some (set_logs (<[CommandIndex m := Command m]> (logs rs)) rs)]> (srvs ts)) j idx w) as Hkeep.
    { intros j idx v Hj. setoid_rewrite has_entry_insert; [|done..]. case_decide as E; [|by exists v].
      subst j. destruct Hj as (rs' & Hrs' & Hl). rewrite Hi in Hrs'. injection Hrs' as <-. simpl.
      destruct (decide (idx = CommandIndex m)) as [->|]; [rewrite lookup_insert_eq; eauto|rewrite lookup_insert_ne by done; eauto]. }
    split_and!; [done|by apply all_made_insert| | |]; simpl.
    + intros j k idx v w [(<- & -> & ->)|[_ Hj]]%Hent [(<- & E & ->)|[_ Hk]]%Hent; [done| | |by eapply Hag].
      * symmetry. by eapply Hc.
      * subst. by eapply Hc.
    + intros j idx v [(<- & -> & ->)|[_ Hj]]%Hent H1.
      * destruct (Hp H1) as [w Hw]. apply (Hkeep i _ w). by exists rs.
      * destruct (Hord j idx v Hj H1) as [w Hw]. by apply (Hkeep j _ w).
    + intros j idx v [(<- & -> & ->)|[_ Hj]]%Hent; [lia|]. pose proof (Hmax j idx v Hj). lia.
  - unfold mksrv, newRfsrv in Hrun. rewrite Hsn in Hrun. cbn [mbind outcome_bind] in Hrun.
    apply bind_Done in Hrun as (l & Hl & [= <-]). apply slice_set_Done in Hl as [Hi ->].
    rewrite Nat2Z.id in *. simpl in *.
    assert (∀ j idx v, has_entry (<[i := Some (mkRfsrv (Z.of_nat i) "" 0 (Some p) (Some rf) ∅)]> (srvs ts)) j idx v →
      i ≠ j ∧ has_entry (srvs ts) j idx v) as Hent.
    { intros j idx v. rewrite has_entry_insert by lia. case_decide; [|done]. simpl. by rewrite lookup_empty. }
    split_and!; [done|by apply all_made_insert| | |]; simpl.
    + intros j k idx v w [_ Hj]%Hent [_ Hk]%Hent. by eapply Hag.
    + intros j idx v [Hne Hj]%Hent H1. destruct (Hord j idx v Hj H1) as [w Hw]. exists w.
      rewrite has_entry_insert by lia. by rewrite decide_False.
    + intros j idx v [_ Hj]%Hent. by eapply Hmax.
Qed.

(** (C30) As long as no apply check has failed, through any sequence of applied
    entries and server restarts: no two servers have different entries at the same
    index, every server's entries are a gapless prefix of the log, and
    [maxIndex] bounds them all. *)
Theorem apply_checks_agree decode events n st ts st' :
  for_each events (step decode)
    (mkTest (replicate n (Some (mkRfsrv 0 "" 0 None None ∅))) 0 false, st) = Done (ts, st') →
  agree (srvs ts) ∧ in_order (srvs ts) ∧ ∀ i index v, has_entry (srvs ts) i index v → index <= maxIndex ts.
Proof.
  intros Hrun.
  assert (sound (ts, st')) as (_ & _ & H1 & H2 & H3); [|done].
  eapply (for_each_ind sound); [| |exact Hrun].
  - assert (∀ i idx v, ¬ has_entry (replicate n (Some (mkRfsrv 0 "" 0 None None ∅))) i idx v) as Hno.
    { intros i idx v (rs & [[= ->] _]%lookup_replicate_1 & H). done. }
    split_and!; simpl; [done| | | |].
    + intros i o [-> _]%lookup_replicate_1. by eexists.
    + intros i j idx v w H. by apply Hno in H.
    + intros i idx v H. by apply Hno in H.
    + intros i idx v H. by apply Hno in H.
  - intros ev s1 s2 _. apply step_sound.
Qed.

(** ** Snapshots *)
Section Snapshots.
Variable encode : Z → list any → list byte.
Variable decode : list byte → option (Z * list any).
(** labgob reads back what it wrote. *)
Hypothesis decode_encode : ∀ k xlog, decode (encode k xlog) = Some (k, xlog).

Lemma logs_of_lookup xlog j :
  logs_of xlog !! j = if 0 <=? j then xlog !! Z.to_nat j else None.
Proof.
  unfold logs_of. apply option_eq. intros v.
  assert (NoDup (imap (λ j v, (Z.of_nat j, v)) xlog).*1) as Hnd.
  { rewrite fmap_imap. apply NoDup_alt. intros i i' x. rewrite !list_lookup_imap.
    destruct (xlog !! i), (xlog !! i'); simpl; try done. intros [= <-] [= E]. lia. }
  rewrite <- elem_of_list_to_map by done. rewrite list_elem_of_lookup. setoid_rewrite list_lookup_imap.
  split.
  - intros (i & Hi). destruct (xlog !! i) as [w|] eqn:E; [|done]. simpl in Hi. injection Hi as <- <-.
    rewrite (proj2 (Z.leb_le _ _)) by lia. by rewrite Nat2Z.id.
  - destruct (Z.leb_spec 0 j); [|done]. intros Hv. exists (Z.to_nat j). rewrite Hv. simpl.
    by rewrite Z2Nat.id by lia.
Qed.

(** (C31) A snapshot round trip: the snapshot a server takes after applying
    entry [k] gives any server that ingests it the same entries up to [k],
    with nil where the first had none, and [k] as the last applied index;
    with the right index it is always accepted. *)
Theorem snapshot_roundtrip k (l : gmap Z any) index rs :
  0 <= k → (index = k ∨ index = -1) →
  ∃ rs', ingestSnap decode (Some (encode k (xlog_upto k l))) index rs = Done (inr rs') ∧
    lastApplied rs' = k ∧
    ∀ j, logs rs' !! j = if (0 <=? j) && (j <=? k) then Some (default any_nil (l !! j)) else None.
Proof.
  intros Hk Hidx. unfold ingestSnap. rewrite decode_encode.
  assert (negb (index =? -1) && negb (index =? k) = false) as ->.
  { destruct Hidx as [->| ->]; [by rewrite Z.eqb_refl, andb_false_r|done]. }
  eexists. split; [done|]. split; [done|]. intros j. simpl. rewrite logs_of_lookup.
  destruct (Z.leb_spec 0 j) as [Hj|]; [|done]. simpl. unfold xlog_upto. rewrite list_lookup_fmap.
  destruct (Z.leb_spec j k) as [Hle|Hgt].
  - rewrite lookup_seq_lt by lia. simpl. by rewrite Z2Nat.id by lia.
  - by rewrite lookup_seq_ge by lia.
Qed.

(** A server with snapshots applies in order too: an entry that is
    accepted is the next one, it is recorded, every tenth entry yields a
    snapshot of the entries so far, if the server was not killed, and a server that ingested a snapshot
    can go on with the entry after it. *)
Theorem applierSnap_spec (i : nat) m ts rs ts' snap :
  all_made (srvs ts) → srvs ts !! i = Some (Some rs) → SnapshotValid m = false → CommandValid m = true →
  applierSnap encode decode (Z.of_nat i) m ts = Done (ts', snap) →
  let l' := <[CommandIndex m := Command m]> (logs rs) in
  CommandIndex m = lastApplied rs + 1 ∧
  (∀ j w, has_entry (srvs ts) j (CommandIndex m) w → w = Command m) ∧
  srvs ts' = <[i := Some (set_lastApplied (CommandIndex m) (set_logs l' rs))]> (srvs ts) ∧
  snap = (if Z.rem (CommandIndex m + 1) 10 =? 0
          then Some (CommandIndex m, encode (CommandIndex m) (xlog_upto (CommandIndex m) l')) else None) ∧
  (Z.rem (CommandIndex m + 1) 10 = 0 → is_Some (raft rs)).
Proof.
  intros Hmade Hi Hsv Hcv Hrun l'. unfold applierSnap, srv_at in Hrun.
  rewrite (slice_get_Some _ _ _ Hi), Hsv, Hcv in Hrun. cbn [mbind outcome_bind non_nil] in Hrun.
  apply bind_Done in Hrun as ([err ts1] & Herr & Hrun).
  apply bind_Done in Hrun as (rs1 & Hrs1 & Hrun). apply bind_Done in Hrun as (l & Hl & Hrun).
  apply bind_Done in Hrun as (sn & Hsn & Hrun).
  apply fail_on_Done in Hrun as [-> [= <- <-]].
  destruct (Z.eqb_spec (CommandIndex m) (lastApplied rs + 1)) as [Heq|]; [|by injection Herr].
  cbn [bool_decide decide] in Herr. rewrite bool_decide_eq_true_2 in Herr by done.
  destruct (checkLogs_eq i m ts rs Hmade Hi) as (err & E & Hiff). rewrite E in Herr.
  cbn [mbind outcome_bind] in Herr. injection Herr as Herr <-.
  destruct (_ && _); [done|]. subst err. apply lookup_lt_Some in Hi as Hlt.
  apply bind_Done in Hrs1 as (o & Ho & Hrs1). apply slice_get_Done in Ho as [_ Ho].
  simpl in Ho. rewrite Nat2Z.id, list_lookup_insert_eq in Ho by done. injection Ho as <-.
  injection Hrs1 as <-. apply slice_set_Done in Hl as [_ ->]. simpl. rewrite Nat2Z.id, list_insert_insert_eq.
  change SnapShotInterval with 10 in Hsn. destruct (Z.eqb_spec (Z.rem (CommandIndex m + 1) 10) 0) as [Hrem|Hrem].
  - cbn [raft set_lastApplied set_logs] in Hsn. destruct (raft rs) as [rf|] eqn:Hrf; [|done]. apply Done_inj in Hsn as <-.
    split_and!; [done|by apply Hiff|done|done|by eexists].
  - apply Done_inj in Hsn as <-. split_and!; [done|by apply Hiff|done|done|done].
Qed.
End Snapshots.

(** Killing a server rewrites its persister with what it already holds:
    the state and the snapshot read back are the same. *)
Theorem Kill_keeps_persisted rs st rs' st' p :
  store_valid st → persister rs = Some p → Kill rs st = Done (rs', st') →
  raft rs' = None ∧ logs rs' = logs rs ∧ contents p st' = contents p st.
Proof.
  intros Hv Hp Hrun. unfold Kill in Hrun. simpl in Hrun. rewrite Hp in Hrun.
  apply bind_Done in Hrun as ([sl1 st1] & H1 & Hrun). apply bind_Done in Hrun as ([sl2 st2] & H2 & Hrun).
  apply bind_Done in Hrun as (st3 & H3 & [= <- <-]).
  unfold ReadRaftState, ReadSnapshot, with_persister in H1, H2.
  destruct (persisters st !! p) as [ps|] eqn:Eps; [|done]. apply (inj Done) in H1 as E1.
  destruct (Hv p ps Eps) as [V1 V2].
  pose proof (clone_extends _ _ _ _ E1) as X1. pose proof (clone_spec _ _ _ _ E1) as (a & -> & _ & Ha & P1).
  rewrite P1, Eps in H2. apply (inj Done) in H2 as E2.
  pose proof (clone_extends _ _ _ _ E2) as X2. pose proof (clone_spec _ _ _ _ E2) as (b & -> & _ & Hb & P2).
  assert (store_valid st2) as Hv2.
  { intros q qs Hq. rewrite P2, P1 in Hq. destruct (Hv q qs Hq).
    split; (eapply slice_valid_extends; [exact X2|]; by eapply slice_valid_extends). }
  destruct (Save_inv p (Some a) (Some b) st2 st3 Hv2 (ex_intro _ _ Hb) H3) as (ps' & r & s & _ & Hp' & _ & _ & _ & _ & Er & Es).
  split_and!; [done|done|]. unfold contents. rewrite Hp', lookup_insert_eq, Eps. cbn [mbind option_bind raftstate Persister.snapshot].
  simpl. rewrite Er, Es. simpl.
  assert (arrays st2 !! a = Some (deref st (raftstate ps))) as -> by (by eapply lookup_weaken).
  rewrite Hb. simpl. by rewrite (deref_extends st st1).
Qed.

(** ** One leader *)

(** Server [i] was seen to lead [term]. *)
Definition claims (seen : list (option (Z * bool))) (i : Z) (term : Z) : Prop :=
  0 <= i ∧ seen !! Z.to_nat i = Some (Some (term, true)).

Lemma leaders_of_spec seen :
  (∀ i term, i ∈ default [] (leaders_of seen !! term) ↔ claims seen i term) ∧
  (∀ term, NoDup (default [] (leaders_of seen !! term))) ∧
  (∀ term l, leaders_of seen !! term = Some l → l ≠ []).
Proof.
  induction seen as [|o seen (IH1 & IH2 & IH3)] using rev_ind.
  { unfold leaders_of. simpl. setoid_rewrite lookup_empty. split_and!; [|intros; constructor|done].
    intros i term. split; [by intros H%elem_of_nil|]. unfold claims. by rewrite lookup_nil; intros [? ?]. }
  assert (leaders_of (seen ++ [o]) = match o with
    | Some (term, true) => <[term := default [] (leaders_of seen !! term) ++ [Z.of_nat (length seen)]]> (leaders_of seen)
    | _ => leaders_of seen end) as ->.
  { unfold leaders_of. rewrite imap_app, foldl_app. simpl. by rewrite Nat.add_0_r. }
  assert (∀ i term, claims (seen ++ [o]) i term ↔
    claims seen i term ∨ (i = Z.of_nat (length seen) ∧ o = Some (term, true))) as Hclaims.
  { intros i term. unfold claims. rewrite lookup_snoc_Some. split.
    - intros (Hi & [[_ H]|[Hl H]]); [by left|right]. split; [lia|done].
    - intros [[Hi H]|[-> ->]]; (split; [lia|]); [left|right; split; [lia|done]].
      split; [by eapply lookup_lt_Some|done]. }
  assert (∀ i term, claims seen i term → i < Z.of_nat (length seen)) as Hlt.
  { intros i term [Hi H%lookup_lt_Some]. lia. }
  destruct o as [[t []]|].
  2,3: split_and!; [|exact IH2|exact IH3]; intros i term; rewrite IH1, Hclaims; naive_solver.
  assert (∀ term, default [] (<[t := default [] (leaders_of seen !! t) ++ [Z.of_nat (length seen)]]> (leaders_of seen) !! term) =
    default [] (leaders_of seen !! term) ++ if decide (t = term) then [Z.of_nat (length seen)] else []) as Hdef.
  { intros term. case_decide as E; [subst; by rewrite lookup_insert_eq|by rewrite lookup_insert_ne, app_nil_r]. }
  split_and!.
  - intros i term. rewrite Hdef, elem_of_app, IH1, Hclaims. case_decide as E.
    + subst. rewrite list_elem_of_singleton. naive_solver.
    + rewrite elem_of_nil. naive_solver.
  - intros term. rewrite Hdef. apply NoDup_app. split_and!; [apply IH2| |].
    + intros i Hi%IH1%Hlt Hi'. case_decide; [apply list_elem_of_singleton in Hi'; lia|by apply elem_of_nil in Hi'].
    + case_decide; [apply NoDup_singleton|constructor].
  - intros term l. rewrite lookup_insert_Some. intros [[_ <-]|[_ H]]; [by destruct (default [] _)|by eapply IH3].
Qed.

Lemma one_leader_loop leaders order : ∀ last last',
  for_each order (λ term last,
    let l := default [] (leaders !! term) in
    if (1 <? Z.of_nat (length l)) then Fatal "term has more than one leader"
    else Done (if last <? term then term else last)) last = Done last' →
  (∀ term, term ∈ order → (length (default [] ((leaders : gmap Z (list Z)) !! term)) <= 1)%nat ∧ term <= last') ∧
  last <= last' ∧ (last' = last ∨ last' ∈ order).
Proof.
  induction order as [|t order IH]; intros last last' Hrun.
  { injection Hrun as <-. split_and!; [by intros term H%elem_of_nil|lia|by left]. }
  cbn [for_each] in Hrun. cbv zeta in Hrun. apply bind_Done in Hrun as (l1 & Hl & Hrun).
  destruct (Z.ltb_spec 1 (Z.of_nat (length (default [] (leaders !! t))))); [done|]. injection Hl as <-.
  destruct (IH _ _ Hrun) as (H1 & H2 & H3). split_and!.
  - intros term [->|Ht]%elem_of_cons; [|by apply H1]. split; [lia|]. destruct (Z.ltb_spec last t); lia.
  - destruct (Z.ltb_spec last t); lia.
  - destruct H3 as [->|H3]; [|right; by right]. destruct (Z.ltb_spec last t); [right; by left|by left].
Qed.

Lemma leader_rounds_sound rounds i :
  (∀ order seen, (order, seen) ∈ rounds →
     order ≡ₚ elements (dom (leaders_of seen)) ∧ ∀ j t, claims seen j t → 0 <= t) →
  leader_rounds rounds = Done i →
  ∃ order seen term, (order, seen) ∈ rounds ∧ claims seen i term ∧
    (∀ j t, claims seen j t → t <= term) ∧
    (∀ j k t, claims seen j t → claims seen k t → j = k).
Proof.
  induction rounds as [|[order seen] rounds IH]; intros Hr Hrun; [done|]. simpl in Hrun.
  apply bind_Done in Hrun as (r & Hround & Hrun). destruct r as [i'|].
  2:{ destruct IH as (o & s & t & Hin & H); [intros; apply Hr; by right|done|]. exists o, s, t. split; [by right|done]. }
  injection Hrun as <-. destruct (Hr order seen ltac:(by left)) as [Hperm Hterms].
  unfold one_leader_round in Hround. apply bind_Done in Hround as (last & Hloop & Hround).
  destruct (one_leader_loop _ _ _ _ Hloop) as (H1 & H2 & H3). case_decide as Hemp; [done|].
  apply bind_Done in Hround as (i0 & Hi & [= <-]). apply slice_get_Done in Hi as [_ Hi].
  apply list_elem_of_lookup_2 in Hi. destruct (leaders_of_spec seen) as (S1 & S2 & S3).
  assert (∀ j t, claims seen j t → t ∈ order) as Hdom.
  { intros j t Hj%S1. rewrite Hperm, elem_of_elements, elem_of_dom.
    destruct (leaders_of seen !! t); [by eexists|]. by apply elem_of_nil in Hj. }
  exists order, seen, last. split; [by left|]. split; [by apply S1|]. split.
  - intros j t Hj. by apply H1, (Hdom j).
  - intros j k t Hj Hk. destruct (H1 t (Hdom j t Hj)) as [Hlen _]. apply S1 in Hj, Hk.
    destruct (default [] (leaders_of seen !! t)) as [|x [|y l]]; simpl in Hlen; [by apply elem_of_nil in Hj| |lia].
    apply list_elem_of_singleton in Hj, Hk. congruence.
Qed.

(** The server that [checkOneLeader] returns was seen to lead in one of the
    rounds, in the newest term that any server led in that round, and no other server was seen
    to lead that term or shared a term with another leader: two leaders of one
    term seen in a round end the test. *)
Theorem checkOneLeader_sound rounds i :
  (∀ order seen, (order, seen) ∈ rounds →
     order ≡ₚ elements (dom (leaders_of seen)) ∧ ∀ j t, claims seen j t → 0 <= t) →
  checkOneLeader rounds = Done i →
  ∃ order seen term, (order, seen) ∈ rounds ∧ claims seen i term ∧
    (∀ j t, claims seen j t → t <= term) ∧
    (∀ j k t, claims seen j t → claims seen k t → j = k).
Proof.
  intros Hr Hrun. assert (∀ x, x ∈ take 10 rounds → x ∈ rounds) as Hsub.
  { intros x Hx. rewrite <- (take_drop 10 rounds). apply elem_of_app. by left. }
  destruct (leader_rounds_sound (take 10 rounds) i) as (order & seen & term & Hin & H); [|exact Hrun|].
  - intros order seen Hin. by apply Hr, Hsub.
  - exists order, seen, term. split; [by apply Hsub|done].
Qed.

(** ** Agreement *)
Definition committed (index : Z) (l : list (option rfsrv)) : nat :=
  length (filter (λ o, is_Some (rs ← o; logs rs !! index)) l).

Lemma nCommitted_loop index l : ∀ c0 cmd0 n cmd,
  0 <= c0 →
  for_each l (λ o '(count, cmd),
    rs ← non_nil o;
    if bool_decide (applyErr rs = ""%string) then
      let '(cmd1, ok) := Logs index rs in
      if (ok : bool) then
        if (0 <? count) && negb (bool_decide (cmd = cmd1)) then Fatal "committed values do not match"
        else Done (count + 1, cmd1)
      else Done (count, cmd)
    else Fatal (applyErr rs)) (c0, cmd0) = Done (n, cmd) →
  n = c0 + Z.of_nat (committed index l) ∧ (∀ i v, has_entry l i index v → v = cmd) ∧
  (0 < c0 → cmd = cmd0).
Proof.
  induction l as [|o l IH]; intros c0 cmd0 n cmd H0 Hrun.
  { injection Hrun as <- <-. split_and!; [unfold committed; simpl; lia|by intros i v (rs & ? & _)|done]. }
  cbn [for_each] in Hrun. apply bind_Done in Hrun as ([c1 cmd1] & Hb & Hrun).
  destruct o as [rs|]; [|done]. cbn [non_nil mbind outcome_bind] in Hb.
  destruct (bool_decide (applyErr rs = ""%string)); [|done].
  unfold committed. rewrite filter_cons. simpl. unfold Logs in Hb.
  destruct (logs rs !! index) as [v|] eqn:Ev; simpl in Hb.
  - rewrite decide_True by by eexists. simpl. fold (committed index l).
    destruct (_ && _) eqn:Ec in Hb; [done|]. injection Hb as <- <-.
    assert (0 <= c0 + 1) as H0' by lia.
    destruct (IH _ _ _ _ H0' Hrun) as (H1 & H2 & H3). rewrite (H3 ltac:(lia)) in *. split_and!; [lia| |].
    + intros [|i] w (rs' & Hi & Hw); [simpl in Hi; congruence|]. apply (H2 i). by exists rs'.
    + intros Hc. rewrite (proj2 (Z.ltb_lt _ _)) in Ec by lia. simpl in Ec.
      apply negb_false_iff, bool_decide_eq_true in Ec. done.
  - rewrite decide_False by (by intros [? ?]). simpl in Hb. injection Hb as <- <-.
    destruct (IH _ _ _ _ H0 Hrun) as (H1 & H2 & H3). fold (committed index l). split_and!; [done| |done].
    intros [|i] w (rs' & Hi & Hw); [simpl in Hi; congruence|]. apply (H2 i). by exists rs'.
Qed.

Lemma nCommitted_eq index l n cmd :
  nCommitted index l = Done (n, cmd) →
  n = Z.of_nat (committed index l) ∧ ∀ i v, has_entry l i index v → v = cmd.
Proof. intros Hrun. destruct (nCommitted_loop index l 0 any_nil n cmd) as (H1 & H2 & _); [lia|exact Hrun|]. by split. Qed.

Lemma await_true cmd expected index l :
  await cmd expected index l = Done true →
  ∃ srvs, srvs ∈ l ∧ expected <= Z.of_nat (committed index srvs) ∧ (0 < committed index srvs)%nat ∧
    ∀ i v, has_entry srvs i index v → v = cmd.
Proof.
  induction l as [|srvs l IH]; simpl; intros Hrun; [done|].
  apply bind_Done in Hrun as ([nd cmd1] & Hn & Hrun). apply nCommitted_eq in Hn as [-> Hv].
  destruct (_ && _) eqn:E.
  - apply andb_true_iff in E as [[E1%Z.ltb_lt E2%Z.leb_le]%andb_true_iff E3%bool_decide_eq_true].
    exists srvs. split; [by left|]. split_and!; [done|lia|]. intros i v Hi. rewrite <- E3. by eapply Hv.
  - destruct (IH Hrun) as (s & Hs & H). exists s. split; [by right|done].
Qed.

(** When [one] returns an index, some server accepted the command for that
    index in some round, and at some look in that round at least the expected number of servers
    had committed an entry there, every one of them the command. *)
Theorem one_sound cmd expected retry finished rounds index :
  one cmd expected retry finished rounds = Done index → index ≠ -1 →
  ∃ r srvs, r ∈ rounds ∧ first_start (answers r) = index ∧ srvs ∈ looks r ∧
    expected <= Z.of_nat (committed index srvs) ∧ (0 < committed index srvs)%nat ∧
    ∀ i v, has_entry srvs i index v → v = cmd.
Proof.
  intros Hrun Hne. induction rounds as [|r rounds IH]; simpl in Hrun.
  { destruct finished; [|done]. injection Hrun as <-. done. }
  destruct (Z.eqb_spec (first_start (answers r)) (-1)) as [|Hs]; simpl in Hrun.
  { destruct (IH Hrun) as (r' & s & Hr & H). exists r', s. split; [by right|done]. }
  apply bind_Done in Hrun as (agreed & Ha & Hrun). destruct agreed.
  - injection Hrun as <-. destruct (await_true _ _ _ _ Ha) as (srvs & Hs1 & H). exists r, srvs.
    split; [by left|]. split; [done|]. by split.
  - destruct retry; [|done]. simpl in Hrun. destruct (IH Hrun) as (r' & s & Hr & H). exists r', s. split; [by right|done].
Qed.

(** ** Witnesses *)
Definition srv0 : rfsrv := mkRfsrv 0 "" 0 None (Some 0%nat) {[ 1 := any_int 5 ]}.
Definition srv1 : rfsrv := mkRfsrv 1 "" 0 None (Some 1%nat) ∅.
Definition demo_test : Test := mkTest [Some srv0; Some srv1] 1 false.
Definition apply_msg (v : any) (k : Z) : ApplyMsg := mkApplyMsg true v k false None 0 0.

Lemma demo_made : all_made (srvs demo_test).
Proof. intros [|[|i]] o H; simpl in H; simplify_eq; eauto. Qed.

Lemma applier_exact_witness :
  (∃ ts', applier 1 (apply_msg (any_int 5) 1) demo_test = Done ts') ∧
  ¬ (∃ ts', applier 1 (apply_msg (any_int 6) 1) demo_test = Done ts').
Proof.
  split.
  - eexists. apply (applier_exact 1 (apply_msg (any_int 5) 1) demo_test srv1 _ demo_made); [done|done|].
    split_and!; [|done|reflexivity].
    intros [|[|j]] w (rs & Hj & Hw); simpl in Hj; [|by injection Hj as <-|done].
    injection Hj as <-. change (Some (any_int 5) = Some w) in Hw. by injection Hw as <-.
  - intros [ts' H]. apply (applier_exact 1 (apply_msg (any_int 6) 1) demo_test srv1 ts' demo_made) in H as (H & _); [|done|done].
    assert (any_int 5 = any_int 6) as E; [|discriminate].
    apply (H 0%nat). exists srv0. split; reflexivity.
Defined.

Definition demo_events : list event :=
  [ev_apply 0 (apply_msg (any_int 5) 1); ev_apply 1 (apply_msg (any_int 5) 1);
   ev_restart 0 3 7; ev_apply 1 (apply_msg (any_string "x") 2); ev_apply 0 (apply_msg (any_int 5) 1)].

Definition no_decode (bs : list byte) : option (Z * list any) := None.

Definition demo_end : Test * Store :=
  result (for_each demo_events (step no_decode)
    (mkTest (replicate 2 (Some (mkRfsrv 0 "" 0 None None ∅))) 0 false, mkStore ∅ ∅)) (demo_test, mkStore ∅ ∅).

Lemma apply_checks_agree_witness : agree (srvs demo_end.1) ∧ maxIndex demo_end.1 = 2.
Proof.
  split; [|vm_compute; reflexivity].
  apply (apply_checks_agree no_decode demo_events 2 (mkStore ∅ ∅) demo_end.1 demo_end.2).
  rewrite <- surjective_pairing. apply result_Done. vm_compute. reflexivity.
Defined.

(** A codec: the bits of a number that stands for the index and the log. *)
Fixpoint bits (p : positive) : list byte :=
  match p with xH => [] | xO p => x00 :: bits p | xI p => x01 :: bits p end.
Fixpoint unbits (bs : list byte) : positive :=
  match bs with [] => xH | x00 :: bs => xO (unbits bs) | _ :: bs => xI (unbits bs) end.
Definition pack (k : Z) (xlog : list any) : list byte := bits (encode (k, xlog)).
Definition unpack (bs : list byte) : option (Z * list any) := decode (unbits bs).

Lemma unpack_pack k xlog : unpack (pack k xlog) = Some (k, xlog).
Proof.
  unfold unpack, pack. assert (∀ p, unbits (bits p) = p) as -> by (intros p; induction p; simpl; by f_equal).
  apply decode_encode.
Qed.

Lemma snapshot_roundtrip_witness :
  ∃ rs', ingestSnap unpack (Some (pack 1 (xlog_upto 1 (logs srv0)))) (-1) srv1 = Done (inr rs') ∧
    lastApplied rs' = 1 ∧ logs rs' !! 1 = Some (any_int 5) ∧ logs rs' !! 0 = Some any_nil.
Proof.
  destruct (snapshot_roundtrip pack unpack unpack_pack 1 (logs srv0) (-1) srv1) as (rs' & H1 & H2 & H3); [lia|by right|].
  exists rs'. split; [exact H1|]. split; [exact H2|]. split; rewrite H3; reflexivity.
Defined.

Lemma Kill_keeps_persisted_witness :
  ∃ rs' st', Kill (mkRfsrv 0 "" 0 (Some 7%nat) (Some 1%nat) ∅) demo_store = Done (rs', st') ∧
    contents 7 st' = Some ([x01; x02], []).
Proof.
  assert (∃ x, Kill (mkRfsrv 0 "" 0 (Some 7%nat) (Some 1%nat) ∅) demo_store = Done x) as [[rs' st'] E]
    by (eexists; vm_compute; reflexivity).
  exists rs', st'. split; [exact E|].
  destruct (Kill_keeps_persisted (mkRfsrv 0 "" 0 (Some 7%nat) (Some 1%nat) ∅) _ _ _ 7 demo_store_valid eq_refl E) as (_ & _ & ->). reflexivity.
Defined.

Definition seen1 : list (option (Z * bool)) := [Some (1, true); None; Some (2, true)].

Lemma checkOneLeader_sound_witness :
  checkOneLeader [([], [Some (1, false); None]); ([2; 1], seen1)] = Done 2 ∧
  ∃ term, claims seen1 2 term ∧ ∀ j t, claims seen1 j t → t <= term.
Proof.
  split; [vm_compute; reflexivity|].
  destruct (checkOneLeader_sound [([], [Some (1, false); None]); ([2; 1], seen1)] 2)
    as (order & seen & term & Hin & Hc & Hmax & _).
  - intros order seen Hin. apply elem_of_cons in Hin as [[= -> ->]|Hin].
    + split; [vm_compute; reflexivity|]. intros j t [_ H].
      destruct (Z.to_nat j) as [|[|n]]; simpl in H; simplify_eq.
    + apply list_elem_of_singleton in Hin as [= -> ->]. split; [vm_compute; reflexivity|]. intros j t [_ H].
      destruct (Z.to_nat j) as [|[|[|n]]]; simpl in H; simplify_eq; lia.
  - vm_compute. reflexivity.
  - apply elem_of_cons in Hin as [[= -> ->]|Hin].
    + destruct Hc as [_ H]. simpl in H. discriminate.
    + apply list_elem_of_singleton in Hin as [= -> ->]. by exists term.
Defined.

Lemma one_sound_witness :
  let r := mkRound [None; Some (1, true)] [[Some srv1; Some srv0]; [Some srv0; Some srv0]] in
  one (any_int 5) 2 false false [mkRound [Some (3, false)] []; r] = Done 1 ∧
  ∃ r srvs, first_start (answers r) = 1 ∧ srvs ∈ looks r ∧ 2 <= Z.of_nat (committed 1 srvs).
Proof.
  intros r. assert (one (any_int 5) 2 false false [mkRound [Some (3, false)] []; r] = Done 1) as E
    by (vm_compute; reflexivity).
  split; [exact E|]. destruct (one_sound _ _ _ _ _ _ E) as (r' & srvs & _ & H1 & H2 & H3 & _); [done|].
  by exists r', srvs.
Defined.

Lemma applierSnap_spec_witness :
  ∃ ts' snap, applierSnap pack no_decode 1 (apply_msg (any_int 5) 1) demo_test = Done (ts', snap) ∧ snap = None.
Proof.
  assert (∃ x, applierSnap pack no_decode 1 (apply_msg (any_int 5) 1) demo_test = Done x) as [[ts' snap] E]
    by (eexists; vm_compute; reflexivity).
  exists ts', snap. split; [exact E|].
  destruct (applierSnap_spec pack no_decode 1 (apply_msg (any_int 5) 1) demo_test srv1 ts' snap demo_made)
    as (_ & _ & _ & -> & _); [reflexivity..|exact E|reflexivity].
Defined.
