(* ===== verification/Annotation.v ===== *)
(** * Annotation: the timeline the tester draws (src/src/tester1/annotation.go)

    The tester annotates a test's history: points, intervals, and for each tag
    at most one continuous annotation, which is on-going until it is replaced
    or ended. [FrameworkInfo] remembers which servers are connected and which
    have crashed, to draw the faults as one continuous annotation. Both are
    global variables of the program: the state [G] below; [finfo] is nil until the
    first [AnnotateTest]. Every operation takes the timestamp [t] that the clock
    shows when it runs. Writing the visualisation to a file is not modelled. *)

From stdpp Require Import pretty.
From S2P Require Import Prelude.

Local Open Scope Z_scope.

(** porcupine.Annotation, as far as the program fills it in; a point has no
    end. *)
Record Ann := mkAnn {
  Tag : string;
  Start : Z;
  End : Z;
  Description : string;
  Details : string;
  BackgroundColor : string
}.

Record Continuous := mkContinuous { start : Z; desp : string; details : string; bgcolor : string }.

Record Annotation := mkAnnotation {
  annotations : list Ann;
  continuous : gmap string Continuous;
  finalized : bool
}.

Record CheckerBegin := mkCheckerBegin { ts : Z; ck_details : string }.

Record FrameworkInfo := mkFrameworkInfo {
  nservers : nat;
  connected : list bool;
  crashed : list bool;
  ckbegin : CheckerBegin
}.

Record G := mkG { annotation : Annotation; finfo : option FrameworkInfo }.

Definition empty_annotation : Annotation := mkAnnotation [] ∅ false.

(** The state when the program starts. *)
Definition boot : G := mkG empty_annotation None.

Definition COLOR_INFO := "#FAFAFA"%string.
Definition COLOR_NEUTRAL := "#FFECB3"%string.
Definition COLOR_SUCCESS := "#C8E6C9"%string.
Definition COLOR_FAILURE := "#FFCDD2"%string.
Definition COLOR_FAULT := "#B3E5FC"%string.
Definition COLOR_USER := "#FFF176"%string.
Definition TAG_CHECKER := "$ Checker"%string.
Definition TAG_PARTITION := "$ Failure"%string.
Definition TAG_INFO := "$ Test Info"%string.

Definition newFrameworkInfo (n : nat) : FrameworkInfo :=
  mkFrameworkInfo n (replicate n true) (replicate n false) (mkCheckerBegin 0 "").

(** ** The methods of Annotation *)
Definition add (a : Ann) (an : Annotation) : Annotation :=
  mkAnnotation (annotations an ++ [a]) (continuous an) (finalized an).

(** The interval that an on-going annotation becomes when it stops at [t]. *)
Definition concretize (tag : string) (c : Continuous) (t : Z) : Ann :=
  mkAnn tag (start c) t (desp c) (details c) (bgcolor c).

(** [finalize]: the map is visited in the given order. *)
Definition finalize (order : list (string * Continuous)) (t : Z) (an : Annotation) : list Ann * Annotation :=
  (foldl (λ x '(tag, c), x ++ [concretize tag c t]) (annotations an) order,
   mkAnnotation (annotations an) (continuous an) true).

Definition clear (an : Annotation) : Annotation := empty_annotation.

Definition annotatePointColor (tag d det color : string) (t : Z) (an : Annotation) : Annotation :=
  add (mkAnn tag t 0 d det color) an.

Definition annotateIntervalColor (tag : string) (start : Z) (d det color : string) (t : Z) (an : Annotation) :
    Annotation :=
  add (mkAnn tag start t d det color) an.

Definition annotateContinuousColor (tag d det color : string) (t : Z) (an : Annotation) : Annotation :=
  match continuous an !! tag with
  | None => mkAnnotation (annotations an) (<[tag := mkContinuous t d det color]> (continuous an)) (finalized an)
  | Some c =>
      mkAnnotation (annotations an ++ [concretize tag c t])
        (<[tag := mkContinuous t d det color]> (continuous an)) (finalized an)
  end.

(** An absent tag reads as the zero [Continuous], and the test for it has an
    empty body. *)
Definition annotateContinuousEnd (tag : string) (t : Z) (an : Annotation) : Annotation :=
  let c := default (mkContinuous 0 "" "" "") (continuous an !! tag) in
  mkAnnotation (annotations an ++ [concretize tag c t]) (delete tag (continuous an)) (finalized an).

(** [cleanup]; [enabled] is the variable VIS_ENABLE. The annotations that are
    drawn are returned. *)
Definition cleanup (enabled : string) (failed : bool) (fin : string) (order : list (string * Continuous)) (t : Z)
    (an : Annotation) : option (list Ann) * Annotation :=
  if bool_decide (enabled = "never"%string) || (negb failed && negb (bool_decide (enabled = "always"%string)))
     || finalized an
  then (None, clear an)
  else
    let '(l, an) := finalize order t an in
    match l with
    | [] => (None, an)
    | _ => (Some (l ++ [mkAnn TAG_INFO t 0 fin fin COLOR_INFO]), an)
    end.

(** ** The public interface *)
Definition on_ann (f : Annotation → Annotation) (g : G) : G := mkG (f (annotation g)) (finfo g).

Definition FinalizeAnnotations (fin : string) (order : list (string * Continuous)) (t : Z) (g : G) : list Ann * G :=
  let '(l, an) := finalize order t (annotation g) in
  (l ++ [mkAnn TAG_INFO t 0 fin fin COLOR_INFO], mkG an (finfo g)).

Definition AnnotatePointColor tag d det color t (g : G) : G := on_ann (annotatePointColor tag d det color t) g.
Definition AnnotateIntervalColor tag start d det color t (g : G) : G :=
  on_ann (annotateIntervalColor tag start d det color t) g.
Definition AnnotateContinuousColor tag d det color t (g : G) : G :=
  on_ann (annotateContinuousColor tag d det color t) g.
Definition AnnotateContinuousEnd tag t (g : G) : G := on_ann (annotateContinuousEnd tag t) g.

Definition Annotate tag d det t (g : G) : G := on_ann (annotatePointColor tag d det COLOR_USER t) g.
Definition AnnotateInterval tag start d det t (g : G) : G :=
  on_ann (annotateIntervalColor tag start d det COLOR_USER t) g.
Definition AnnotateContinuous tag d det t (g : G) : G := on_ann (annotateContinuousColor tag d det COLOR_USER t) g.

Definition AnnotateInfo d det t (g : G) : G := AnnotatePointColor TAG_INFO d det COLOR_INFO t g.
Definition AnnotateInfoInterval start d det t (g : G) : G := AnnotateIntervalColor TAG_INFO start d det COLOR_INFO t g.

Definition AnnotateTest (d : string) (n : nat) (t : Z) (g : G) : G :=
  let det := d +:+ " (" +:+ pretty (Z.of_nat n) +:+ " servers)" in
  AnnotateInfo det det t (mkG (clear (annotation g)) (Some (newFrameworkInfo n))).

(** [finfo.mu.Lock()] with [finfo] nil. *)
Definition with_finfo (g : G) {A} (k : FrameworkInfo → outcome A) : outcome A :=
  match finfo g with Some fi => k fi | None => Panic "nil pointer dereference" end.

Definition set_finfo (fi : FrameworkInfo) (g : G) : G := mkG (annotation g) (Some fi).

Definition AnnotateCheckerBegin (det : string) (t : Z) (g : G) : outcome G :=
  with_finfo g (λ fi,
    Done (set_finfo (mkFrameworkInfo (nservers fi) (connected fi) (crashed fi) (mkCheckerBegin t det)) g)).

(** [ckbegin] is a copy, and it is the copy's timestamp that is reset. *)
Definition AnnotateCheckerEnd (d det color : string) (t : Z) (g : G) : outcome G :=
  with_finfo g (λ fi,
    let ckbegin := ckbegin fi in
    if ts ckbegin =? 0 then Done (AnnotatePointColor TAG_CHECKER d det color t g)
    else Done (AnnotateIntervalColor TAG_CHECKER (ts ckbegin) d (ck_details ckbegin +:+ ": " +:+ det) color t g)).

Definition AnnotateCheckerSuccess d det t g := AnnotateCheckerEnd d det COLOR_SUCCESS t g.
Definition AnnotateCheckerFailure d det t g := AnnotateCheckerEnd d det COLOR_FAILURE t g.
Definition AnnotateCheckerNeutral d det t g := AnnotateCheckerEnd d det COLOR_NEUTRAL t g.

Definition SetAnnotationFinalized (g : G) : G :=
  on_ann (λ an, mkAnnotation (annotations an) (continuous an) true) g.
Definition GetAnnotationFinalized (g : G) : bool := finalized (annotation g).

Definition AnnotateCheckerFailureBeforeExit enabled d det order t (g : G) : outcome (option (list Ann) * G) :=
  g ← AnnotateCheckerFailure d det t g;
  let '(out, an) := cleanup enabled true "test failed" order t (annotation g) in
  Done (out, mkG an (finfo g)).

(** ** Faults *)

(** ["%v"] of a slice of ints. *)
Fixpoint spaced (l : list Z) : string :=
  match l with
  | [] => ""
  | [i] => pretty i
  | i :: l => pretty i +:+ " " +:+ spaced l
  end.
Definition show_ints (l : list Z) : string := "[" +:+ spaced l +:+ "]".

(** The loop of [annotateFault]: text, connected servers, crashed servers. *)
Definition fault_loop (crashed : list bool) :
    list (nat * bool) → string * list Z * list Z → outcome (string * list Z * list Z) :=
  λ l, for_each l (λ '(id, connected) '(text, conn, crashes),
    c ← slice_get crashed (Z.of_nat id);
    Done (if (c : bool) then (text, conn, crashes ++ [Z.of_nat id])
          else if (connected : bool) then (text, conn ++ [Z.of_nat id], crashes)
          else (text +:+ "[" +:+ pretty (Z.of_nat id) +:+ "] ", conn, crashes))).

Definition fault_text (fi : FrameworkInfo) : outcome string :=
  '(text, conn, crashes) ← fault_loop (crashed fi) (imap pair (connected fi)) ("partition = "%string, [], []);
  let text := if bool_decide (conn = []) then text else text +:+ show_ints conn in
  Done (if bool_decide (crashes = []) then text else text +:+ " / crash = " +:+ show_ints crashes).

Definition no_fault (fi : FrameworkInfo) : bool :=
  bool_decide (replicate (nservers fi) true = connected fi) &&
  bool_decide (replicate (nservers fi) false = crashed fi).

Definition annotateFault (fi : FrameworkInfo) (t : Z) (g : G) : outcome G :=
  if no_fault fi then Done (AnnotateContinuousEnd TAG_PARTITION t g)
  else
    text ← fault_text fi;
    Done (AnnotateContinuousColor TAG_PARTITION text text COLOR_FAULT t g).

(** Go's [copy(dst, src)]. *)
Definition copy {A} (dst src : list A) : list A := take (length dst) src ++ drop (length src) dst.

Definition AnnotateConnection (connection : list bool) (t : Z) (g : G) : outcome G :=
  with_finfo g (λ fi,
    if bool_decide (connected fi = connection) then Done g
    else
      let fi := mkFrameworkInfo (nservers fi) (copy (connected fi) connection) (crashed fi) (ckbegin fi) in
      annotateFault fi t (set_finfo fi g)).

Definition AnnotateTwoPartitions (p1 p2 : list Z) (t : Z) (g : G) : G :=
  let text := "partition = " +:+ show_ints p1 +:+ " " +:+ show_ints p2 in
  AnnotateContinuousColor TAG_PARTITION text text COLOR_FAULT t g.

Definition AnnotateClearFailure (t : Z) (g : G) : outcome G :=
  with_finfo g (λ fi,
    let fi := mkFrameworkInfo (nservers fi) ((λ _, true) <$> connected fi) ((λ _, false) <$> crashed fi) (ckbegin fi) in
    Done (AnnotateContinuousEnd TAG_PARTITION t (set_finfo fi g))).

(** The loop of [AnnotateShutdown] ([b] true) and of [AnnotateRestart] ([b]
    false) over the servers: [crashed], and whether it has changed. *)
Definition mark_crashed (b : bool) (servers : list Z) : list bool * bool → outcome (list bool * bool) :=
  for_each servers (λ id '(crashed, changed),
    c ← slice_get crashed id;
    crashed' ← slice_set crashed id b;
    Done (crashed', changed || negb (bool_decide (c = b)))).

Definition AnnotateCrash (b : bool) (servers : list Z) (t : Z) (g : G) : outcome G :=
  with_finfo g (λ fi,
    '(crashed, changed) ← mark_crashed b servers (crashed fi, false);
    let fi := mkFrameworkInfo (nservers fi) (connected fi) crashed (ckbegin fi) in
    if (changed : bool) then annotateFault fi t (set_finfo fi g) else Done (set_finfo fi g)).

Definition AnnotateShutdown := AnnotateCrash true.
Definition AnnotateRestart := AnnotateCrash false.

Definition all_servers (fi : FrameworkInfo) : list Z := Z.of_nat <$> seq 0 (nservers fi).
Definition AnnotateShutdownAll (t : Z) (g : G) : outcome G :=
  with_finfo g (λ fi, AnnotateShutdown (all_servers fi) t g).
Definition AnnotateRestartAll (t : Z) (g : G) : outcome G :=
  with_finfo g (λ fi, AnnotateRestart (all_servers fi) t g).
