(* ===== verification/AnnotationProps.v ===== *)
(** * AnnotationProps: the timeline shows the faults that there are *)

From stdpp Require Import pretty.
From S2P Require Import Prelude Annotation.

Local Open Scope Z_scope.

(** ** Continuous annotations *)

Lemma color_new tag d det color t an :
  continuous an !! tag = None →
  annotateContinuousColor tag d det color t an =
  mkAnnotation (annotations an) (<[tag := mkContinuous t d det color]> (continuous an)) (finalized an).
Proof. intros H. unfold annotateContinuousColor. by rewrite H. Qed.

Lemma color_ongoing tag c d det color t an :
  continuous an !! tag = Some c →
  annotateContinuousColor tag d det color t an =
  mkAnnotation (annotations an ++ [concretize tag c t]) (<[tag := mkContinuous t d det color]> (continuous an)) (finalized an).
Proof. intros H. unfold annotateContinuousColor. by rewrite H. Qed.

(** The continuous annotations of one tag follow each other without gap or
    overlap: each becomes an interval that ends when the next one starts, and
    the latest is on-going. *)
Theorem continuous_chain tag e events an :
  continuous an !! tag = None →
  let an' := foldl (λ an '(t, d, det, color), annotateContinuousColor tag d det color t an) an (e :: events) in
  annotations an' = annotations an ++
    zip_with (λ '(t, d, det, color) '(t', _, _, _), mkAnn tag t t' d det color) (e :: events) events ∧
  continuous an' !! tag =
    (λ '(t, d, det, color), mkContinuous t d det color) <$> last (e :: events).
Proof.
  intros Hno. cbn zeta.
  assert (∀ events t d det color an, continuous an !! tag = Some (mkContinuous t d det color) →
    let an' := foldl (λ an '(t, d, det, color), annotateContinuousColor tag d det color t an) an events in
    annotations an' = annotations an ++ zip_with (λ '(t, d, det, color) '(t', _, _, _), mkAnn tag t t' d det color)
      ((t, d, det, color) :: events) events ∧
    continuous an' !! tag = (λ '(t, d, det, color), mkContinuous t d det color) <$> last ((t, d, det, color) :: events)) as H.
  { clear. induction events as [|[[[t' d'] det'] c'] events IH]; intros t d det color an Hon.
    { simpl. by rewrite app_nil_r. }
    cbn [foldl]. rewrite (color_ongoing _ _ _ _ _ _ _ Hon). cbn zeta in IH.
    edestruct (IH t' d' det' c') as [-> ->]; [cbn [continuous]; apply lookup_insert_eq|].
    cbn [annotations]. rewrite <- (assoc_L (++)). by destruct events. }
  destruct e as [[[t d] det] color]. cbn [foldl]. rewrite (color_new _ _ _ _ _ _ Hno).
  edestruct (H events t d det color) as [-> ->]; [cbn [continuous]; apply lookup_insert_eq|]. done.
Qed.

(** ** The faults of a test

    What the calls say, without the annotations: who is connected, who is down, and what
    the timeline should show. *)
Record Faults := mkFaults { links : list bool; dead : gset Z; shows : option string }.

Definition servers_of (s : Faults) : list (nat * bool) := imap pair (links s).

(** The running servers that are alone, those that are connected, and those that are down. *)
Definition alone (s : Faults) : list Z :=
  (λ x, Z.of_nat x.1) <$> filter (λ x, x.2 = false ∧ Z.of_nat x.1 ∉ dead s) (servers_of s).
Definition together (s : Faults) : list Z :=
  (λ x, Z.of_nat x.1) <$> filter (λ x, x.2 = true ∧ Z.of_nat x.1 ∉ dead s) (servers_of s).
Definition down (s : Faults) : list Z :=
  (λ x, Z.of_nat x.1) <$> filter (λ x, Z.of_nat x.1 ∈ dead s) (servers_of s).

(** Each server that is alone in a group of its own, then the group of the others, and the
    servers that are down. *)
Definition describe (s : Faults) : string :=
  "partition = " +:+ foldr (λ i t, "[" +:+ pretty i +:+ "] " +:+ t) "" (alone s) +:+
  (if decide (together s = []) then "" else show_ints (together s)) +:+
  (if decide (down s = []) then "" else " / crash = " +:+ show_ints (down s)).

Definition faulty (s : Faults) : Prop := false ∈ links s ∨ dead s ≠ ∅.

#[local] Instance faulty_dec s : Decision (faulty s).
Proof. unfold faulty. apply _. Defined.

(** What should be shown of the servers. *)
Definition expected (s : Faults) : option string := if decide (faulty s) then Some (describe s) else None.

(** A change is shown, and nothing is done when there is none. *)
Definition change (l : list bool) (d : gset Z) (s : Faults) : Faults :=
  if decide (l = links s ∧ d = dead s) then s else mkFaults l d (expected (mkFaults l d None)).

(** What a test does to the timeline. *)
Inductive fault_op :=
| f_connection (l : list bool)
| f_two (p1 p2 : list Z)
| f_shutdown (servers : list Z)
| f_restart (servers : list Z)
| f_clear
| f_info (d det : string)
| f_check_begin (det : string)
| f_check_end (d det color : string).

Definition fault_step (o : fault_op) (t : Z) (g : G) : outcome G :=
  match o with
  | f_connection l => AnnotateConnection l t g
  | f_two p1 p2 => Done (AnnotateTwoPartitions p1 p2 t g)
  | f_shutdown s => AnnotateShutdown s t g
  | f_restart s => AnnotateRestart s t g
  | f_clear => AnnotateClearFailure t g
  | f_info d det => Done (AnnotateInfo d det t g)
  | f_check_begin det => AnnotateCheckerBegin det t g
  | f_check_end d det color => AnnotateCheckerEnd d det color t g
  end.

Definition spec_step (o : fault_op) (s : Faults) : Faults :=
  match o with
  | f_connection l => change l (dead s) s
  | f_two p1 p2 => mkFaults (links s) (dead s) (Some ("partition = " +:+ show_ints p1 +:+ " " +:+ show_ints p2))
  | f_shutdown servers => change (links s) (dead s ∪ list_to_set servers) s
  | f_restart servers => change (links s) (dead s ∖ list_to_set servers) s
  | f_clear => mkFaults (replicate (length (links s)) true) ∅ None
  | _ => s
  end.

(** The operations speak of the servers of the test. *)
Definition regular (n : nat) (o : fault_op) : Prop :=
  match o with
  | f_connection l => length l = n
  | f_shutdown servers | f_restart servers => ∀ id, id ∈ servers → 0 <= id < Z.of_nat n
  | _ => True
  end.

(** ** The text *)
Definition flags (n : nat) (d : gset Z) : list bool := (λ i, bool_decide (Z.of_nat i ∈ d)) <$> seq 0 n.

Lemma flags_lookup n d i : (i < n)%nat → flags n d !! i = Some (bool_decide (Z.of_nat i ∈ d)).
Proof. intros Hi. unfold flags. by rewrite list_lookup_fmap, lookup_seq_lt. Qed.

Lemma append_assoc (s t u : string) : (s +:+ t) +:+ u = s +:+ (t +:+ u).
Proof. induction s as [|c s IH]; [done|]. exact (f_equal (String.String c) IH). Qed.
Lemma append_empty (s : string) : s +:+ "" = s.
Proof. induction s as [|c s IH]; [done|]. exact (f_equal (String.String c) IH). Qed.

Lemma fault_loop_spec n d l : (∀ x, x ∈ l → (x.1 < n)%nat) → ∀ text conn crashes,
  fault_loop (flags n d) l (text, conn, crashes) =
  Done (text +:+ foldr (λ i t, "[" +:+ pretty i +:+ "] " +:+ t) ""
          ((λ x, Z.of_nat x.1) <$> filter (λ x, x.2 = false ∧ Z.of_nat x.1 ∉ d) l),
        conn ++ ((λ x, Z.of_nat x.1) <$> filter (λ x, x.2 = true ∧ Z.of_nat x.1 ∉ d) l),
        crashes ++ ((λ x, Z.of_nat x.1) <$> filter (λ x, Z.of_nat x.1 ∈ d) l)).
Proof.
  unfold fault_loop. induction l as [|[id c] l IH]; intros Hl text conn crashes.
  { simpl. by rewrite append_empty, !app_nil_r. }
  assert (∀ x, x ∈ l → (x.1 < n)%nat) as Hl' by (intros x ?; apply Hl; by right).
  assert (id < n)%nat as Hid by (apply (Hl (id, c)); by left).
  cbn [for_each]. rewrite (slice_get_Some _ _ _ (flags_lookup n d id Hid)). cbn [mbind outcome_bind].
  rewrite !filter_cons. cbn [fst snd].
  destruct (decide (Z.of_nat id ∈ d)) as [Hd|Hd].
  - rewrite bool_decide_eq_true_2 by done. rewrite IH by done. rewrite !decide_False by tauto. csimpl.
    by rewrite <- (assoc_L (++) crashes).
  - rewrite bool_decide_eq_false_2 by done. destruct c.
    + rewrite IH by done. rewrite (decide_False (P := true = false ∧ _)), (decide_True (P := true = true ∧ _)) by naive_solver. csimpl. by rewrite <- (assoc_L (++) conn).
    + rewrite IH by done. rewrite (decide_False (P := false = true ∧ _)), (decide_True (P := false = false ∧ _)) by naive_solver. csimpl. by rewrite !append_assoc.
Qed.

(** A [FrameworkInfo] that says the same. *)
Definition same (n : nat) (s : Faults) (fi : FrameworkInfo) : Prop :=
  nservers fi = n ∧ connected fi = links s ∧ crashed fi = flags n (dead s) ∧ length (links s) = n ∧
  ∀ id, id ∈ dead s → 0 <= id < Z.of_nat n.

Lemma fault_text_spec n s fi : same n s fi → fault_text fi = Done (describe s).
Proof.
  intros (_ & Hl & Hc & Hn & _). unfold fault_text. rewrite Hl, Hc, fault_loop_spec.
  - cbn [mbind outcome_bind app]. unfold describe, alone, together, down, servers_of.
    repeat case_bool_decide; repeat case_decide; try done; rewrite ?append_assoc, ?append_empty; done.
  - intros x [i Hi]%list_elem_of_lookup. rewrite list_lookup_imap in Hi.
    destruct (links s !! i) eqn:E; [|done]. injection Hi as <-. rewrite <- Hn. by eapply lookup_lt_Some.
Qed.

Lemma no_fault_spec n s fi : same n s fi → no_fault fi = negb (bool_decide (faulty s)).
Proof.
  intros (Hns & Hl & Hc & Hn & Hd). unfold no_fault. rewrite Hns, Hl, Hc.
  assert (replicate n true = links s ↔ false ∉ links s) as H1.
  { split; [intros <- [? _]%elem_of_replicate; done|]. intros Hno. apply replicate_as_elem_of. split; [done|].
    intros [] Hb; done. }
  assert (replicate n false = flags n (dead s) ↔ dead s = ∅) as H2.
  { split.
    - intros E. apply set_eq. intros id. split; [|set_solver]. intros Hid. pose proof (Hd id Hid) as Hr. exfalso.
      assert (flags n (dead s) !! Z.to_nat id = Some true) as Ht.
      { rewrite flags_lookup by lia. rewrite Z2Nat.id by lia. by rewrite bool_decide_eq_true_2. }
      rewrite <- E in Ht. by apply lookup_replicate_1 in Ht as [? _].
    - intros ->. apply replicate_as_elem_of. split; [unfold flags; by rewrite length_fmap, length_seq|].
      intros b (i & -> & _)%list_elem_of_fmap. by apply bool_decide_eq_false_2. }
  unfold faulty. apply eq_bool_prop_intro. rewrite andb_True, negb_True, !bool_decide_spec, H1, H2. 
  destruct (decide (dead s = ∅)); tauto.
Qed.

(** ** The loops over servers *)
Definition marked (b : bool) (servers : list Z) (d : gset Z) : gset Z :=
  if b then d ∪ list_to_set servers else d ∖ list_to_set servers.

Lemma flags_set n d id b : 0 <= id < Z.of_nat n → slice_set (flags n d) id b = Done (flags n (marked b [id] d)).
Proof.
  intros Hid. assert (length (flags n d) = n) as Hlen by (unfold flags; by rewrite length_fmap, length_seq).
  unfold slice_set, in_range. rewrite Hlen, (proj2 (Z.leb_le _ _)), (proj2 (Z.ltb_lt _ _)) by lia. cbn [andb]. f_equal.
  apply list_eq_same_length with n; [unfold flags; by rewrite length_fmap, length_seq|by rewrite length_insert|].
  intros i x y Hi. rewrite flags_lookup by done. intros Hx [= <-].
  apply list_lookup_insert_Some in Hx as [(<- & <- & _)|[Hne Hx]].
  - rewrite Z2Nat.id by lia. destruct b; simpl; [by rewrite bool_decide_eq_true_2 by set_solver|by rewrite bool_decide_eq_false_2 by set_solver].
  - rewrite flags_lookup in Hx by done. injection Hx as <-. apply bool_decide_ext.
    assert (Z.of_nat i ≠ id) by lia. unfold marked. destruct b; set_solver.
Qed.

Lemma mark_crashed_spec b n servers : (∀ id, id ∈ servers → 0 <= id < Z.of_nat n) → ∀ d changed,
  mark_crashed b servers (flags n d, changed) =
  Done (flags n (marked b servers d), changed || negb (bool_decide (marked b servers d = d))).
Proof.
  unfold mark_crashed. induction servers as [|id servers IH]; intros Hs d changed.
  { cbn [for_each]. assert (marked b [] d = d) as -> by (unfold marked; destruct b; set_solver).
    by rewrite bool_decide_eq_true_2, orb_false_r. }
  assert (0 <= id < Z.of_nat n) as Hid by (apply Hs; by left). cbn [for_each].
  rewrite <- (Z2Nat.id id) at 1 by lia. rewrite (slice_get_Some _ _ _ (flags_lookup n d (Z.to_nat id) ltac:(lia))).
  cbn [mbind outcome_bind]. rewrite (flags_set n d id b Hid). cbn [mbind outcome_bind].
  rewrite IH by (intros x ?; apply Hs; by right). rewrite Z2Nat.id by lia.
  assert (marked b servers (marked b [id] d) = marked b (id :: servers) d) as -> by (unfold marked; destruct b; set_solver).
  do 2 f_equal. rewrite <- orb_assoc. f_equal.
  destruct (decide (bool_decide (id ∈ d) = b)) as [E|E].
  - rewrite (bool_decide_eq_true_2 (_ = b)) by done. assert (marked b [id] d = d) as ->; [|done]. subst b. unfold marked.
    case_bool_decide; set_solver.
  - rewrite (bool_decide_eq_false_2 (_ = b)) by done. rewrite (bool_decide_eq_false_2 (marked b (id :: servers) d = d)); [done|].
    unfold marked. destruct b; case_bool_decide; try done; set_solver.
Qed.

(** ** The timeline shows what it should *)
Section Shown.
Context (n : nat) (cleared : Prop).

Definition ongoing (now : Z) (g : G) (text : string) : Prop :=
  ∃ c, continuous (annotation g) !! TAG_PARTITION = Some c ∧ desp c = text ∧ details c = text ∧
    bgcolor c = COLOR_FAULT ∧ 0 < start c <= now.

(** A fault interval that is drawn is in order, or is the empty one of a clear. *)
Definition intervals_ok (g : G) : Prop :=
  ∀ a, a ∈ annotations (annotation g) → Tag a = TAG_PARTITION →
    0 < Start a <= End a ∨ cleared ∧ Start a = 0 ∧ Description a = ""%string.

Definition agrees (now : Z) (s : Faults) (g : G) : Prop :=
  (∃ fi, finfo g = Some fi ∧ same n s fi) ∧
  match shows s with
  | None => continuous (annotation g) !! TAG_PARTITION = None ∧ ¬ faulty s
  | Some text => ongoing now g text
  end ∧ intervals_ok g.

Lemma ongoing_later now now' g text : now <= now' → ongoing now g text → ongoing now' g text.
Proof. intros Hle (c & H1 & H2 & H3 & H4 & H5). exists c. split_and!; try done; lia. Qed.

Lemma agrees_later now now' s g : now <= now' → agrees now s g → agrees now' s g.
Proof.
  intros Hle (H1 & H2 & H3). split_and!; [done| |done]. destruct (shows s); [|done]. by eapply ongoing_later.
Qed.

Lemma not_faulty s : length (links s) = n → ¬ faulty s → links s = replicate n true ∧ dead s = ∅.
Proof.
  intros Hn Hf. unfold faulty in Hf. split; [|destruct (decide (dead s = ∅)); tauto].
  symmetry. apply replicate_as_elem_of. split; [done|]. intros [] Hb; [done|tauto].
Qed.

(** The fault annotation goes on with another text. *)
Lemma color_agrees now t text g : intervals_ok g → now <= t → 0 < t →
  (continuous (annotation g) !! TAG_PARTITION = None ∨ ∃ old, ongoing now g old) →
  let g' := AnnotateContinuousColor TAG_PARTITION text text COLOR_FAULT t g in
  ongoing t g' text ∧ intervals_ok g' ∧ finfo g' = finfo g.
Proof.
  intros Hint Hle Ht Hon. unfold AnnotateContinuousColor, on_ann. cbv zeta.
  destruct Hon as [Hno|(old & c & Hc & _ & _ & _ & Hs)];
    [rewrite (color_new _ _ _ _ _ _ Hno)|rewrite (color_ongoing _ _ _ _ _ _ _ Hc)]; split_and!; try done.
  - eexists. simpl. rewrite lookup_insert_eq. split_and!; try done; simpl; lia.
  - eexists. simpl. rewrite lookup_insert_eq. split_and!; try done; simpl; lia.
  - intros a. simpl. intros [Ha|Ha%list_elem_of_singleton]%elem_of_app Htag; [by apply Hint|]. subst a. left. simpl. lia.
Qed.

(** The fault annotation ends. *)
Lemma end_agrees now t g : intervals_ok g → now <= t →
  (cleared ∧ continuous (annotation g) !! TAG_PARTITION = None ∨ ∃ old, ongoing now g old) →
  let g' := AnnotateContinuousEnd TAG_PARTITION t g in
  continuous (annotation g') !! TAG_PARTITION = None ∧ intervals_ok g' ∧ finfo g' = finfo g.
Proof.
  intros Hint Hle Hon. cbv zeta. split_and!; [simpl; by rewrite lookup_delete_eq| |done].
  intros a. simpl. unfold annotateContinuousEnd. simpl.
  intros [Ha|Ha%list_elem_of_singleton]%elem_of_app Htag; [by apply Hint|]. subst a.
  destruct Hon as [[Hcl Hno]|(old & c & Hc & _ & _ & _ & Hs)]; [rewrite Hno; by right|]. rewrite Hc. left. simpl. lia.
Qed.

Lemma annotateFault_agrees now t s s' fi g :
  agrees now s g → same n s' fi → (links s', dead s') ≠ (links s, dead s) → now <= t → 0 < t →
  ∃ g', annotateFault fi t (set_finfo fi g) = Done g' ∧ agrees t (mkFaults (links s') (dead s') (expected s')) g'.
Proof.
  intros ((fi0 & _ & Hsame0) & Hshow & Hint) Hsame Hne Hle Ht. unfold annotateFault.
  rewrite (no_fault_spec n s' fi Hsame). unfold expected.
  assert (same n (mkFaults (links s') (dead s') (expected s')) fi) as Hsame' by done.
  assert ((∃ old, ongoing now (set_finfo fi g) old) ∨
    continuous (annotation (set_finfo fi g)) !! TAG_PARTITION = None ∧ faulty s') as Hon.
  { destruct (shows s) as [old|]; [left; by exists old|right]. destruct Hshow as [Hno Hf]. split; [done|].
    destruct Hsame0 as (_ & _ & _ & Hn0 & _), Hsame as (_ & _ & _ & Hn & _).
    destruct (decide (faulty s')) as [|Hf']; [done|]. exfalso.
    destruct (not_faulty s Hn0 Hf) as [E1 E2], (not_faulty s' Hn Hf') as [E3 E4]. apply Hne. by rewrite E1, E2, E3, E4. }
  destruct (decide (faulty s')) as [Hf|Hf].
  - rewrite bool_decide_eq_true_2 by done. cbn [negb]. rewrite (fault_text_spec n s' fi Hsame). cbn [mbind outcome_bind].
    eexists. split; [done|]. destruct (color_agrees now t (describe s') (set_finfo fi g)) as (H1 & H2 & H3); [done..|by destruct Hon as [|[? _]]; [right|left]|].
    split_and!; [by exists fi|done|done].
  - rewrite bool_decide_eq_false_2 by done. cbn [negb]. eexists. split; [done|].
    destruct (end_agrees now t (set_finfo fi g)) as (H1 & H2 & H3); [done..|by destruct Hon as [|[_ ?]]; [right|]|].
    split_and!; [by exists fi| |done]. split; [done|]. exact Hf.
Qed.

Lemma add_agrees now s g a : Tag a ≠ TAG_PARTITION → agrees now s g → agrees now s (on_ann (add a) g).
Proof.
  intros Hne (H1 & H2 & H3). split_and!; [done|done|].
  intros x. simpl. intros [Hx|Hx%list_elem_of_singleton]%elem_of_app Htag; [by apply H3|by subst x].
Qed.

Lemma change_agrees now t l d s fi g :
  agrees now s g → finfo g = Some fi → same n (mkFaults l d None) fi → now <= t → 0 < t → (l, d) ≠ (links s, dead s) →
  ∃ g', annotateFault fi t g = Done g' ∧ agrees t (change l d s) g'.
Proof.
  intros Hag Hfi Hsame Hle Ht Hne. unfold change. rewrite decide_False by (intros [-> ->]; done).
  assert (set_finfo fi g = g) as Eg by (destruct g; simpl in Hfi; by subst).
  destruct (annotateFault_agrees now t s (mkFaults l d None) fi g) as (g' & H1 & H2); try done. rewrite Eg in H1. by exists g'.
Qed.

Lemma set_finfo_agrees now s fi g : agrees now s g → same n s fi → agrees now s (set_finfo fi g).
Proof. intros (_ & H2 & H3) Hs. split_and!; [by exists fi|exact H2|exact H3]. Qed.

Lemma crashes_agree b servers now t s g : (∀ id, id ∈ servers → 0 <= id < Z.of_nat n) → agrees now s g → now <= t → 0 < t →
  ∃ g', AnnotateCrash b servers t g = Done g' ∧ agrees t (change (links s) (marked b servers (dead s)) s) g'.
Proof.
  intros Hs Hag Hle Ht. pose proof Hag as ((fi & Hfi & Hns & Hl & Hc & Hn & Hd) & _).
  unfold AnnotateCrash, with_finfo. rewrite Hfi, Hc, (mark_crashed_spec b n servers Hs). cbn [mbind outcome_bind orb].
  set (fi' := mkFrameworkInfo _ _ _ _).
  assert (same n (mkFaults (links s) (marked b servers (dead s)) None) fi') as Hsame.
  { split_and!; try done. intros id. simpl. unfold marked. destruct b; [|set_solver].
    intros [Hid|Hid%elem_of_list_to_set]%elem_of_union; [by apply Hd|by apply Hs]. }
  case_bool_decide as E; cbn [negb].
  - eexists. split; [done|]. unfold change. rewrite decide_True by done. rewrite E in Hsame.
    apply (agrees_later now); [done|]. by apply set_finfo_agrees.
  - destruct (annotateFault_agrees now t s (mkFaults (links s) (marked b servers (dead s)) None) fi' g) as (g' & H1 & H2); try done.
    { simpl. congruence. }
    exists g'. split; [done|]. unfold change. by rewrite decide_False by naive_solver.
Qed.

Lemma fault_step_agrees now t o s g :
  regular n o → (o = f_clear → cleared) → agrees now s g → now <= t → 0 < t →
  ∃ g', fault_step o t g = Done g' ∧ agrees t (spec_step o s) g'.
Proof.
  intros Hreg Hcl Hag Hle Ht. pose proof Hag as ((fi & Hfi & Hsame) & Hshow & Hint).
  pose proof Hsame as (Hns & Hl & Hc & Hn & Hd).
  destruct o as [l|p1 p2|servers|servers| |d det|det|d det color]; cbn [fault_step spec_step].
  - simpl in Hreg. unfold AnnotateConnection, with_finfo. rewrite Hfi, Hl. case_bool_decide as E.
    + exists g. split; [done|]. unfold change. rewrite decide_True by done. by eapply agrees_later.
    + assert (copy (links s) l = l) as Hcopy.
      { unfold copy. rewrite Hn, <- Hreg, firstn_all, drop_ge by lia. apply app_nil_r. }
      rewrite Hcopy. set (fi' := mkFrameworkInfo _ _ _ _).
      destruct (annotateFault_agrees now t s (mkFaults l (dead s) None) fi' g) as (g' & H1 & H2); try done.
      { simpl. congruence. }
      exists g'. split; [done|]. unfold change. by rewrite decide_False by naive_solver.
  - eexists. split; [done|]. unfold AnnotateTwoPartitions.
    destruct (color_agrees now t ("partition = " +:+ show_ints p1 +:+ " " +:+ show_ints p2) g) as (H1 & H2 & H3); [done..| |].
    { destruct (shows s) as [old|]; [right; by exists old|left; apply Hshow]. }
    split_and!; [|exact H1|exact H2]. exists fi. by rewrite H3.
  - by apply (crashes_agree true servers now t s g).
  - by apply (crashes_agree false servers now t s g).
  - unfold AnnotateClearFailure, with_finfo. rewrite Hfi. eexists. split; [done|]. set (fi' := mkFrameworkInfo _ _ _ _).
    destruct (end_agrees now t (set_finfo fi' g)) as (H1 & H2 & H3); [done|done| |].
    { destruct (shows s) as [old|]; [right; by exists old|left; split; [by apply Hcl|apply Hshow]]. }
    assert (¬ faulty (mkFaults (replicate (length (links s)) true) ∅ None)) as Hnf.
    { intros [Hf|Hf]; [|done]. simpl in Hf. by apply elem_of_replicate in Hf as [? _]. }
    split_and!; [|done|exact H2]. exists fi'. split; [done|]. split_and!; simpl; [done| | |by rewrite length_replicate|set_solver].
    + rewrite Hl. apply list_eq_same_length with n; [by rewrite length_replicate|by rewrite length_fmap|].
      intros i x y _. rewrite list_lookup_fmap. intros Hx [-> _]%lookup_replicate. by destruct (links s !! i); simplify_eq/=.
    + rewrite Hc. apply list_eq_same_length with n; [unfold flags; by rewrite length_fmap, length_seq|unfold flags; by rewrite !length_fmap, length_seq|].
      intros i x y Hi. rewrite list_lookup_fmap, !flags_lookup by done. intros Hx Hy. simplify_eq/=.
      symmetry. by apply bool_decide_eq_false_2.
  - eexists. split; [done|]. apply add_agrees; [done|]. by eapply agrees_later.
  - unfold AnnotateCheckerBegin, with_finfo. rewrite Hfi. eexists. split; [done|].
    apply (agrees_later now); [done|]. by apply set_finfo_agrees.
  - unfold AnnotateCheckerEnd, with_finfo. rewrite Hfi.
    destruct (_ =? _); eexists; (split; [done|]); (apply add_agrees; [done|]; by eapply agrees_later).
Qed.

(** The operations happen one after another, at times the clock shows. *)
Fixpoint fault_run (ops : list (Z * fault_op)) (g : G) : outcome G :=
  match ops with
  | [] => Done g
  | (t, o) :: ops => g ← fault_step o t g; fault_run ops g
  end.

Fixpoint clock (now : Z) (ops : list (Z * fault_op)) : Prop :=
  match ops with [] => True | (t, _) :: ops => now <= t ∧ clock t ops end.

Definition spec_run (ops : list (Z * fault_op)) (s : Faults) : Faults := foldl (λ s o, spec_step o.2 s) s ops.

(** At the start of a test everybody is there. *)
Definition no_faults : Faults := mkFaults (replicate n true) ∅ None.

Lemma fault_run_agrees ops : ∀ now s g,
  Forall (λ x, regular n x.2 ∧ (x.2 = f_clear → cleared)) ops → 0 < now → agrees now s g → clock now ops →
  ∃ g' now', fault_run ops g = Done g' ∧ agrees now' (spec_run ops s) g'.
Proof.
  induction ops as [|[t o] ops IH]; intros now s g Hreg Hnow Hag Hclock; [by exists g, now|].
  apply Forall_cons in Hreg as [[Ho Hc] Hreg]. destruct Hclock as [Hle Hclock].
  destruct (fault_step_agrees now t o s g Ho Hc Hag Hle ltac:(lia)) as (g1 & Hstep & Hag1).
  destruct (IH t (spec_step o s) g1 Hreg ltac:(lia) Hag1 Hclock) as (g' & now' & Hrun & Hag').
  exists g', now'. split; [|done]. cbn [fault_run]. rewrite Hstep. exact Hrun.
Qed.

Lemma AnnotateTest_agrees d t g : 0 < t → agrees t no_faults (AnnotateTest d n t g).
Proof.
  intros Ht. split_and!.
  - exists (newFrameworkInfo n). split; [done|]. split_and!; simpl; [done|done| |by rewrite length_replicate|set_solver].
    apply list_eq_same_length with n; [unfold flags; by rewrite length_fmap, length_seq|by rewrite length_replicate|].
    intros i x y Hi. rewrite flags_lookup by done. intros [-> _]%lookup_replicate [= <-]. symmetry. by apply bool_decide_eq_false_2.
  - split; [done|]. intros [Hf|Hf]; [|done]. simpl in Hf. by apply elem_of_replicate in Hf as [? _].
  - intros a. simpl. intros ->%list_elem_of_singleton. done.
Qed.

Lemma spec_exact ops : (∀ t p1 p2, (t, f_two p1 p2) ∉ ops) → ∀ s, shows s = expected s →
  shows (spec_run ops s) = expected (spec_run ops s).
Proof.
  induction ops as [|[t o] ops IH]; intros Hno s Hs; [done|]. apply IH; [intros ??? H; eapply Hno; by right|]. clear IH.
  assert (∀ l d, shows (change l d s) = expected (change l d s)) as Hchange.
  { intros l d. unfold change. by case_decide. }
  destruct o as [l|p1 p2|servers|servers| |d det|det|d det color]; simpl; try apply Hchange; try done.
  - exfalso. eapply (Hno t p1 p2). by left.
  - unfold expected. rewrite decide_False; [done|]. intros [Hf|Hf]; [|done]. simpl in Hf. by apply elem_of_replicate in Hf as [? _].
Qed.
End Shown.

(** (C32) The timeline of a test shows its faults: from the start of a test on, whatever
    the calls say of its servers and of partitions, no call fails; what is known of connections and crashes
    is what was said; the fault annotation that is on-going, if any, has the text of the last change:
    the two sides of [AnnotateTwoPartitions], or each running server that is disconnected in a group of its
    own, then the group of the connected ones, then the servers that are down. If [AnnotateTwoPartitions]
    was not called, one is on-going exactly while some server is disconnected or down. Every
    fault interval drawn so far has its start and end in order, but for the empty one that
    [AnnotateClearFailure] draws when there is nothing to clear. *)
Theorem faults_are_shown d n t0 ops g :
  0 < t0 → Forall (λ x, regular n x.2) ops → clock t0 ops →
  let s := spec_run ops (no_faults n) in
  ∃ g' fi, fault_run ops (AnnotateTest d n t0 g) = Done g' ∧ finfo g' = Some fi ∧
    connected fi = links s ∧ (∀ id, (id < n)%nat → crashed fi !! id = Some (bool_decide (Z.of_nat id ∈ dead s))) ∧
    desp <$> continuous (annotation g') !! TAG_PARTITION = shows s ∧
    ((∀ t p1 p2, (t, f_two p1 p2) ∉ ops) → shows s = if decide (faulty s) then Some (describe s) else None) ∧
    ∀ a, a ∈ annotations (annotation g') → Tag a = TAG_PARTITION →
      0 < Start a <= End a ∨ f_clear ∈ ops.*2 ∧ Start a = 0 ∧ Description a = ""%string.
Proof.
  intros Ht Hreg Hclock. cbv zeta.
  destruct (fault_run_agrees n (f_clear ∈ ops.*2) ops t0 (no_faults n) (AnnotateTest d n t0 g)) as
    (g' & now & Hrun & (fi & Hfi & Hns & Hl & Hc & _) & Hshow & Hint); [|done|by apply AnnotateTest_agrees|done|].
  { apply Forall_forall. intros [t o] Ho. split; [by apply (proj1 (Forall_forall _ _) Hreg)|].
    simpl. intros ->. apply list_elem_of_fmap. by exists (t, f_clear). }
  exists g', fi. split_and!; [done|done|done| | | |done].
  - intros id Hid. rewrite Hc. by apply flags_lookup.
  - destruct (shows _) as [text|]; [|by destruct Hshow as [-> _]]. destruct Hshow as (c & -> & <- & _). done.
  - intros Hno. apply spec_exact; [done|]. unfold expected. rewrite decide_False; [done|].
    intros [Hf|Hf]; [|done]. simpl in Hf. by apply elem_of_replicate in Hf as [? _].
Qed.

(** Clearing the failures when there is none draws a fault interval from
    time 0 with no text: the test for an on-going annotation has an empty
    body. *)
Theorem ClearFailure_bogus t g fi :
  finfo g = Some fi → continuous (annotation g) !! TAG_PARTITION = None →
  ∃ g', AnnotateClearFailure t g = Done g' ∧
    annotations (annotation g') = annotations (annotation g) ++ [mkAnn TAG_PARTITION 0 t "" "" ""].
Proof.
  intros Hfi Hno. unfold AnnotateClearFailure, with_finfo. rewrite Hfi. eexists. split; [done|].
  simpl. unfold annotateContinuousEnd. by rewrite Hno.
Qed.

(** The end of a check is drawn as an interval from the beginning of the
    check, and does not reset that beginning: a later end without a beginning of
    its own is drawn as an interval from the same time, with the first check's
    details, and not as a point. *)
Theorem CheckerEnd_not_reset det t0 d1 det1 c1 t1 d2 det2 c2 t2 g fi :
  finfo g = Some fi → t0 ≠ 0 →
  ∃ g', (g1 ← AnnotateCheckerBegin det t0 g; g2 ← AnnotateCheckerEnd d1 det1 c1 t1 g1;
         AnnotateCheckerEnd d2 det2 c2 t2 g2) = Done g' ∧
    annotations (annotation g') = annotations (annotation g) ++
      [mkAnn TAG_CHECKER t0 t1 d1 (det +:+ ": " +:+ det1) c1; mkAnn TAG_CHECKER t0 t2 d2 (det +:+ ": " +:+ det2) c2].
Proof.
  intros Hfi Ht. unfold AnnotateCheckerBegin, with_finfo. rewrite Hfi. cbn [mbind outcome_bind].
  unfold AnnotateCheckerEnd, with_finfo. cbn [finfo set_finfo ckbegin ts].
  rewrite (proj2 (Z.eqb_neq t0 0) Ht). cbn [mbind outcome_bind]. simpl.
  rewrite (proj2 (Z.eqb_neq t0 0) Ht). eexists. split; [done|]. simpl. by rewrite <- (assoc_L (++)).
Qed.

(** ** Witnesses *)
Lemma continuous_chain_witness :
  annotations (foldl (λ an '(t, d, det, color), annotateContinuousColor TAG_PARTITION d det color t an)
    empty_annotation [(3, "a", "", ""); (5, "b", "", ""); (9, "c", "", "")]%string) =
  [mkAnn TAG_PARTITION 3 5 "a" "" ""; mkAnn TAG_PARTITION 5 9 "b" "" ""].
Proof.
  apply (continuous_chain TAG_PARTITION (3, "a", "", "")%string [(5, "b", "", ""); (9, "c", "", "")]%string empty_annotation).
  reflexivity.
Defined.

Definition demo_faults : list (Z * fault_op) :=
  [(2, f_connection [true; false; true]); (4, f_shutdown [2]); (5, f_shutdown [2]); (7, f_connection [true; true; true])].

(** The two sides, a clear, a clear of nothing, a crash. *)
Definition demo_partition : list (Z * fault_op) :=
  [(2, f_two [0; 1] [2]); (3, f_clear); (4, f_clear); (6, f_shutdown [1])].

Lemma faults_are_shown_witness :
  (∃ g', fault_run demo_faults (AnnotateTest "demo" 3 1 boot) = Done g' ∧
    desp <$> continuous (annotation g') !! TAG_PARTITION = Some "partition = [0 1] / crash = [2]"%string) ∧
  ∃ g', fault_run demo_partition (AnnotateTest "demo" 3 1 boot) = Done g' ∧
    desp <$> continuous (annotation g') !! TAG_PARTITION = Some "partition = [0 2] / crash = [1]"%string.
Proof.
  split.
  - destruct (faults_are_shown "demo" 3 1 demo_faults boot) as (g' & fi & H1 & _ & _ & _ & H2 & _).
    + lia.
    + repeat (apply Forall_cons; split); try apply Forall_nil_2; try done; simpl; intros id ->%list_elem_of_singleton; lia.
    + simpl. lia.
    + exists g'. split; [exact H1|]. rewrite H2. vm_compute. reflexivity.
  - destruct (faults_are_shown "demo" 3 1 demo_partition boot) as (g' & fi & H1 & _ & _ & _ & H2 & _).
    + lia.
    + repeat (apply Forall_cons; split); try apply Forall_nil_2; try done; simpl; intros id ->%list_elem_of_singleton; lia.
    + simpl. lia.
    + exists g'. split; [exact H1|]. rewrite H2. vm_compute. reflexivity.
Defined.

Lemma ClearFailure_bogus_witness :
  ∃ g', AnnotateClearFailure 8 (AnnotateTest "demo" 3 1 boot) = Done g' ∧
    mkAnn TAG_PARTITION 0 8 "" "" "" ∈ annotations (annotation g').
Proof.
  destruct (ClearFailure_bogus 8 (AnnotateTest "demo" 3 1 boot) (newFrameworkInfo 3)) as (g' & H & E); [done|done|].
  exists g'. split; [exact H|]. rewrite E. apply elem_of_app. right. by left.
Defined.

Lemma CheckerEnd_not_reset_witness :
  ∃ g', (g1 ← AnnotateCheckerBegin "check" 2 (AnnotateTest "demo" 3 1 boot);
         g2 ← AnnotateCheckerEnd "ok" "fine" COLOR_SUCCESS 3 g1;
         AnnotateCheckerEnd "apply error" "bad" COLOR_FAILURE 50 g2) = Done g' ∧
    mkAnn TAG_CHECKER 2 50 "apply error" "check: bad" COLOR_FAILURE ∈ annotations (annotation g').
Proof.
  destruct (CheckerEnd_not_reset "check" 2 "ok" "fine" COLOR_SUCCESS 3 "apply error" "bad" COLOR_FAILURE 50
    (AnnotateTest "demo" 3 1 boot) (newFrameworkInfo 3)) as (g' & H & E); [done|done|].
  exists g'. split; [exact H|]. rewrite E. apply elem_of_app. right. right. by left.
Defined.
