(* ===== verification/Models.v ===== *)
(** * Models: the sequential model histories are checked against
    (src/src/models1/kv.go)

    [KvModel] tells the porcupine checker what a key/value store does: how a
    history splits into independent parts, the initial state of one key, and
    which outputs a get or a put may have. *)

From stdpp Require Import pretty.
From S2P Require Import Prelude.

Local Open Scope Z_scope.

Record KvInput := mkKvInput { Op : Z; Key : string; Value : string; Version : Z }.
Record KvOutput := mkKvOutput { o_Value : string; o_Version : Z; o_Err : string }.
Record KvState := mkKvState { s_Value : string; s_Version : Z }.

(** porcupine.Operation, its interface-typed fields holding what this program
    puts there. *)
Record Operation := mkOperation {
  ClientId : Z;
  Input : KvInput;
  Call : Z;
  Output : KvOutput;
  Return : Z
}.

#[export] Instance KvState_eq_dec : EqDecision KvState.
Proof. solve_decision. Defined.

(** The loop that collects the operations of each key. *)
Definition by_key (history : list Operation) : gmap string (list Operation) :=
  foldl (λ m v, let key := Key (Input v) in <[key := default [] (m !! key) ++ [v]]> m) ∅ history.

(** [Partition]: [sort.Strings] orders the keys, whatever the order in which the map
    is visited. *)
Definition Partition (history : list Operation) : list (list Operation) :=
  let m := by_key history in
  let keys := merge_sort String.le (elements (dom m)) in
  (λ k, default [] (m !! k)) <$> keys.

Definition Init : KvState := mkKvState "" 0.

(** The state that [Step] returns is an interface value: a [KvState], or a
    string after an invalid operation. *)
Inductive model_state :=
| st_kv (s : KvState)
| st_invalid.

(** [Step]; the type assertion on the state panics after an invalid one. *)
Definition Step (state : model_state) (inp : KvInput) (out : KvOutput) : outcome (bool * model_state) :=
  match state with
  | st_invalid => Panic "interface conversion"
  | st_kv st =>
      if Op inp =? 0 then Done (bool_decide (o_Value out = s_Value st), state)
      else if Op inp =? 1 then
        if s_Version st =? Version inp then
          Done (bool_decide (o_Err out = "OK"%string) || bool_decide (o_Err out = "ErrMaybe"%string),
                st_kv (mkKvState (Value inp) (uint64 (s_Version st + 1))))
        else
          Done (bool_decide (o_Err out = "ErrVersion"%string) || bool_decide (o_Err out = "ErrMaybe"%string),
                st_kv st)
      else Done (false, st_invalid)
  end.

Definition DescribeOperation (inp : KvInput) (out : KvOutput) : string :=
  if Op inp =? 0 then
    "get('" +:+ Key inp +:+ "') -> ('" +:+ o_Value out +:+ "', '" +:+ pretty (o_Version out) +:+ "', '" +:+ o_Err out +:+ "')"
  else if Op inp =? 1 then
    "put('" +:+ Key inp +:+ "', '" +:+ Value inp +:+ "', '" +:+ pretty (Version inp) +:+ "') -> ('" +:+ o_Err out +:+ "')"
  else "<invalid>".

(** A sequence of operations on one key that the model accepts, as the checker
    uses [Step]: from [Init], every step legal. *)
Fixpoint accepts (st : model_state) (ops : list (KvInput * KvOutput)) : option model_state :=
  match ops with
  | [] => Some st
  | (inp, out) :: ops =>
      match Step st inp out with
      | Done (true, st') => accepts st' ops
      | _ => None
      end
  end.

(** ** Partition *)
Lemma by_key_spec history k :
  by_key history !! k =
  match filter (λ v, Key (Input v) = k) history with [] => None | l => Some l end.
Proof.
  unfold by_key. induction history as [|v history IH] using rev_ind; [done|].
  rewrite foldl_snoc, filter_app. cbn [filter list_filter]. set (m := foldl _ _ _) in *.
  destruct (decide (Key (Input v) = k)) as [<-|Hne].
  - rewrite lookup_insert_eq, IH. by destruct (filter _ history).
  - rewrite lookup_insert_ne, IH, app_nil_r by done. done.
Qed.

(** [Partition] splits a history by key and nothing else: there is one
    part for each key of the history, in the order of the keys, and it holds
    all the operations on that key in their order in the history. *)
Theorem history_partition_spec history :
  ∃ keys, StronglySorted String.le keys ∧ NoDup keys ∧
    (∀ k, k ∈ keys ↔ ∃ v, v ∈ history ∧ Key (Input v) = k) ∧
    Partition history = (λ k, filter (λ v, Key (Input v) = k) history) <$> keys.
Proof.
  exists (merge_sort String.le (elements (dom (by_key history)))).
  assert (merge_sort String.le (elements (dom (by_key history))) ≡ₚ elements (dom (by_key history))) as HP
    by apply merge_sort_Permutation.
  assert (∀ k, k ∈ elements (dom (by_key history)) ↔ ∃ v, v ∈ history ∧ Key (Input v) = k) as Hk.
  { intros k. rewrite elem_of_elements, elem_of_dom, by_key_spec. split.
    - destruct (filter _ history) as [|v l] eqn:E; [by intros [? ?]|]. intros _. exists v.
      assert (v ∈ filter (λ v, Key (Input v) = k) history) as [? ?]%list_elem_of_filter by (rewrite E; by left). done.
    - intros (v & Hv & Hkv). destruct (filter _ history) as [|x l] eqn:E; [|by eexists].
      assert (v ∈ filter (λ v, Key (Input v) = k) history) as Hin by (by apply list_elem_of_filter).
      rewrite E in Hin. by apply elem_of_nil in Hin. }
  split_and!.
  - apply StronglySorted_merge_sort; apply _.
  - rewrite HP. apply NoDup_elements.
  - intros k. rewrite HP. apply Hk.
  - apply list_fmap_ext. intros i k Hi. rewrite by_key_spec.
    by destruct (filter _ history).
Qed.

(** ** What an accepted sequence looks like *)
Definition is_put_ok (x : KvInput * KvOutput) : bool :=
  (Op x.1 =? 1) && bool_decide (o_Err x.2 = "OK"%string).

(** The versions of the puts that returned OK, in order. *)
Definition ok_versions (ops : list (KvInput * KvOutput)) : list Z :=
  (λ x, Version x.1) <$> filter (λ x, is_put_ok x = true) ops.

Lemma Step_cases s inp out ok st' :
  Step (st_kv s) inp out = Done (ok, st') →
  (Op inp = 0 ∧ st' = st_kv s ∧ (ok = true → o_Value out = s_Value s)) ∨
  (Op inp = 1 ∧ Version inp = s_Version s ∧ st' = st_kv (mkKvState (Value inp) (uint64 (s_Version s + 1))) ∧
     (ok = true → o_Err out = "OK" ∨ o_Err out = "ErrMaybe")%string) ∨
  (Op inp = 1 ∧ Version inp ≠ s_Version s ∧ st' = st_kv s ∧
     (ok = true → o_Err out = "ErrVersion" ∨ o_Err out = "ErrMaybe")%string) ∨
  (ok = false ∧ st' = st_invalid).
Proof.
  unfold Step. ztests; intros [= <- <-]; rewrite ?orb_true_iff, ?bool_decide_eq_true; auto 10.
Qed.

Lemma accepts_versions ops : ∀ s st',
  accepts (st_kv s) ops = Some st' → 0 <= s_Version s → s_Version s + Z.of_nat (length ops) < 2 ^ 64 →
  StronglySorted Z.lt (ok_versions ops) ∧ Forall (λ v, s_Version s <= v < s_Version s + Z.of_nat (length ops)) (ok_versions ops) ∧
  ∃ s', st' = st_kv s' ∧ s_Version s + Z.of_nat (length (ok_versions ops)) <= s_Version s' ∧
    s_Version s' <= s_Version s + Z.of_nat (length ops).
Proof.
  induction ops as [|[inp out] ops IH]; intros s st' Hacc H0 Hlt.
  { injection Hacc as <-. split_and!; [constructor|constructor|]. exists s. split_and!; simpl; [done|lia|lia]. }
  cbn [accepts] in Hacc. destruct (Step (st_kv s) inp out) as [[[] st1]| | |] eqn:Hst; try done.
  cbn [length] in Hlt. rewrite Nat2Z.inj_succ in Hlt.
  unfold ok_versions. rewrite filter_cons. fold (ok_versions ops).
  destruct (Step_cases _ _ _ _ _ Hst) as [(Hop & -> & _)|[(Hop & Hv & -> & _)|[(Hop & Hv & -> & Herr)|[? _]]]]; [| | |done].
  - rewrite decide_False by (unfold is_put_ok; simpl; rewrite Hop; done).
    destruct (IH s st' Hacc H0 ltac:(lia)) as (H1 & H2 & s' & -> & H3). fold (ok_versions ops). split_and!; [done| |].
    + eapply Forall_impl; [exact H2|]. simpl. lia.
    + exists s'. split; [done|]. simpl. lia.
  - rewrite uint64_id in Hacc by lia.
    destruct (IH _ st' Hacc ltac:(simpl; lia) ltac:(simpl; lia)) as (H1 & H2 & s' & -> & H3). simpl in H2, H3.
    case_decide as Hok; cbn [fmap list_fmap fst length]; fold (ok_versions ops).
    + split_and!.
      * constructor; [done|]. eapply Forall_impl; [exact H2|]. simpl. lia.
      * constructor; [simpl; lia|]. eapply Forall_impl; [exact H2|]. simpl. lia.
      * exists s'. split; [done|]. simpl. lia.
    + split_and!; [done|eapply Forall_impl; [exact H2|]; simpl; lia|exists s'; split; [done|lia]].
  - rewrite decide_False.
    2:{ unfold is_put_ok. simpl. rewrite Hop. simpl. rewrite bool_decide_eq_true. intros E.
        destruct (Herr eq_refl) as [E'|E']; rewrite E in E'; discriminate. }
    destruct (IH s st' Hacc H0 ltac:(lia)) as (H1 & H2 & s' & -> & H3). fold (ok_versions ops). split_and!; [done| |].
    + eapply Forall_impl; [exact H2|]. simpl. lia.
    + exists s'. split; [done|]. simpl. lia.
Qed.

(** A sequence of operations on one key that the model accepts performs every
    put at most once: the versions of the puts that returned OK are strictly
    increasing, so no two of them had the same version, and the key's version
    at the end counts at least these and at most all operations. *)
Theorem accepted_puts_once ops st :
  accepts (st_kv Init) ops = Some st → Z.of_nat (length ops) < 2 ^ 64 →
  StronglySorted Z.lt (ok_versions ops) ∧ NoDup (ok_versions ops) ∧
  ∃ s, st = st_kv s ∧ Z.of_nat (length (ok_versions ops)) <= s_Version s <= Z.of_nat (length ops).
Proof.
  intros Hacc Hlt. destruct (accepts_versions ops Init st Hacc) as (H1 & _ & s & -> & H3 & H4); [done|simpl; lia|].
  split; [done|]. split; [|by exists s].
  clear -H1. induction H1 as [|v l Hs IH Hall]; constructor; [|done].
  intros Hin. rewrite Forall_forall in Hall. specialize (Hall v Hin). lia.
Qed.

(** ** The model and the documented server

    The comments of kvsrv1/server.go say what [Put] does: install the value if
    the version matches, or if it is 0 and the key does not exist; otherwise
    return [ErrVersion], or [ErrNoKey] if the key does not exist. *)
Definition documented_Put (key : option KvState) (value : string) (version : Z) : string * option KvState :=
  match key with
  | Some s =>
      if s_Version s =? version then ("OK"%string, Some (mkKvState value (uint64 (s_Version s + 1))))
      else ("ErrVersion"%string, key)
  | None =>
      if version =? 0 then ("OK"%string, Some (mkKvState value 1)) else ("ErrNoKey"%string, None)
  end.

(** The model's state of a key; a key that does not exist is the empty string at
    version 0. *)
Definition model_of (key : option KvState) : KvState := default Init key.

(** The model accepts what the documented [Put] answers and moves to the
    same value and version, in every case but one: it rejects the [ErrNoKey]
    that the server's comment prescribes for a key that does not exist and a
    version other than 0. *)
Theorem Step_documented_Put key k value version :
  (∀ s, key = Some s → 0 < s_Version s < 2 ^ 64 - 1) →
  let '(err, key') := documented_Put key value version in
  Step (st_kv (model_of key)) (mkKvInput 1 k value version) (mkKvOutput "" 0 err) =
    Done (negb (bool_decide (err = "ErrNoKey"%string)), st_kv (model_of key')) ∧
  (err = "ErrNoKey"%string ↔ key = None ∧ version ≠ 0).
Proof.
  intros Hs. unfold documented_Put, Step. destruct key as [s|]; cbn -[Z.eqb].
  - specialize (Hs s eq_refl). destruct (Z.eqb_spec (s_Version s) version); simpl; (split; [done|split; [done|by intros [? _]]]).
  - destruct (Z.eqb_spec version 0) as [->|Hv]; simpl; [split; [done|split; [done|by intros [_ ?]]]|].
    split; [by destruct version|done].
Qed.

(** ** Witnesses *)
Definition put1 (v : string) (n : Z) (err : string) : KvInput * KvOutput := (mkKvInput 1 "x" v n, mkKvOutput "" 0 err).
Definition get1 (v : string) (n : Z) : KvInput * KvOutput := (mkKvInput 0 "x" "" 0, mkKvOutput v n "OK").

Lemma accepted_puts_once_witness :
  let ops := [put1 "a" 0 "OK"; put1 "b" 0 "ErrVersion"; put1 "c" 1 "ErrMaybe"; get1 "c" 7; put1 "d" 2 "OK"]%string in
  accepts (st_kv Init) ops = Some (st_kv (mkKvState "d" 3)) ∧ ok_versions ops = [0; 2] ∧ NoDup (ok_versions ops).
Proof.
  intros ops. assert (accepts (st_kv Init) ops = Some (st_kv (mkKvState "d" 3))) as E by (vm_compute; reflexivity).
  split; [exact E|]. split; [vm_compute; reflexivity|].
  apply (accepted_puts_once ops _ E). vm_compute. reflexivity.
Defined.

Lemma Step_documented_Put_witness :
  Step (st_kv Init) (mkKvInput 1 "x" "a" 3) (mkKvOutput "" 0 "ErrNoKey") = Done (false, st_kv Init).
Proof.
  destruct (Step_documented_Put None "x" "a" 3) as [H _]; [done|]. exact H.
Defined.
