(* ===== verification/KVTest.v ===== *)
(** * KVTest: the key/value test harness (src/src/kvtest1/kvtest.go and
    src/src/kvtest1/porcupine.go)

    The functions of the harness talk to a clerk, an interface the source has no
    implementation of. They are therefore programs in a free monad whose
    operations are the clerk's [Get] and [Put], the [select] on the done channel and
    the draw of a random number; what a clerk answers is left to the
    interpreter ([KVServer]). A program ends in an [outcome].

    A loop [for true] has fuel and ends in [Diverge] without it. JSON is the
    class [Json] of [Prelude]. Annotations are left out; the texts of messages are abridged. *)

From stdpp Require Import pretty.
From S2P Require Import Prelude Labrpc Group Models.

Local Open Scope Z_scope.

(** ** Data (rpc.Err and rpc.Tversion are strings and uint64s) *)
Definition OK : string := "OK".
Definition ErrNoKey : string := "ErrNoKey".
Definition ErrVersion : string := "ErrVersion".
Definition ErrMaybe : string := "ErrMaybe".

Record ClntRes := mkClntRes { Nok : Z; Nmaybe : Z }.
Record EntryV := mkEntryV { v_Id : Z; v_V : Z }.

(** [entry] and [EntryN] have the same fields and the same JSON. *)
Record entry := mkEntry { Id : Z; N : Z }.

#[export] Instance ClntRes_eq_dec : EqDecision ClntRes.
Proof. solve_decision. Defined.
#[export] Instance entry_eq_dec : EqDecision entry.
Proof. solve_decision. Defined.
#[export] Instance EntryV_eq_dec : EqDecision EntryV.
Proof. solve_decision. Defined.

(** ** Programs over a clerk

    [CkGet] and [CkPut] carry the client number for the log, and whether the
    operation is logged. *)
Inductive prog (A : Type) : Type :=
| Ends (m : outcome A)
| CkGet (logged : bool) (key : string) (cli : Z) (k : string * Z * string → prog A)
| CkPut (logged : bool) (key value : string) (version cli : Z) (k : string → prog A)
| Select (k : bool → prog A)
| Rand (k : Z → prog A).
Arguments Ends {A} m.
Arguments CkGet {A} logged key cli k.
Arguments CkPut {A} logged key value version cli k.
Arguments Select {A} k.
Arguments Rand {A} k.

#[export] Instance prog_ret : MRet prog := λ A a, Ends (Done a).

#[export] Instance prog_bind : MBind prog := λ A B f,
  fix go (p : prog A) : prog B :=
    match p with
    | Ends (Done a) => f a
    | Ends (Panic why) => Ends (Panic why)
    | Ends (Fatal msg) => Ends (Fatal msg)
    | Ends Diverge => Ends Diverge
    | CkGet lg key cli k => CkGet lg key cli (λ r, go (k r))
    | CkPut lg key value ver cli k => CkPut lg key value ver cli (λ r, go (k r))
    | Select k => Select (λ b, go (k b))
    | Rand k => Rand (λ r, go (k r))
    end.

Definition Fatalf {A} (msg : string) : prog A := Ends (Fatal msg).

(** ** The logged operations (porcupine.go)

    [Get] and [Put], as functions and as methods of [Test]: the clerk's
    operation between two readings of the clock, and what is appended to the
    log of the test. *)
Definition Get (key : string) (cli : Z) : prog (string * Z * string) :=
  CkGet true key cli (λ r, mret r).

Definition Put (key value : string) (version cli : Z) : prog string :=
  CkPut true key value version cli (λ r, mret r).

Definition Test_Get (key : string) (cli : Z) : prog (string * Z * string) :=
  CkGet true key cli (λ r, mret r).

Definition Test_Put (key value : string) (version cli : Z) : prog string :=
  CkPut true key value version cli (λ r, mret r).

Definition get_operation (key : string) (cli start : Z) (out : KvOutput) (end_ : Z) : Operation :=
  mkOperation cli (mkKvInput 0 key "" 0) start out end_.

Definition put_operation (key value : string) (version cli start : Z) (out : KvOutput) (end_ : Z) : Operation :=
  mkOperation cli (mkKvInput 1 key value version) start (mkKvOutput "" 0 (o_Err out)) end_.

(** ** JSON values *)
Section Values.
Context {V : Type} `{Json V}.

Definition GetJson (key : string) (me : Z) : prog (V * Z) :=
  '(val, ver, err) ← Get key me;
  if decide (err = OK) then
    match Unmarshal val with
    | Some v => mret (v, ver)
    | None => Fatalf "Unmarshal err"
    end
  else Fatalf "Get err".

Definition PutJson (key : string) (v : V) (ver me : Z) : prog string :=
  match Marshal v with
  | Some b => Put key b ver me
  | None => Fatalf "marshal"
  end.

(** The version argument is not used: every put is at version 0. *)
Fixpoint PutAtLeastOnceJson (fuel : nat) (key : string) (value : V) (ver me : Z) : prog Z :=
  match fuel with
  | O => Ends Diverge
  | S fuel =>
      err ← PutJson key value 0 me;
      if decide (err = ErrMaybe) then PutAtLeastOnceJson fuel key value (uint64 (ver + 1)) me
      else mret ver
  end.
End Values.

(** ** Puts and gets *)
Fixpoint PutAtLeastOnce (fuel : nat) (key value : string) (ver me : Z) : prog Z :=
  match fuel with
  | O => Ends Diverge
  | S fuel =>
      err ← Test_Put key value ver me;
      if decide (err = OK) then mret (uint64 (ver + 1))
      else if decide (err = ErrMaybe ∨ err = ErrVersion)
      then PutAtLeastOnce fuel key value (uint64 (ver + 1)) me
      else if negb (ver =? 0) then Fatalf "Put" else PutAtLeastOnce fuel key value ver me
  end.

Definition CheckGet (key value : string) (version : Z) : prog () :=
  '(val, ver, err) ← Test_Get key 0;
  if decide (err ≠ OK) then Fatalf "Get returns error"
  else if decide (val ≠ value ∨ ver ≠ version) then Fatalf "Get returns the wrong value"
  else mret ().

Definition MakeKeys (n : nat) : list string := (λ i, "k" +:+ pretty (Z.of_nat i)) <$> seq 0 n.

(** The random numbers and strings of the harness are arguments. [RandValue]
    draws one number per byte. *)
Definition letterBytes : list Z := bytes_of "abcdefghijklmnopqrstuvwxyzABCDEFGHIJKLMNOPQRSTUVWXYZ".

Definition RandValue (draws : list Z) : outcome (list Z) :=
  for_each draws
    (λ r b, l ← slice_get letterBytes (Z.rem r (Z.of_nat (length letterBytes))); Done (b ++ [l])) [].

(** The puts go to the clerk directly and are not logged; their results are
    not looked at. *)
Fixpoint spread_puts (kvs : list (string * string)) (rest : prog ()) : prog () :=
  match kvs with
  | [] => rest
  | (k, v) :: kvs => CkPut false k v 0 0 (λ _, spread_puts kvs rest)
  end.

Fixpoint spread_checks (kvs : list (string * string)) : prog () :=
  match kvs with
  | [] => mret ()
  | (k, v) :: kvs => CheckGet k v 1 ;; spread_checks kvs
  end.

(** [va] are the strings [tester.Randstring] returned. *)
Definition SpreadPutsSize (va : list string) : prog (list string * list string) :=
  let ka := MakeKeys (length va) in
  let kvs := zip ka va in
  spread_puts kvs (spread_checks kvs) ;; mret (ka, va).

(** ** Clients that put concurrently *)
Section Clients.
Context `{Json EntryV} `{Json (list entry)}.
Variable randomkeys : bool.

Fixpoint OnePut (fuel : nat) (me : Z) (key : string) (ver : Z) : prog (Z * bool) :=
  match fuel with
  | O => Ends Diverge
  | S fuel =>
      err ← PutJson key (mkEntryV me ver) ver me;
      if negb (bool_decide (err = OK) || bool_decide (err = ErrVersion) || bool_decide (err = ErrMaybe))
      then Fatalf "Wrong error"
      else
        '(e, ver0) ← GetJson key me;
        if bool_decide (err = OK) && (ver0 =? uint64 (ver + 1)) &&
           (negb (v_Id e =? me) && negb (v_V e =? ver))
        then Fatalf "Wrong value"
        else if bool_decide (err = OK) || bool_decide (err = ErrMaybe)
        then mret (ver0, bool_decide (err = OK))
        else OnePut fuel me key ver0
  end.

(** The key of an iteration of [OneClientPut]. *)
Definition pick_key (ka : list string) : prog string :=
  match slice_get ka 0 with
  | Done k =>
      if randomkeys then
        Rand (λ r, Ends (slice_get ka (Z.rem r (Z.of_nat (length ka)))))
      else mret k
  | o => Ends o
  end.

(** [fuel] bounds the iterations, and the attempts of each [OnePut]. *)
Fixpoint one_client_put (fuel : nat) (cli : Z) (ka : list string) (verm : gmap string Z) (res : ClntRes) :
    prog ClntRes :=
  match fuel with
  | O => Ends Diverge
  | S fuel' =>
      Select (λ d,
        if d : bool then mret res
        else
          k ← pick_key ka;
          '(v, ok) ← OnePut fuel' cli k (default 0 (verm !! k));
          one_client_put fuel' cli ka (<[k := v]> verm)
            (if ok : bool then mkClntRes (int64 (Nok res + 1)) (Nmaybe res)
             else mkClntRes (Nok res) (int64 (Nmaybe res + 1))))
  end.

Definition OneClientPut (fuel : nat) (cli : Z) (ka : list string) : prog ClntRes :=
  one_client_put fuel cli ka (list_to_map ((λ k, (k, 0)) <$> ka)) (mkClntRes 0 0).

Definition add_res (res r : ClntRes) : ClntRes :=
  mkClntRes (int64 (Nok res + Nok r)) (int64 (Nmaybe res + Nmaybe r)).

(** The result is what [*res] holds afterwards. *)
Definition CheckPutConcurrent (key : string) (rs : list ClntRes) (res : ClntRes) (reliable : bool) :
    prog ClntRes :=
  '(e, ver0) ← GetJson (V := EntryV) key (-1);
  let res := foldl add_res res rs in
  if reliable then
    if negb (ver0 =? uint64 (Nok res)) then Fatalf "Reliable: Wrong number of puts" else mret res
  else if uint64 (int64 (Nok res + Nmaybe res)) <? ver0 then Fatalf "Unreliable: Wrong number of puts"
  else mret res.

(** ** Clients that append concurrently *)

(** Keep trying to put [i] while the version does not match; the result is
    whether the put was OK. *)
Fixpoint append_one (fuel : nat) (me i : Z) : prog bool :=
  match fuel with
  | O => Ends Diverge
  | S fuel =>
      '(es, ver) ← GetJson "k" me;
      err ← PutJson "k" (es ++ [mkEntry me i]) ver me;
      if decide (err = OK) then mret true
      else if decide (err = ErrMaybe) then mret false
      else append_one fuel me i
  end.

Fixpoint one_client_append (fuel : nat) (me i nok nmay : Z) : prog ClntRes :=
  match fuel with
  | O => Ends Diverge
  | S fuel' =>
      Select (λ d,
        if d : bool then mret (mkClntRes nok nmay)
        else
          ok ← append_one fuel' me i;
          if ok : bool then one_client_append fuel' me (int64 (i + 1)) (int64 (nok + 1)) nmay
          else one_client_append fuel' me (int64 (i + 1)) nok (int64 (nmay + 1)))
  end.

Definition OneClientAppend (fuel : nat) (me : Z) : prog ClntRes := one_client_append fuel me 0 0 0.
End Clients.

(** ** The check of the appends

    [expect] and [skipped] are maps from int to int, 0 where absent. *)
Definition at_ (m : gmap Z Z) (k : Z) : Z := default 0 (m !! k).

Definition check_entry (e : entry) (st : gmap Z Z * gmap Z Z) : outcome (gmap Z Z * gmap Z Z) :=
  let '(expect, skipped) := st in
  if N e <? at_ expect (Id e) then Fatal "wrong expecting"
  else if at_ expect (Id e) =? N e then
    Done (<[Id e := int64 (at_ expect (Id e) + 1)]> expect, skipped)
  else
    let s := int64 (N e - at_ expect (Id e)) in
    Done (<[Id e := int64 (N e + 1)]> expect, <[Id e := int64 (at_ skipped (Id e) + s)]> skipped).

Definition check_client (rs : list ClntRes) (expect skipped : gmap Z Z) (c : Z) : outcome () :=
  r ← slice_get rs c;
  if Nmaybe r <? at_ skipped c then Fatal "skipped puts on server > maybe"
  else if int64 (Nok r + Nmaybe r) <? at_ expect c then Fatal "puts on server > ok+maybe"
  else Done ().

Definition zeros (n : nat) : gmap Z Z := list_to_map ((λ i, (Z.of_nat i, 0)) <$> seq 0 n).

(** [order] is the order in which [expect] is visited. *)
Definition CheckAppends (order : gmap Z Z → list Z) (es : list entry) (nclnt : nat) (rs : list ClntRes)
    (ver : Z) : outcome () :=
  '(expect, skipped) ← for_each es check_entry (zeros nclnt, zeros nclnt);
  if negb (int64 (Z.of_nat (length es) + 1) =? int64 ver) then Fatal "appends in val != puts on server"
  else for_each (order expect) (λ c _, check_client rs expect skipped c) ().

(** ** The partitioner

    [draws] are the random numbers, one per server of the group. *)
Definition partition_of (draws : list Z) : list Z * list Z :=
  let a := (λ r, Z.rem r 2) <$> draws in
  let side i := filter (λ j, a !! Z.to_nat j = Some i) (Z.of_nat <$> seq 0 (length a)) in
  (side 0, side 1).

Definition repartition {Svc} (draws : list Z) (sg : @ServerGrp Svc) (rn : Network) :
    outcome (@ServerGrp Svc * Network) :=
  let '(p0, p1) := partition_of draws in Group.Partition p0 p1 sg rn.
