(* ===== verification/KVServer.v ===== *)
(** * KVServer: clients running against a key/value service

    The server of kvsrv1/server.go and the clerk of kvsrv1/client.go are stubs in the
    source, so they are a parameter here: the class [Service], of which the class
    [Documented] says what their comments promise, as an executable specification. The programs of [KVTest] run
    against any such service: clients take steps in any order, an operation has an instant between its
    call and its return at which the server executes it, and the reply of a
    put can be lost.

    It also has the logic the properties of such runs are proved with: [wp] is
    what a client's program needs to keep its guarantee whatever the other
    clients do, and [run_wp] says that it suffices. *)

From S2P Require Import Prelude Models KVTest.

Local Open Scope Z_scope.

(** ** The promise of the service *)
Abbreviation kvstore := (gmap string KvState).

(** "Get returns the value and version for args.Key, if args.Key exists.
    Otherwise, Get returns ErrNoKey." *)
Definition server_Get (σ : kvstore) (key : string) : string * Z * string :=
  match σ !! key with
  | Some s => (s_Value s, s_Version s, OK)
  | None => (""%string, 0, ErrNoKey)
  end.

Definition server_Put (σ : kvstore) (key value : string) (version : Z) : string * kvstore :=
  let '(err, s) := documented_Put (σ !! key) value version in
  (err, match s with Some s => <[key := s]> σ | None => σ end).

(** "If the server returns ErrVersion on a resend RPC, then Put must return
    ErrMaybe": [lost] when the reply to the first RPC was lost. The resend of
    a put that was executed, or whose version was too old, is answered
    [ErrVersion]. *)
Definition clerk_err (lost : bool) (err : string) : string :=
  if lost && (bool_decide (err = OK) || bool_decide (err = ErrVersion)) then ErrMaybe else err.

(** A server and its clerk. [Put_] is the execution of a put, and [clerk_Put] what the clerk's Put returns for what
    the execution answered, [lost] when the reply to the first RPC was lost and the clerk had to send it again. *)
Class Service := {
  Server : Type;
  MakeKVServer : Server;
  Get_ : Server → string → string * Z * string;
  Put_ : Server → string → string → Z → string * Server;
  clerk_Put : bool → string → string
}.

(** What the comments say: [contents] is the value and the version of each key that exists. *)
Class Documented (SV : Service) := {
  contents : Server → kvstore;
  contents_new : contents MakeKVServer = ∅;
  Get_documented σ key : Get_ σ key = server_Get (contents σ) key;
  Put_documented σ key value version :
    (Put_ σ key value version).1 = (server_Put (contents σ) key value version).1 ∧
    contents (Put_ σ key value version).2 = (server_Put (contents σ) key value version).2;
  clerk_documented lost err : err = OK ∨ err = ErrVersion ∨ err = ErrNoKey → clerk_Put lost err = clerk_err lost err
}.

(** The specification itself is one. *)
Definition kv_service : Service :=
  {| Server := kvstore; MakeKVServer := ∅; Get_ := server_Get; Put_ := server_Put; clerk_Put := clerk_err |}.
Definition kv_documented : Documented kv_service :=
  Build_Documented kv_service (λ σ : kvstore, σ) eq_refl (λ _ _, eq_refl) (λ _ _ _ _, conj eq_refl eq_refl) (λ _ _ _, eq_refl).

(** ** What the server has executed

    [e_by] is the client that ran the operation, [e_cli] the number it gave for
    the log; [e_start] is when it was called, [e_time] when it was executed. *)
Record event := mkEvent {
  e_by : nat;
  e_cli : Z;
  e_logged : bool;
  e_input : KvInput;
  e_output : KvOutput;
  e_start : Z;
  e_time : Z
}.

Abbreviation history := (list event).

Definition execute (σ : kvstore) (e : event) : kvstore :=
  let i := e_input e in
  if Op i =? 1 then (server_Put σ (Key i) (Value i) (Version i)).2 else σ.

(** What the executed operations make of the empty store. *)
Definition store_of (H : history) : kvstore := foldl execute ∅ H.

Section Service.
Context {SV : Service}.

(** The server after them. *)
Definition serve (σ : Server) (e : event) : Server :=
  let i := e_input e in
  if Op i =? 1 then (Put_ σ (Key i) (Value i) (Version i)).2 else σ.

Definition server_after (H : history) : Server := foldl serve MakeKVServer H.

Definition get_event (c : nat) (lg : bool) (key : string) (cli start now : Z) (H : history) : event :=
  let '(val, ver, err) := Get_ (server_after H) key in
  mkEvent c cli lg (mkKvInput 0 key "" 0) (mkKvOutput val ver err) start now.

Definition put_event (c : nat) (lg : bool) (key value : string) (version cli : Z) (lost : bool) (start now : Z)
    (H : history) : event :=
  mkEvent c cli lg (mkKvInput 1 key value version)
    (mkKvOutput "" 0 (clerk_Put lost (Put_ (server_after H) key value version).1)) start now.

End Service.

Definition get_reply (e : event) : string * Z * string :=
  let o := e_output e in (o_Value o, o_Version o, o_Err o).

Definition put_reply (e : event) : string := o_Err (e_output e).

(** ** Runs *)
Inductive phase :=
| Idle
| Calling (start : Z)
| Replied (i : nat).      (* executed as the [i]-th operation *)

Section Runs.
Context {SV : Service} {A : Type}.

Record Client := mkClient { code : prog A; at_phase : phase }.

Record World := mkWorld {
  clock : Z;
  ops : Z;                 (* [cfg.ops] *)
  oplog : list Operation;
  hist : history;
  ends : gmap nat Z;       (* when the operations returned *)
  clients : list Client
}.

Inductive action :=
| Tick (d : Z)
| Begin (c : nat)
| Effect (c : nat) (lost : bool)
| End (c : nat)
| Chosen (c : nat) (b : bool)
| Drawn (c : nat) (r : Z).

Definition set_client (c : nat) (p : prog A) (ph : phase) (w : World) : World :=
  mkWorld (clock w) (ops w) (oplog w) (hist w) (ends w) (<[c := mkClient p ph]> (clients w)).

Definition happens (e : event) (w : World) : World :=
  mkWorld (clock w) (ops w) (oplog w) (hist w ++ [e]) (ends w) (clients w).

(** [end := ...], [cfg.Op()] and [log.Append]. *)
Definition returns (i : nat) (e : event) (w : World) : World :=
  let inp := e_input e in
  let op :=
    if Op inp =? 0 then get_operation (Key inp) (e_cli e) (e_start e) (e_output e) (clock w)
    else put_operation (Key inp) (Value inp) (Version inp) (e_cli e) (e_start e) (e_output e) (clock w) in
  mkWorld (clock w) (int32 (ops w + 1)) (if e_logged e then oplog w ++ [op] else oplog w)
    (hist w) (<[i := clock w]> (ends w)) (clients w).

(** A step that is not enabled changes nothing. *)
Definition exec (a : action) (w : World) : World :=
  match a with
  | Tick d => mkWorld (clock w + Z.max 0 d) (ops w) (oplog w) (hist w) (ends w) (clients w)
  | Begin c =>
      match clients w !! c with
      | Some (mkClient (CkGet _ _ _ _ as p) Idle) | Some (mkClient (CkPut _ _ _ _ _ _ as p) Idle) =>
          set_client c p (Calling (clock w)) w
      | _ => w
      end
  | Effect c lost =>
      match clients w !! c with
      | Some (mkClient (CkGet lg key cli k) (Calling start)) =>
          happens (get_event c lg key cli start (clock w) (hist w))
            (set_client c (CkGet lg key cli k) (Replied (length (hist w))) w)
      | Some (mkClient (CkPut lg key value ver cli k) (Calling start)) =>
          happens (put_event c lg key value ver cli lost start (clock w) (hist w))
            (set_client c (CkPut lg key value ver cli k) (Replied (length (hist w))) w)
      | _ => w
      end
  | End c =>
      match clients w !! c with
      | Some (mkClient (CkGet lg key cli k) (Replied i)) =>
          match hist w !! i with
          | Some e => returns i e (set_client c (k (get_reply e)) Idle w)
          | None => w
          end
      | Some (mkClient (CkPut lg key value ver cli k) (Replied i)) =>
          match hist w !! i with
          | Some e => returns i e (set_client c (k (put_reply e)) Idle w)
          | None => w
          end
      | _ => w
      end
  | Chosen c b =>
      match clients w !! c with
      | Some (mkClient (Select k) Idle) => set_client c (k b) Idle w
      | _ => w
      end
  | Drawn c r =>
      match clients w !! c with
      | Some (mkClient (Rand k) Idle) => if 0 <=? r then set_client c (k r) Idle w else w
      | _ => w
      end
  end.

Definition run (acts : list action) (w : World) : World := foldl (λ w a, exec a w) w acts.

(** The clients of [SpawnClientsAndWait], after a history [H]. *)
Definition spawn (H : history) (fns : list (prog A)) : World :=
  mkWorld 0 0 [] H ∅ ((λ p, mkClient p Idle) <$> fns).

(** What the clients sent on their channels: there, once all have ended. *)
Definition results (w : World) : option (list A) :=
  mapM (λ c, match code c with Ends (Done a) => Some a | _ => None end) (clients w).

(** Replies are lost in unreliable runs only. *)
Definition keeps_replies (a : action) : Prop :=
  match a with Effect _ lost => lost = false | _ => True end.
End Runs.
Arguments Client : clear implicits.
Arguments World : clear implicits.

(** ** A program on its own: nobody else runs; [os] decides which replies are
    lost, what is selected and what is drawn *)
Fixpoint alone {SV : Service} {A} (p : prog A) (os : list Z) (H : history) : outcome (A * history) :=
  let o := default 0 (head os) in
  match p with
  | Ends m => a ← m; Done (a, H)
  | CkGet lg key cli k =>
      let e := get_event 0 lg key cli 0 0 H in alone (k (get_reply e)) os (H ++ [e])
  | CkPut lg key value ver cli k =>
      let e := put_event 0 lg key value ver cli (negb (o =? 0)) 0 0 H in
      alone (k (put_reply e)) (tail os) (H ++ [e])
  | Select k => alone (k (negb (o =? 0))) (tail os) H
  | Rand k => alone (k o) (tail os) H
  end.

(** ** A service as it is documented *)
Section Documented.
Context {SV : Service} {SVD : Documented SV}.

Lemma contents_after H : contents (server_after H) = store_of H.
Proof.
  unfold server_after, store_of. rewrite <- contents_new. generalize MakeKVServer.
  induction H as [|e H IH]; intros σ; [done|]. cbn [foldl]. rewrite IH. f_equal. unfold serve, execute.
  destruct (_ =? _); [|done]. apply Put_documented.
Qed.

Lemma get_event_eq c lg key cli start now H :
  get_event c lg key cli start now H =
    let '(val, ver, err) := server_Get (store_of H) key in
    mkEvent c cli lg (mkKvInput 0 key "" 0) (mkKvOutput val ver err) start now.
Proof. unfold get_event. by rewrite Get_documented, contents_after. Qed.

Lemma put_event_eq c lg key value version cli lost start now H :
  put_event c lg key value version cli lost start now H =
    mkEvent c cli lg (mkKvInput 1 key value version)
      (mkKvOutput "" 0 (clerk_err lost (server_Put (store_of H) key value version).1)) start now.
Proof.
  unfold put_event. rewrite (proj1 (Put_documented _ _ _ _)), contents_after, clerk_documented; [done|].
  unfold server_Put, documented_Put. repeat case_match; simplify_eq/=; auto.
Qed.
End Documented.
