(* ===== verification/KVLogic.v ===== *)
(** * KVLogic: how properties of concurrent clients are proved

    A client guarantees [G H e] for every operation [e] it adds to a history
    [H], and relies on the same of the others. [wp] is the weakest
    precondition of a program under that discipline, by recursion on the
    program; [run_wp] is its soundness for the runs of [KVServer]. *)

From S2P Require Import Prelude Models KVTest KVServer.

Local Open Scope Z_scope.

(** Versions do not wrap in a history of this length. *)
Definition bounded (H : history) : Prop := Z.of_nat (length H) < 2 ^ 62.

Lemma bounded_app H1 H2 : bounded (H1 ++ H2) → bounded H1.
Proof. unfold bounded. rewrite length_app. lia. Qed.

#[export] Hint Resolve bounded_app : godb.

Section Logic.
Context {SV : Service}.
Variable lossy : bool.
Variable G : history → event → Prop.

(** The operations the service executes on a history. *)
Variant genuine (H : history) : event → Prop :=
| genuine_get c lg key cli start now : genuine H (get_event c lg key cli start now H)
| genuine_put c lg key value ver cli lost start now :
    (lossy = false → lost = false) → genuine H (put_event c lg key value ver cli lost start now H).

(** A history grown by operations of a kind. *)
Inductive grows (P : history → event → Prop) (H : history) : history → Prop :=
| grows_refl : grows P H H
| grows_step H' e : grows P H H' → genuine H' e → P H' e → grows P H (H' ++ [e]).

#[local] Hint Constructors grows : core.

(** What clients other than [c] add, and what the clients below [n] add. *)
Definition others (c : nat) : history → history → Prop := grows (λ H e, e_by e ≠ c ∧ G H e).
Definition made_by (n : nat) : history → history → Prop := grows (λ H e, (e_by e < n)%nat ∧ G H e).

Lemma grows_trans P H1 H2 H3 : grows P H1 H2 → grows P H2 H3 → grows P H1 H3.
Proof. induction 2; eauto. Qed.

Lemma grows_prefix P H H' : grows P H H' → H `prefix_of` H'.
Proof. induction 1; [done|]. by apply prefix_app_r. Qed.

(** What every operation keeps, growing keeps. *)
Lemma grows_ind_bounded P (I : history → Prop) H H' :
  (∀ H' e, bounded (H' ++ [e]) → genuine H' e → P H' e → I H' → I (H' ++ [e])) →
  grows P H H' → bounded H' → I H → I H'.
Proof. intros Hstep. induction 1 as [|H' e Hg IH Hge HP]; intros Hb HI; [done|]. eauto using bounded_app. Qed.

Lemma others_trans c H1 H2 H3 : others c H1 H2 → others c H2 H3 → others c H1 H3.
Proof. apply grows_trans. Qed.

Section Wp.
Context {A : Type}.
Variable c : nat.
Variable Q : A → history → Prop.

Fixpoint wp (p : prog A) (H : history) : Prop :=
  match p with
  | Ends (Done a) => Q a H
  | Ends Diverge => True
  | Ends _ => False
  | CkGet lg key cli k => ∀ H' start now, others c H H' → bounded H' →
      let e := get_event c lg key cli start now H' in G H' e ∧ wp (k (get_reply e)) (H' ++ [e])
  | CkPut lg key value ver cli k => ∀ H' lost start now, others c H H' → bounded H' →
      (lossy = false → lost = false) →
      let e := put_event c lg key value ver cli lost start now H' in
      G H' e ∧ wp (k (put_reply e)) (H' ++ [e])
  | Select k => ∀ b, wp (k b) H
  | Rand k => ∀ r, 0 <= r → wp (k r) H
  end.

(** What other clients do leaves it true. *)
Definition stable (P : history → Prop) : Prop := ∀ H H', others c H H' → P H → P H'.

Lemma wp_stable p : (∀ a, stable (Q a)) → stable (wp p).
Proof.
  intros HQ. unfold stable.
  induction p as [[a| | |]|lg key cli k IH|lg key value ver cli k IH|k IH|k IH]; simpl; intros H H' Ho Hwp;
    eauto using others_trans.
  by eapply HQ.
Qed.
End Wp.

Lemma wp_bind {A B} c (Q : B → history → Prop) (f : A → prog B) (p : prog A) H :
  wp c (λ a, wp c Q (f a)) p H → wp c Q (p ≫= f) H.
Proof.
  revert H. induction p as [[a| | |]|lg key cli k IH|lg key value ver cli k IH|k IH|k IH]; simpl; intros H Hwp; auto.
  - intros H' start now Ho Hb. destruct (Hwp H' start now Ho Hb). auto.
  - intros H' lost start now Ho Hb Hl. destruct (Hwp H' lost start now Ho Hb Hl). auto.
Qed.

Lemma wp_mono {A} c (Q1 Q2 : A → history → Prop) (p : prog A) H :
  (∀ a H', Q1 a H' → Q2 a H') → wp c Q1 p H → wp c Q2 p H.
Proof.
  intros HQ. revert H. induction p as [[a| | |]|lg key cli k IH|lg key value ver cli k IH|k IH|k IH]; simpl;
    intros H Hwp; auto.
  - intros H' start now Ho Hb. destruct (Hwp H' start now Ho Hb). auto.
  - intros H' lost start now Ho Hb Hl. destruct (Hwp H' lost start now Ho Hb Hl). auto.
Qed.

(** ** Soundness *)
Section Sound.
Context {A : Type}.
Variable Q : nat → A → history → Prop.
Hypothesis Q_stable : ∀ c a, stable c (Q c a).

(** A client that waits for a reply needs what it needs afterwards. *)
Definition client_ok (c : nat) (cl : Client A) (H : history) : Prop :=
  match at_phase cl, code cl with
  | Replied i, CkGet _ _ _ k => ∃ e, H !! i = Some e ∧ wp c (Q c) (k (get_reply e)) H
  | Replied i, CkPut _ _ _ _ _ k => ∃ e, H !! i = Some e ∧ wp c (Q c) (k (put_reply e)) H
  | Replied _, _ => False
  | _, p => wp c (Q c) p H
  end.

Definition all_ok (w : World A) : Prop := ∀ c cl, clients w !! c = Some cl → client_ok c cl (hist w).

Lemma client_ok_others c cl H H' : others c H H' → client_ok c cl H → client_ok c cl H'.
Proof.
  intros Ho. pose proof (grows_prefix _ _ _ Ho) as [E HE].
  unfold client_ok. destruct (at_phase cl); [by apply wp_stable..|].
  destruct (code cl); try done; intros (e & He & Hwp); exists e; split;
    [subst; by apply lookup_app_l_Some|by eapply wp_stable|subst; by apply lookup_app_l_Some|by eapply wp_stable].
Qed.

Lemma set_client_ok c p ph w :
  all_ok w → client_ok c (mkClient p ph) (hist w) → all_ok (set_client c p ph w).
Proof.
  intros Hw Hc c' cl. simpl.
  intros [(-> & <- & _)|[_ Hcl]]%list_lookup_insert_Some; [done|by apply Hw].
Qed.

(** The operation of client [c], if it is one its program asks for, is in
    its guarantee, and no concern of the others. *)
Lemma happens_ok c p e w :
  e_by e = c → genuine (hist w) e → G (hist w) e →
  client_ok c (mkClient p (Replied (length (hist w)))) (hist w ++ [e]) →
  all_ok w → all_ok (happens e (set_client c p (Replied (length (hist w))) w)).
Proof.
  intros He Hg HG Hok Hw c' cl'. simpl.
  intros [(-> & <- & _)|[Hne Hcl]]%list_lookup_insert_Some; [done|].
  eapply client_ok_others; [|by apply Hw].
  apply grows_step; [apply grows_refl|done|]. split; [congruence|done].
Qed.

Lemma exec_ok a w :
  (lossy = false → keeps_replies a) → bounded (hist w) → all_ok w → all_ok (exec a w).
Proof.
  intros Hl Hb Hw. destruct a as [d|c|c lost|c|c b|c r]; simpl; [exact Hw|..];
    destruct (clients w !! c) as [[[m|lg key cli k|lg key value ver cli k|k|k] [|t|i]]|] eqn:Hc; try exact Hw;
    pose proof (Hw c _ Hc) as Hcl; unfold client_ok in Hcl; simpl in Hcl.
  - by apply set_client_ok.
  - by apply set_client_ok.
  - destruct (Hcl (hist w) t (clock w) (grows_refl _ _) Hb) as [HG Hk].
    apply happens_ok; [by unfold get_event; destruct (Get_ _ _) as [[??]?]|constructor|done| |done].
    unfold client_ok. simpl. eexists. split; [apply list_lookup_middle; done|done].
  - destruct (Hcl (hist w) lost t (clock w) (grows_refl _ _) Hb Hl) as [HG Hk].
    apply happens_ok; [done|by constructor|done| |done].
    unfold client_ok. simpl. eexists. split; [apply list_lookup_middle; done|done].
  - destruct Hcl as (e & He & Hk). rewrite He. by apply (set_client_ok c _ Idle w).
  - destruct Hcl as (e & He & Hk). rewrite He. by apply (set_client_ok c _ Idle w).
  - apply set_client_ok; [done|apply Hcl].
  - destruct (Z.leb_spec 0 r); [|done]. apply set_client_ok; [done|by apply Hcl].
Qed.

(** The history grows by the clients' guaranteed operations. *)
Lemma exec_made a w :
  (lossy = false → keeps_replies a) → bounded (hist w) → all_ok w →
  made_by (length (clients w)) (hist w) (hist (exec a w)).
Proof.
  intros Hl Hb Hw. destruct a as [d|c|c lost|c|c b|c r]; simpl; [apply grows_refl|..];
    destruct (clients w !! c) as [[[m|lg key cli k|lg key value ver cli k|k|k] [|t|i]]|] eqn:Hc;
    try apply grows_refl; try (destruct (hist w !! i); apply grows_refl);
    try (destruct (0 <=? r); apply grows_refl);
    pose proof (Hw c _ Hc) as Hcl; unfold client_ok in Hcl; simpl in Hcl;
    apply lookup_lt_Some in Hc; (apply grows_step; [apply grows_refl|by constructor|]).
  - split; [by unfold get_event; destruct (Get_ _ _) as [[??]?]|].
    by destruct (Hcl (hist w) t (clock w) (grows_refl _ _) Hb).
  - split; [done|]. by destruct (Hcl (hist w) lost t (clock w) (grows_refl _ _) Hb Hl).
Qed.

Lemma exec_clients a (w : World A) : length (clients (exec a w)) = length (clients w).
Proof.
  destruct a as [d|c|c lost|c|c b|c r]; simpl; try done;
    destruct (clients w !! c) as [[[m|lg key cli k|lg key value ver cli k|k|k] [|t|i]]|]; try done;
    try (by simpl; rewrite length_insert); [by destruct (hist w !! i); simpl; rewrite ?length_insert..|].
  destruct (0 <=? r); simpl; by rewrite ?length_insert.
Qed.

Lemma exec_hist a (w : World A) : hist w `prefix_of` hist (exec a w).
Proof.
  destruct a as [d|c|c lost|c|c b|c r]; simpl; try done;
    destruct (clients w !! c) as [[[m|lg key cli k|lg key value ver cli k|k|k] [|t|i]]|]; try done;
    try (by apply prefix_app_r); try (by destruct (hist w !! i)). by destruct (0 <=? r).
Qed.

Lemma run_hist acts (w : World A) : hist w `prefix_of` hist (run acts w).
Proof.
  revert w. induction acts as [|a acts IH]; intros w; [done|]. etrans; [apply exec_hist|apply IH].
Qed.

Lemma run_clients acts (w : World A) : length (clients (run acts w)) = length (clients w).
Proof.
  revert w. induction acts as [|a acts IH]; intros w; [done|].
  change (run (a :: acts) w) with (run acts (exec a w)). by rewrite IH, exec_clients.
Qed.

(** Every client that starts with its precondition keeps it, and at the end
    has its postcondition: none has ended in anything else. *)
Lemma run_wp acts (w : World A) :
  (lossy = false → Forall keeps_replies acts) → bounded (hist (run acts w)) → all_ok w →
  all_ok (run acts w) ∧ made_by (length (clients w)) (hist w) (hist (run acts w)).
Proof.
  revert w. induction acts as [|a acts IH]; intros w Hl Hb Hw; [split; [done|apply grows_refl]|].
  assert (bounded (hist w)) as Hbw by (destruct (run_hist (a :: acts) w) as [E HE]; rewrite HE in Hb; eauto with godb).
  assert (lossy = false → keeps_replies a) as Ha by (intros E; by apply Forall_cons in Hl as [? _]).
  destruct (IH (exec a w)) as [Hok Hmade]; [|done|by apply exec_ok|].
  { intros E. by apply Forall_cons in Hl as [_ ?]. }
  split; [done|]. eapply grows_trans; [by apply exec_made|]. by rewrite exec_clients in Hmade.
Qed.

Lemma spawn_ok H (fns : list (prog A)) :
  (∀ c p, fns !! c = Some p → wp c (Q c) p H) → all_ok (spawn H fns).
Proof.
  intros Hfns c cl. simpl. rewrite list_lookup_fmap.
  destruct (fns !! c) as [p|] eqn:Hp; [|done]. intros [= <-]. by apply Hfns.
Qed.

(** What the clients returned is what their postconditions say. *)
Lemma results_ok w rs :
  all_ok w → results w = Some rs →
  length rs = length (clients w) ∧ ∀ c r, rs !! c = Some r → Q c r (hist w).
Proof.
  intros Hw Hrs%mapM_Some. split; [by rewrite (Forall2_length _ _ _ Hrs)|].
  intros c r Hr. destruct (Forall2_lookup_r _ _ _ _ _ Hrs Hr) as (cl & Hcl & Hc).
  pose proof (Hw c cl Hcl) as Hok. unfold client_ok in Hok.
  destruct (code cl) as [[a| | |]| | | |] eqn:E; simplify_eq. by destruct (at_phase cl).
Qed.
End Sound.
End Logic.
