(* ===== verification/KVTestProps.v ===== *)
(** * KVTestProps: the key/value harness against a documented service

    What a documented service guarantees of versions, and what follows for
    the functions of [KVTest]: the concurrent clients never fail a correct
    service, the final count of the puts is right, and a put that must happen
    does. *)

From S2P Require Import Prelude Models KVTest KVServer KVLogic.

Local Open Scope Z_scope.

Section Service.
Context {SV : Service} {SVD : Documented SV}.

(** ** The store *)
Definition version_at (H : history) (key : string) : Z := s_Version (model_of (store_of H !! key)).

Lemma store_of_snoc H e : store_of (H ++ [e]) = execute (store_of H) e.
Proof. apply foldl_snoc. Qed.

Lemma store_of_get c lg key cli t now H : store_of (H ++ [get_event c lg key cli t now H]) = store_of H.
Proof. rewrite store_of_snoc. unfold get_event. by destruct (Get_ _ _) as [[??]?]. Qed.

Lemma execute_cases σ e :
  execute σ e = σ ∨
  ∃ s, Op (e_input e) = 1 ∧ s = mkKvState (Value (e_input e)) (uint64 (Version (e_input e) + 1)) ∧
    s_Version (model_of (σ !! Key (e_input e))) = Version (e_input e) ∧
    execute σ e = <[Key (e_input e) := s]> σ.
Proof.
  unfold execute, server_Put, documented_Put. destruct (Z.eqb_spec (Op (e_input e)) 1) as [Hop|]; [|by left].
  destruct (σ !! Key (e_input e)) as [s|] eqn:Hs; simpl.
  - destruct (Z.eqb_spec (s_Version s) (Version (e_input e))) as [E|]; simpl; [|left; by apply insert_id].
    right. eexists. split_and!; [done|reflexivity|done|by rewrite E].
  - destruct (Z.eqb_spec (Version (e_input e)) 0) as [E|]; simpl; [|by left].
    right. eexists. split_and!; [done|reflexivity|done|by rewrite E].
Qed.

Lemma version_bound H key s :
  bounded H → store_of H !! key = Some s → 0 < s_Version s <= Z.of_nat (length H).
Proof.
  unfold bounded. revert s. induction H as [|e H IH] using rev_ind; intros s Hb; [done|].
  rewrite length_app in *. simpl in *. rewrite store_of_snoc.
  destruct (execute_cases (store_of H) e) as [->|(s' & Hop & -> & Hv & ->)].
  - intros Hs. specialize (IH s ltac:(lia) Hs). lia.
  - rewrite lookup_insert. case_decide as Ek; [|intros Hs; specialize (IH s ltac:(lia) Hs); lia].
    intros [= <-]. simpl. subst key.
    assert (0 <= Version (e_input e) <= Z.of_nat (length H)).
    { destruct (store_of H !! Key (e_input e)) as [s0|] eqn:Hs0; simpl in Hv; [|lia].
      specialize (IH s0 ltac:(lia) eq_refl). lia. }
    rewrite uint64_id by lia. lia.
Qed.

(** A key that has the version it had has the value it had. *)
Lemma store_grows H H' key s :
  H `prefix_of` H' → bounded H' → store_of H !! key = Some s →
  ∃ s', store_of H' !! key = Some s' ∧ (s' = s ∨ s_Version s < s_Version s').
Proof.
  intros [E ->]. induction E as [|e E IH] using rev_ind; intros Hb Hs.
  { rewrite app_nil_r. eauto. }
  rewrite app_assoc in *. destruct (IH ltac:(by eapply bounded_app) Hs) as (s1 & Hs1 & Hv).
  rewrite store_of_snoc. destruct (execute_cases (store_of (H ++ E)) e) as [->|(s' & Hop & -> & Hver & ->)]; [eauto|].
  rewrite lookup_insert. case_decide as Ek; [|eauto]. subst key.
  eexists. split; [reflexivity|]. right. simpl.
  pose proof (version_bound _ _ _ ltac:(by eapply bounded_app) Hs1) as Hb1.
  rewrite Hs1 in Hver. simpl in Hver. unfold bounded in Hb. rewrite length_app in Hb. simpl in Hb.
  rewrite uint64_id by lia. destruct Hv as [->|]; lia.
Qed.

Lemma same_version_same_value H H' key s :
  H `prefix_of` H' → bounded H' → store_of H !! key = Some s → version_at H' key = s_Version s →
  store_of H' !! key = Some s.
Proof.
  intros Hp Hb Hs Hv. destruct (store_grows H H' key s Hp Hb Hs) as (s' & Hs' & [->|Hlt]); [done|].
  unfold version_at in Hv. rewrite Hs' in Hv. simpl in Hv. lia.
Qed.

Lemma key_persists H H' key :
  H `prefix_of` H' → bounded H' → is_Some (store_of H !! key) → is_Some (store_of H' !! key).
Proof. intros Hp Hb [s Hs]. destruct (store_grows H H' key s Hp Hb Hs) as (s' & -> & _). eauto. Qed.

(** ** What a put does *)
Variant put_outcome (H : history) (key value : string) (ver : Z) (lost : bool) (e : event) : Prop :=
| put_executed :
    version_at H key = ver → put_reply e = (if lost then ErrMaybe else OK) →
    store_of (H ++ [e]) = <[key := mkKvState value (ver + 1)]> (store_of H) →
    put_outcome H key value ver lost e
| put_refused :
    is_Some (store_of H !! key) → version_at H key ≠ ver →
    put_reply e = (if lost then ErrMaybe else ErrVersion) → store_of (H ++ [e]) = store_of H →
    put_outcome H key value ver lost e
| put_no_key :
    store_of H !! key = None → ver ≠ 0 → put_reply e = ErrNoKey → store_of (H ++ [e]) = store_of H →
    put_outcome H key value ver lost e.

Lemma put_event_cases c lg key value ver cli lost t now H :
  bounded H → put_outcome H key value ver lost (put_event c lg key value ver cli lost t now H).
Proof.
  intros Hb. pose proof (version_bound H key) as Hv. unfold bounded in Hb.
  assert (∀ e, put_reply (put_event c lg key value ver cli lost t now H) = e →
    store_of (H ++ [put_event c lg key value ver cli lost t now H]) = (server_Put (store_of H) key value ver).2) as Hst.
  { intros e _. by rewrite store_of_snoc. }
  specialize (Hst _ eq_refl). rewrite put_event_eq in *. unfold put_reply. simpl in *.
  unfold server_Put, documented_Put in *. destruct (store_of H !! key) as [s|] eqn:Hs.
  - specialize (Hv s ltac:(unfold bounded; lia) eq_refl). destruct (Z.eqb_spec (s_Version s) ver) as [<-|Hne].
    + apply put_executed; [by unfold version_at; rewrite Hs|by destruct lost|].
      rewrite Hst. simpl. by rewrite uint64_id by lia.
    + apply put_refused; [by rewrite Hs|by unfold version_at; rewrite Hs|by destruct lost|].
      rewrite Hst. simpl. by apply insert_id.
  - destruct (Z.eqb_spec ver 0) as [->|Hne].
    + apply put_executed; [by unfold version_at; rewrite Hs|by destruct lost|by rewrite Hst].
    + apply put_no_key; [done|done|by destruct lost|by rewrite Hst].
Qed.

Lemma get_reply_eq c lg key cli t now H : get_reply (get_event c lg key cli t now H) = server_Get (store_of H) key.
Proof. rewrite get_event_eq. by destruct (server_Get _ _) as [[??]?]. Qed.

(** ** Counting the puts of a client *)
Definition is_put (c : nat) (err : string) (e : event) : Prop :=
  e_by e = c ∧ Op (e_input e) = 1 ∧ put_reply e = err.

#[export] Instance is_put_dec c err e : Decision (is_put c err e).
Proof. unfold is_put. apply _. Defined.

Definition puts (c : nat) (err : string) (H : history) : Z := Z.of_nat (length (filter (is_put c err) H)).

Lemma puts_snoc c err H e : puts c err (H ++ [e]) = puts c err H + (if decide (is_put c err e) then 1 else 0).
Proof. unfold puts. rewrite filter_app, length_app, filter_cons. case_decide; simpl; lia. Qed.

Lemma puts_bound c err H : 0 <= puts c err H <= Z.of_nat (length H).
Proof. unfold puts. pose proof (length_filter (is_put c err) H). lia. Qed.

Lemma puts_mono c err H H' : H `prefix_of` H' → puts c err H <= puts c err H'.
Proof. intros [E ->]. unfold puts. rewrite filter_app, length_app. lia. Qed.

Lemma puts_others lossy G c err H H' : others lossy G c H H' → puts c err H' = puts c err H.
Proof.
  induction 1 as [|H' e Ho IH _ [Hne _]]; [done|]. rewrite puts_snoc, IH, decide_False; [lia|]. by intros [? _].
Qed.

Lemma puts_get c c' lg key cli t now H err : puts c err (H ++ [get_event c' lg key cli t now H]) = puts c err H.
Proof.
  rewrite puts_snoc, decide_False; [lia|]. unfold get_event. destruct (Get_ _ _) as [[??]?].
  by intros (_ & ? & _).
Qed.

Lemma puts_put c lg key value ver cli lost t now H err :
  let e := put_event c lg key value ver cli lost t now H in
  puts c err (H ++ [e]) = puts c err H + (if decide (put_reply e = err) then 1 else 0).
Proof. intros e. rewrite puts_snoc. f_equal. apply decide_ext. unfold is_put. naive_solver. Qed.

#[local] Arguments get_reply : simpl never.
#[local] Arguments put_reply : simpl never.
#[local] Arguments get_event : simpl never.
#[local] Arguments put_event : simpl never.

(** ** The programs' operations, in the logic *)
Section Rules.
Context (lossy : bool) (G : history → event → Prop) {B : Type} (c : nat) (Q : B → history → Prop).

Lemma wp_Get (f : string * Z * string → prog B) key cli H :
  (∀ H' start now, others lossy G c H H' → bounded H' →
    let e := get_event c true key cli start now H' in
    G H' e ∧ wp lossy G c Q (f (server_Get (store_of H') key)) (H' ++ [e])) →
  wp lossy G c Q (Get key cli ≫= f) H.
Proof. simpl. intros Hwp H' start now Ho Hb. rewrite get_reply_eq. by apply Hwp. Qed.

Lemma wp_PutJson {V} {JV : Json V} {JL : JsonLaws V} (f : string → prog B) key (v : V) ver cli H :
  (∀ b H' lost start now, Marshal v = Some b → Unmarshal b = Some v → others lossy G c H H' → bounded H' →
    (lossy = false → lost = false) →
    let e := put_event c true key b ver cli lost start now H' in
    G H' e ∧ wp lossy G c Q (f (put_reply e)) (H' ++ [e])) →
  wp lossy G c Q (PutJson key v ver cli ≫= f) H.
Proof.
  unfold PutJson. destruct (json_roundtrip v) as (b & -> & Hb). simpl. intros Hwp H' lost start now Ho Hbd Hl.
  by apply Hwp.
Qed.

(** [GetJson] of a key that exists and holds a value of the type. *)
Lemma wp_GetJson {V} {JV : Json V} (f : V * Z → prog B) key cli H :
  (∀ H' start now, others lossy G c H H' → bounded H' →
    let e := get_event c true key cli start now H' in
    ∃ s v, store_of H' !! key = Some s ∧ Unmarshal (s_Value s) = Some v ∧
      G H' e ∧ wp lossy G c Q (f (v, s_Version s)) (H' ++ [e])) →
  wp lossy G c Q (GetJson key cli ≫= f) H.
Proof.
  intros Hwp. unfold GetJson. simpl. intros H' start now Ho Hb.
  destruct (Hwp H' start now Ho Hb) as (s & v & Hs & Hv & HG & Hf). split; [exact HG|].
  pose proof (get_reply_eq c true key cli start now H') as E. unfold server_Get in E. rewrite Hs in E.
  unfold get_reply in E. injection E as -> -> ->. simpl. by rewrite Hv.
Qed.
End Rules.

(** The same for a program on its own. *)
Lemma alone_GetJson {V B} {JV : Json V} (f : V * Z → prog B) key cli os H s v :
  store_of H !! key = Some s → Unmarshal (s_Value s) = Some v →
  alone (GetJson key cli ≫= f) os H = alone (f (v, s_Version s)) os (H ++ [get_event 0 true key cli 0 0 H]).
Proof.
  intros Hs Hv. unfold GetJson. simpl.
  pose proof (get_reply_eq 0 true key cli 0 0 H) as E. unfold server_Get in E. rewrite Hs in E.
  unfold get_reply in E. injection E as -> -> ->. simpl. by rewrite Hv.
Qed.

(** ** Clients of [OneClientPut] *)
Section Puts.
Context {JV : Json EntryV} {JL : JsonLaws EntryV} (lossy : bool) (ka : list string) (randomkeys : bool).

(** What the clients guarantee: they put entries, to their keys; a reply is not lost
    unless the network loses replies. *)
Definition put_entries (H : history) (e : event) : Prop :=
  Op (e_input e) = 1 →
  Key (e_input e) ∈ ka ∧ is_Some (Unmarshal (V := EntryV) (Value (e_input e))) ∧
  (lossy = false → put_reply e ≠ ErrMaybe).

Definition entries_stored (H : history) : Prop :=
  ∀ key s, key ∈ ka → store_of H !! key = Some s → is_Some (Unmarshal (V := EntryV) (s_Value s)).

Lemma entries_stored_nil : entries_stored [].
Proof. intros key s _. change (store_of []) with (∅ : kvstore). by rewrite lookup_empty. Qed.

Lemma put_entries_get c lg key cli t now H : put_entries H (get_event c lg key cli t now H).
Proof. unfold put_entries, get_event. by destruct (Get_ _ _) as [[??]?]. Qed.

Lemma put_entries_put c lg key value ver cli lost t now H :
  key ∈ ka → is_Some (Unmarshal (V := EntryV) value) → (lossy = false → lost = false) → bounded H →
  put_entries H (put_event c lg key value ver cli lost t now H).
Proof.
  intros Hk Hv Hl Hb _. simpl. split_and!; [done|done|]. intros E. rewrite (Hl E).
  by destruct (put_event_cases c lg key value ver cli false t now H Hb) as [_ -> _|_ _ -> _|_ _ -> _].
Qed.

Lemma entries_stored_step H e : put_entries H e → entries_stored H → entries_stored (H ++ [e]).
Proof.
  intros He HI key s Hk. rewrite store_of_snoc.
  destruct (execute_cases (store_of H) e) as [->|(s' & Hop & -> & _ & ->)]; [by apply HI|].
  rewrite lookup_insert. case_decide as E; [|by apply HI]. intros [= <-]. simpl. by apply He.
Qed.

Lemma entries_stored_grows P H H' :
  (∀ H e, P H e → put_entries H e) → grows lossy P H H' → entries_stored H → entries_stored H'.
Proof. intros HP. induction 1 as [|H' e Hg IH _ He]; [done|]. intros HI. apply entries_stored_step; auto. Qed.

(** The versions a client starts from: 0, or that of a key it has seen. *)
Definition ver_ok (H : history) (key : string) (ver : Z) : Prop :=
  ver = 0 ∨ ∃ H1, H1 `prefix_of` H ∧ is_Some (store_of H1 !! key).

Lemma ver_ok_prefix H H' key ver : H `prefix_of` H' → ver_ok H key ver → ver_ok H' key ver.
Proof. intros Hp [->|(H1 & H1p & Hs)]; [by left|right]. exists H1. split; [by etrans|done]. Qed.

Definition fits (H : history) : Prop := Z.of_nat (length H) <= 2 ^ 62.

Lemma bounded_fits H e : bounded H → fits (H ++ [e]).
Proof. unfold bounded, fits. rewrite length_app. simpl. lia. Qed.

Abbreviation others := (others lossy put_entries).
Abbreviation wp := (wp lossy put_entries).

Lemma entries_stored_others c H H' : others c H H' → entries_stored H → entries_stored H'.
Proof. apply entries_stored_grows. by intros ? ? [_ ?]. Qed.

(** What one [OnePut] changes in the count of client [c]. *)
Definition one_put_done (c : nat) (key : string) (H H' : history) (ok : bool) : Prop :=
  entries_stored H' ∧ fits H' ∧ H `prefix_of` H' ∧ is_Some (store_of H' !! key) ∧
  puts c OK H' = puts c OK H + (if ok then 1 else 0) ∧
  puts c ErrMaybe H' = puts c ErrMaybe H + (if ok then 0 else 1).

(** The put of a client that knows the key, or tries version 0. *)
Lemma known_put c me key ver b lost t1 t2 H :
  bounded H → ver_ok H key ver →
  let e := put_event c true key b ver me lost t1 t2 H in
  is_Some (store_of (H ++ [e]) !! key) ∧
  (put_reply e = OK ∨ put_reply e = ErrVersion ∨ put_reply e = ErrMaybe) ∧
  (put_reply e = OK → store_of (H ++ [e]) !! key = Some (mkKvState b (ver + 1))).
Proof.
  intros Hb Hver e.
  destruct (put_event_cases c true key b ver me lost t1 t2 H Hb) as [Hv Hr Hst|Hs Hv Hr Hst|Hs Hv Hr Hst];
    fold e in Hr, Hst; rewrite Hr, Hst.
  - rewrite lookup_insert_eq. split_and!; [done|destruct lost; auto|done].
  - split_and!; [done|destruct lost; auto|by destruct lost].
  - destruct Hver as [|(H0 & Hp & Hsome)]; [done|].
    destruct (key_persists H0 H key) as [s Hs']; [done|done|done|congruence].
Qed.

(** A key read at the version a put made has the value that was put. *)
Lemma own_value H H' key b ver s :
  H `prefix_of` H' → bounded H' → store_of H !! key = Some (mkKvState b (ver + 1)) →
  store_of H' !! key = Some s → s_Version s = uint64 (ver + 1) → s_Value s = b.
Proof.
  intros Hp Hb' Hmine Hs Hver. assert (bounded H) as Hb by (destruct Hp as [E ->]; by eapply bounded_app).
  pose proof (version_bound _ _ _ Hb Hmine) as Hv. simpl in Hv. unfold bounded in Hb.
  rewrite uint64_id in Hver by lia.
  rewrite (same_version_same_value _ _ _ _ Hp Hb' Hmine) in Hs by (unfold version_at; by rewrite Hs).
  by injection Hs as <-.
Qed.

Lemma wp_OnePut c me (Q : Z * bool → history → Prop) fuel key : ∀ ver H,
  key ∈ ka → entries_stored H → ver_ok H key ver →
  (∀ v ok H', one_put_done c key H H' ok → Q (v, ok) H') →
  wp c Q (OnePut fuel me key ver) H.
Proof.
  induction fuel as [|fuel IH]; intros ver H Hk HI Hver HQ; [done|].
  cbn [OnePut]. apply wp_PutJson; [exact JL|]. intros b H1 lost t1 t2 Hm Hu Ho1 Hb1 Hl e1.
  assert (entries_stored H1) as HI1 by (by eapply entries_stored_others).
  assert (put_entries H1 e1) as HG1 by (by apply put_entries_put).
  split; [exact HG1|].
  destruct (known_put c me key ver b lost t1 t2 H1 Hb1) as (Hex & Hnk & Hmine).
  { eapply ver_ok_prefix; [by eapply grows_prefix|done]. }
  fold e1 in Hex, Hnk, Hmine.
  assert (∀ v, bool_decide (put_reply e1 = OK) || bool_decide (put_reply e1 = ErrVersion)
    || bool_decide (put_reply e1 = ErrMaybe) = v → v = true) as Herr.
  { intros [] E; [done|]. rewrite !orb_false_iff, !bool_decide_eq_false in E. tauto. }
  rewrite (Herr _ eq_refl). cbn [negb].
  apply wp_GetJson. intros H2 t3 t4 Ho2 Hb2 e2.
  assert (entries_stored H2) as HI2 by (eapply entries_stored_others; [done|]; by apply entries_stored_step).
  destruct (key_persists (H1 ++ [e1]) H2 key) as [s2 Hs2]; [by eapply grows_prefix|done|done|].
  destruct (HI2 key s2 Hk Hs2) as [v2 Hv2].
  exists s2, v2. split; [done|]. split; [done|]. split; [apply put_entries_get|].
  assert (∀ err, puts c err (H2 ++ [e2]) = puts c err H + (if decide (put_reply e1 = err) then 1 else 0)) as Hcount.
  { intros err. unfold e2. rewrite puts_get, (puts_others _ _ _ _ _ _ Ho2). unfold e1.
    by rewrite puts_put, (puts_others _ _ _ _ _ _ Ho1). }
  assert (∀ ok, (put_reply e1 = if ok : bool then OK else ErrMaybe) → one_put_done c key H (H2 ++ [e2]) ok) as Hdone.
  { intros ok Hr. unfold one_put_done. rewrite !Hcount, Hr. unfold e2. rewrite store_of_get.
    split_and!; [by apply entries_stored_step; [apply put_entries_get|]|by apply bounded_fits| |done|by destruct ok..].
    etrans; [by eapply grows_prefix|]. apply prefix_app_r. etrans; [|by eapply grows_prefix]. by apply prefix_app_r. }
  destruct (_ && _ && _) eqn:Hwrong.
  { apply andb_true_iff in Hwrong as [[Hok%bool_decide_eq_true Hver0%Z.eqb_eq]%andb_true_iff Hid].
    rewrite (own_value _ _ _ _ _ _ (grows_prefix _ _ _ _ Ho2) Hb2 (Hmine Hok) Hs2 Hver0), Hu in Hv2. injection Hv2 as <-.
    simpl in Hid. by rewrite Z.eqb_refl in Hid. }
  destruct (decide (put_reply e1 = OK)) as [E|E].
  { rewrite bool_decide_eq_true_2 by done. apply HQ. by apply Hdone. }
  destruct (decide (put_reply e1 = ErrMaybe)) as [E'|E'].
  { rewrite bool_decide_eq_false_2, bool_decide_eq_true_2 by done. apply HQ. by apply Hdone. }
  rewrite !bool_decide_eq_false_2 by done. cbn [orb].
  apply IH; [done| | |].
  - by apply entries_stored_step; [apply put_entries_get|].
  - right. exists (H2 ++ [e2]). split; [done|]. unfold e2. by rewrite store_of_get.
  - intros v ok H' (HI' & Hf & Hp & Hs & Hok & Hmay). apply HQ. unfold one_put_done.
    rewrite Hok, Hmay, !Hcount, !(decide_False (P := put_reply e1 = _)) by done.
    split_and!; [done|done| |done|lia|lia].
    etrans; [|exact Hp]. apply prefix_app_r. etrans; [|by eapply grows_prefix].
    apply prefix_app_r. by eapply grows_prefix.
Qed.

Lemma wp_pick_key c (Q : string → history → Prop) H :
  ka ≠ [] → (∀ k, k ∈ ka → Q k H) → wp c Q (pick_key randomkeys ka) H.
Proof.
  intros Hka HQ. unfold pick_key. destruct ka as [|k ka'] eqn:E; [done|]. simpl.
  destruct randomkeys; [|apply HQ; by left]. intros r Hr.
  set (i := Z.rem r (Z.of_nat (S (length ka')))).
  assert (0 <= i < Z.of_nat (S (length ka'))) as Hi by (apply Z.rem_bound_pos; lia).
  destruct (lookup_lt_is_Some_2 (k :: ka') (Z.to_nat i)) as [x Hx]; [simpl; lia|].
  rewrite <- (Z2Nat.id i), (slice_get_Some _ _ _ Hx) by lia.
  apply HQ. by eapply list_elem_of_lookup_2.
Qed.

(** The results count the client's own puts, from [a] and [b] on. *)
Definition counts (c : nat) (a b : Z) (res : ClntRes) (H : history) : Prop :=
  Nok res = puts c OK H - a ∧ Nmaybe res = puts c ErrMaybe H - b.

Lemma counts_stable c a b res : stable lossy put_entries c (counts c a b res).
Proof. intros H H' Ho. unfold counts. by rewrite !(puts_others _ _ _ _ _ _ Ho). Qed.

Lemma wp_one_client_put c cli a b fuel : ∀ verm res H,
  ka ≠ [] → 0 <= a → 0 <= b → entries_stored H → fits H →
  (∀ k, ver_ok H k (default 0 (verm !! k))) →
  a <= puts c OK H → b <= puts c ErrMaybe H → counts c a b res H →
  wp c (counts c a b) (one_client_put randomkeys fuel cli ka verm res) H.
Proof.
  induction fuel as [|fuel IH]; intros verm res H Hka Ha Hb HI Hf Hver Hao Hbo [Hn1 Hn2]; [done|].
  intros []; [done|]. apply wp_bind, wp_pick_key; [done|]. intros k Hk.
  apply wp_bind, wp_OnePut; [done|done|done|].
  intros v ok H' (HI' & Hf' & Hp & Hs & Hok & Hmay).
  pose proof (puts_bound c OK H). pose proof (puts_bound c ErrMaybe H). unfold fits in Hf.
  apply IH; [done|done|done|done|done| |destruct ok; lia|destruct ok; lia|].
  - intros k'. rewrite lookup_insert. case_decide as E; [|by eapply ver_ok_prefix].
    subst k'. right. by exists H'.
  - unfold counts. rewrite Hok, Hmay.
    destruct ok; simpl; rewrite int64_id by lia; lia.
Qed.

Lemma wp_OneClientPut c cli fuel H :
  ka ≠ [] → entries_stored H → fits H →
  wp c (counts c (puts c OK H) (puts c ErrMaybe H)) (OneClientPut randomkeys fuel cli ka) H.
Proof.
  intros Hka HI Hf. apply wp_one_client_put; try done; [apply puts_bound|apply puts_bound| |].
  - intros k. left. destruct (_ !! k) as [v|] eqn:E; [|done]. simpl.
    apply elem_of_list_to_map_2, list_elem_of_fmap in E as (? & [= _ ->] & _). done.
  - unfold counts. simpl. lia.
Qed.
End Puts.

(** ** Totals over the clients *)
Fixpoint sumZ (l : list Z) : Z := match l with [] => 0 | x :: l => x + sumZ l end.

Definition total (err : string) (n : nat) (H : history) : Z := sumZ ((λ c, puts c err H) <$> seq 0 n).

Lemma sumZ_app l1 l2 : sumZ (l1 ++ l2) = sumZ l1 + sumZ l2.
Proof. induction l1 as [|x l1 IH]; [done|]. simpl. rewrite IH. lia. Qed.

Lemma sumZ_nonneg {A} (f : A → Z) l : Forall (λ x, 0 <= f x) l → 0 <= sumZ (f <$> l).
Proof. induction 1; [done|]. cbn. lia. Qed.

Lemma total_snoc err n H e :
  total err n (H ++ [e]) = total err n H +
    (if decide ((e_by e < n)%nat ∧ is_put (e_by e) err e) then 1 else 0).
Proof.
  unfold total. induction n as [|n IH].
  { cbn [seq fmap list_fmap sumZ]. case_decide; lia. }
  rewrite seq_S, !fmap_app, !sumZ_app, IH. cbn [fmap list_fmap sumZ foldr]. rewrite puts_snoc.
  unfold is_put. cbn [Nat.add]. destruct (lt_eq_lt_dec (e_by e) n) as [[]|];
    repeat case_decide; try lia; exfalso; naive_solver lia.
Qed.

Section Total.
Context {JV : Json EntryV} {JL : JsonLaws EntryV} (lossy : bool) (key : string).

(** Every put that was executed was answered OK or [ErrMaybe], and every put
    answered OK was executed. *)
Lemma genuine_version H e :
  bounded H → genuine lossy H e → put_entries lossy [key] H e →
  let made err := if decide (is_put (e_by e) err e) then 1 else 0 in
  version_at H key + made OK <= version_at (H ++ [e]) key <= version_at H key + made OK + made ErrMaybe ∧
  (lossy = false → made ErrMaybe = 0) ∧ made OK + made ErrMaybe <= 1.
Proof.
  intros Hb Hg He made. destruct Hg as [c lg k cli t now|c lg k value ver cli lost t now Hl].
  - assert (∀ err, made err = 0) as Hm.
    { intros err. unfold made. rewrite decide_False; [done|]. unfold is_put, get_event.
      by destruct (Get_ _ _) as [[??]?]; intros (_ & ? & _). }
    rewrite !Hm. unfold version_at. rewrite store_of_get. lia.
  - assert (k = key) as -> by (apply list_elem_of_singleton; exact (proj1 (He eq_refl))).
    set (e := put_event _ _ _ _ _ _ _ _ _ _) in *.
    assert (∀ err, made err = if decide (put_reply e = err) then 1 else 0) as Hm.
    { intros err. unfold made. apply decide_ext. unfold is_put. naive_solver. }
    rewrite !Hm. unfold version_at.
    destruct (put_event_cases c lg key value ver cli lost t now H Hb) as [Hv Hr Hst|Hs Hv Hr Hst|Hs Hv Hr Hst];
      fold e in Hr, Hst; rewrite Hr, Hst; simpl; [rewrite lookup_insert_eq; unfold version_at in Hv; simpl|..].
    + destruct lost; simpl; (split_and!; [lia..| |lia]); intros E; try done. by specialize (Hl E).
    + destruct lost; simpl; (split_and!; [lia..| |lia]); intros E; try done. by specialize (Hl E).
    + simpl. lia.
Qed.

Lemma total_version n H H' :
  made_by lossy (put_entries lossy [key]) n H H' → bounded H' →
  let d err := total err n H' - total err n H in
  version_at H key + d OK <= version_at H' key <= version_at H key + d OK + d ErrMaybe ∧
  (lossy = false → d ErrMaybe = 0) ∧ d OK + d ErrMaybe <= Z.of_nat (length H') - Z.of_nat (length H) ∧
  0 <= d OK ∧ 0 <= d ErrMaybe.
Proof.
  intros Hmade Hb. cbv zeta. induction Hmade as [|H' e Hm IH Hg [Hn HG]]; [lia|].
  specialize (IH (bounded_app _ _ Hb)).
  pose proof (genuine_version H' e (bounded_app _ _ Hb) Hg HG) as Hv. cbv zeta in Hv.
  rewrite !total_snoc, length_app. simpl.
  assert (∀ err, (if decide ((e_by e < n)%nat ∧ is_put (e_by e) err e) then 1 else 0) =
    (if decide (is_put (e_by e) err e) then 1 else 0)) as E by (intros err; apply decide_ext; tauto).
  rewrite !E. destruct IH as (IH1 & IHl & IH2), Hv as (Hv1 & Hvl & Hv2).
  split_and!; [repeat case_decide; lia..| |repeat case_decide; lia|repeat case_decide; lia|repeat case_decide; lia].
  intros El. specialize (IHl El). specialize (Hvl El). lia.
Qed.

(** ** The check of the puts *)

(** [res] counts the puts on the key so far. *)
Definition counted (H : history) (res : ClntRes) : Prop :=
  0 <= Nok res ∧ 0 <= Nmaybe res ∧ Nok res + Nmaybe res <= Z.of_nat (length H) ∧
  version_at H key <= Nok res + Nmaybe res ∧
  (lossy = false → version_at H key = Nok res).

Lemma foldl_add_res rs : ∀ res,
  0 <= Nok res → 0 <= Nmaybe res → Forall (λ r, 0 <= Nok r ∧ 0 <= Nmaybe r) rs →
  Nok res + sumZ (Nok <$> rs) < 2 ^ 63 → Nmaybe res + sumZ (Nmaybe <$> rs) < 2 ^ 63 →
  foldl add_res res rs = mkClntRes (Nok res + sumZ (Nok <$> rs)) (Nmaybe res + sumZ (Nmaybe <$> rs)).
Proof.
  induction rs as [|r rs IH]; intros res H1 H2 Hrs Hs1 Hs2; cbn [fmap list_fmap sumZ foldl] in *.
  { destruct res. simpl. f_equal; lia. }
  apply Forall_cons in Hrs as [[Hr1 Hr2] Hrs].
  assert (0 <= sumZ (Nok <$> rs)) by (apply sumZ_nonneg; eapply Forall_impl; [exact Hrs|]; by intros ? []).
  assert (0 <= sumZ (Nmaybe <$> rs)) by (apply sumZ_nonneg; eapply Forall_impl; [exact Hrs|]; by intros ? []).
  assert (add_res res r = mkClntRes (Nok res + Nok r) (Nmaybe res + Nmaybe r)) as ->.
  { unfold add_res. by rewrite !int64_id by lia. }
  rewrite IH; simpl; [f_equal; lia|lia|lia|done|lia|lia].
Qed.

(** What the clients returned, summed up. *)
Lemma sum_results n rs H0 H err (f : ClntRes → Z) :
  length rs = n → (∀ c r, rs !! c = Some r → f r = puts c err H - puts c err H0) →
  sumZ (f <$> rs) = total err n H - total err n H0.
Proof.
  intros <-. unfold total. induction rs as [|r rs IH] using rev_ind; intros Hrs; [done|].
  rewrite length_app, seq_app, !fmap_app, !sumZ_app, IH.
  2:{ intros c r' Hr. apply Hrs. by apply lookup_app_l_Some. }
  cbn. rewrite (Hrs (length rs) r) by (by apply list_lookup_middle). lia.
Qed.

Lemma fmap_seq_lookup {A} (f : nat → A) n c x : (f <$> seq 0 n) !! c = Some x → x = f c ∧ (c < n)%nat.
Proof.
  rewrite list_lookup_fmap. destruct (seq 0 n !! c) as [d|] eqn:E; [|done].
  apply lookup_seq in E as [-> Hc]. by intros [= <-].
Qed.

(** The clients of [OneClientPut], spawned after a history. *)
Definition put_clients (randomkeys : bool) (fuel n : nat) (ka : list string) : list (prog ClntRes) :=
  (λ c, OneClientPut randomkeys fuel (Z.of_nat c) ka) <$> seq 0 n.

Lemma put_clients_run randomkeys fuel n ka H0 acts :
  let w := run acts (spawn H0 (put_clients randomkeys fuel n ka)) in
  ka ≠ [] → entries_stored ka H0 → bounded (hist w) → (lossy = false → Forall keeps_replies acts) →
  all_ok lossy (put_entries lossy ka) (λ c, counts c (puts c OK H0) (puts c ErrMaybe H0)) w ∧
  made_by lossy (put_entries lossy ka) n H0 (hist w).
Proof.
  intros w Hka HI Hb Hl.
  destruct (run_wp lossy (put_entries lossy ka) (λ c, counts c (puts c OK H0) (puts c ErrMaybe H0))
    (λ c r, counts_stable lossy ka c _ _ r) acts (spawn H0 (put_clients randomkeys fuel n ka)) Hl Hb) as [Hok Hmade].
  - apply spawn_ok. intros c p [-> _]%fmap_seq_lookup. apply wp_OneClientPut; [done|done|].
    destruct (run_hist acts (spawn H0 (put_clients randomkeys fuel n ka))) as [E HE].
    fold w in HE. rewrite HE in Hb. unfold bounded, fits in *. rewrite length_app in Hb. simpl in Hb. lia.
  - split; [done|]. unfold spawn, put_clients in Hmade. cbn [clients hist] in Hmade.
    by rewrite !length_fmap, length_seq in Hmade.
Qed.

(** Clients that put concurrently never fail a correct service: whatever
    the interleaving, the lost replies and the random keys, no client ends in
    [Fatalf] or in a panic. *)
Theorem put_clients_never_fail randomkeys fuel n ka H0 acts c cl m :
  let w := run acts (spawn H0 (put_clients randomkeys fuel n ka)) in
  ka ≠ [] → entries_stored ka H0 → bounded (hist w) → (lossy = false → Forall keeps_replies acts) →
  clients w !! c = Some cl → code cl = Ends m → (∃ res, m = Done res) ∨ m = Diverge.
Proof.
  intros w Hka HI Hb Hl Hcl Hm. destruct (put_clients_run randomkeys fuel n ka H0 acts Hka HI Hb Hl) as [Hok _].
  specialize (Hok c cl Hcl). unfold client_ok in Hok. rewrite Hm in Hok.
  destruct (at_phase cl), m as [res| | |]; simpl in Hok; eauto; done.
Qed.

(** One round of clients keeps the sums right. *)
Lemma put_round randomkeys fuel n H0 acts rs res0 :
  let w := run acts (spawn H0 (put_clients randomkeys fuel n [key])) in
  entries_stored [key] H0 → bounded (hist w) → (lossy = false → Forall keeps_replies acts) →
  counted H0 res0 → results w = Some rs →
  entries_stored [key] (hist w) ∧ counted (hist w) (foldl add_res res0 rs).
Proof.
  intros w HI Hb Hl (Hp1 & Hp2 & Hlen & Hver & Hrel) Hrs.
  destruct (put_clients_run randomkeys fuel n [key] H0 acts ltac:(done) HI Hb Hl) as [Hok Hmade]. fold w in Hok, Hmade.
  destruct (results_ok _ _ _ w rs Hok Hrs) as [Hn Hres].
  assert (length rs = n) as Hn'.
  { rewrite Hn. unfold w. rewrite run_clients. unfold spawn, put_clients. cbn [clients].
    by rewrite !length_fmap, length_seq. }
  pose proof (total_version n H0 (hist w) Hmade Hb) as (Ht1 & Htl & Ht2 & Ht3 & Ht4). cbv zeta in *.
  set (d1 := total OK n (hist w) - total OK n H0) in *. set (d2 := total ErrMaybe n (hist w) - total ErrMaybe n H0) in *.
  assert (sumZ (Nok <$> rs) = d1) as E1 by (eapply sum_results; [done|]; intros c r Hr; apply (Hres c r Hr)).
  assert (sumZ (Nmaybe <$> rs) = d2) as E2 by (eapply sum_results; [done|]; intros c r Hr; apply (Hres c r Hr)).
  assert (entries_stored [key] (hist w)) as HI'.
  { eapply entries_stored_grows; [|exact Hmade|done]. by intros ? ? [_ ?]. }
  unfold bounded in Hb. split; [done|].
  rewrite foldl_add_res, E1, E2; try lia.
  - unfold counted. cbn [Nok Nmaybe]. split_and!; try lia. intros El. specialize (Hrel El). specialize (Htl El). lia.
  - apply Forall_forall. intros r [c Hr]%list_elem_of_lookup.
    pose proof (Hres c r Hr) as [-> ->]. pose proof (grows_prefix _ _ _ _ Hmade) as Hp.
    pose proof (puts_mono c OK _ _ Hp). pose proof (puts_mono c ErrMaybe _ _ Hp). lia.
Qed.

(** The count of the puts is right for a correct service: however the
    clients interleave, once all have returned the check accepts, on a reliable
    network that the version of the key is the number of OK puts, otherwise
    that it is at most the number of OK and maybe puts; the sums it leaves
    count the key again, for another round of clients. Only a key that nobody
    has put yet fails it. *)
Theorem puts_check_passes randomkeys fuel n H0 acts rs res0 os :
  let w := run acts (spawn H0 (put_clients randomkeys fuel n [key])) in
  entries_stored [key] H0 → bounded (hist w) → (lossy = false → Forall keeps_replies acts) →
  counted H0 res0 → results w = Some rs → is_Some (store_of (hist w) !! key) →
  ∃ res, alone (CheckPutConcurrent key rs res0 (negb lossy)) os (hist w) =
      Done (res, hist w ++ [get_event 0 true key (-1) 0 0 (hist w)]) ∧
    counted (hist w) res.
Proof.
  intros w HI Hb Hl Hc Hrs [s Hs].
  destruct (put_round randomkeys fuel n H0 acts rs res0 HI Hb Hl Hc Hrs) as [HI' Hcounted]. fold w in HI', Hcounted.
  exists (foldl add_res res0 rs). split; [|done].
  destruct (HI' key s) as [v Hv]; [by left|done|].
  pose proof (version_bound (hist w) key s Hb Hs) as Hsv.
  destruct Hcounted as (? & ? & ? & Hle & Heq). unfold version_at in Hle, Heq. rewrite Hs in Hle, Heq.
  cbn [model_of default from_option id] in Hle, Heq. unfold bounded in Hb.
  unfold CheckPutConcurrent. rewrite (alone_GetJson _ _ _ _ _ s v) by done. cbv beta iota zeta.
  destruct lossy; cbn [negb].
  - rewrite int64_id, uint64_id by lia. by rewrite (proj2 (Z.ltb_ge _ _)) by lia.
  - rewrite uint64_id by (rewrite <- Heq by done; lia). by rewrite (proj2 (Z.eqb_eq _ _)) by auto.
Qed.
End Total.

(** ** A put that must happen *)

(** Whether the reply of the [j]-th put from now is lost. *)
Definition lost_at (os : list Z) (j : nat) : bool := negb (default 0 (os !! j) =? 0).

Lemma lost_at_tail os j : lost_at (tail os) j = lost_at os (S j).
Proof. by destruct os. Qed.

Lemma alone_Put {B} (f : string → prog B) key value ver cli os H :
  let e := put_event 0 true key value ver cli (lost_at os 0) 0 0 H in
  alone (Put key value ver cli ≫= f) os H = alone (f (put_reply e)) (tail os) (H ++ [e]).
Proof. by destruct os. Qed.

Lemma alone_Test_Put {B} (f : string → prog B) key value ver cli os H :
  let e := put_event 0 true key value ver cli (lost_at os 0) 0 0 H in
  alone (Test_Put key value ver cli ≫= f) os H = alone (f (put_reply e)) (tail os) (H ++ [e]).
Proof. exact (alone_Put f key value ver cli os H). Qed.

Section AtLeastOnce.
Context (key value : string) (me : Z).

(** An attempt that does not return OK is followed by the next version. *)
Lemma at_least_once_step fuel ver os H :
  let e := put_event 0 true key value ver me (lost_at os 0) 0 0 H in
  put_reply e ≠ ErrNoKey →
  (put_reply e = OK ∨ put_reply e = ErrMaybe ∨ put_reply e = ErrVersion) →
  alone (PutAtLeastOnce (S fuel) key value ver me) os H =
  if decide (put_reply e = OK) then Done (uint64 (ver + 1), H ++ [e])
  else alone (PutAtLeastOnce fuel key value (uint64 (ver + 1)) me) (tail os) (H ++ [e]).
Proof.
  intros e _ Hr. cbn [PutAtLeastOnce]. rewrite alone_Test_Put. fold e.
  repeat case_decide; try done. tauto.
Qed.

(** Below the key's version an attempt changes nothing. *)
Lemma at_least_once_refused fuel ver os H :
  bounded H → is_Some (store_of H !! key) → version_at H key ≠ ver →
  ∃ e, store_of (H ++ [e]) = store_of H ∧
    alone (PutAtLeastOnce (S fuel) key value ver me) os H =
    alone (PutAtLeastOnce fuel key value (uint64 (ver + 1)) me) (tail os) (H ++ [e]).
Proof.
  intros Hb Hs Hv. set (e := put_event 0 true key value ver me (lost_at os 0) 0 0 H). exists e.
  destruct (put_event_cases 0 true key value ver me (lost_at os 0) 0 0 H Hb) as [? _ _|_ _ Hr Hst|E _ _ _];
    [done| |by rewrite E in Hs; destruct Hs]. fold e in Hr, Hst.
  split; [done|]. rewrite at_least_once_step; fold e; rewrite Hr; destruct (lost_at os 0); auto; done.
Qed.

(** At the key's version it puts the value, and ends unless its reply is lost. *)
Lemma at_least_once_executed fuel os H :
  bounded H →
  let v := version_at H key in
  ∃ e, store_of (H ++ [e]) = <[key := mkKvState value (v + 1)]> (store_of H) ∧
    alone (PutAtLeastOnce (S fuel) key value v me) os H =
    if lost_at os 0 then alone (PutAtLeastOnce fuel key value (v + 1) me) (tail os) (H ++ [e])
    else Done (v + 1, H ++ [e]).
Proof.
  intros Hb v. set (e := put_event 0 true key value v me (lost_at os 0) 0 0 H). exists e.
  assert (0 <= v <= Z.of_nat (length H)) as Hv.
  { unfold v, version_at. destruct (store_of H !! key) as [s|] eqn:Hs; simpl; [|lia].
    pose proof (version_bound _ _ _ Hb Hs). lia. }
  unfold bounded in Hb.
  destruct (put_event_cases 0 true key value v me (lost_at os 0) 0 0 H Hb) as [_ Hr Hst|_ ? _ _|E Hne _ _];
    [|done|by unfold v, version_at in Hne; rewrite E in Hne]. fold e in Hr, Hst.
  split; [done|]. rewrite at_least_once_step; fold e; rewrite Hr, ?uint64_id by lia; destruct (lost_at os 0); auto; done.
Qed.

(** What the key and the others are in the end. *)
Definition stored (v : Z) (H H' : history) : Prop :=
  store_of H' !! key = Some (mkKvState value v) ∧ ∀ key', key' ≠ key → store_of H' !! key' = store_of H !! key'.

Lemma at_least_once_lost m : ∀ fuel os H,
  Z.of_nat (length H + m) < 2 ^ 62 → (m < fuel)%nat →
  (∀ j, (j < m)%nat → lost_at os j = true) → lost_at os m = false →
  let v := version_at H key in
  ∃ H', alone (PutAtLeastOnce fuel key value v me) os H = Done (v + Z.of_nat m + 1, H') ∧
    stored (v + Z.of_nat m + 1) H H'.
Proof.
  induction m as [|m IH]; intros [|fuel] os H Hlen Hfuel Hlost Hkept v; try lia;
    (destruct (at_least_once_executed fuel os H) as (e & Hst & Hex); [unfold bounded; lia|]);
    fold v in Hst, Hex; rewrite Hex; clear Hex.
  - rewrite Hkept. eexists. split; [f_equal; f_equal; lia|]. unfold stored. rewrite Hst. split.
    + rewrite lookup_insert_eq. do 2 f_equal. lia.
    + intros key' Hne. by rewrite lookup_insert_ne.
  - rewrite (Hlost 0%nat) by lia.
    assert (version_at (H ++ [e]) key = v + 1) as Hv by (unfold version_at; by rewrite Hst, lookup_insert_eq).
    destruct (IH fuel (tail os) (H ++ [e])) as (H' & Hrun & Hs & Ho).
    + rewrite length_app. simpl. lia.
    + lia.
    + intros j Hj. rewrite lost_at_tail. apply Hlost. lia.
    + by rewrite lost_at_tail.
    + rewrite Hv in Hrun, Hs. replace (v + Z.of_nat (S m) + 1) with (v + 1 + Z.of_nat m + 1) by lia.
      exists H'. split; [done|]. split; [done|]. intros key' Hne. by rewrite Ho, Hst, lookup_insert_ne.
Qed.

(** A put that must happen happens, if nobody else puts to the key: from
    a version that is not above the key's, [PutAtLeastOnce] ends with the value
    stored, other keys unchanged, and returns the key's version. It takes one attempt for
    every version it is behind, and one more for every put that was executed and whose
    reply was lost; each of these raises the version. *)
Theorem PutAtLeastOnce_stores fuel m ver os H :
  let v := version_at H key in
  let n := Z.to_nat (v - ver) in
  0 <= ver <= v → Z.of_nat (length H + n + m) < 2 ^ 62 → (n + m < fuel)%nat →
  (∀ j, (j < m)%nat → lost_at os (n + j) = true) → lost_at os (n + m) = false →
  ∃ H', alone (PutAtLeastOnce fuel key value ver me) os H = Done (v + Z.of_nat m + 1, H') ∧
    store_of H' !! key = Some (mkKvState value (v + Z.of_nat m + 1)) ∧
    ∀ key', key' ≠ key → store_of H' !! key' = store_of H !! key'.
Proof.
  intros v n. remember n as k eqn:Hk. subst n. revert ver fuel os H v Hk.
  induction k as [|k IH]; intros ver [|fuel] os H v Hk Hver Hlen Hfuel Hlost Hkept; try lia.
  - assert (ver = v) as -> by lia. apply (at_least_once_lost m); simpl in *; auto; lia.
  - assert (bounded H) as Hb by (unfold bounded; lia).
    assert (is_Some (store_of H !! key)) as Hs.
    { unfold v, version_at in Hk. destruct (store_of H !! key); [done|]. simpl in Hk. lia. }
    destruct (at_least_once_refused fuel ver os H Hb Hs) as (e & Hst & ->); [fold v; lia|].
    assert (v <= Z.of_nat (length H)).
    { unfold v, version_at. destruct Hs as [s Hs]. rewrite Hs. apply (version_bound _ _ _ Hb Hs). }
    rewrite uint64_id by lia.
    assert (version_at (H ++ [e]) key = v) as Hv by (unfold version_at; by rewrite Hst).
    destruct (IH (ver + 1) fuel (tail os) (H ++ [e])) as (H' & Hrun & Hs' & Ho); rewrite ?Hv; try lia.
    + rewrite length_app. simpl. lia.
    + intros j Hj. rewrite lost_at_tail. by apply Hlost.
    + rewrite lost_at_tail. exact Hkept.
    + rewrite Hv in Hrun, Hs'. exists H'. by rewrite <- Hst.
Qed.

(** From a version above the key's, [PutAtLeastOnce] never ends: every
    attempt is refused and the next one is further off. *)
Theorem PutAtLeastOnce_spins fuel ver os H :
  is_Some (store_of H !! key) → version_at H key < ver →
  Z.of_nat (length H + fuel) < 2 ^ 62 → ver + Z.of_nat fuel < 2 ^ 64 →
  alone (PutAtLeastOnce fuel key value ver me) os H = Diverge.
Proof.
  revert ver os H. induction fuel as [|fuel IH]; intros ver os H Hs Hv Hlen Hw; [done|].
  assert (bounded H) as Hb by (unfold bounded; lia).
  assert (0 < version_at H key) by (unfold version_at; destruct Hs as [s Hs]; rewrite Hs; apply (version_bound _ _ _ Hb Hs)).
  destruct (at_least_once_refused fuel ver os H Hb Hs) as (e & Hst & ->); [lia|].
  rewrite uint64_id by lia. apply IH; unfold version_at in *; rewrite ?Hst, ?length_app; simpl; try done; lia.
Qed.
End AtLeastOnce.

(** [PutAtLeastOnceJson] puts at version 0 whatever its version argument:
    a key that exists is never updated. *)
Theorem PutAtLeastOnceJson_never_updates {V} {JV : Json V} {JL : JsonLaws V} fuel key (value : V) ver me os H :
  is_Some (store_of H !! key) → Z.of_nat (length H + fuel) < 2 ^ 62 →
  match alone (PutAtLeastOnceJson fuel key value ver me) os H with
  | Done (_, H') => store_of H' = store_of H
  | o => o = Diverge
  end.
Proof.
  revert ver os H. induction fuel as [|fuel IH]; intros ver os H Hs Hlen; [done|].
  assert (bounded H) as Hb by (unfold bounded; lia).
  cbn [PutAtLeastOnceJson]. unfold PutJson. destruct (json_roundtrip value) as (b & -> & _). rewrite alone_Put.
  set (e := put_event 0 true key b 0 me (lost_at os 0) 0 0 H).
  assert (store_of (H ++ [e]) = store_of H) as Hst.
  { destruct (put_event_cases 0 true key b 0 me (lost_at os 0) 0 0 H Hb) as [Hv _ _|_ _ _ ?|_ _ _ ?]; [|done..].
    unfold version_at in Hv. destruct Hs as [s Hs]. rewrite Hs in Hv. simpl in Hv.
    pose proof (version_bound _ _ _ Hb Hs). lia. }
  case_decide as E; [|exact Hst].
  specialize (IH (uint64 (ver + 1)) (tail os) (H ++ [e])). rewrite Hst in IH. apply IH; [done|].
  rewrite length_app. simpl. lia.
Qed.

#[export] Instance EntryV_countable : Countable EntryV.
Proof. refine (inj_countable' (λ e, (v_Id e, v_V e)) (λ x, mkEntryV x.1 x.2) _); by intros []. Defined.

#[export] Instance entry_countable : Countable entry.
Proof. refine (inj_countable' (λ e, (Id e, N e)) (λ x, mkEntry x.1 x.2) _); by intros []. Defined.

End Service.

(** ** Witnesses *)
#[local] Existing Instances kv_service kv_documented.
#[local] Instance json_EntryV : Json EntryV := binary_json EntryV.
#[local] Instance json_EntryV_laws : JsonLaws EntryV := binary_json_laws EntryV.

(** One operation of a client, from its call to its return. *)
Definition op1 (c : nat) (lost : bool) : list action := [Begin c; Tick 1; Effect c lost; Tick 1; End c].

(** Two clients put to [k]: the first is refused once, the second's reply to its
    second put is lost. *)
Definition race : list action :=
  [Chosen 0 false; Chosen 1 false; Begin 0; Begin 1; Effect 1 false; Effect 0 false; End 0; End 1] ++
  op1 0 false ++ op1 1 false ++ op1 0 false ++ op1 0 false ++ [Chosen 1 false] ++ op1 1 false ++ op1 1 false ++
  op1 1 true ++ op1 1 false ++ [Chosen 0 true; Chosen 1 true].

Definition race_world := run race (spawn [] (put_clients false 9 2 ["k"])).

Lemma race_bounded : bounded (hist (run race (spawn [] (put_clients false 9 2 ["k"%string])))).
Proof. unfold bounded. replace (length (hist _)) with 10%nat by (vm_compute; reflexivity). lia. Qed.

Lemma put_clients_never_fail_witness :
  (code <$> clients race_world !! 1%nat) = Some (Ends (Done (mkClntRes 1 1))) ∧
  ((∃ res, Done (mkClntRes 1 1) = Done res) ∨ Done (mkClntRes 1 1) = Diverge).
Proof.
  split; [vm_compute; reflexivity|].
  eapply (put_clients_never_fail true false 9 2 ["k"%string] [] race 1 (mkClient (Ends (Done (mkClntRes 1 1))) Idle));
    [discriminate|apply entries_stored_nil|exact race_bounded|intros Hl; discriminate Hl|vm_compute; reflexivity|reflexivity].
Defined.

Lemma puts_check_passes_witness :
  results race_world = Some [mkClntRes 1 0; mkClntRes 1 1] ∧
  ∃ res, alone (CheckPutConcurrent "k" [mkClntRes 1 0; mkClntRes 1 1] (mkClntRes 0 0) false) [] (hist race_world) =
      Done (res, hist race_world ++ [get_event 0 true "k" (-1) 0 0 (hist race_world)]) ∧
    counted true "k" (hist race_world) res.
Proof.
  split; [vm_compute; reflexivity|].
  eapply (puts_check_passes true "k" false 9 2 [] race);
    [apply entries_stored_nil|exact race_bounded|intros Hl; discriminate Hl| |vm_compute; reflexivity|vm_compute; eexists; reflexivity].
  unfold counted. vm_compute. split_and!; done || discriminate.
Defined.

(** A store with [a] at version 2: the second put's reply is lost. *)
Definition two_puts : history :=
  let H := [put_event 0 true "a" "x" 0 0 false 0 0 []] in H ++ [put_event 0 true "a" "y" 1 0 true 0 0 H].

Lemma PutAtLeastOnce_stores_witness :
  version_at two_puts "a" = 2 ∧
  ∃ H', alone (PutAtLeastOnce 9 "a" "z" 1 0) [0; 1; 0] two_puts = Done (4, H') ∧
    store_of H' !! "a"%string = Some (mkKvState "z" 4) ∧
    ∀ key', key' ≠ "a"%string → store_of H' !! key' = store_of two_puts !! key'.
Proof.
  split; [vm_compute; reflexivity|].
  apply (PutAtLeastOnce_stores "a" "z" 0 9 1 1 [0; 1; 0] two_puts).
  - vm_compute. split; discriminate.
  - vm_compute. reflexivity.
  - vm_compute. lia.
  - intros [|j] Hj; [vm_compute; reflexivity|lia].
  - vm_compute. reflexivity.
Defined.

Lemma PutAtLeastOnce_spins_witness :
  alone (PutAtLeastOnce 5 "a" "z" 3 0) [] two_puts = Diverge.
Proof.
  apply PutAtLeastOnce_spins; [vm_compute; eexists; reflexivity|vm_compute; reflexivity|vm_compute; reflexivity|reflexivity].
Defined.

Lemma PutAtLeastOnceJson_never_updates_witness :
  ∃ H', alone (PutAtLeastOnceJson 5 "a" (mkEntryV 1 2) 2 0) [] two_puts = Done (2, H') ∧
    store_of H' = store_of two_puts.
Proof.
  pose proof (PutAtLeastOnceJson_never_updates 5 "a" (mkEntryV 1 2) 2 0 [] two_puts) as H.
  assert (is_Some (store_of two_puts !! "a"%string)) as Hs by (vm_compute; eexists; reflexivity).
  specialize (H Hs ltac:(vm_compute; reflexivity)).
  destruct (alone _ _ _) as [[v H']| | |] eqn:E; [|discriminate..|vm_compute in E; discriminate E].
  exists H'. split; [|exact H]. f_equal. f_equal. vm_compute in E. by injection E.
Defined.
