(* ===== verification/KVAppend.v ===== *)
(** * KVAppend: the concurrent appends of the key/value harness

    [CheckAppends] decides exactly what its comment says of the list a key
    holds, and the clients of [OneClientAppend] always leave such a list in a
    correct service. *)

From S2P Require Import Prelude Models KVTest KVServer KVLogic KVTestProps.

Local Open Scope Z_scope.

(** ** What the check decides *)

(** The numbers client [c] appended, in order, and the next one it could. *)
Definition numbers (c : Z) (es : list entry) : list Z := N <$> filter (λ e, Id e = c) es.
Definition next (l : list Z) : Z := default 0 ((λ x, x + 1) <$> last l).

(** Increasing from 0. *)
Definition increasing (l : list Z) : Prop := StronglySorted Z.lt l ∧ Forall (λ x, 0 <= x) l.

Lemma numbers_snoc c es e : numbers c (es ++ [e]) = numbers c es ++ (if decide (Id e = c) then [N e] else []).
Proof. unfold numbers. rewrite filter_app, fmap_app, filter_cons. by case_decide. Qed.

Lemma next_snoc l x : next (l ++ [x]) = x + 1.
Proof. unfold next. by rewrite last_snoc. Qed.

Lemma increasing_snoc l x : increasing (l ++ [x]) ↔ increasing l ∧ next l <= x.
Proof.
  unfold increasing. rewrite StronglySorted_app, Forall_app, Forall_singleton.
  destruct l as [|y l _] using rev_ind.
  - unfold next. simpl. split; [tauto|]. intros [_ Hx].
    split_and!; [by intros ? ? ?%elem_of_nil|constructor|repeat constructor|constructor|done].
  - rewrite next_snoc, StronglySorted_app, Forall_app, Forall_singleton. split.
    + intros [(Hlt & Hs & _) [Hl Hx]]. split; [done|].
      assert (y < x); [|lia]. apply Hlt; [apply elem_of_app; right|]; by apply list_elem_of_singleton.
    + intros [[(Hlt & Hs) [Hl Hy]] Hx]. split_and!; try tauto; [|repeat constructor|lia].
      intros z1 z2 [Hz1| ->%list_elem_of_singleton]%elem_of_app ->%list_elem_of_singleton; [|lia].
      specialize (Hlt z1 y Hz1 ltac:(by apply list_elem_of_singleton)). lia.
Qed.

Lemma next_nonneg l : increasing l → 0 <= next l.
Proof.
  destruct l as [|x l _] using rev_ind; [done|]. intros [_ Hl]. apply Forall_app in Hl as [_ Hx].
  apply Forall_cons in Hx as [Hx _]. rewrite next_snoc. lia.
Qed.

Lemma increasing_lt l x : increasing l → x ∈ l → x < next l.
Proof.
  induction l as [|y l IH] using rev_ind; [by intros _ ?%elem_of_nil|].
  rewrite increasing_snoc, next_snoc. intros [Hl Hy] [Hx| ->%list_elem_of_singleton]%elem_of_app; [|lia].
  specialize (IH Hl Hx). lia.
Qed.

Lemma elem_of_numbers e es : e ∈ es → N e ∈ numbers (Id e) es.
Proof. intros He. apply list_elem_of_fmap. exists e. split; [done|]. by apply list_elem_of_filter. Qed.

(** [CheckAppends] keeps in [expect] the next number of every client, in [skipped]
    how many it has not seen before that. *)
Definition tracks (n : nat) (es : list entry) (st : gmap Z Z * gmap Z Z) : Prop :=
  (∀ c, at_ st.1 c = next (numbers c es) ∧
        at_ st.2 c = next (numbers c es) - Z.of_nat (length (numbers c es))) ∧
  ∀ c, is_Some (st.1 !! c) ↔ 0 <= c < Z.of_nat n.

(** The entries name clients, their numbers do not overflow. *)
Definition in_bounds (n : nat) (es : list entry) : Prop :=
  Z.of_nat (length es) < 2 ^ 62 ∧ Forall (λ e, 0 <= Id e < Z.of_nat n ∧ N e < 2 ^ 62) es.

Lemma at_insert m (k x : Z) j : at_ (<[k := x]> m) j = if decide (k = j) then x else at_ m j.
Proof. unfold at_. rewrite lookup_insert. by case_decide. Qed.

Lemma numbers_length c es : (length (numbers c es) <= length es)%nat.
Proof. unfold numbers. rewrite length_fmap. apply length_filter. Qed.

Lemma check_entry_tracks n es e st :
  in_bounds n (es ++ [e]) → (∀ c, increasing (numbers c es)) → tracks n es st →
  match check_entry e st with
  | Done st' => tracks n (es ++ [e]) st' ∧ ∀ c, increasing (numbers c (es ++ [e]))
  | o => o = Fatal "wrong expecting" ∧ ¬ increasing (numbers (Id e) (es ++ [e]))
  end.
Proof.
  intros [Hlen Hb] Hinc [Htr Hdom]. destruct st as [expect skipped]. simpl in Htr, Hdom.
  apply Forall_app in Hb as [Hb [He _]%Forall_cons]. rewrite length_app in Hlen. simpl in Hlen.
  pose proof (numbers_length (Id e) es) as Hnl. pose proof (next_nonneg _ (Hinc (Id e))) as Hnn.
  destruct (Htr (Id e)) as [He1 He2].
  unfold check_entry. rewrite He1.
  destruct (Z.ltb_spec (N e) (next (numbers (Id e) es))) as [Hlt|Hge].
  { split; [done|]. rewrite numbers_snoc, decide_True, increasing_snoc by done. lia. }
  assert (∀ c, increasing (numbers c (es ++ [e]))) as Hinc'.
  { intros c. rewrite numbers_snoc. case_decide as E; [subst c; rewrite increasing_snoc; auto|].
    by rewrite app_nil_r. }
  assert (∀ m m', (∀ c, at_ m c = if decide (Id e = c) then N e + 1 else at_ expect c) →
    (∀ c, at_ m' c = if decide (Id e = c) then N e - Z.of_nat (length (numbers c es)) else at_ skipped c) →
    (∀ c, is_Some (m !! c) ↔ is_Some (expect !! c) ∨ c = Id e) → tracks n (es ++ [e]) (m, m')) as Htracks.
  { intros m m' Hm Hm' Hd. split.
    - intros c. simpl. rewrite Hm, Hm', numbers_snoc. case_decide; [|by rewrite app_nil_r].
      rewrite next_snoc, length_app. simpl. lia.
    - intros c. simpl. rewrite Hd, Hdom. intuition lia. }
  destruct (Z.eqb_spec (next (numbers (Id e) es)) (N e)) as [Heq|Hne].
  - split; [|done]. apply Htracks; intros c; rewrite ?at_insert.
    + case_decide; [|done]. rewrite int64_id by lia. lia.
    + case_decide; [|done]. subst c. rewrite He2. lia.
    + rewrite lookup_insert_is_Some'. naive_solver.
  - split; [|done]. apply Htracks; intros c; rewrite ?at_insert.
    + case_decide; [|done]. rewrite int64_id by lia. lia.
    + case_decide; [|done]. subst c. rewrite He2, (int64_id (N e - _)), int64_id by lia. lia.
    + rewrite lookup_insert_is_Some'. naive_solver.
Qed.

Lemma zeros_lookup n c : zeros n !! c = if decide (0 <= c < Z.of_nat n) then Some 0 else None.
Proof.
  unfold zeros. case_decide as Hc.
  - apply elem_of_list_to_map_1'.
    + intros y (? & [= _ ->] & _)%list_elem_of_fmap. done.
    + apply list_elem_of_fmap. exists (Z.to_nat c). split; [f_equal; lia|]. apply elem_of_seq. lia.
  - apply not_elem_of_list_to_map_1. intros ((? & ?) & -> & (i & [= -> ->] & Hi%elem_of_seq)%list_elem_of_fmap)%list_elem_of_fmap.
    simpl in Hc. lia.
Qed.

Lemma zeros_tracks n : tracks n [] (zeros n, zeros n).
Proof.
  split; intros c; simpl; unfold at_; rewrite zeros_lookup; case_decide; simpl; try done;
    split; try done; by intros [].
Qed.

Lemma check_entries n es :
  in_bounds n es →
  match for_each es check_entry (zeros n, zeros n) with
  | Done st => tracks n es st ∧ ∀ c, increasing (numbers c es)
  | _ => ∃ c, ¬ increasing (numbers c es)
  end.
Proof.
  induction es as [|e es IH] using rev_ind; intros Hb; [split; [apply zeros_tracks|repeat constructor]|].
  assert (in_bounds n es) as Hb'.
  { destruct Hb as [Hlen Hall]. rewrite length_app in Hlen. simpl in Hlen. apply Forall_app in Hall as [? _]. by split; [lia|]. }
  specialize (IH Hb'). rewrite for_each_app.
  assert (∀ c, ¬ increasing (numbers c es) → ¬ increasing (numbers c (es ++ [e]))) as Hmono.
  { intros c Hn. rewrite numbers_snoc. case_decide; [by rewrite increasing_snoc; intros [? _]|by rewrite app_nil_r]. }
  destruct (for_each es check_entry _) as [st| | |]; cbn [mbind outcome_bind];
    [|destruct IH as [c Hc]; exists c; auto..].
  destruct IH as [Htr Hinc]. pose proof (check_entry_tracks n es e st Hb Hinc Htr) as He.
  cbn [for_each]. destruct (check_entry e st) as [st'| | |]; cbn [mbind outcome_bind]; [done|destruct He; eauto..].
Qed.

(** A loop of checks succeeds if all of them do. *)
Lemma for_each_checks {A} (l : list A) (f : A → outcome ()) :
  for_each l (λ a _, f a) () = Done () ↔ ∀ a, a ∈ l → f a = Done ().
Proof.
  induction l as [|a l IH]; cbn [for_each]; [split; [by intros _ a Ha%elem_of_nil|done]|].
  rewrite bind_Done. split.
  - intros ([] & Ha & Hl) b [->|Hb]%elem_of_cons; [done|by apply IH].
  - intros Hall. exists (). split; [apply Hall; by left|]. apply IH. intros b Hb. apply Hall. by right.
Qed.

Definition in_range_res (r : ClntRes) : Prop := 0 <= Nok r ∧ 0 <= Nmaybe r ∧ Nok r + Nmaybe r < 2 ^ 63.

(** What the check asks of the results of one client. *)
Definition accounts_for (ns : list Z) (r : ClntRes) : Prop :=
  next ns - Z.of_nat (length ns) <= Nmaybe r ∧ next ns <= Nok r + Nmaybe r.

Lemma check_client_spec n es rs st c :
  tracks n es st → length rs = n → Forall in_range_res rs → 0 <= c < Z.of_nat n →
  check_client rs st.1 st.2 c = Done () ↔ ∀ r, rs !! Z.to_nat c = Some r → accounts_for (numbers c es) r.
Proof.
  intros [Htr _] Hn Hrs Hc. destruct (Htr c) as [He Hs].
  destruct (lookup_lt_is_Some_2 rs (Z.to_nat c)) as [r Hr]; [lia|].
  assert (slice_get rs c = Done r) as Hget by (rewrite <- (Z2Nat.id c) at 1 by lia; by apply slice_get_Some).
  destruct (Forall_lookup_1 _ _ _ _ Hrs Hr) as (H1 & H2 & H3).
  unfold check_client. rewrite Hget. cbn [mbind outcome_bind]. rewrite He, Hs, int64_id by lia.
  split.
  - intros Hrun r' Hr'. rewrite Hr in Hr'. injection Hr' as <-. unfold accounts_for. ztests; done || lia.
  - intros Hall. destruct (Hall r Hr). ztests; try done; lia.
Qed.

(** The check, decided: [order] is any order of the map. *)
Lemma check_appends_spec order es n rs ver :
  in_bounds n es → length rs = n → Forall in_range_res rs → 0 <= ver < 2 ^ 63 →
  (∀ m, order m ≡ₚ elements (dom m)) →
  CheckAppends order es n rs ver = Done () ↔
  (∀ c, increasing (numbers c es)) ∧ ver = Z.of_nat (length es) + 1 ∧
  ∀ c r, rs !! c = Some r → accounts_for (numbers (Z.of_nat c) es) r.
Proof.
  intros Hb Hn Hrs Hver Horder. unfold CheckAppends. pose proof (check_entries n es Hb) as Hes.
  destruct Hb as [Hlen _].
  destruct (for_each es check_entry _) as [st| | |]; cbn [mbind outcome_bind];
    [|split; [done|]; intros [Hinc _]; destruct Hes as [c []]; apply Hinc..].
  destruct Hes as [Htr Hinc]. destruct st as [expect skipped] eqn:Est. rewrite <- Est in Htr.
  rewrite !int64_id by lia.
  destruct (Z.eqb_spec (Z.of_nat (length es) + 1) ver) as [Hv|Hv]; cbn [negb];
    [|split; [done|]; intros (_ & E & _); congruence].
  rewrite for_each_checks. pose proof Htr as [_ Hdom]. rewrite Est in Hdom. simpl in Hdom.
  assert (∀ c, c ∈ order expect ↔ 0 <= c < Z.of_nat n) as Hin.
  { intros c. by rewrite Horder, elem_of_elements, elem_of_dom, Hdom. }
  assert (∀ c, 0 <= c < Z.of_nat n → check_client rs expect skipped c = Done () ↔
    ∀ r, rs !! Z.to_nat c = Some r → accounts_for (numbers c es) r) as Hclient.
  { intros c Hc. pose proof (check_client_spec n es rs st c Htr Hn Hrs Hc) as H. by rewrite Est in H. }
  split.
  - intros Hall. split_and!; [done|done|]. intros c r Hr. pose proof (lookup_lt_Some _ _ _ Hr).
    apply (Hclient (Z.of_nat c)); [lia|apply Hall, Hin; lia|by rewrite Nat2Z.id].
  - intros (_ & _ & Hall) c Hc%Hin. apply Hclient; [done|]. intros r Hr.
    replace c with (Z.of_nat (Z.to_nat c)) by lia. by apply Hall.
Qed.

(** (C21) [CheckAppends] accepts exactly the lists it describes: every client's
    numbers increase, the version counts the appends, a client's numbers are
    among those it tried, and it skipped no more than its puts that returned
    maybe. It does not matter in which order the map is visited. *)
Theorem CheckAppends_exact order es n rs ver :
  in_bounds n es → length rs = n → Forall in_range_res rs → 0 <= ver < 2 ^ 63 →
  (∀ m, order m ≡ₚ elements (dom m)) →
  CheckAppends order es n rs ver = Done () ↔
  (∀ c, increasing (numbers c es)) ∧ ver = Z.of_nat (length es) + 1 ∧
  ∀ c r, rs !! c = Some r → accounts_for (numbers (Z.of_nat c) es) r.
Proof. apply check_appends_spec. Qed.

(** Clients whose numbers are in order and accounted for pass. *)
Lemma accounted_check order es n rs :
  Z.of_nat (length es) < 2 ^ 62 → length rs = n → Forall (λ e, 0 <= Id e < Z.of_nat n) es →
  (∀ m, order m ≡ₚ elements (dom m)) →
  (∀ c r, rs !! c = Some r → let ns := numbers (Z.of_nat c) es in
     increasing ns ∧ next ns < 2 ^ 62 ∧ in_range_res r ∧ accounts_for ns r) →
  CheckAppends order es n rs (Z.of_nat (length es) + 1) = Done ().
Proof.
  intros Hlen Hn Hids Horder Hclients. rewrite Forall_forall in Hids. cbv zeta in Hclients.
  assert (∀ c, 0 <= c < Z.of_nat n → increasing (numbers c es) ∧ next (numbers c es) < 2 ^ 62) as Hall.
  { intros c Hc. destruct (lookup_lt_is_Some_2 rs (Z.to_nat c)) as [r Hr]; [lia|].
    destruct (Hclients _ r Hr) as (Hinc & Hnext & _). rewrite Z2Nat.id in Hinc, Hnext by lia. done. }
  apply check_appends_spec; [|done| |lia|done|split_and!; [|done|]].
  - split; [lia|]. apply Forall_forall. intros e He. split; [by apply Hids|].
    destruct (Hall (Id e) (Hids e He)) as [Hinc Hnext].
    pose proof (increasing_lt _ _ Hinc (elem_of_numbers e es He)). lia.
  - apply Forall_forall. intros r [c Hr]%list_elem_of_lookup. by apply (Hclients c r Hr).
  - intros c. destruct (decide (0 <= c < Z.of_nat n)) as [Hc|Hc]; [by apply Hall|].
    assert (numbers c es = []) as ->; [|repeat constructor]. unfold numbers.
    destruct (filter (λ e, Id e = c) es) as [|e l] eqn:E; [done|]. exfalso. apply Hc.
    assert (e ∈ filter (λ e, Id e = c) es) as [<- He]%list_elem_of_filter by (rewrite E; by left).
    by apply Hids.
  - intros c r Hr. apply (Hclients c r Hr).
Qed.

Section Service.
Context {SV : Service} {SVD : Documented SV}.

(** ** Clients of [OneClientAppend] *)
Section Appends.
Context {JV : Json (list entry)} {JL : JsonLaws (list entry)} (lossy : bool) (n : nat).

(** The list that the key holds. *)
Definition stored_entries (H : history) : list entry :=
  default [] (s ← store_of H !! "k"%string; Unmarshal (s_Value s)).

(** The key holds a list, and its version counts the puts after the first. *)
Definition list_stored (H : history) : Prop :=
  ∃ s es, store_of H !! "k"%string = Some s ∧ Unmarshal (s_Value s) = Some es ∧
    s_Version s = Z.of_nat (length es) + 1.

(** What the clients guarantee: a put that finds its version appends one entry of
    the client's own. *)
Definition put_appends (H : history) (e : event) : Prop :=
  Op (e_input e) = 1 →
  (e_by e < n)%nat ∧ Key (e_input e) = "k"%string ∧
  (version_at H "k" = Version (e_input e) →
   ∃ i, Unmarshal (Value (e_input e)) = Some (stored_entries H ++ [mkEntry (Z.of_nat (e_by e)) i])).

Lemma stored_entries_eq H s es :
  store_of H !! "k"%string = Some s → Unmarshal (s_Value s) = Some es → stored_entries H = es.
Proof. intros Hs Hes. unfold stored_entries. rewrite Hs. simpl. by rewrite Hes. Qed.

Lemma stored_entries_same H H' : store_of H' = store_of H → stored_entries H' = stored_entries H.
Proof. intros E. unfold stored_entries. by rewrite E. Qed.

Lemma list_stored_same H H' : store_of H' = store_of H → list_stored H → list_stored H'.
Proof. intros E (s & es & Hs). exists s, es. by rewrite E. Qed.

(** A put of the list with one more entry, at the version of the list. *)
Lemma list_stored_append H H' b ver es x :
  list_stored H → version_at H "k" = ver → stored_entries H = es → Unmarshal b = Some (es ++ [x]) →
  store_of H' = <["k"%string := mkKvState b (ver + 1)]> (store_of H) →
  list_stored H' ∧ stored_entries H' = es ++ [x].
Proof.
  intros (s & es' & Hs & Hu & Hv) <- <- Hb Hst. pose proof (stored_entries_eq H s es' Hs Hu) as Hes.
  assert (version_at H "k" = s_Version s) as Hvs by (unfold version_at; by rewrite Hs).
  split.
  - eexists _, (stored_entries H ++ [x]). split; [by rewrite Hst, lookup_insert_eq|]. simpl.
    split; [done|]. rewrite Hvs, Hv, Hes, length_app. simpl. lia.
  - eapply stored_entries_eq; [by rewrite Hst, lookup_insert_eq|done].
Qed.

(** Every guaranteed operation appends at most one entry, its client's. *)
Lemma put_appends_step H e :
  bounded H → put_appends H e → list_stored H →
  list_stored (H ++ [e]) ∧
  (stored_entries (H ++ [e]) = stored_entries H ∨
   (e_by e < n)%nat ∧ ∃ i, stored_entries (H ++ [e]) = stored_entries H ++ [mkEntry (Z.of_nat (e_by e)) i]).
Proof.
  intros Hb HG HI. pose proof HI as (s & es & Hs & Hu & Hv). pose proof (version_bound _ _ _ Hb Hs) as Hvb.
  pose proof (store_of_snoc H e) as Hst.
  destruct (execute_cases (store_of H) e) as [E|(s' & Hop & -> & Hver & E)]; rewrite E in Hst.
  { split; [by apply (list_stored_same H)|left; by apply stored_entries_same]. }
  destruct (HG Hop) as (Hn & Hk & Happ). rewrite Hk in Hst, Hver. destruct (Happ Hver) as [i Hi].
  unfold bounded in Hb. rewrite Hs in Hver. simpl in Hver. rewrite uint64_id in Hst by lia.
  destruct (list_stored_append H (H ++ [e]) (Value (e_input e)) (Version (e_input e)) (stored_entries H)
    (mkEntry (Z.of_nat (e_by e)) i) HI) as [HI' Hes]; try done.
  { unfold version_at. by rewrite Hs. }
  split; [done|]. right. eauto.
Qed.

Abbreviation others := (others lossy put_appends).
Abbreviation wp := (wp lossy put_appends).

(** The numbers that client [c] has in the list. *)
Definition mine (c : nat) (H : history) : list Z := numbers (Z.of_nat c) (stored_entries H).

Lemma mine_others c H H' :
  others c H H' → bounded H' → list_stored H → list_stored H' ∧ mine c H' = mine c H.
Proof.
  intros Ho Hb HI. refine (grows_ind_bounded _ _ (λ H', list_stored H' ∧ mine c H' = mine c H) H H' _ Ho Hb (conj HI eq_refl)).
  clear Ho Hb H'. intros H' e Hb _ [Hne HG] [HI' Hm].
  destruct (put_appends_step H' e (bounded_app _ _ Hb) HG HI') as [HI'' Hes]. split; [done|].
  rewrite <- Hm. unfold mine. destruct Hes as [->|(_ & i & ->)]; [done|].
  rewrite numbers_snoc, decide_False, app_nil_r; [done|]. simpl. lia.
Qed.

(** What an iteration does to the client's numbers: a put that returned OK
    is in the list, one that returned maybe may be. *)
Definition one_append_done (c : nat) (i : Z) (H H' : history) (ok : bool) : Prop :=
  list_stored H' ∧ fits H' ∧ (length H < length H')%nat ∧
  (mine c H' = mine c H ++ [i] ∨ ok = false ∧ mine c H' = mine c H).

(** The put that follows a read: it appends [i] and returns OK or maybe, or it
    changes nothing and returns maybe or [ErrVersion]. *)
Lemma put_list c i b lost t now H ver es :
  bounded H → list_stored H → (version_at H "k" = ver → stored_entries H = es) →
  Unmarshal b = Some (es ++ [mkEntry (Z.of_nat c) i]) →
  let e := put_event c true "k" b ver (Z.of_nat c) lost t now H in
  list_stored (H ++ [e]) ∧
  (put_reply e = (if lost then ErrMaybe else OK) ∧ mine c (H ++ [e]) = mine c H ++ [i] ∨
   put_reply e = (if lost then ErrMaybe else ErrVersion) ∧ mine c (H ++ [e]) = mine c H).
Proof.
  intros Hb HI Hsame Hu e.
  destruct (put_event_cases c true "k" b ver (Z.of_nat c) lost t now H Hb) as [Hv Hr Hst|Hs Hv Hr Hst|Hs Hv Hr Hst];
    fold e in Hr, Hst.
  - destruct (list_stored_append H (H ++ [e]) b _ _ _ HI Hv (Hsame Hv) Hu Hst) as [HI' Hes].
    split; [done|]. left. split; [done|]. unfold mine. by rewrite Hes, (Hsame Hv), numbers_snoc, decide_True by done.
  - split; [by apply (list_stored_same H)|]. right. split; [done|]. unfold mine. by rewrite (stored_entries_same _ _ Hst).
  - destruct HI as (s & _ & Hs' & _). rewrite Hs in Hs'. done.
Qed.

Lemma wp_append_one c i (Q : bool → history → Prop) fuel : ∀ H,
  (c < n)%nat → list_stored H →
  (∀ ok H', one_append_done c i H H' ok → Q ok H') →
  wp c Q (append_one fuel (Z.of_nat c) i) H.
Proof.
  induction fuel as [|fuel IH]; intros H Hc HI HQ; [done|]. cbn [append_one].
  apply wp_GetJson. intros H1 t1 t2 Ho1 Hb1 e1.
  destruct (mine_others c H H1 Ho1 Hb1 HI) as [HI1 Hm1]. pose proof HI1 as (s1 & es1 & Hs1 & Hu1 & Hv1).
  exists s1, es1. split_and!; [done|done|unfold put_appends, e1, get_event; by destruct (Get_ _ _) as [[??]?]|].
  assert (store_of (H1 ++ [e1]) = store_of H1) as Hst1 by apply store_of_get.
  apply wp_PutJson; [exact JL|]. intros b H2 lost t3 t4 Hm Hu Ho2 Hb2 Hl e2.
  destruct (mine_others c (H1 ++ [e1]) H2 Ho2 Hb2) as [HI2 Hm2]; [by apply (list_stored_same H1)|].
  assert (version_at H2 "k" = s_Version s1 → stored_entries H2 = es1) as Hsame.
  { intros Hv. eapply stored_entries_eq; [|exact Hu1].
    eapply (same_version_same_value (H1 ++ [e1])); [by eapply grows_prefix|done|by rewrite Hst1|done]. }
  assert (mine c H2 = mine c H) as Hmine by (rewrite Hm2, <- Hm1; unfold mine; by rewrite (stored_entries_same _ _ Hst1)).
  assert (length H < length (H2 ++ [e2]))%nat as Hlen.
  { pose proof (prefix_length _ _ (grows_prefix _ _ _ _ Ho1)) as Hp1. pose proof (prefix_length _ _ (grows_prefix _ _ _ _ Ho2)) as Hp2.
    rewrite length_app in *. simpl in *. lia. }
  split. { intros _. simpl. split_and!; [done|done|]. intros Hv. rewrite (Hsame Hv). by exists i. }
  assert (∀ ok, mine c (H2 ++ [e2]) = mine c H2 ++ [i] ∨ ok = false ∧ mine c (H2 ++ [e2]) = mine c H2 →
    list_stored (H2 ++ [e2]) → one_append_done c i H (H2 ++ [e2]) ok) as Hdone.
  { intros ok Hcase HI3. split_and!; [done|by apply bounded_fits|done|]. by rewrite <- Hmine. }
  destruct (put_list c i b lost t3 t4 H2 _ _ Hb2 HI2 Hsame Hu) as [HI3 [[Hr Happ]|[Hr Hno]]]; fold e2 in HI3, Hr |- *; rewrite Hr.
  - destruct lost; simpl; apply HQ, Hdone; auto.
  - destruct lost; simpl; [by apply HQ, Hdone; auto|]. apply IH; [done|done|].
    intros ok H' (HI' & Hf & Hl' & Hcase). apply HQ. split_and!; [done|done|lia|]. by rewrite <- Hmine, <- Hno.
Qed.

(** After [i] iterations: the client's numbers are among those below [i], and it
    lacks no more of them than it counted maybes. *)
Definition iterated (c : nat) (i : Z) (res : ClntRes) (H : history) : Prop :=
  increasing (mine c H) ∧ next (mine c H) <= i ∧ i = Nok res + Nmaybe res ∧ 0 <= Nok res ∧ 0 <= Nmaybe res ∧
  i - Z.of_nat (length (mine c H)) <= Nmaybe res ∧ i <= Z.of_nat (length H).

(** What a client returns; nothing is said of histories that are too long. *)
Definition appended (c : nat) (res : ClntRes) (H : history) : Prop :=
  bounded H → list_stored H ∧ ∃ i, iterated c i res H.

Lemma appended_stable c res : stable lossy put_appends c (appended c res).
Proof.
  intros H H' Ho HP Hb. pose proof (grows_prefix _ _ _ _ Ho) as Hp.
  assert (bounded H) as HbH by (destruct Hp as [E ->]; by eapply bounded_app).
  destruct (HP HbH) as [HI (i & Hi)]. destruct (mine_others c H H' Ho Hb HI) as [HI' Hm].
  split; [done|]. exists i. unfold iterated in *. rewrite Hm.
  pose proof (prefix_length _ _ Hp). split_and!; try tauto. lia.
Qed.

Lemma iterated_step c i res H H' ok :
  iterated c i res H → fits H → one_append_done c i H H' ok →
  iterated c (i + 1) (if ok then mkClntRes (Nok res + 1) (Nmaybe res) else mkClntRes (Nok res) (Nmaybe res + 1)) H'.
Proof.
  intros (Hinc & Hnext & Hi & H1 & H2 & Hmiss & Hlen) Hf (HI & Hf' & Hl & Hcase). unfold iterated.
  destruct Hcase as [->|[-> ->]].
  - rewrite increasing_snoc, next_snoc, length_app. simpl. destruct ok; simpl; split_and!; try done; lia.
  - simpl. split_and!; try done; lia.
Qed.

Lemma wp_one_client_append c fuel : ∀ i nok nmay H,
  (c < n)%nat → list_stored H → fits H → iterated c i (mkClntRes nok nmay) H →
  wp c (appended c) (one_client_append fuel (Z.of_nat c) i nok nmay) H.
Proof.
  induction fuel as [|fuel IH]; intros i nok nmay H Hc HI Hf Hit; [done|].
  intros []; [intros _; split; [done|by exists i]|].
  apply wp_bind, wp_append_one; [done|done|]. intros ok H' Hdone.
  pose proof (iterated_step c i _ H H' ok Hit Hf Hdone) as Hit'. destruct Hdone as (HI' & Hf' & _).
  destruct Hit as (_ & _ & Hi & H1 & H2 & _ & Hlen). cbn [Nok Nmaybe] in *. unfold fits in Hf.
  destruct ok; rewrite !int64_id by lia; by apply IH.
Qed.

(** The clients of [OneClientAppend]. *)
Definition append_clients (fuel : nat) : list (prog ClntRes) :=
  (λ c, OneClientAppend fuel (Z.of_nat c)) <$> seq 0 n.

(** What is known at the end of a run. *)
Lemma append_clients_run fuel H0 acts :
  let w := run acts (spawn H0 (append_clients fuel)) in
  list_stored H0 → stored_entries H0 = [] → bounded (hist w) → (lossy = false → Forall keeps_replies acts) →
  all_ok lossy put_appends appended w ∧
  list_stored (hist w) ∧ Forall (λ e, 0 <= Id e < Z.of_nat n) (stored_entries (hist w)).
Proof.
  intros w HI He Hb Hl.
  assert (bounded H0) as Hb0.
  { destruct (run_hist acts (spawn H0 (append_clients fuel))) as [E HE]. fold w in HE. rewrite HE in Hb.
    by eapply bounded_app. }
  destruct (run_wp lossy put_appends appended appended_stable acts (spawn H0 (append_clients fuel)) Hl Hb) as [Hok Hmade].
  - apply spawn_ok. intros c p [-> Hc]%fmap_seq_lookup. apply wp_one_client_append; [done|done| |].
    + unfold bounded, fits in *. lia.
    + unfold iterated, mine. rewrite He. cbn. split_and!; try done; try lia. by repeat constructor.
  - split; [done|]. revert Hmade Hb. fold w. generalize (hist w). cbn [spawn hist clients]. intros H Hmade Hb.
    refine (grows_ind_bounded _ _ (λ H, list_stored H ∧ Forall (λ e, 0 <= Id e < Z.of_nat n) (stored_entries H)) H0 H _ Hmade Hb _).
    + intros H' e Hb' _ [_ HG] [HI' Hall].
      destruct (put_appends_step H' e (bounded_app _ _ Hb') HG HI') as [HI'' [->|(Hn & i & ->)]]; [done|].
      split; [done|]. rewrite Forall_app. split; [done|]. repeat constructor; simpl; lia.
    + rewrite He. split; [done|constructor].
Qed.

(** However many clients append concurrently, and whichever replies
    are lost, the list they leave in a correct service passes
    [CheckAppends]. *)
Theorem appends_check_passes fuel H0 acts rs order :
  let w := run acts (spawn H0 (append_clients fuel)) in
  list_stored H0 → stored_entries H0 = [] → bounded (hist w) → (lossy = false → Forall keeps_replies acts) →
  results w = Some rs → (∀ m, order m ≡ₚ elements (dom m)) →
  ∃ H', alone ('(es, ver) ← GetJson "k" (-1); Ends (CheckAppends order es n rs ver)) [] (hist w) = Done ((), H').
Proof.
  intros w HI He Hb Hl Hrs Horder.
  destruct (append_clients_run fuel H0 acts HI He Hb Hl) as (Hok & (s & es & Hs & Hu & Hv) & Hids).
  fold w in Hok, Hs, Hids. rewrite (stored_entries_eq _ _ _ Hs Hu) in Hids.
  destruct (results_ok _ _ _ w rs Hok Hrs) as [Hlen Hres].
  assert (length rs = n) as Hn.
  { rewrite Hlen. unfold w. rewrite run_clients. unfold spawn, append_clients. cbn [clients].
    by rewrite !length_fmap, length_seq. }
  pose proof (stored_entries_eq _ _ _ Hs Hu) as Hes.
  assert (∀ c r, rs !! c = Some r → ∃ i, iterated c i r (hist w)) as Hit by (intros c r Hr; by apply (Hres c r Hr)).
  pose proof (version_bound _ _ _ Hb Hs) as Hvb. unfold bounded in Hb.
  eexists. rewrite (alone_GetJson _ _ _ _ _ s es) by done. cbn [alone].
  rewrite Hv, accounted_check; [reflexivity|lia|done|done|done|].
  intros c r Hr. assert (numbers (Z.of_nat c) es = mine c (hist w)) as -> by (unfold mine; by rewrite Hes).
  destruct (Hit c r Hr) as (i & ? & ? & ? & ? & ? & ? & ?). unfold in_range_res, accounts_for.
  cbv zeta. split_and!; try done; lia.
Qed.
End Appends.

End Service.

(** ** Witnesses *)
#[local] Existing Instances kv_service kv_documented.
#[local] Instance json_entries : Json (list entry) := binary_json (list entry).
#[local] Instance json_entries_laws : JsonLaws (list entry) := binary_json_laws (list entry).

Definition any_order (m : gmap Z Z) : list Z := elements (dom m).

Definition two_entries : list entry := [mkEntry 0 0; mkEntry 1 1; mkEntry 0 1].

Lemma CheckAppends_exact_witness :
  CheckAppends any_order two_entries 2 [mkClntRes 2 0; mkClntRes 1 1] 4 = Done () ∧
  ((∀ c, increasing (numbers c two_entries)) ∧ 4 = Z.of_nat (length two_entries) + 1 ∧
   ∀ c r, [mkClntRes 2 0; mkClntRes 1 1] !! c = Some r → accounts_for (numbers (Z.of_nat c) two_entries) r).
Proof.
  assert (CheckAppends any_order two_entries 2 [mkClntRes 2 0; mkClntRes 1 1] 4 = Done ()) as H by (vm_compute; reflexivity).
  split; [exact H|].
  apply (CheckAppends_exact any_order two_entries 2 [mkClntRes 2 0; mkClntRes 1 1] 4); [| | | | |exact H].
  - split; [reflexivity|]. repeat constructor; simpl; lia.
  - reflexivity.
  - repeat constructor; simpl; lia.
  - lia.
  - reflexivity.
Defined.

(** The key before the clients start: an empty list, at version 1. *)
Definition empty_list : history :=
  [put_event 0 true "k" (default ""%string (Marshal (V := list entry) [])) 0 0 false 0 0 []].

(** Client 1 reads the list before client 0 puts; its first put is refused, and the
    reply to its second is lost. *)
Definition append_race : list action :=
  [Chosen 0 false; Chosen 1 false] ++ op1 0 false ++ op1 1 false ++ op1 0 false ++ op1 1 false ++
  op1 1 false ++ op1 1 true ++ [Chosen 0 true; Chosen 1 true].

Lemma append_race_bounded : bounded (hist (run append_race (spawn empty_list (append_clients 2 9)))).
Proof. unfold bounded. replace (length (hist _)) with 7%nat by (vm_compute; reflexivity). lia. Qed.

Lemma appends_check_passes_witness :
  results (run append_race (spawn empty_list (append_clients 2 9))) = Some [mkClntRes 1 0; mkClntRes 0 1] ∧
  ∃ H', alone ('(es, ver) ← GetJson "k" (-1); Ends (CheckAppends any_order es 2 [mkClntRes 1 0; mkClntRes 0 1] ver)) []
    (hist (run append_race (spawn empty_list (append_clients 2 9)))) = Done ((), H').
Proof.
  split; [vm_compute; reflexivity|].
  eapply (appends_check_passes true 2 9 empty_list append_race [mkClntRes 1 0; mkClntRes 0 1] any_order).
  - exists (mkKvState (default ""%string (Marshal (V := list entry) [])) 1), [].
    split_and!; vm_compute; reflexivity.
  - vm_compute. reflexivity.
  - exact append_race_bounded.
  - intros Hl. discriminate Hl.
  - vm_compute. reflexivity.
  - reflexivity.
Defined.
