(* ===== verification/KVLinear.v ===== *)
(** * KVLinear: the log of operations, and the checker's model

    What the concurrent clients of [KVServer] log is linearizable with respect to
    the model of [Models]: [checkPorcupine] has a legal answer for a correct
    service. *)

From S2P Require Import Prelude Models KVTest KVServer KVLogic KVTestProps.

Local Open Scope Z_scope.

(** ** Linearizability

    A list in the order of the linearization respects real time if no operation
    returned before one that stands earlier was called. *)
Definition respects_time : list Operation → Prop := StronglySorted (λ a b, Call a <= Return b).

Definition linearizable (ops : list Operation) : Prop :=
  ∃ l, l ≡ₚ ops ∧ respects_time l ∧
    is_Some (accepts (st_kv Init) ((λ o, (Input o, Output o)) <$> l)).

Section Service.
Context {SV : Service} {SVD : Documented SV}.

(** ** The history, through the model *)
Definition io (e : event) : KvInput * KvOutput := (e_input e, e_output e).

(** A put that is answered [ErrNoKey]: the model rejects it. *)
Definition is_no_key (e : event) : Prop := Op (e_input e) = 1 ∧ put_reply e = ErrNoKey.

Lemma accepts_app st l1 l2 : accepts st (l1 ++ l2) = (st' ← accepts st l1; accepts st' l2).
Proof.
  revert st. induction l1 as [|[inp out] l1 IH]; intros st; [done|]. simpl.
  destruct (Step st inp out) as [[[] st']| | |]; simpl; auto.
Qed.

Lemma genuine_Step H e key :
  bounded H → genuine true H e → ¬ is_no_key e → Key (e_input e) = key →
  Step (st_kv (model_of (store_of H !! key))) (e_input e) (e_output e) =
    Done (true, st_kv (model_of (store_of (H ++ [e]) !! key))).
Proof.
  intros Hb [c lg k cli t now|c lg k value ver cli lost t now _] Hnk <-.
  - rewrite store_of_get, get_event_eq. unfold server_Get.
    destruct (store_of H !! k) as [s|] eqn:Hs; simpl; rewrite Hs; simpl; [by rewrite bool_decide_eq_true_2|done].
  - set (p := put_event _ _ _ _ _ _ _ _ _ _) in *. change (Key (e_input p)) with k.
    change (e_input p) with (mkKvInput 1 k value ver).
    destruct (put_event_cases c lg k value ver cli lost t now H Hb) as [Hv Hr Hst|Hs Hv Hr Hst|Hs Hv Hr Hst];
      fold p in Hr, Hst; [| |by destruct Hnk].
    + assert (0 <= ver < 2 ^ 62) as Hver.
      { unfold bounded in Hb. rewrite <- Hv. unfold version_at. destruct (store_of H !! k) as [s|] eqn:Hs; simpl; [|lia].
        pose proof (version_bound _ _ _ Hb Hs). lia. }
      rewrite Hst, lookup_insert_eq. unfold version_at in Hv. unfold Step. cbn [Op Version Value Z.eqb Pos.eqb].
      rewrite Hv, Z.eqb_refl. unfold put_reply in Hr. rewrite Hr, uint64_id by lia. by destruct lost.
    + rewrite Hst. unfold version_at in Hv. unfold Step. cbn [Op Version Value Z.eqb Pos.eqb].
      rewrite (proj2 (Z.eqb_neq _ _) Hv). unfold put_reply in Hr. rewrite Hr. by destruct lost.
Qed.

(** The operations on one key, in the order they were executed, are a legal run
    of the model. *)
Lemma history_accepted H key :
  grows true (λ _ _, True) [] H → bounded H → Forall (λ e, ¬ is_no_key e) H →
  accepts (st_kv Init) (io <$> filter (λ e, Key (e_input e) = key) H) = Some (st_kv (model_of (store_of H !! key))).
Proof.
  intros Hg. induction Hg as [|H e Hg IH Hge _]; intros Hb Hnk; [done|].
  apply Forall_app in Hnk as [Hnk [Hne _]%Forall_cons]. specialize (IH (bounded_app _ _ Hb) Hnk).
  rewrite filter_app, fmap_app, accepts_app, IH. simpl. rewrite filter_cons. case_decide as Hk.
  - cbn [fmap list_fmap io accepts mbind option_bind]. by rewrite (genuine_Step H e key (bounded_app _ _ Hb) Hge Hne Hk).
  - simpl. rewrite store_of_snoc. destruct (execute_cases (store_of H) e) as [->|(s & _ & _ & _ & ->)]; [done|].
    by rewrite lookup_insert_ne.
Qed.

(** ** What is logged *)
Section Log.
Context {A : Type}.

(** The operation that is logged for an event, with its return time. *)
Definition logged_op (e : event) (t : Z) : Operation :=
  mkOperation (e_cli e) (e_input e) (e_start e) (e_output e) t.

Lemma genuine_logged H e (t : Z) :
  genuine true H e →
  (if Op (e_input e) =? 0 then get_operation (Key (e_input e)) (e_cli e) (e_start e) (e_output e) t
   else put_operation (Key (e_input e)) (Value (e_input e)) (Version (e_input e)) (e_cli e) (e_start e) (e_output e) t)
  = logged_op e t.
Proof.
  intros [c lg k cli t1 t2|c lg k value ver cli lost t1 t2 _]; [|done].
  unfold get_event. by destruct (Get_ _ _) as [[??]?].
Qed.

(** The logged operation of the [i]-th event, once it has returned. *)
Definition returned (w : World A) (i : nat) : option Operation :=
  match hist w !! i, ends w !! i with
  | Some e, Some t => if e_logged e then Some (logged_op e t) else None
  | _, _ => None
  end.

Definition in_order (w : World A) : list Operation := omap (returned w) (seq 0 (length (hist w))).

(** The invariant of a run: times, and where the operations are. *)
Record log_ok (w : World A) : Prop := {
  ok_genuine : ∀ i e, hist w !! i = Some e → ∃ H, genuine true H e;
  ok_times : ∀ i e, hist w !! i = Some e → e_start e <= e_time e <= clock w;
  ok_order : ∀ i j e1 e2, (i < j)%nat → hist w !! i = Some e1 → hist w !! j = Some e2 → e_time e1 <= e_time e2;
  ok_ends : ∀ i t, ends w !! i = Some t → ∃ e, hist w !! i = Some e ∧ e_time e <= t <= clock w;
  ok_calling : ∀ c cl t, clients w !! c = Some cl → at_phase cl = Calling t → t <= clock w;
  ok_replied : ∀ c cl i, clients w !! c = Some cl → at_phase cl = Replied i →
    ends w !! i = None ∧ ∃ e, hist w !! i = Some e ∧ e_by e = c;
  ok_pending : ∀ i, (i < length (hist w))%nat → ends w !! i = None →
    ∃ c cl, clients w !! c = Some cl ∧ at_phase cl = Replied i;
  ok_log : oplog w ≡ₚ in_order w
}.

Lemma omap_ext_in {X Y} (f g : X → option Y) (l : list X) : (∀ x, x ∈ l → f x = g x) → omap f l = omap g l.
Proof.
  induction l as [|x l IH]; intros Hfg; [done|]. csimpl. rewrite (Hfg x) by (by left).
  rewrite IH; [done|]. intros y Hy. apply Hfg. by right.
Qed.

Lemma omap_update {X Y} (f g : X → option Y) (l : list X) x :
  NoDup l → x ∈ l → f x = None → (∀ z, z ≠ x → g z = f z) →
  omap g l ≡ₚ omap f l ++ option_list (g x).
Proof.
  intros Hnd Hx Hf Hg. induction Hnd as [|y l Hy Hnd IH]; [by apply elem_of_nil in Hx|].
  apply elem_of_cons in Hx as [<-|Hx].
  - csimpl. rewrite Hf, (omap_ext_in g f l) by (intros z Hz; apply Hg; by intros ->).
    destruct (g x); simpl; [by rewrite Permutation_app_comm|by rewrite app_nil_r].
  - csimpl. rewrite Hg by (by intros ->). destruct (f y); by rewrite (IH Hx).
Qed.

(** A client takes a step of its own, or calls. *)
Lemma set_client_log c cl p ph w :
  clients w !! c = Some cl → (∀ i, at_phase cl ≠ Replied i) → ph = Idle ∨ ph = Calling (clock w) →
  log_ok w → log_ok (set_client c p ph w).
Proof.
  intros Hc Hcl Hph [Hg Ht Ho He Hca Hr Hp Hl]. constructor; simpl; try done.
  - intros c' cl' t [(-> & <- & _)|[_ ?]]%list_lookup_insert_Some; simpl; [|by apply (Hca c' cl')].
    destruct Hph as [-> | ->]; [done|]. intros [= ->]. lia.
  - intros c' cl' i [(-> & <- & _)|[_ ?]]%list_lookup_insert_Some; simpl; [|by apply (Hr c' cl')].
    by destruct Hph as [-> | ->].
  - intros i Hi Hn. destruct (Hp i Hi Hn) as (c' & cl' & Hc' & Hcl').
    assert (c ≠ c') as Hne by (intros <-; simplify_eq; by destruct (Hcl i)).
    exists c', cl'. split; [|done]. by rewrite list_lookup_insert_ne.
Qed.

(** The server executes an operation. *)
Lemma happens_log c cl p e w start :
  clients w !! c = Some cl → at_phase cl = Calling start →
  genuine true (hist w) e → e_by e = c → e_start e = start → e_time e = clock w →
  log_ok w → log_ok (happens e (set_client c p (Replied (length (hist w))) w)).
Proof.
  intros Hc Hcl Hge Hby Hst Htm [Hg Ht Ho He Hca Hr Hp Hl].
  assert (ends w !! length (hist w) = None) as Hfresh.
  { destruct (ends w !! length (hist w)) as [t|] eqn:E; [|done]. apply He in E as (e' & He' & _).
    apply lookup_lt_Some in He'. lia. }
  constructor; simpl.
  - intros i e' [[_ ?]|[_ <-]]%lookup_snoc_Some; eauto.
  - intros i e' [[_ ?]|[_ <-]]%lookup_snoc_Some; [by eapply Ht|]. rewrite Hst, Htm. pose proof (Hca c cl start Hc Hcl). lia.
  - intros i j e1 e2 Hij H1 [[_ H2]|[-> <-]]%lookup_snoc_Some.
    + apply lookup_snoc_Some in H1 as [[_ H1]|[-> _]]; [by eapply Ho|]. apply lookup_lt_Some in H2. lia.
    + apply lookup_snoc_Some in H1 as [[_ H1]|[-> _]]; [|lia]. rewrite Htm. apply (Ht _ _ H1).
  - intros i t Hi. destruct (He i t Hi) as (e' & He' & Hle). exists e'. split; [by apply lookup_app_l_Some|done].
  - intros c' cl' t [(-> & <- & _)|[_ ?]]%list_lookup_insert_Some; simpl; [done|by apply (Hca c' cl')].
  - intros c' cl' i [(-> & <- & _)|[Hne Hc']]%list_lookup_insert_Some; simpl.
    + intros [= <-]. split; [done|]. exists e. split; [by apply list_lookup_middle|done].
    + intros Hcl'. destruct (Hr c' cl' i Hc' Hcl') as (Hn & e' & He' & Hby').
      split; [done|]. exists e'. split; [by apply lookup_app_l_Some|done].
  - intros i Hi Hn. rewrite length_app in Hi. simpl in Hi. destruct (decide (i = length (hist w))) as [->|Hne].
    + exists c. eexists. split; [apply list_lookup_insert_eq; by eapply lookup_lt_Some|done].
    + destruct (Hp i ltac:(lia) Hn) as (c' & cl' & Hc' & Hcl').
      assert (c ≠ c') as Hne' by (intros <-; congruence).
      exists c', cl'. split; [|done]. by rewrite list_lookup_insert_ne.
  - rewrite Hl. unfold in_order. simpl. rewrite length_app, seq_app, omap_app. simpl.
    unfold returned at 3. simpl. rewrite Hfresh, list_lookup_middle by done. rewrite app_nil_r.
    erewrite (omap_ext_in (returned w)); [reflexivity|]. intros i Hi%elem_of_seq. unfold returned. simpl. by rewrite lookup_app_l by lia.
Qed.

(** An operation returns, and is logged. *)
Lemma returns_log c cl p i e w :
  clients w !! c = Some cl → at_phase cl = Replied i → hist w !! i = Some e →
  log_ok w → log_ok (returns i e (set_client c p Idle w)).
Proof.
  intros Hc Hcl Hi [Hg Ht Ho He Hca Hr Hp Hl]. destruct (Hr c cl i Hc Hcl) as (Hn & e' & He' & Hby).
  assert (e' = e) as -> by congruence. constructor; simpl; try done.
  - intros j t. rewrite lookup_insert. case_decide as E; [|apply He]. subst j. intros [= <-].
    exists e. split; [done|]. destruct (Ht _ _ Hi). lia.
  - intros c' cl' t [(-> & <- & _)|[_ ?]]%list_lookup_insert_Some; simpl; [done|by apply (Hca c' cl')].
  - intros c' cl' j [(-> & <- & _)|[Hne Hc']]%list_lookup_insert_Some; simpl; [done|].
    intros Hcl'. destruct (Hr c' cl' j Hc' Hcl') as (Hn' & e2 & He2 & Hby2).
    split; [|by exists e2]. rewrite lookup_insert_ne; [done|]. intros <-. congruence.
  - intros j Hj. rewrite lookup_insert. case_decide; [done|]. intros Hn'.
    destruct (Hp j Hj Hn') as (c' & cl' & Hc' & Hcl').
    assert (c ≠ c') as Hne by (intros <-; congruence).
    exists c', cl'. split; [|done]. by rewrite list_lookup_insert_ne.
  - destruct (Hg i e Hi) as [H Hge]. rewrite (genuine_logged H) by done.
    unfold in_order. simpl. rewrite (omap_update (returned w) _ _ i).
    + unfold returned at 2. simpl. rewrite Hi, lookup_insert_eq. destruct (e_logged e); simpl; [by rewrite Hl|].
      by rewrite app_nil_r.
    + apply NoDup_seq.
    + apply elem_of_seq. apply lookup_lt_Some in Hi. lia.
    + unfold returned. by rewrite Hi, Hn.
    + intros z Hz. unfold returned. simpl. by rewrite lookup_insert_ne.
Qed.

Lemma exec_log a w : log_ok w → log_ok (exec a w).
Proof.
  intros Hw. destruct a as [d|c|c lost|c|c b|c r]; simpl.
  { destruct Hw as [Hg Ht Ho He Hca Hr Hp Hl]. constructor; simpl; try done.
    - intros i e Hi. destruct (Ht i e Hi). lia.
    - intros i t Hi. destruct (He i t Hi) as (e & He1 & He2). exists e. split; [done|lia].
    - intros c cl t Hc Hcl. pose proof (Hca c cl t Hc Hcl). lia. }
  all: destruct (clients w !! c) as [[[m|lg key cli k|lg key value ver cli k|k|k] [|t|i]]|] eqn:Hc; try exact Hw.
  - by eapply set_client_log; [exact Hc|done|right|].
  - by eapply set_client_log; [exact Hc|done|right|].
  - eapply happens_log; [exact Hc|done|constructor|..|done]; unfold get_event; by destruct (Get_ _ _) as [[??]?].
  - by eapply happens_log; [exact Hc|done|by constructor|..].
  - destruct (hist w !! i) as [e|] eqn:Hi; [|done]. by eapply returns_log; [exact Hc|..].
  - destruct (hist w !! i) as [e|] eqn:Hi; [|done]. by eapply returns_log; [exact Hc|..].
  - by eapply set_client_log; [exact Hc|done|left|].
  - destruct (0 <=? r); [|done]. by eapply set_client_log; [exact Hc|done|left|].
Qed.

Lemma spawn_log (fns : list (prog A)) : log_ok (spawn [] fns).
Proof.
  assert (∀ c cl, ((λ p, mkClient p Idle) <$> fns) !! c = Some cl → at_phase cl = Idle) as Hidle.
  { intros c cl. rewrite list_lookup_fmap. destruct (fns !! c); [|done]. by intros [= <-]. }
  constructor; simpl; try done; [intros c cl t Hc|intros c cl i Hc|lia]; by rewrite (Hidle c cl Hc).
Qed.

Lemma run_log acts w : log_ok w → log_ok (run acts w).
Proof. revert w. induction acts as [|a acts IH]; intros w Hw; [done|]. by apply IH, exec_log. Qed.

Lemma exec_genuine a (w : World A) : grows true (λ _ _, True) (hist w) (hist (exec a w)).
Proof.
  destruct a as [d|c|c lost|c|c b|c r]; simpl; try constructor;
    destruct (clients w !! c) as [[[m|lg key cli k|lg key value ver cli k|k|k] [|t|i]]|]; try constructor;
    try (by destruct (hist w !! i); constructor); try (by destruct (0 <=? r); constructor);
    by repeat constructor.
Qed.

Lemma run_genuine acts (w : World A) : grows true (λ _ _, True) (hist w) (hist (run acts w)).
Proof.
  revert w. induction acts as [|a acts IH]; intros w; [constructor|].
  eapply grows_trans; [apply exec_genuine|apply IH].
Qed.
End Log.

(** ** Theorem *)
Lemma Forall2_omap_seq {X Y} (R : Y → X → Prop) (f : nat → option Y) (l : list X) : ∀ k,
  (∀ i x, l !! i = Some x → ∃ y, f (k + i)%nat = Some y ∧ R y x) →
  Forall2 R (omap f (seq k (length l))) l.
Proof.
  induction l as [|x l IH]; intros k Hf; csimpl; [constructor|].
  destruct (Hf 0%nat x eq_refl) as (y & Hy & HR). rewrite Nat.add_0_r in Hy. rewrite Hy.
  constructor; [done|]. apply IH. intros i z Hi. destruct (Hf (S i) z Hi) as (y' & Hy' & HR').
  rewrite Nat.add_succ_r in Hy'. by exists y'.
Qed.

Lemma StronglySorted_omap {X Y} (S : X → X → Prop) (R : Y → Y → Prop) (f : X → option Y) (l : list X) :
  StronglySorted S l → (∀ x1 x2 y1 y2, S x1 x2 → f x1 = Some y1 → f x2 = Some y2 → R y1 y2) →
  StronglySorted R (omap f l).
Proof.
  intros Hs Hf. induction Hs as [|x l Hs IH Hall]; csimpl; [constructor|].
  destruct (f x) as [y|] eqn:Hy; [|done]. constructor; [done|].
  apply Forall_forall. intros y' (x' & Hx' & Hy')%list_elem_of_omap. rewrite Forall_forall in Hall. eauto.
Qed.

Lemma StronglySorted_keep {X} (R : X → X → Prop) (P : X → Prop) `{∀ x, Decision (P x)} (l : list X) :
  StronglySorted R l → StronglySorted R (filter P l).
Proof.
  induction 1 as [|x l Hs IH Hall]; [constructor|]. rewrite filter_cons. case_decide; [|done].
  constructor; [done|]. rewrite Forall_forall in *. intros y [_ Hy]%list_elem_of_filter. by apply Hall.
Qed.

Lemma seq_sorted k n : StronglySorted lt (seq k n).
Proof.
  revert k. induction n as [|n IH]; intros k; simpl; constructor; [done|].
  apply Forall_forall. intros i Hi%elem_of_seq. lia.
Qed.

(** No operation is under way. *)
Definition quiescent {A} (w : World A) : Prop := ∀ c cl, clients w !! c = Some cl → at_phase cl = Idle.

Lemma partition_parts history part :
  part ∈ Partition history → ∃ k, part = filter (λ v, Key (Input v) = k) history.
Proof.
  unfold Partition. intros (k & -> & _)%list_elem_of_fmap. exists k. rewrite by_key_spec.
  by destruct (filter _ history).
Qed.

Lemma in_order_spec {A} (w : World A) :
  log_ok w → quiescent w → Forall (λ e, e_logged e = true) (hist w) →
  Forall2 (λ o e, ∃ t, o = logged_op e t) (in_order w) (hist w) ∧ respects_time (in_order w).
Proof.
  intros [Hg Ht Ho He Hca Hr Hp Hl] Hq Hlog. split.
  - apply Forall2_omap_seq. intros i e Hi. simpl.
    destruct (ends w !! i) as [t|] eqn:Ei.
    + exists (logged_op e t). split; [|by exists t]. unfold returned. rewrite Hi, Ei.
      by rewrite (Forall_lookup_1 _ _ _ _ Hlog Hi).
    + destruct (Hp i (lookup_lt_Some _ _ _ Hi) Ei) as (c & cl & Hc & Hcl). by rewrite (Hq c cl Hc) in Hcl.
  - apply (StronglySorted_omap lt); [apply seq_sorted|]. unfold returned. intros i j o1 o2 Hij H1 H2.
    destruct (hist w !! i) as [e1|] eqn:Hi, (hist w !! j) as [e2|] eqn:Hj; try done;
      [|by destruct (ends w !! i)..].
    destruct (ends w !! i) as [t1|] eqn:E1, (ends w !! j) as [t2|] eqn:E2; try done.
    destruct (e_logged e1), (e_logged e2); try done. injection H1 as <-. injection H2 as <-. simpl.
    pose proof (Ht i e1 Hi). pose proof (Ho i j e1 e2 Hij Hi Hj). destruct (He j t2 E2) as (e & He' & Hle).
    assert (e = e2) as -> by congruence. lia.
Qed.

Lemma ops_io ops H k :
  Forall2 (λ o e, ∃ t, o = logged_op e t) ops H →
  (λ o, (Input o, Output o)) <$> filter (λ v, Key (Input v) = k) ops = io <$> filter (λ e, Key (e_input e) = k) H.
Proof.
  induction 1 as [|o e ops H (t & ->) _ IH]; [done|]. rewrite !filter_cons. simpl.
  case_decide; cbn [fmap list_fmap]; [f_equal|]; apply IH.
Qed.

(** A put in a log that is answered [ErrNoKey]. *)
Definition no_key (o : Operation) : Prop := Op (Input o) = 1 ∧ o_Err (Output o) = ErrNoKey.

#[export] Instance no_key_dec o : Decision (no_key o).
Proof. unfold no_key. apply _. Defined.

Lemma accepts_no_key ops : ∀ st, is_Some (accepts st ((λ o, (Input o, Output o)) <$> ops)) → Forall (λ o, ¬ no_key o) ops.
Proof.
  induction ops as [|o ops IH]; intros st Hacc; [constructor|]. cbn [fmap list_fmap accepts] in Hacc.
  destruct (Step st (Input o) (Output o)) as [[[] st']| | |] eqn:E; try (by destruct Hacc). constructor; [|by eapply IH].
  intros [Hop Herr]. destruct st as [s|]; [|done]. cbn [Step] in E. rewrite Hop, Herr in E. simpl in E. by destruct (_ =? _).
Qed.

Lemma linearizable_no_key ops : Forall linearizable (Partition ops) → Forall (λ o, ¬ no_key o) ops.
Proof.
  intros Hl. apply Forall_forall. intros o Ho.
  assert (filter (λ v, Key (Input v) = Key (Input o)) ops ∈ Partition ops) as Hpart.
  { unfold Partition. apply list_elem_of_fmap. exists (Key (Input o)). rewrite by_key_spec.
    assert (o ∈ filter (λ v, Key (Input v) = Key (Input o)) ops) as Hin by by apply list_elem_of_filter.
    split; [by destruct (filter _ ops)|]. rewrite merge_sort_Permutation. apply elem_of_elements, elem_of_dom.
    rewrite by_key_spec. destruct (filter _ ops); [by apply elem_of_nil in Hin|by eexists]. }
  rewrite Forall_forall in Hl. destruct (Hl _ Hpart) as (l & Hp & _ & Hacc). apply accepts_no_key in Hacc.
  rewrite Forall_forall in Hacc. apply Hacc. rewrite Hp. by apply list_elem_of_filter.
Qed.

(** The puts of the history that are answered so are in the log. *)
Lemma log_no_key {A} (w : World A) :
  log_ok w → quiescent w → Forall (λ e, e_logged e = true) (hist w) →
  Forall (λ o, ¬ no_key o) (oplog w) → Forall (λ e, ¬ is_no_key e) (hist w).
Proof.
  intros Hw Hq Hlog Hno. destruct (in_order_spec w Hw Hq Hlog) as [Hops _]. rewrite (ok_log w Hw) in Hno.
  clear -Hops Hno. induction Hops as [|o e ops H (t & ->) _ IH]; [constructor|].
  apply Forall_cons in Hno as [Ho Hno]. constructor; [exact Ho|by apply IH].
Qed.

(** Once no operation is under way, the parts of the log are linearizable. *)
Lemma run_linearizable {A} (fns : list (prog A)) acts :
  let w := run acts (spawn [] fns) in
  quiescent w → bounded (hist w) → Forall (λ e, e_logged e = true) (hist w) → Forall (λ o, ¬ no_key o) (oplog w) →
  Forall linearizable (Partition (oplog w)).
Proof.
  intros w Hq Hb Hlog Hno. apply Forall_forall. intros part (k & ->)%partition_parts.
  assert (log_ok w) as Hw by apply run_log, spawn_log.
  destruct (in_order_spec w Hw Hq Hlog) as [Hops Htime].
  exists (filter (λ v, Key (Input v) = k) (in_order w)). split_and!.
  - by rewrite (ok_log w Hw).
  - by apply StronglySorted_keep.
  - assert ((λ o, (Input o, Output o)) <$> filter (λ v, Key (Input v) = k) (in_order w) =
      io <$> filter (λ e, Key (e_input e) = k) (hist w)) as ->.
    { by apply ops_io. }
    eexists. apply history_accepted; [apply (run_genuine acts (spawn [] fns))|done|by apply log_no_key].
Qed.

(** (C18) The log of a documented service is linearizable exactly if no put in it was answered [ErrNoKey]: for any programs that
    clients run concurrently, in any interleaving and with any replies lost, once
    no operation is under way, and if all of them were logged, every part of the log that the checker looks at has an
    order that respects real time and that the model accepts; but a log with a put that was
    answered [ErrNoKey], as the comment on the server's Put prescribes for a key that does not exist and a version other than 0,
    is not linearizable, since the model has no such answer. *)
Theorem oplog_linearizable {A} (fns : list (prog A)) acts :
  let w := run acts (spawn [] fns) in
  quiescent w → bounded (hist w) → Forall (λ e, e_logged e = true) (hist w) →
  (Forall linearizable (Partition (oplog w)) ↔ Forall (λ o, ¬ no_key o) (oplog w)).
Proof. intros w Hq Hb Hl. split; [apply linearizable_no_key|by apply run_linearizable]. Qed.
End Service.

(** ** Witness *)
#[local] Existing Instances kv_service kv_documented.
Definition idle {A} (cl : Client A) : bool := match at_phase cl with Idle => true | _ => false end.
Lemma forallb_Forall {X} (f : X → bool) (l : list X) : forallb f l = true → Forall (λ x, f x = true) l.
Proof. induction l as [|x l IH]; simpl; [constructor|]. rewrite andb_true_iff. intros [? ?]. constructor; auto. Qed.

Lemma idle_quiescent {A} (w : World A) : forallb idle (clients w) = true → quiescent w.
Proof.
  intros Hall%forallb_Forall c cl Hc. pose proof (Forall_lookup_1 _ _ _ _ Hall Hc) as H.
  unfold idle in H. by destruct (at_phase cl).
Qed.

#[local] Instance json_EntryV : Json EntryV := binary_json EntryV.

Definition two_clients : list (prog ClntRes) := (λ c, OneClientPut false 9 (Z.of_nat c) ["k"%string]) <$> seq 0 2.

Lemma linear_race_bounded : bounded (hist (run race (spawn [] two_clients))).
Proof. unfold bounded. replace (length (hist _)) with 10%nat by (vm_compute; reflexivity). lia. Qed.

Lemma linear_race_logged : Forall (λ e, e_logged e = true) (hist (run race (spawn [] two_clients))).
Proof. apply forallb_Forall. vm_compute. reflexivity. Qed.

Lemma linear_race_no_key : Forall (λ o, ¬ no_key o) (oplog (run race (spawn [] two_clients))).
Proof.
  assert (forallb (λ o, negb (bool_decide (no_key o))) (oplog (run race (spawn [] two_clients))) = true) as H by (vm_compute; reflexivity).
  eapply Forall_impl; [exact (forallb_Forall _ _ H)|]. intros o. by rewrite negb_true_iff, bool_decide_eq_false.
Qed.

(** One client puts to a key that does not exist, with version 3. *)
Definition stale_put : list (prog unit) := [CkPut true "k" "v" 3 0 (λ _, Ends (Done ()))].
Definition stale_run : list action := [Begin 0; Tick 1; Effect 0 false; Tick 1; End 0].

Lemma oplog_linearizable_witness :
  (length (oplog (run race (spawn [] two_clients))) = 10%nat ∧
   Forall linearizable (Partition (oplog (run race (spawn [] two_clients))))) ∧
  ¬ Forall linearizable (Partition (oplog (run stale_run (spawn [] stale_put)))).
Proof.
  split; [split; [vm_compute; reflexivity|]|].
  - apply (oplog_linearizable two_clients race).
    + apply idle_quiescent. vm_compute. reflexivity.
    + exact linear_race_bounded.
    + exact linear_race_logged.
    + exact linear_race_no_key.
  - intros Hl. apply (oplog_linearizable stale_put stale_run) in Hl.
    + apply (Forall_lookup_1 _ _ 0%nat (mkOperation 0 (mkKvInput 1 "k" "v" 3) 0 (mkKvOutput "" 0 ErrNoKey) 2)) in Hl; [|vm_compute; reflexivity].
      apply Hl. split; reflexivity.
    + apply idle_quiescent. vm_compute. reflexivity.
    + vm_compute. reflexivity.
    + apply forallb_Forall. vm_compute. reflexivity.
Defined.
