(* ===== verification/Porcupine.v ===== *)
(** * Porcupine: the verdict on the log (src/src/kvtest1/porcupine.go)

    [checkPorcupine] hands the log of operations to the checker, fails the test
    when the checker says it is illegal, and may draw the history. The checker
    is the library porcupine, a parameter; the environment variables, what
    opening the file gives and whether drawing succeeds are arguments. *)

From S2P Require Import Prelude Models Annotation KVTest KVServer KVLogic KVTestProps KVLinear.

Local Open Scope Z_scope.

(** porcupine.CheckResult. *)
Inductive CheckResult := Ok | Illegal | Unknown.

#[export] Instance CheckResult_eq_dec : EqDecision CheckResult.
Proof. solve_decision. Defined.

(** The environment. [opened] is the name of the file, if it can be opened. *)
Record Env := mkEnv {
  VIS_ENABLE : string;
  VIS_FILE : string;
  opened : option string;
  Visualize_ok : bool
}.

(** What a call leaves behind: files that were created or truncated, the
    annotations that were drawn, with the operations, and the lines printed. *)
Record Report := mkReport {
  files : list string;
  drawn : option (list Ann * list Operation);
  info : list string
}.

Definition says (line : string) (r : Report) : Report := mkReport (files r) (drawn r) (info r ++ [line]).

(** The annotations are finalized and drawn into the open file. *)
Definition draw (env : Env) (fin : string) (order : list (string * Continuous)) (t : Z) (ops : list Operation)
    (file : string) (r : Report) (g : G) : Report * G :=
  let '(annotations, g) := FinalizeAnnotations fin order t g in
  if Visualize_ok env
  then (says ("info: wrote history visualization to " +:+ file) (mkReport (files r) (Some (annotations, ops)) (info r)), g)
  else (says ("info: failed to write history visualization to " +:+ file) r, g).

Definition open_failed (env : Env) (r : Report) : Report :=
  says ("info: failed to open visualization file " +:+ VIS_FILE env) r.

Section Check.
Context {SV : Service} {SVD : Documented SV}.
Variable CheckOperationsVerbose : list Operation → CheckResult.

(** Before [t.Fatal] ends the test the history is drawn, so a failure is a
    result here: [true] when the history is not linearizable. *)
Definition checkPorcupine (env : Env) (order : list (string * Continuous)) (t : Z) (opLog : list Operation) (g : G) :
    bool * Report * G :=
  let res := CheckOperationsVerbose opLog in
  let r := mkReport [] None [] in
  if decide (res = Illegal) then
    let '(r, g) :=
      match opened env with
      | None => (open_failed env r, g)
      | Some file =>
          let r := mkReport (files r ++ [file]) (drawn r) (info r) in
          if bool_decide (VIS_ENABLE env = "never"%string) then (r, g)
          else draw env "test failed" order t opLog file r g
      end in
    (true, r, g)
  else
    let r := if decide (res = Unknown)
             then says "info: linearizability check timed out, assuming history is ok" r else r in
    if bool_decide (VIS_ENABLE env = "always"%string) && GetAnnotationFinalized g then
      match opened env with
      | None => (false, open_failed env r, g)
      | Some file =>
          let '(r, g) := draw env "test passed" order t opLog file (mkReport (files r ++ [file]) (drawn r) (info r)) g in
          (false, r, g)
      end
    else (false, r, g).

(** What the documentation of porcupine says of a verdict, with the model of
    [Models]: the parts of the history are checked one by one. *)
Record sound_checker : Prop := {
  illegal_sound : ∀ ops, CheckOperationsVerbose ops = Illegal → ¬ Forall linearizable (Partition ops);
  ok_sound : ∀ ops, CheckOperationsVerbose ops = Ok → Forall linearizable (Partition ops)
}.

Lemma checkPorcupine_fails env order t ops g :
  (checkPorcupine env order t ops g).1.1 = bool_decide (CheckOperationsVerbose ops = Illegal).
Proof.
  unfold checkPorcupine, draw, FinalizeAnnotations, finalize.
  destruct (opened env), (Visualize_ok env), (CheckOperationsVerbose ops), (bool_decide (VIS_ENABLE env = "never"%string)),
    (bool_decide (VIS_ENABLE env = "always"%string)), (GetAnnotationFinalized g); reflexivity.
Qed.

(** (C19) The linearizability check of the tests, against a documented service: whatever programs the clients run
    concurrently, in any interleaving and with any replies lost, the check of what they
    logged passes if no put was answered [ErrNoKey]; if one was, which the comments of the service allow, the check blames the service or times
    out, and does not find the log in order. And it is a check: a log
    it fails is not linearizable, and one it passes without a time-out
    is. *)
Theorem checkPorcupine_correct_service {A} (fns : list (prog A)) acts env order t g :
  sound_checker →
  let w := run acts (spawn [] fns) in
  quiescent w → bounded (hist w) → Forall (λ e, e_logged e = true) (hist w) →
  (Forall (λ o, ¬ no_key o) (oplog w) → (checkPorcupine env order t (oplog w) g).1.1 = false) ∧
  (Exists no_key (oplog w) →
    (checkPorcupine env order t (oplog w) g).1.1 = negb (bool_decide (CheckOperationsVerbose (oplog w) = Unknown))) ∧
  ∀ ops,
    ((checkPorcupine env order t ops g).1.1 = true → ¬ Forall linearizable (Partition ops)) ∧
    ((checkPorcupine env order t ops g).1.1 = false → CheckOperationsVerbose ops ≠ Unknown →
      Forall linearizable (Partition ops)).
Proof.
  intros [Hill Hok] w Hq Hb Hall. split_and!; [intros Hno|intros Hnk|intros ops]; rewrite checkPorcupine_fails.
  - apply bool_decide_eq_false. intros E. apply (Hill _ E). by apply run_linearizable.
  - destruct (CheckOperationsVerbose (oplog w)) eqn:E; [|done..]. exfalso.
    pose proof (linearizable_no_key _ (Hok _ E)) as Hno. apply Exists_exists in Hnk as (o & Ho & Hnk).
    rewrite Forall_forall in Hno. by apply (Hno o).
  - rewrite bool_decide_eq_true, bool_decide_eq_false. split; [apply Hill|].
    intros Hni Hnu. apply Hok. destruct (CheckOperationsVerbose ops) eqn:E; [done|by destruct Hni|by destruct Hnu].
Qed.

(** With [VIS_ENABLE=always] a test that passes without having been finalized
    is not drawn by the check of its operations: the condition asks for annotations
    that are finalized already. The clean-up then draws the annotations alone, which
    is what the comment on [CheckPorcupineT] means to avoid. *)
Theorem passed_operations_not_drawn env order order' t t' ops g :
  VIS_ENABLE env = "always"%string → CheckOperationsVerbose ops ≠ Illegal →
  finalized (annotation g) = false → annotations (annotation g) ≠ [] →
  let '(failed, r, g') := checkPorcupine env order t ops g in
  failed = false ∧ drawn r = None ∧ g' = g ∧
  is_Some (cleanup (VIS_ENABLE env) false "test passed" order' t' (annotation g')).1.
Proof.
  intros Henv Hres Hfin Hann. unfold checkPorcupine. rewrite decide_False by done.
  unfold GetAnnotationFinalized. rewrite Hfin, andb_false_r. split_and!; [done|by case_decide|done|].
  unfold cleanup. rewrite Henv, Hfin. cbn. destruct (foldl _ _ order') eqn:E; [|by eexists].
  exfalso. assert (∀ l0, l0 ≠ [] → foldl (λ x '(tag, c), x ++ [concretize tag c t']) l0 order' ≠ []) as Hne.
  { clear. induction order' as [|[tag c] order' IH]; intros l0 Hl; [done|]. simpl. apply IH. by destruct l0. }
  by apply (Hne _ Hann).
Qed.
End Check.

(** ** A reference checker: every order of every part *)
Fixpoint in_time (l : list Operation) : bool :=
  match l with
  | [] => true
  | a :: l => forallb (λ b, Call a <=? Return b) l && in_time l
  end.

Definition legal (l : list Operation) : bool :=
  in_time l && bool_decide (is_Some (accepts (st_kv Init) ((λ o, (Input o, Output o)) <$> l))).

Definition exhaustive (ops : list Operation) : CheckResult :=
  if forallb (λ part, existsb legal (permutations part)) (Partition ops) then Ok else Illegal.

Lemma in_time_true l : in_time l = true ↔ respects_time l.
Proof.
  unfold respects_time. induction l as [|a l IH]; simpl; [split; [constructor|done]|].
  rewrite andb_true_iff, IH, forallb_forall, StronglySorted_cons, Forall_forall.
  setoid_rewrite list_elem_of_In. by setoid_rewrite Z.leb_le.
Qed.

Lemma exhaustive_part part : existsb legal (permutations part) = true ↔ linearizable part.
Proof.
  rewrite existsb_exists. unfold linearizable, legal. setoid_rewrite <- list_elem_of_In.
  setoid_rewrite permutations_Permutation. setoid_rewrite andb_true_iff. setoid_rewrite in_time_true.
  setoid_rewrite bool_decide_eq_true. split; intros (l & ? & ?); by exists l.
Qed.

Lemma exhaustive_sound : sound_checker exhaustive.
Proof.
  assert (∀ ops, forallb (λ part, existsb legal (permutations part)) (Partition ops) = true ↔
    Forall linearizable (Partition ops)) as Hiff.
  { intros ops. rewrite forallb_forall, Forall_forall. setoid_rewrite list_elem_of_In.
    by setoid_rewrite exhaustive_part. }
  split; intros ops; unfold exhaustive; rewrite <- Hiff; by destruct (forallb _ _).
Qed.

Definition vis_env : Env := mkEnv "always" "" (Some "porcupine-1.html"%string) true.

#[local] Existing Instances kv_service kv_documented.

Lemma checkPorcupine_correct_service_witness :
  (checkPorcupine exhaustive vis_env [] 7 (oplog (run race (spawn [] two_clients))) boot).1.1 = false ∧
  (checkPorcupine exhaustive vis_env [] 7 (oplog (run stale_run (spawn [] stale_put))) boot).1.1 = true.
Proof.
  split.
  - apply (checkPorcupine_correct_service exhaustive two_clients race vis_env [] 7 boot).
    + exact exhaustive_sound.
    + apply idle_quiescent. vm_compute. reflexivity.
    + exact linear_race_bounded.
    + exact linear_race_logged.
    + exact linear_race_no_key.
  - destruct (checkPorcupine_correct_service exhaustive stale_put stale_run vis_env [] 7 boot) as (_ & Hnk & _).
    + exact exhaustive_sound.
    + apply idle_quiescent. vm_compute. reflexivity.
    + vm_compute. reflexivity.
    + apply forallb_Forall. vm_compute. reflexivity.
    + rewrite Hnk; [vm_compute; reflexivity|]. vm_compute. apply Exists_cons_hd. split; reflexivity.
Defined.

Definition annotated : G := mkG (mkAnnotation [mkAnn TAG_INFO 1 0 "start" "" COLOR_INFO] ∅ false) None.

Lemma passed_operations_not_drawn_witness :
  let '(failed, r, g') := checkPorcupine exhaustive vis_env [] 7 [] annotated in
  failed = false ∧ drawn r = None ∧ g' = annotated ∧
  is_Some (cleanup "always" false "test passed" [] 9 (annotation g')).1.
Proof. apply (passed_operations_not_drawn exhaustive vis_env); [done|vm_compute; discriminate|done|done]. Defined.
