(* ===== verification/Visual.v ===== *)
(** * Visual: the file that shows a test (src/src/tester1/annotation.go, with
    src/src/kvtest1/porcupine.go)

    The clean-up of the timeline writes what it draws to a file, unless the check of the history
    has done so; an interruption of the program does the same. The environment is that of [Porcupine]. *)

From S2P Require Import Prelude Models Annotation KVTest Porcupine.

Local Open Scope Z_scope.

(** [cleanup] of annotation.go with its file. The error of [porcupine.Visualize] is not looked at. *)
Definition cleanup_vis (env : Env) (failed : bool) (fin : string) (order : list (string * Continuous)) (t : Z) (an : Annotation) :
    Report * Annotation :=
  let '(l, an) := Annotation.cleanup (VIS_ENABLE env) failed fin order t an in
  let r := mkReport [] None [] in
  match l with
  | None => (r, an)
  | Some annotations =>
      match opened env with
      | None => (open_failed env r, an)
      | Some file =>
          (says ("info: wrote visualization to " +:+ file)
             (mkReport [file] (if Visualize_ok env then Some (annotations, []) else None) []), an)
      end
  end.

(** What the goroutine of [captureSignal] does when the program is interrupted, before it exits. *)
Definition captureSignal (env : Env) (order : list (string * Continuous)) (t : Z) (an : Annotation) : Report * Annotation :=
  cleanup_vis env true "interrupted" order t an.

(** A finalized timeline is dropped. *)
Lemma cleanup_finalized env failed fin order t an :
  finalized an = true → cleanup_vis env failed fin order t an = (mkReport [] None [], empty_annotation).
Proof. intros Hf. unfold cleanup_vis, Annotation.cleanup. by rewrite Hf, orb_true_r. Qed.

Lemma draw_finalizes env fin order t ops file r g r' g' :
  draw env fin order t ops file r g = (r', g') → finalized (annotation g') = true.
Proof. unfold draw, FinalizeAnnotations, finalize. by destruct (Visualize_ok env); intros [= <- <-]. Qed.

(** A test is drawn once: if the check of the history has drawn it, the clean-up that follows, or an interruption,
    writes no file, says nothing and forgets the timeline. *)
Theorem drawn_once check env env' order order' t t' failed fin ops (g g' : G) b r r' an :
  checkPorcupine check env order t ops g = (b, r, g') → cleanup_vis env' failed fin order' t' (annotation g') = (r', an) →
  is_Some (drawn r) → r' = mkReport [] None [] ∧ an = empty_annotation.
Proof.
  intros Hc Hv Hd. enough (finalized (annotation g') = true) as Hf.
  { rewrite cleanup_finalized in Hv by done. by injection Hv as <- <-. }
  unfold checkPorcupine in Hc. destruct (decide (check ops = Illegal)) as [_|_].
  - destruct (opened env) as [file|]; [|injection Hc as _ <- _; by destruct Hd].
    case_bool_decide; [injection Hc as _ <- _; by destruct Hd|].
    destruct (draw env "test failed" order t ops file _ g) as [r1 g1] eqn:E. injection Hc as _ _ <-. by eapply draw_finalizes.
  - destruct (decide (check ops = Unknown)), (bool_decide (VIS_ENABLE env = "always"%string) && GetAnnotationFinalized g), (opened env) as [file|];
      first [by injection Hc as _ <- _; destruct Hd
            |destruct (draw env "test passed" order t ops file _ g) as [r1 g1] eqn:E; injection Hc as _ _ <-; by eapply draw_finalizes].
Qed.

(** An interruption shows the test as far as it went: everything recorded, what was going on until now,
    and the interruption; nothing if there is nothing. *)
Theorem interruption_is_shown env order t an file :
  VIS_ENABLE env ≠ "never"%string → finalized an = false → opened env = Some file → Visualize_ok env = true →
  let shown := annotations an ++ ((λ '(tag, c), concretize tag c t) <$> order) in
  drawn (captureSignal env order t an).1 =
    if decide (shown = []) then None else Some (shown ++ [mkAnn TAG_INFO t 0 "interrupted" "interrupted" COLOR_INFO], []).
Proof.
  intros Hn Hf Ho Hok. unfold captureSignal, cleanup_vis, Annotation.cleanup, finalize. rewrite bool_decide_false, Hf, Ho, Hok by done.
  cbn [negb andb orb].
  assert (∀ l0, foldl (λ x '(tag, c), x ++ [concretize tag c t]) l0 order = l0 ++ ((λ '(tag, c), concretize tag c t) <$> order)) as ->.
  { induction order as [|[tag c] order IH]; intros l0; simpl; [by rewrite app_nil_r|]. by rewrite IH, <- app_assoc. }
  cbv zeta. case_decide as Hs; [by rewrite Hs|]. by destruct (annotations an ++ _).
Qed.

(** The clean-up says that it wrote the file even if the drawing failed, where [checkPorcupine] says that it failed. *)
Theorem cleanup_hides_failed_drawing : ∃ env an r,
  Visualize_ok env = false ∧ (cleanup_vis env true "test failed" [] 5 an).1 = r ∧
  drawn r = None ∧ info r = ["info: wrote visualization to out.html"%string].
Proof.
  exists (mkEnv "" "out.html" (Some "out.html") false), (mkAnnotation [mkAnn TAG_INFO 1 0 "a" "a" COLOR_INFO] ∅ false)%string.
  by eexists.
Qed.

(** ** Witnesses *)
Lemma drawn_once_witness :
  let env := mkEnv "always" "out.html" (Some "out.html") true in
  let g := mkG (mkAnnotation [] ∅ true) None in
  drawn (checkPorcupine (λ _, Ok) env [] 3 [] g).1.2 = Some ([mkAnn TAG_INFO 3 0 "test passed" "test passed" COLOR_INFO], []) ∧
  (cleanup_vis env false "test passed" [] 4 (annotation (checkPorcupine (λ _, Ok) env [] 3 [] g).2)).1 = mkReport [] None [].
Proof.
  intros env g. split; [reflexivity|].
  exact (proj1 (drawn_once (λ _, Ok) env env [] [] 3 4 false "test passed" [] g _ _ _ _ _ eq_refl eq_refl (ex_intro _ _ eq_refl))).
Defined.

Lemma interruption_is_shown_witness :
  drawn (captureSignal (mkEnv "" "" (Some "porcupine-1.html") true) [("test", mkContinuous 1 "going on" "d" "c")] 7 empty_annotation)%string.1 =
    Some ([mkAnn "test" 1 7 "going on" "d" "c"; mkAnn TAG_INFO 7 0 "interrupted" "interrupted" COLOR_INFO], [])%string.
Proof.
  exact (interruption_is_shown (mkEnv "" "" (Some "porcupine-1.html") true)%string [("test", mkContinuous 1 "going on" "d" "c")]%string 7
    empty_annotation "porcupine-1.html" ltac:(discriminate) eq_refl eq_refl eq_refl).
Defined.
