(* ===== verification/MapReduce.v ===== *)
(** * MapReduce: the sequential MapReduce (src/src/main/mrsequential.go), its word
    count and index applications (src/src/mrapps/wc.go and indexer.go), and the
    partition function of src/src/mr/worker.go

    A plugin is a pair of functions; files are a function from names to
    contents. The table of Unicode letters and [sort.Sort], which is given the methods of
    [ByKey], are parameters; so is the order in which a map is visited. *)

From stdpp Require Import pretty.
From S2P Require Import Prelude.

Local Open Scope Z_scope.

(** ** UTF-8 and [strings.FieldsFunc] *)
Definition RuneError : Z := 65533.

Definition cont (lo hi : Z) (b : Z) : bool := (lo <=? b) && (b <=? hi).

(** [utf8.DecodeRune] of a text that is not empty: the rune and its width;
    an invalid encoding is [RuneError] of width 1. *)
Definition decode_rune (b0 : Z) (rest : list Z) : Z * nat :=
  let low b := Z.land b 63 in
  let second lo hi w0 :=
    match rest with
    | b1 :: _ => if cont lo hi b1 then (Z.lor (Z.shiftl w0 6) (low b1), 2%nat) else (RuneError, 1%nat)
    | _ => (RuneError, 1%nat)
    end in
  let third lo hi :=
    match rest with
    | b1 :: b2 :: _ =>
        if cont lo hi b1 && cont 128 191 b2
        then (Z.lor (Z.lor (Z.shiftl (Z.land b0 15) 12) (Z.shiftl (low b1) 6)) (low b2), 3%nat)
        else (RuneError, 1%nat)
    | _ => (RuneError, 1%nat)
    end in
  let fourth lo hi :=
    match rest with
    | b1 :: b2 :: b3 :: _ =>
        if cont lo hi b1 && cont 128 191 b2 && cont 128 191 b3
        then (Z.lor (Z.lor (Z.lor (Z.shiftl (Z.land b0 7) 18) (Z.shiftl (low b1) 12)) (Z.shiftl (low b2) 6)) (low b3), 4%nat)
        else (RuneError, 1%nat)
    | _ => (RuneError, 1%nat)
    end in
  if b0 <? 128 then (b0, 1%nat)
  else if (194 <=? b0) && (b0 <=? 223) then second 128 191 (Z.land b0 31)
  else if b0 =? 224 then third 160 191
  else if b0 =? 237 then third 128 159
  else if (225 <=? b0) && (b0 <=? 239) then third 128 191
  else if b0 =? 240 then fourth 144 191
  else if (241 <=? b0) && (b0 <=? 243) then fourth 128 191
  else if b0 =? 244 then fourth 128 143
  else (RuneError, 1%nat).

Definition byte_of (c : Ascii.ascii) : Z := Z.of_N (Ascii.N_of_ascii c).

(** The runes of a text with the bytes that encode them, as [range] visits
    them; [fuel] is the number of bytes. *)
Fixpoint runes (fuel : nat) (s : list Ascii.ascii) : list (Z * list Ascii.ascii) :=
  match fuel, s with
  | S fuel, c :: s' =>
      let '(r, w) := decode_rune (byte_of c) (byte_of <$> s') in
      (r, take w s) :: runes fuel (drop w s)
  | _, _ => []
  end.

Section Fields.
Variable f : Z → bool.

(** [strings.FieldsFunc]: [cur] are the bytes of the field that has begun. *)
Fixpoint fields (rs : list (Z * list Ascii.ascii)) (cur : list Ascii.ascii) : list (list Ascii.ascii) :=
  match rs with
  | [] => if decide (cur = []) then [] else [cur]
  | (r, bs) :: rs =>
      if f r then (if decide (cur = []) then fields rs [] else cur :: fields rs [])
      else fields rs (cur ++ bs)
  end.

Definition FieldsFunc (s : string) : list string :=
  let bs := String.list_ascii_of_string s in
  String.string_of_list_ascii <$> fields (runes (length bs) bs) [].
End Fields.

(** ** Applications *)
Record KeyValue := mkKeyValue { Key : string; Value : string }.

#[export] Instance KeyValue_eq_dec : EqDecision KeyValue.
Proof. solve_decision. Defined.

(** [ihash]; the partition of a key is [ihash(key) % NReduce]. *)
Definition ihash (key : string) : Z := Z.land (fnv32a key) 2147483647.

Record Plugin := mkPlugin {
  mapf : string → string → list KeyValue;
  reducef : string → list string → string
}.

(** [sort.Strings]. *)
Definition sort_strings (l : list string) : list string := merge_sort String.le l.

(** [strings.Join]. *)
Fixpoint Join (l : list string) (sep : string) : string :=
  match l with
  | [] => ""
  | [x] => x
  | x :: l => x +:+ sep +:+ Join l sep
  end.

Section Apps.
Variable IsLetter : Z → bool.

Definition words (s : string) : list string := FieldsFunc (λ r, negb (IsLetter r)) s.

(** mrapps/wc.go *)
Definition wc : Plugin := {|
  mapf filename contents := (λ w, mkKeyValue w "1") <$> words contents;
  reducef key values := pretty (Z.of_nat (length values))
|}.

(** mrapps/indexer.go: [order] is the order in which the map of words is
    visited. *)
Definition indexer (order : gset string → list string) : Plugin := {|
  mapf document value := (λ w, mkKeyValue w document) <$> order (list_to_set (words value));
  reducef key values :=
    let values := sort_strings values in
    pretty (Z.of_nat (length values)) +:+ " " +:+ Join values ","
|}.
End Apps.

(** ** mrsequential.go *)

(** [sort.Interface]: the methods share the slice, which [Swap] changes. *)
Record Interface (D : Type) := mkInterface {
  Len : D → Z;
  Less : Z → Z → D → outcome bool;
  Swap : Z → Z → D → outcome D
}.
Arguments mkInterface {_}.
Arguments Len {_}.
Arguments Less {_}.
Arguments Swap {_}.

Definition ByKey_Len (a : list KeyValue) : Z := Z.of_nat (length a).
Definition ByKey_Less (i j : Z) (a : list KeyValue) : outcome bool :=
  ki ← slice_get a i; kj ← slice_get a j; Done (String.ltb (Key ki) (Key kj)).
Definition ByKey_Swap (i j : Z) (a : list KeyValue) : outcome (list KeyValue) :=
  kj ← slice_get a j; ki ← slice_get a i; a ← slice_set a i kj; slice_set a j ki.
Definition ByKey : Interface (list KeyValue) := mkInterface ByKey_Len ByKey_Less ByKey_Swap.

Section Main.
Variable plugin : Plugin.
Variable Sort : Interface (list KeyValue) → list KeyValue → outcome (list KeyValue).

(** Whether [os.Create] makes the file of the output. Its error is ignored; what is
    then written goes nowhere. *)
Variable created : bool.

(** The files: [None] when the file cannot be opened, [Some None] when it
    cannot be read. *)
Variable files : string → option (option string).

Definition map_file (filename : string) (intermediate : list KeyValue) : outcome (list KeyValue) :=
  match files filename with
  | None => Fatal "cannot open"
  | Some None => Fatal "cannot read"
  | Some (Some content) => Done (intermediate ++ mapf plugin filename content)
  end.

(** The loop on [j]. *)
Fixpoint group_end (fuel : nat) (intermediate : list KeyValue) (i j : nat) : outcome nat :=
  match fuel with
  | O => Diverge
  | S fuel =>
      match intermediate !! j, intermediate !! i with
      | Some kj, Some ki =>
          if decide (Key kj = Key ki) then group_end fuel intermediate i (S j) else Done j
      | _, _ => Done j
      end
  end.

(** The loop on [k]. *)
Definition group_values (intermediate : list KeyValue) (i j : nat) : list string :=
  omap (λ k, Value <$> intermediate !! k) (seq i (j - i)).

(** "%v %v\n" *)
Definition newline : string := String.String (Ascii.ascii_of_nat 10) "".
Definition out_line (key output : string) : string := key +:+ " " +:+ output +:+ newline.

(** The loop on [i]; [out] is what has been written. *)
Fixpoint reduce_loop (fuel : nat) (intermediate : list KeyValue) (i : nat) (out : list string) :
    outcome (list string) :=
  match fuel with
  | O => Diverge
  | S fuel =>
      match intermediate !! i with
      | None => Done out
      | Some ki =>
          j ← group_end (S (length intermediate)) intermediate i (S i);
          let output := reducef plugin (Key ki) (group_values intermediate i j) in
          let line := if created then [out_line (Key ki) output] else [] in
          reduce_loop fuel intermediate j (out ++ line)
      end
  end.

(** [main] after the arguments have been checked and the plugin is loaded: the lines of
    mr-out-0. *)
Definition mr_main (args : list string) : outcome (list string) :=
  if decide (length args < 3)%nat then Fatal "Usage"
  else
    intermediate ← for_each (drop 2 args) map_file [];
    intermediate ← Sort ByKey intermediate;
    reduce_loop (S (length intermediate)) intermediate 0 [].
End Main.

(** ** loadPlugin

    A symbol of a plugin, of the type that [main] asserts or another one. *)
Inductive Symbol :=
| MapFunc (f : string → string → list KeyValue)
| ReduceFunc (f : string → list string → string)
| OtherSymbol.

(** [Open] is plugin.Open, with the [Lookup] of what it opens. *)
Definition loadPlugin (Open : string → option (string → option Symbol)) (filename : string) : outcome Plugin :=
  match Open filename with
  | None => Fatal "cannot load plugin"
  | Some Lookup =>
      match Lookup "Map"%string with
      | None => Fatal "cannot find Map"
      | Some (MapFunc mapf) =>
          match Lookup "Reduce"%string with
          | None => Fatal "cannot find Reduce"
          | Some (ReduceFunc reducef) => Done (mkPlugin mapf reducef)
          | Some _ => Panic "interface conversion"
          end
      | Some _ => Panic "interface conversion"
      end
  end.

Definition main Open Sort created files (args : list string) : outcome (list string) :=
  if decide (length args < 3)%nat then Fatal "Usage"
  else
    filename ← slice_get args 1;
    plugin ← loadPlugin Open filename;
    mr_main plugin Sort created files args.
