(* ===== verification/MapReduceProps.v ===== *)
(** * MapReduceProps: what the sequential MapReduce writes

    The loops of [mr_main] group the sorted intermediate list; word count and
    index follow from what the groups hold. *)

From stdpp Require Import pretty.
From S2P Require Import Prelude MapReduce.

Local Open Scope Z_scope.

(** ** Groups *)

(** A list cut into maximal runs of one key, with their values. *)
Inductive grouped : list KeyValue → list (string * list string) → Prop :=
| grouped_nil : grouped [] []
| grouped_cons kv block rest gs :
    Forall (λ x, Key x = Key kv) block →
    (∀ x, head rest = Some x → Key x ≠ Key kv) →
    grouped rest gs →
    grouped (kv :: block ++ rest) ((Key kv, Value <$> kv :: block) :: gs).

Lemma group_end_spec l i ki fuel : ∀ j,
  l !! i = Some ki → (j <= length l)%nat → (length l - j < fuel)%nat →
  ∃ n, group_end fuel l i j = Done (j + n)%nat ∧ (j + n <= length l)%nat ∧
    Forall (λ x, Key x = Key ki) (take n (drop j l)) ∧
    ∀ x, l !! (j + n)%nat = Some x → Key x ≠ Key ki.
Proof.
  induction fuel as [|fuel IH]; intros j Hi Hj Hf; [lia|]. simpl. rewrite Hi.
  destruct (l !! j) as [kj|] eqn:Ej.
  2:{ exists 0%nat. rewrite Nat.add_0_r. split_and!; [done|done|constructor|congruence]. }
  case_decide as Hk.
  2:{ exists 0%nat. rewrite Nat.add_0_r. split_and!; [done|done|constructor|]. intros x Hx. by simplify_eq. }
  pose proof (lookup_lt_Some _ _ _ Ej).
  destruct (IH (S j) Hi ltac:(lia) ltac:(lia)) as (n & -> & Hn & Hall & Hx).
  exists (S n). rewrite Nat.add_succ_r. split_and!; [done|lia| |exact Hx].
  rewrite (drop_S _ _ _ Ej). by constructor.
Qed.

Lemma group_values_eq l i j : (i <= j <= length l)%nat → group_values l i j = Value <$> take (j - i) (drop i l).
Proof.
  intros Hij. unfold group_values. remember (j - i)%nat as n eqn:Hn.
  revert i Hij Hn. induction n as [|n IH]; intros i Hij Hn; [done|]. csimpl.
  destruct (lookup_lt_is_Some_2 l i) as [x Hx]; [lia|]. rewrite (drop_S _ _ _ Hx), Hx. csimpl.
  f_equal. apply IH; lia.
Qed.

Section Main.
Context (plugin : Plugin) (created : bool).

(** What reaches the file of the output. *)
Definition output (lines : list string) : list string := if created then lines else [].

Definition line_of (g : string * list string) : string := out_line g.1 (reducef plugin g.1 g.2).

Lemma reduce_loop_spec l fuel : ∀ i out,
  (i <= length l)%nat → (length l - i < fuel)%nat →
  ∃ gs, reduce_loop plugin created fuel l i out = Done (out ++ output (line_of <$> gs)) ∧ grouped (drop i l) gs.
Proof.
  induction fuel as [|fuel IH]; intros i out Hi Hf; [lia|]. cbn [reduce_loop].
  destruct (l !! i) as [ki|] eqn:Ei.
  2:{ exists []. rewrite drop_ge by (by apply lookup_ge_None_1). split; [unfold output; case_match; by rewrite app_nil_r|constructor]. }
  pose proof (lookup_lt_Some _ _ _ Ei).
  destruct (group_end_spec l i ki (S (length l)) (S i) Ei) as (n & -> & Hn & Hall & Hx); [lia|lia|].
  cbn [mbind outcome_bind].
  destruct (IH (S i + n)%nat (out ++ output [out_line (Key ki) (reducef plugin (Key ki) (group_values l i (S i + n)))]))
    as (gs & Eloop & Hgs); [lia|lia|]. unfold output at 1 in Eloop. rewrite Eloop.
  rewrite group_values_eq by lia. replace (S i + n - i)%nat with (S n) by lia.
  rewrite (drop_S _ _ _ Ei). cbn [take].
  exists ((Key ki, Value <$> ki :: take n (drop (S i) l)) :: gs). split.
  { unfold output. rewrite <- app_assoc. by destruct created. }
  rewrite <- (take_drop n (drop (S i) l)) at 1. rewrite drop_drop. constructor; [done| |done].
  intros x Hhd. apply Hx. rewrite <- Hhd, head_lookup, lookup_drop. f_equal. lia.
Qed.
End Main.

(** ** Sorted intermediate lists *)
Definition key_le (a b : KeyValue) : Prop := String.le (Key a) (Key b).
Definition str_lt (a b : string) : Prop := String.le a b ∧ a ≠ b.

(** What is documented of [sort.Sort], for [ByKey]: it swaps until no element is less than
    one before it; it need not be stable. *)
Definition swapped {D} (data : Interface D) : relation D :=
  rtc (λ a a', ∃ i j, Swap data i j a = Done a').

Definition sorts (Sort : Interface (list KeyValue) → list KeyValue → outcome (list KeyValue)) : Prop :=
  ∀ a, ∃ a', Sort ByKey a = Done a' ∧ swapped ByKey a a' ∧
    ∀ i j, 0 <= i < j → j < Len ByKey a' → Less ByKey j i a' = Done false.

Lemma ltb_le s t : String.ltb t s = false ↔ String.le s t.
Proof.
  unfold String.ltb, String.le, String.leb. rewrite (String.compare_antisym t s).
  by destruct (String.compare s t).
Qed.

Lemma swap_perm {A} (l : list A) (i j : nat) x y :
  l !! i = Some x → l !! j = Some y → <[j := x]> (<[i := y]> l) ≡ₚ l.
Proof.
  intros Hi Hj. apply lookup_lt_Some in Hi as Hli. apply lookup_lt_Some in Hj as Hlj.
  apply Permutation_inj. split; [by rewrite !length_insert|].
  exists (λ k, if decide (k = j) then i else if decide (k = i) then j else k). split.
  - intros k k'. repeat case_decide; congruence.
  - intros k. destruct (decide (k = j)) as [->|Hkj].
    + rewrite list_lookup_insert_eq by (by rewrite length_insert). done.
    + rewrite list_lookup_insert_ne by done. destruct (decide (k = i)) as [->|Hki].
      * rewrite list_lookup_insert_eq by done. done.
      * by rewrite list_lookup_insert_ne.
Qed.

Lemma ByKey_Swap_perm i j a a' : Swap ByKey i j a = Done a' → a ≡ₚ a'.
Proof. cbn. unfold ByKey_Swap. intros H. go_inv. symmetry. by apply swap_perm. Qed.

Lemma StronglySorted_lookup {A} (R : relation A) l :
  StronglySorted R l ↔ ∀ i j x y, (i < j)%nat → l !! i = Some x → l !! j = Some y → R x y.
Proof.
  split.
  - induction 1 as [|x l Hs IH Hx]; intros i j y z Hij Hy Hz; [done|]. destruct j as [|j]; [lia|].
    destruct i as [|i]; simpl in Hy, Hz.
    + injection Hy as ->. by eapply (proj1 (Forall_lookup _ _) Hx).
    + apply (IH i j); [lia|done..].
  - induction l as [|x l IH]; intros H; constructor.
    + apply IH. intros i j y z Hij Hy Hz. by apply (H (S i) (S j)); [lia|..].
    + apply Forall_forall. intros y [k Hk]%list_elem_of_lookup. by apply (H 0%nat (S k)); [lia|..].
Qed.

Lemma swapped_perm a a' : swapped ByKey a a' → a ≡ₚ a'.
Proof. induction 1 as [a|a b c (i & j & Hs) _ IH]; [done|]. by rewrite (ByKey_Swap_perm i j a b Hs). Qed.

Lemma sorts_sorted Sort a : sorts Sort → ∃ a', Sort ByKey a = Done a' ∧ a' ≡ₚ a ∧ StronglySorted key_le a'.
Proof.
  intros Hs. destruct (Hs a) as (a' & E & Hsw & Hl). exists a'. split_and!; [done|symmetry; by apply swapped_perm|].
  apply StronglySorted_lookup. intros i j x y Hij Hx Hy. pose proof (lookup_lt_Some _ _ _ Hy).
  specialize (Hl (Z.of_nat i) (Z.of_nat j) ltac:(lia)). cbn in Hl. unfold ByKey_Len, ByKey_Less in Hl.
  specialize (Hl ltac:(lia)). rewrite (slice_get_Some _ _ _ Hx), (slice_get_Some _ _ _ Hy) in Hl. cbn in Hl.
  injection Hl as Hl. by apply ltb_le.
Qed.

Definition values_of (k : string) (l : list KeyValue) : list string := Value <$> filter (λ x, Key x = k) l.

Lemma grouped_sorted l gs :
  StronglySorted key_le l → grouped l gs →
  StronglySorted str_lt gs.*1 ∧ (∀ k, k ∈ gs.*1 ↔ k ∈ Key <$> l) ∧ ∀ k vs, (k, vs) ∈ gs → vs = values_of k l.
Proof.
  intros Hs Hg. induction Hg as [|kv block rest gs Hb Hhd Hg IH].
  { split_and!; [constructor|done|by intros ? ? ?%elem_of_nil]. }
  rewrite app_comm_cons in Hs. apply StronglySorted_app in Hs as (Hlt & _ & Hs).
  destruct (IH Hs) as (Hgs & Hkeys & Hvals).
  assert (∀ k, k ∈ gs.*1 → str_lt (Key kv) k) as Hmore.
  { intros k (x & -> & Hx)%Hkeys%list_elem_of_fmap. split; [apply Hlt; [by left|done]|]. intros E.
    destruct rest as [|y rest]; [by apply elem_of_nil in Hx|]. apply (Hhd y eq_refl).
    apply (anti_symm String.le); [|apply (Hlt kv y); by left].
    apply StronglySorted_cons in Hs as [Hy _]. rewrite E. apply elem_of_cons in Hx as [->|Hx]; [done|].
    rewrite Forall_forall in Hy. by apply Hy. }
  csimpl. split_and!.
  - apply StronglySorted_cons. split; [by apply Forall_forall|done].
  - intros k. rewrite fmap_app, !elem_of_cons, elem_of_app, <- Hkeys.
    split; [tauto|]. intros [?|[(x & -> & Hx)%list_elem_of_fmap|?]]; [tauto| |tauto].
    left. rewrite Forall_forall in Hb. by apply Hb.
  - intros k vs. unfold values_of. rewrite filter_cons, filter_app.
    intros [[= -> ->]|Hin]%elem_of_cons.
    + rewrite decide_True by done. rewrite (filter_all _ block) by done.
      assert (filter (λ x, Key x = Key kv) rest = []) as ->; [|by rewrite app_nil_r].
      apply filter_none. intros x Hx E. destruct (Hmore (Key x)) as [_ Hne]; [|by destruct Hne].
      apply Hkeys, list_elem_of_fmap. by exists x.
    + destruct (Hmore k) as [_ Hne]; [apply list_elem_of_fmap; by exists (k, vs)|].
      rewrite decide_False by done. rewrite (filter_none _ block).
      * by apply Hvals.
      * intros x Hx E. rewrite Forall_forall in Hb. apply Hne. by rewrite <- (Hb x Hx).
Qed.

(** ** The lines of the output *)
Section Output.
Context (Sort : Interface (list KeyValue) → list KeyValue → outcome (list KeyValue)) (created : bool).
Context (files : string → option (option string)) (sort_ok : sorts Sort).

(** The input files can be read, and these are their contents. *)
Definition readable (names contents : list string) : Prop :=
  Forall2 (λ n c, files n = Some (Some c)) names contents.

Definition emitted (plugin : Plugin) (names contents : list string) : list KeyValue :=
  concat (zip_with (mapf plugin) names contents).

Lemma map_files plugin names contents : ∀ l,
  readable names contents → for_each names (map_file plugin files) l = Done (l ++ emitted plugin names contents).
Proof.
  intros l Hr. revert l. induction Hr as [|n c names contents Hn _ IH]; intros l.
  { unfold emitted. simpl. by rewrite app_nil_r. }
  cbn [for_each]. assert (map_file plugin files n l = Done (l ++ mapf plugin n c)) as ->.
  { unfold map_file. by rewrite Hn. }
  cbn [mbind outcome_bind]. rewrite IH.
  unfold emitted. simpl. by rewrite app_assoc.
Qed.

Lemma values_of_perm k l1 l2 : l1 ≡ₚ l2 → values_of k l1 ≡ₚ values_of k l2.
Proof. intros H. unfold values_of. by rewrite H. Qed.

Lemma mr_groups plugin prog so names contents :
  names ≠ [] → readable names contents →
  ∃ gs, mr_main plugin Sort created files (prog :: so :: names) = Done (output created (line_of plugin <$> gs)) ∧
    StronglySorted str_lt gs.*1 ∧
    (∀ k, k ∈ gs.*1 ↔ k ∈ Key <$> emitted plugin names contents) ∧
    (∀ k vs, (k, vs) ∈ gs → vs ≡ₚ values_of k (emitted plugin names contents)).
Proof.
  intros Hne Hr. unfold mr_main. rewrite decide_False by (destruct names; simpl; [done|lia]).
  cbn [drop]. rewrite (map_files plugin names contents) by done. cbn [mbind outcome_bind app].
  set (l := emitted plugin names contents). destruct (sorts_sorted Sort l sort_ok) as (l' & -> & Hp & Hs).
  cbn [mbind outcome_bind].
  destruct (reduce_loop_spec plugin created l' (S (length l')) 0 []) as (gs & -> & Hgs); [lia|lia|].
  destruct (grouped_sorted l' gs Hs Hgs) as (Hgs1 & Hgs2 & Hgs3).
  exists gs. split_and!; [done|done| |].
  - intros k. by rewrite Hgs2, Hp.
  - intros k vs Hin. rewrite (Hgs3 k vs Hin). by apply values_of_perm.
Qed.

(** The sequential MapReduce ends, with one line for each key that the
    map function emitted, in the order of the keys; its output is that of the reduce
    function on the key and all the values emitted for it, from all files, in
    some order. *)
Theorem mrsequential_spec plugin prog so names contents :
  names ≠ [] → readable names contents →
  ∃ gs, mr_main plugin Sort created files (prog :: so :: names) = Done (output created (line_of plugin <$> gs)) ∧
    StronglySorted str_lt gs.*1 ∧
    (∀ k, k ∈ gs.*1 ↔ k ∈ Key <$> emitted plugin names contents) ∧
    (∀ k vs, (k, vs) ∈ gs → vs ≡ₚ values_of k (emitted plugin names contents)).
Proof. apply mr_groups. Qed.

(** The words of a text, each once, in order. *)
Definition distinct (l : list string) : list string := sort_strings (remove_dups l).

Lemma str_lt_distinct ks l : StronglySorted str_lt ks → (∀ k, k ∈ ks ↔ k ∈ l) → ks = distinct l.
Proof.
  intros Hs Hk. unfold distinct, sort_strings.
  apply (StronglySorted_unique String.le).
  - clear Hk. induction Hs as [|k ks Hs IH Hall]; constructor; [done|]. eapply Forall_impl; [exact Hall|]. by intros ? [].
  - apply StronglySorted_merge_sort; apply _.
  - rewrite merge_sort_Permutation. apply NoDup_Permutation; [|apply NoDup_remove_dups|].
    + clear Hk. induction Hs as [|k ks Hs IH Hall]; constructor; [|done].
      intros Hin. rewrite Forall_forall in Hall. by destruct (Hall k Hin).
    + intros k. by rewrite Hk, elem_of_remove_dups.
Qed.

Lemma sort_strings_perm l1 l2 : l1 ≡ₚ l2 → sort_strings l1 = sort_strings l2.
Proof.
  intros Hp. unfold sort_strings. apply (StronglySorted_unique String.le);
    [apply StronglySorted_merge_sort; apply _..|]. by rewrite !merge_sort_Permutation.
Qed.

Lemma values_of_app k l1 l2 : values_of k (l1 ++ l2) = values_of k l1 ++ values_of k l2.
Proof. unfold values_of. by rewrite filter_app, fmap_app. Qed.

(** ** Word count *)
Definition occurrences (w : string) (l : list string) : nat := length (filter (λ x, x = w) l).

(** An application that emits words and reduces to the number of values counts them. *)
Lemma count_output plugin ws prog so names contents :
  names ≠ [] → readable names contents →
  emitted plugin names contents = (λ w, mkKeyValue w "1") <$> ws →
  (∀ k vs, reducef plugin k vs = pretty (Z.of_nat (length vs))) →
  mr_main plugin Sort created files (prog :: so :: names) =
  Done (output created ((λ w, out_line w (pretty (Z.of_nat (occurrences w ws)))) <$> distinct ws)).
Proof.
  intros Hne Hr Hem Hred. destruct (mr_groups plugin prog so names contents Hne Hr) as (gs & -> & Hs & Hk & Hv).
  f_equal. rewrite Hem in Hk, Hv.
  assert (gs.*1 = distinct ws) as <-.
  { apply str_lt_distinct; [done|]. intros k. rewrite Hk, <- list_fmap_compose. unfold compose. simpl. by rewrite list_fmap_id. }
  rewrite <- list_fmap_compose. apply (f_equal (output created)), list_fmap_ext. intros i [k vs] Hi. unfold line_of. simpl. rewrite Hred. do 3 f_equal.
  rewrite (Hv k vs) by (by eapply list_elem_of_lookup_2). unfold values_of, occurrences. rewrite length_fmap.
  clear. induction ws as [|w l IH]; [done|]. csimpl. rewrite !filter_cons. simpl. case_decide; simpl; by rewrite IH.
Qed.

Section WordCount.
Context (IsLetter : Z → bool).

Definition all_words (contents : list string) : list string := concat (words IsLetter <$> contents).

Lemma emitted_wc names contents :
  readable names contents → emitted (wc IsLetter) names contents = (λ w, mkKeyValue w "1") <$> all_words contents.
Proof.
  unfold emitted, all_words. induction 1 as [|n c names contents _ _ IH]; [done|].
  cbn [zip_with concat fmap list_fmap]. by rewrite IH, fmap_app.
Qed.

(** (C39) Word count counts words: every word of the files has one line, in
    order, with the number of its occurrences in all of them. *)
Theorem wc_counts prog so names contents :
  names ≠ [] → readable names contents →
  mr_main (wc IsLetter) Sort created files (prog :: so :: names) =
  Done (output created ((λ w, out_line w (pretty (Z.of_nat (occurrences w (all_words contents))))) <$> distinct (all_words contents))).
Proof. intros Hne Hr. by apply (count_output (wc IsLetter) _ prog so names contents); [..|apply emitted_wc|]. Qed.
End WordCount.

(** ** Index *)
Section Index.
Context (IsLetter : Z → bool) (order : gset string → list string).
Context (order_ok : ∀ s, order s ≡ₚ elements s).

(** The documents that hold a word. *)
Definition documents (w : string) (names contents : list string) : list string :=
  (filter (λ p, w ∈ words IsLetter p.2) (zip names contents)).*1.

Lemma values_of_indexer w n c :
  values_of w (mapf (indexer IsLetter order) n c) = if decide (w ∈ words IsLetter c) then [n] else [].
Proof.
  simpl. set (ws := order _).
  assert (NoDup ws) as Hnd by (unfold ws; rewrite order_ok; apply NoDup_elements).
  assert (w ∈ ws ↔ w ∈ words IsLetter c) as Hin by (unfold ws; by rewrite order_ok, elem_of_elements, elem_of_list_to_set).
  assert (values_of w ((λ x, mkKeyValue x n) <$> ws) = if decide (w ∈ ws) then [n] else []) as ->.
  { clear Hin. induction Hnd as [|x l Hx Hnd IH]; [done|]. unfold values_of in *. csimpl. rewrite filter_cons. simpl.
    destruct (decide (x = w)) as [->|Hne]; csimpl; rewrite IH.
    - by rewrite decide_False, decide_True by (done || by left).
    - apply decide_ext. rewrite elem_of_cons. naive_solver. }
  by apply decide_ext.
Qed.

Lemma values_of_indexed w names contents :
  length names = length contents →
  values_of w (emitted (indexer IsLetter order) names contents) = documents w names contents.
Proof.
  unfold emitted, documents. revert contents. induction names as [|n names IH]; intros [|c contents] Hlen; try done.
  cbn [zip_with concat]. rewrite values_of_app, values_of_indexer, filter_cons. simpl.
  rewrite IH by (simpl in Hlen; lia). by case_decide.
Qed.

(** The index lists, for every word of the files, in order, how many
    files hold it, and their names in order; the order in which the map
    function visits its set of words does not matter. *)
Theorem indexer_lists prog so names contents :
  names ≠ [] → readable names contents →
  mr_main (indexer IsLetter order) Sort created files (prog :: so :: names) =
  Done (output created ((λ w, let docs := sort_strings (documents w names contents) in
              out_line w (pretty (Z.of_nat (length docs)) +:+ " " +:+ Join docs ",")) <$>
        distinct (all_words IsLetter contents))).
Proof.
  intros Hne Hr. pose proof (Forall2_length _ _ _ Hr) as Hlen.
  destruct (mr_groups (indexer IsLetter order) prog so names contents Hne Hr) as (gs & -> & Hs & Hk & Hv).
  f_equal.
  assert (gs.*1 = distinct (all_words IsLetter contents)) as <-.
  { apply str_lt_distinct; [done|]. intros k. rewrite Hk. unfold emitted, all_words. clear -Hlen order_ok.
    revert contents Hlen. induction names as [|n names IH]; intros [|c contents] Hlen; try done.
    cbn [zip_with concat fmap list_fmap]. rewrite fmap_app, !elem_of_app, IH by (simpl in Hlen; lia).
    simpl. rewrite <- list_fmap_compose. unfold compose. simpl.
    by rewrite list_fmap_id, order_ok, elem_of_elements, elem_of_list_to_set. }
  rewrite <- list_fmap_compose. apply (f_equal (output created)), list_fmap_ext. intros i [k vs] Hi. unfold line_of, compose. simpl.
  rewrite (sort_strings_perm vs (documents k names contents)); [done|].
  rewrite (Hv k vs) by (by eapply list_elem_of_lookup_2). by rewrite values_of_indexed.
Qed.
End Index.
End Output.

(** ** Words *)
Lemma decode_width b rest : (1 <= (decode_rune b rest).2)%nat.
Proof. unfold decode_rune. repeat case_match; simpl; lia. Qed.

Lemma runes_cover fuel s : (length s <= fuel)%nat → concat (runes fuel s).*2 = s.
Proof.
  revert s. induction fuel as [|fuel IH]; intros [|c s] Hf; try done; simpl in Hf; [lia|].
  cbn [runes]. pose proof (decode_width (byte_of c) (byte_of <$> s)) as Hw.
  destruct (decode_rune _ _) as [r w]. csimpl. cbn [concat]. rewrite IH.
  - apply take_drop.
  - simpl in Hw. rewrite length_drop. simpl. lia.
Qed.

Lemma fields_cut f rs1 r bs rs2 cur :
  f r = true → fields f (rs1 ++ (r, bs) :: rs2) cur = fields f rs1 cur ++ fields f rs2 [].
Proof.
  intros Hr. revert cur. induction rs1 as [|[r1 b1] rs1 IH]; intros cur; simpl.
  - rewrite Hr. by case_decide.
  - destruct (f r1); [|apply IH]. case_decide; [apply IH|]. simpl. by rewrite IH.
Qed.

Lemma fields_run f rs cur :
  Forall (λ x, f x.1 = false ∧ x.2 ≠ []) rs →
  fields f rs cur = if decide (cur = [] ∧ rs = []) then [] else [cur ++ concat rs.*2].
Proof.
  intros Hall. revert cur. induction Hall as [|[r bs] rs [Hr Hb] _ IH]; intros cur; simpl in *.
  - rewrite app_nil_r. repeat case_decide; naive_solver.
  - rewrite Hr, IH, <- app_assoc. rewrite !decide_False; [done|naive_solver|].
    intros [E _]. apply app_eq_nil in E as [_ ?]. done.
Qed.

(** The words of a text are its maximal runs of letters, as bytes: the
    runes it is cut into give back the text, a separator cuts the words before from the words
    after it, and a run without separators is one word. *)
Theorem words_spec f (s : list Ascii.ascii) :
  concat (runes (length s) s).*2 = s ∧
  (∀ rs1 r bs rs2, f r = true → fields f (rs1 ++ (r, bs) :: rs2) [] = fields f rs1 [] ++ fields f rs2 []) ∧
  (∀ rs, rs ≠ [] → Forall (λ x, f x.1 = false ∧ x.2 ≠ []) rs → fields f rs [] = [concat rs.*2]).
Proof.
  split_and!.
  - by apply runes_cover.
  - intros. by apply fields_cut.
  - intros rs Hne Hall. rewrite (fields_run f rs [] Hall). by rewrite decide_False by naive_solver.
Qed.

(** ** Partitions *)

(** [ihash] is a 31-bit number, so that [ihash(key) % NReduce] is the
    number of a reduce task. *)
Theorem ihash_range key nreduce :
  0 < nreduce → 0 <= ihash key < 2 ^ 31 ∧ 0 <= Z.rem (ihash key) nreduce < nreduce.
Proof.
  intros Hn. assert (0 <= ihash key < 2 ^ 31) as Hr.
  { unfold ihash. change 2147483647 with (Z.ones 31). rewrite Z.land_ones by lia. by apply Z.mod_pos_bound. }
  split; [done|]. apply Z.rem_bound_pos; lia.
Qed.

(** ** Witnesses *)
Definition ascii_letter (r : Z) : bool := ((65 <=? r) && (r <=? 90)) || ((97 <=? r) && (r <=? 122)).

(** The insertion sort that [sort.Sort] uses for short slices, on what the interface gives. *)
Fixpoint insert_down {D} (fuel : nat) (data : Interface D) (j : Z) (a : D) : outcome D :=
  match fuel with
  | O => Diverge
  | S fuel =>
      if 0 <? j then
        less ← Less data j (j - 1) a;
        if (less : bool) then a ← Swap data j (j - 1) a; insert_down fuel data (j - 1) a else Done a
      else Done a
  end.

Definition insertion_sort {D} (data : Interface D) (a : D) : outcome D :=
  let n := Z.to_nat (Len data a) in
  for_each (seq 0 n) (λ i a, insert_down (S i) data (Z.of_nat i) a) a.

Lemma slice_set_at {A} (l : list A) (i : nat) x : (i < length l)%nat → slice_set l (Z.of_nat i) x = Done (<[i := x]> l).
Proof.
  intros Hi. unfold slice_set, in_range. by rewrite (proj2 (Z.leb_le 0 _)), (proj2 (Z.ltb_lt _ _)), Nat2Z.id by lia.
Qed.

Lemma ByKey_pair P (y x : KeyValue) Q :
  Less ByKey (Z.of_nat (S (length P))) (Z.of_nat (length P)) (P ++ y :: x :: Q) = Done (String.ltb (Key x) (Key y)) ∧
  Swap ByKey (Z.of_nat (S (length P))) (Z.of_nat (length P)) (P ++ y :: x :: Q) = Done (P ++ x :: y :: Q).
Proof.
  cbn -[Z.of_nat]. unfold ByKey_Less, ByKey_Swap.
  rewrite (slice_get_Some _ (S (length P)) x), (slice_get_Some _ (length P) y); cbn [mbind outcome_bind].
  2,3: rewrite lookup_app_r by lia; by rewrite ?Nat.sub_diag, ?Nat.sub_succ_l, ?Nat.sub_diag.
  split; [done|]. rewrite slice_set_at by (rewrite length_app; simpl; lia). cbn [mbind outcome_bind].
  rewrite slice_set_at by (rewrite length_insert, length_app; simpl; lia). f_equal.
  rewrite (insert_app_r_alt _ _ (S (length P))), insert_app_r_alt by lia. by rewrite Nat.sub_diag, Nat.sub_succ_l, Nat.sub_diag by done.
Qed.

Lemma insert_down_spec x Q : ∀ P, StronglySorted key_le P →
  ∃ P', insert_down (S (length P)) ByKey (Z.of_nat (length P)) (P ++ x :: Q) = Done (P' ++ Q) ∧
    swapped ByKey (P ++ x :: Q) (P' ++ Q) ∧ StronglySorted key_le P' ∧ P' ≡ₚ P ++ [x].
Proof.
  intros P. revert Q. induction P as [|y P IH] using rev_ind; intros Q Hs.
  { exists [x]. split_and!; [done|constructor|by repeat constructor|done]. }
  apply StronglySorted_app in Hs as (Hle & HsP & _).
  rewrite length_app, Nat.add_1_r, <- app_assoc. cbn [app insert_down].
  destruct (ByKey_pair P y x Q) as [El Es]. rewrite (proj2 (Z.ltb_lt _ _)) by lia.
  replace (Z.of_nat (S (length P)) - 1) with (Z.of_nat (length P)) by lia.
  rewrite El. cbn [mbind outcome_bind]. destruct (String.ltb (Key x) (Key y)) eqn:Hlt.
  - rewrite Es. cbn [mbind outcome_bind]. destruct (IH (y :: Q) HsP) as (P' & E & Hsw & HsP' & Hp).
    exists (P' ++ [y]). rewrite <- app_assoc. cbn [app]. split_and!.
    + exact E.
    + eapply rtc_l; [|exact Hsw]. by eexists _, _.
    + apply StronglySorted_app. split_and!; [|done|by repeat constructor]. intros z y' Hz ->%list_elem_of_singleton.
      rewrite Hp in Hz. apply elem_of_app in Hz as [Hz| ->%list_elem_of_singleton]; [apply Hle; [done|by left]|].
      apply ltb_le. destruct (String.ltb (Key y) (Key x)) eqn:E2; [|done]. unfold String.ltb in *.
      rewrite String.compare_antisym in E2. by destruct (String.compare (Key x) (Key y)).
    + rewrite Hp. rewrite <- !app_assoc. apply Permutation_app_head. apply Permutation_app_comm.
  - exists (P ++ [y; x]). rewrite <- app_assoc. split_and!; [done|constructor| |by rewrite <- app_assoc].
    apply StronglySorted_app. split_and!; [|done|].
    + assert (key_le y x) as Hyx by by apply ltb_le.
      intros z w Hz Hw. assert (key_le z y) by (apply Hle; [done|by left]).
      apply elem_of_cons in Hw as [->| ->%list_elem_of_singleton]; [done|]. unfold key_le in *. by etrans.
    + repeat constructor. by apply ltb_le.
Qed.

Lemma insertion_sort_ok : sorts insertion_sort.
Proof.
  intros a. unfold insertion_sort. cbn [Len ByKey]. unfold ByKey_Len. rewrite Nat2Z.id.
  assert (∀ n, (n <= length a)%nat → ∃ P, for_each (seq 0 n) (λ i a, insert_down (S i) ByKey (Z.of_nat i) a) a = Done (P ++ drop n a) ∧
    swapped ByKey a (P ++ drop n a) ∧ StronglySorted key_le P ∧ length P = n) as H.
  { induction n as [|n IH]; intros Hn; [exists []; by split_and!; try constructor|].
    destruct IH as (P & E & Hsw & Hs & Hlen); [lia|]. destruct (lookup_lt_is_Some_2 a n) as [x Hx]; [lia|].
    rewrite (drop_S _ _ _ Hx) in E, Hsw. destruct (insert_down_spec x (drop (S n) a) P Hs) as (P' & E' & Hsw' & Hs' & Hp).
    exists P'. split_and!; [|by etrans|done|rewrite Hp, length_app, Hlen; simpl; lia].
    rewrite seq_S, for_each_app, E. cbn [mbind outcome_bind for_each]. rewrite Hlen in E'. by rewrite Nat.add_0_l, E'. }
  destruct (H (length a)) as (P & E & Hsw & Hs & _); [done|]. rewrite drop_all, app_nil_r in *.
  exists P. split_and!; [done|done|]. intros i j Hij Hj. cbn. unfold ByKey_Less.
  destruct (lookup_lt_is_Some_2 P (Z.to_nat i)) as [x Hx]; [lia|]. destruct (lookup_lt_is_Some_2 P (Z.to_nat j)) as [y Hy]; [lia|].
  rewrite <- (Z2Nat.id i), <- (Z2Nat.id j) by lia. rewrite (slice_get_Some _ _ _ Hx), (slice_get_Some _ _ _ Hy). cbn.
  f_equal. apply ltb_le. rewrite (StronglySorted_lookup _ P) in Hs. apply (Hs (Z.to_nat i) (Z.to_nat j)); [lia|done..].
Qed.

Definition two_files (n : string) : option (option string) :=
  if decide (n = "f"%string) then Some (Some "b a, b"%string)
  else if decide (n = "g"%string) then Some (Some "a c"%string) else None.

Lemma two_files_readable : readable two_files ["g"; "f"]%string ["a c"; "b a, b"]%string.
Proof. repeat constructor. Qed.

Lemma mrsequential_spec_witness :
  ∃ gs, mr_main (wc ascii_letter) insertion_sort true two_files ["mr"; "wc.so"; "g"; "f"]%string = Done (line_of (wc ascii_letter) <$> gs) ∧
    StronglySorted str_lt gs.*1.
Proof.
  destruct (mrsequential_spec insertion_sort true two_files insertion_sort_ok (wc ascii_letter) "mr" "wc.so" ["g"; "f"]%string
    ["a c"; "b a, b"]%string) as (gs & H1 & H2 & _); [discriminate|exact two_files_readable|].
  exists gs. split; [exact H1|exact H2].
Defined.

Lemma wc_counts_witness :
  mr_main (wc ascii_letter) insertion_sort true two_files ["mr"; "wc.so"; "g"; "f"]%string =
  Done [out_line "a" "2"; out_line "b" "2"; out_line "c" "1"].
Proof.
  rewrite (wc_counts insertion_sort true two_files insertion_sort_ok ascii_letter "mr" "wc.so" ["g"; "f"]%string
    ["a c"; "b a, b"]%string); [vm_compute; reflexivity|discriminate|exact two_files_readable].
Defined.

Lemma indexer_lists_witness :
  mr_main (indexer ascii_letter elements) insertion_sort true two_files ["mr"; "ix.so"; "g"; "f"]%string =
  Done [out_line "a" "2 f,g"; out_line "b" "1 f"; out_line "c" "1 g"].
Proof.
  rewrite (indexer_lists insertion_sort true two_files insertion_sort_ok ascii_letter elements (λ s, reflexivity _)
    "mr" "ix.so" ["g"; "f"]%string ["a c"; "b a, b"]%string);
    [vm_compute; reflexivity|discriminate|exact two_files_readable].
Defined.

Lemma ihash_range_witness : ihash "a" = 1678518572 ∧ 0 <= Z.rem (ihash "a") 10 < 10.
Proof. split; [vm_compute; reflexivity|]. apply (ihash_range "a" 10). lia. Defined.
