(* ===== verification/Labgob.v ===== *)
(** * Labgob: the checks around gob (src/src/labgob/labgob.go)

    [checkType] walks the types of what is encoded, once each, and complains about lower-case
    field names; [checkDefault] warns when a value is decoded over another.
    Types are described by a table, as package reflect does it, and may be
    recursive. gob and the table of Unicode capitals are parameters. *)

From S2P Require Import Prelude MapReduce.

Local Open Scope Z_scope.

(** ** reflect.Type: numbers into a table *)
Abbreviation rtype := positive.

#[warnings="-register-all"] Inductive Kind :=
| Struct (fields : list (string * rtype))      (* name and type of every field *)
| Elems (elem : rtype)                         (* slices, arrays and pointers *)
| Map (key elem : rtype)
| Basic                                        (* booleans, numbers, strings *)
| OtherKind.                                   (* interfaces, functions, channels ... *)

Record TypeInfo := mkType { Name : string; kind : Kind }.

(** The package's variables, and the complaints printed so far. *)
Record Lab := mkLab {
  errorCount : Z;
  checked : gset rtype;
  printed : list (string * string)
}.

Section Check.
Variable types : gmap rtype TypeInfo.
Variable IsUpper : Z → bool.

(** [utf8.DecodeRuneInString] and [unicode.IsUpper]. *)
Definition first_rune (s : string) : Z :=
  match bytes_of s with [] => RuneError | b :: bs => (decode_rune b bs).1 end.

Definition lower_case (field : string) : bool := negb (IsUpper (first_rune field)).

Definition complain (field type : string) (st : Lab) : Lab :=
  mkLab (int64 (errorCount st + 1)) (checked st) (printed st ++ [(field, type)]).

Definition mark (t : rtype) (st : Lab) : Lab :=
  mkLab (errorCount st) ({[t]} ∪ checked st) (printed st).

Fixpoint checkType (fuel : nat) (t : rtype) (st : Lab) : outcome Lab :=
  match fuel with
  | O => Diverge
  | S fuel =>
      match types !! t with
      | None => Panic "nil pointer dereference"
      | Some ty =>
          if decide (t ∈ checked st) then Done st
          else
            let st := mark t st in
            match kind ty with
            | Struct fs =>
                for_each fs (λ f st,
                  checkType fuel f.2 (if lower_case f.1 then complain f.1 (Name ty) st else st)) st
            | Elems e => checkType fuel e st
            | Map k e => st ← checkType fuel e st; checkType fuel k st
            | Basic | OtherKind => Done st
            end
      end
  end.

(** The argument of [checkValue] is nil or a value of a type. *)
Definition checkValue (fuel : nat) (value : option rtype) (st : Lab) : outcome Lab :=
  match value with
  | None => Panic "nil pointer dereference"
  | Some t => checkType fuel t st
  end.

(** ** Values, as far as [checkDefault] looks at them

    A struct's field has its name and whether it is embedded. *)
#[warnings="-register-all"] Inductive rvalue :=
| VStruct (fields : list ((string * bool) * rvalue))
| VPtr (elem : option rvalue)
| VBasic (type : string) (is_zero : bool)
| VOther.

(** How reflect got hold of a value: [Interface] panics on what was obtained from
    an unexported field, and a field that is not embedded passes this on. *)
Inductive access := Exported | StickyRO | EmbedRO.

#[export] Instance access_eq_dec : EqDecision access.
Proof. solve_decision. Defined.

Definition Field_access (acc : access) (f : string * bool) : access :=
  if decide (acc = StickyRO) then StickyRO
  else if lower_case f.1 then (if f.2 then EmbedRO else StickyRO) else Exported.

(** Two basic values that differ: [what] is the field, [type] stands in for no name. *)
Definition warn_default (name type : string) (st : Lab) : Lab :=
  let what := if decide (name = "")%string then type else name in
  mkLab (int64 (errorCount st + 1)) (checked st)
    (if errorCount st <? 1 then printed st ++ [(what, "default"%string)] else printed st).

Definition field_name (name field : string) : string :=
  if decide (name = "")%string then field else name +:+ "." +:+ field.

Fixpoint checkDefault1 (acc : access) (value : rvalue) (depth : Z) (name : string) (st : Lab) : outcome Lab :=
  if 3 <? depth then Done st
  else
    match value with
    | VStruct fields =>
        (fix each (fields : list ((string * bool) * rvalue)) (st : Lab) : outcome Lab :=
           match fields with
           | [] => Done st
           | (f, vv) :: fields =>
               st ← checkDefault1 (Field_access acc f) vv (depth + 1) (field_name name f.1) st;
               each fields st
           end) fields st
    | VPtr None => Done st
    | VPtr (Some v) => checkDefault1 acc v (depth + 1) name st
    | VBasic type is_zero =>
        if decide (acc = Exported) then
          if is_zero then Done st else Done (warn_default name type st)
        else Panic "reflect.Value.Interface: cannot return value obtained from unexported field or method"
    | VOther => Done st
    end.

Definition checkDefault (value : option rvalue) (st : Lab) : outcome Lab :=
  match value with
  | None => Done st
  | Some v => checkDefault1 Exported v 1 "" st
  end.

(** ** The wrappers: [gob] is what gob does with the value *)
Definition Encode {B} (gob : B) (fuel : nat) (e : option rtype) (st : Lab) : outcome (B * Lab) :=
  st ← checkValue fuel e st; Done (gob, st).

Definition Decode {B} (gob : B) (fuel : nat) (e : option rtype) (value : option rvalue) (st : Lab) : outcome (B * Lab) :=
  st ← checkValue fuel e st; st ← checkDefault value st; Done (gob, st).

(** [EncodeValue] checks what is in the value the same way. *)
Definition EncodeValue {B} (gob : B) (fuel : nat) (value : option rtype) (st : Lab) : outcome (B * Lab) :=
  st ← checkValue fuel value st; Done (gob, st).

Definition Register (fuel : nat) (value : option rtype) (st : Lab) : outcome Lab := checkValue fuel value st.
End Check.
