(* ===== verification/LabgobProps.v ===== *)
(** * LabgobProps: what the checks around gob report

    The walk over the types ends, even on recursive types, and complains about
    every lower-case field of every type it can reach, once; the check of the
    defaults looks three levels deep. *)

From S2P Require Import Prelude MapReduce Labgob.

Local Open Scope Z_scope.

Section Walk.
Context (types : gmap rtype TypeInfo) (IsUpper : Z → bool).

(** One step of the walk, without what is below it. *)
Lemma checkType_step fuel t ty st : types !! t = Some ty →
  checkType types IsUpper (S fuel) t st =
  if decide (t ∈ checked st) then Done st
  else
    match kind ty with
    | Struct fs =>
        for_each fs (λ f st, checkType types IsUpper fuel f.2
          (if lower_case IsUpper f.1 then complain f.1 (Name ty) st else st)) (mark t st)
    | Elems e => checkType types IsUpper fuel e (mark t st)
    | Map k e => st ← checkType types IsUpper fuel e (mark t st); checkType types IsUpper fuel k st
    | Basic | OtherKind => Done (mark t st)
    end.
Proof. intros Ht. cbn [checkType]. by rewrite Ht. Qed.

(** The types a type refers to, and the complaints about its own fields. *)
Definition refers (t : rtype) : list rtype :=
  match kind <$> types !! t with
  | Some (Struct fs) => fs.*2
  | Some (Elems e) => [e]
  | Some (Map k e) => [e; k]
  | _ => []
  end.

Definition complaints_of (type : string) (fs : list (string * rtype)) : list (string * string) :=
  (λ f, (f.1, type)) <$> filter (λ f, lower_case IsUpper f.1 = true) fs.

Definition complaints (t : rtype) : list (string * string) :=
  match types !! t with
  | Some (mkType name (Struct fs)) => complaints_of name fs
  | _ => []
  end.

Definition reaches : rtype → rtype → Prop := rtc (λ t u, u ∈ refers t).

(** The table describes the types it refers to. *)
Definition closed_table : Prop := ∀ t u, is_Some (types !! t) → u ∈ refers t → is_Some (types !! u).

(** How many types are left to check. *)
Definition left_to_check (st : Lab) : nat := size (dom types ∖ checked st).

(** From [st] to [st'] the types [ts], and what they refer to, were checked,
    with [extra] complaints besides those of the types that were new. *)
Record walked (ts : list rtype) (extra : list (string * string)) (st st' : Lab) : Prop := {
  w_more : checked st ⊆ checked st';
  w_roots : ∀ t, t ∈ ts → t ∈ checked st';
  w_new : ∀ u, u ∈ checked st' → u ∉ checked st →
    (∃ t, t ∈ ts ∧ reaches t u) ∧ ∀ v, v ∈ refers u → v ∈ checked st';
  w_printed : ∃ us, NoDup us ∧ (∀ u, u ∈ us ↔ u ∈ checked st' ∧ u ∉ checked st) ∧
    printed st' ≡ₚ printed st ++ extra ++ concat (complaints <$> us);
  w_count : int64 (errorCount st' - Z.of_nat (length (printed st'))) =
            int64 (errorCount st - Z.of_nat (length (printed st)))
}.

Lemma walked_nil st : walked [] [] st st.
Proof.
  split; [done|by intros ? ?%elem_of_nil|done| |done].
  exists []. split_and!; [apply NoDup_nil_2| |simpl; by rewrite ?app_nil_r].
  intros u. split; [by intros ?%elem_of_nil|by intros []].
Qed.

Lemma walked_app ts1 ts2 ex1 ex2 st st1 st2 :
  walked ts1 ex1 st st1 → walked ts2 ex2 st1 st2 → walked (ts1 ++ ts2) (ex1 ++ ex2) st st2.
Proof.
  intros [M1 R1 N1 (us1 & D1 & U1 & P1) C1] [M2 R2 N2 (us2 & D2 & U2 & P2) C2]. split.
  - set_solver.
  - set_solver.
  - intros u Hu Hn. destruct (decide (u ∈ checked st1)) as [H1|H1].
    + destruct (N1 u H1 Hn) as [(t & Ht & Hr) Hv]. split; [exists t; set_solver|set_solver].
    + destruct (N2 u Hu H1) as [(t & Ht & Hr) Hv]. split; [exists t; set_solver|set_solver].
  - exists (us1 ++ us2). split_and!.
    + apply NoDup_app. split_and!; [done| |done]. set_solver.
    + intros u. rewrite elem_of_app, U1, U2. destruct (decide (u ∈ checked st1)); set_solver.
    + rewrite P2, P1, fmap_app, concat_app. solve_Permutation.
  - congruence.
Qed.

Lemma walked_complain field type st : walked [] [(field, type)] st (complain field type st).
Proof.
  split; simpl; [done|by intros ? ?%elem_of_nil|done| |].
  - exists []. split_and!; [apply NoDup_nil_2| |simpl; by rewrite ?app_nil_r].
    intros u. split; [by intros ?%elem_of_nil|by intros []].
  - rewrite length_app. simpl. unfold Z.sub. rewrite int64_add_wrap. f_equal. lia.
Qed.

(** A type is checked when what it refers to has been, after it was marked. *)
Lemma walked_mark t st st' :
  t ∉ checked st → walked (refers t) (complaints t) (mark t st) st' → walked [t] [] st st'.
Proof.
  intros Ht [M R N (us & D & U & P) C]. unfold mark in *. simpl in *.
  assert (t ∈ checked st') as Ht' by set_solver. split.
  - set_solver.
  - by intros u ->%list_elem_of_singleton.
  - intros u Hu Hn. destruct (decide (u = t)) as [->|Hne].
    + split; [exists t; split; [by left|apply rtc_refl]|exact R].
    + destruct (N u Hu ltac:(set_solver)) as [(v & Hv & Hr) Hs]. split; [|done].
      exists t. split; [by left|]. by eapply rtc_l.
  - exists (t :: us). split_and!.
    + constructor; [|done]. rewrite U. set_solver.
    + intros u. rewrite elem_of_cons, U. destruct (decide (u = t)) as [->|]; set_solver.
    + by rewrite P.
  - done.
Qed.

Lemma left_mono st st' : checked st ⊆ checked st' → (left_to_check st' <= left_to_check st)%nat.
Proof. intros H. unfold left_to_check. apply subseteq_size. set_solver. Qed.

Lemma left_mark t st :
  is_Some (types !! t) → t ∉ checked st → (left_to_check (mark t st) < left_to_check st)%nat.
Proof.
  intros Ht Hn. unfold left_to_check, mark. simpl. apply subset_size.
  apply elem_of_dom in Ht. set_solver.
Qed.

(** The loop over the fields of a struct. *)
Lemma fields_walked fuel name fs : ∀ st,
  (∀ t st, t ∈ fs.*2 → (left_to_check st < fuel)%nat →
    ∃ st', checkType types IsUpper fuel t st = Done st' ∧ walked [t] [] st st') →
  (left_to_check st < fuel)%nat →
  ∃ st', for_each fs (λ f st, checkType types IsUpper fuel f.2
      (if lower_case IsUpper f.1 then complain f.1 name st else st)) st = Done st' ∧
    walked fs.*2 (complaints_of name fs) st st'.
Proof.
  induction fs as [|[f t] fs IH]; intros st Hcheck Hf; [exists st; split; [done|apply walked_nil]|].
  cbn [for_each fst snd]. set (st1 := if lower_case IsUpper f then complain f name st else st).
  assert (walked [] (if lower_case IsUpper f then [(f, name)] else []) st st1) as Hw1.
  { unfold st1. destruct (lower_case IsUpper f); [apply walked_complain|apply walked_nil]. }
  pose proof (left_mono _ _ (w_more _ _ _ _ Hw1)).
  destruct (Hcheck t st1) as (st2 & -> & Hw2); [by left|lia|]. cbn [mbind outcome_bind].
  pose proof (left_mono _ _ (w_more _ _ _ _ Hw2)).
  destruct (IH st2) as (st3 & -> & Hw3); [|lia|].
  { intros t' st' Ht'. apply Hcheck. by right. }
  exists st3. split; [done|]. pose proof (walked_app _ _ _ _ _ _ _ (walked_app _ _ _ _ _ _ _ Hw1 Hw2) Hw3) as Hw.
  rewrite app_nil_r in Hw. unfold complaints_of. rewrite filter_cons. csimpl.
  destruct (lower_case IsUpper f); exact Hw.
Qed.

Lemma checkType_walked fuel : closed_table → ∀ t st,
  is_Some (types !! t) → (left_to_check st < fuel)%nat →
  ∃ st', checkType types IsUpper fuel t st = Done st' ∧ walked [t] [] st st'.
Proof.
  intros Hclosed. induction fuel as [|fuel IH]; intros t st Ht Hf; [lia|]. pose proof Ht as [[name k] Ety].
  cbn [checkType]. rewrite Ety. destruct (decide (t ∈ checked st)) as [Hin|Hin].
  { exists st. split; [done|]. destruct (walked_nil st) as [M R N P C].
    split; [done|by intros u ->%list_elem_of_singleton|done|done|done]. }
  pose proof (left_mark t st Ht Hin) as Hlt.
  assert (∀ u, u ∈ refers t → is_Some (types !! u)) as Hrefs by (intros u; by apply Hclosed).
  assert (∀ st', walked (refers t) (complaints t) (mark t st) st' → walked [t] [] st st') as Hmark
    by (intros st'; by apply walked_mark).
  unfold refers, complaints in Hmark, Hrefs. rewrite Ety in Hmark, Hrefs. simpl in Hmark, Hrefs. cbn [kind Name].
  destruct k as [fs|e|k e| |]; simpl in *.
  - destruct (fields_walked fuel name fs (mark t st)) as (st' & -> & Hw); [|lia|by eauto].
    intros u st' Hu Hl. apply IH; [by apply Hrefs|done].
  - destruct (IH e (mark t st)) as (st' & -> & Hw); [apply Hrefs; by left|lia|by eauto].
  - destruct (IH e (mark t st)) as (st1 & -> & Hw1); [apply Hrefs; by left|lia|]. cbn [mbind outcome_bind].
    pose proof (left_mono _ _ (w_more _ _ _ _ Hw1)).
    destruct (IH k st1) as (st2 & -> & Hw2); [apply Hrefs; by right; left|lia|].
    exists st2. split; [done|]. apply Hmark. apply (walked_app [e] [k] [] [] _ _ _ Hw1 Hw2).
  - exists (mark t st). split; [done|]. apply Hmark, walked_nil.
  - exists (mark t st). split; [done|]. apply Hmark, walked_nil.
Qed.

(** What has been checked, is checked with all it refers to. *)
Definition settled (st : Lab) : Prop := ∀ u v, u ∈ checked st → v ∈ refers u → v ∈ checked st.

(** (C38) The walk over the types ends, however recursive they are, and it
    checks exactly what can be reached: afterwards a type is checked if it was or if it
    is reachable, and the complaints that were printed are those about the lower-case
    fields of the types that were not checked before, each once; nothing is
    reported twice in the life of the program. *)
Theorem checkType_complains_once fuel t st :
  closed_table → is_Some (types !! t) → settled st → (size (dom types) < fuel)%nat →
  ∃ st' us, checkType types IsUpper fuel t st = Done st' ∧ settled st' ∧
    (∀ u, u ∈ checked st' ↔ u ∈ checked st ∨ reaches t u) ∧
    NoDup us ∧ (∀ u, u ∈ us ↔ reaches t u ∧ u ∉ checked st) ∧
    printed st' ≡ₚ printed st ++ concat (complaints <$> us) ∧
    int64 (errorCount st' - Z.of_nat (length (printed st'))) =
      int64 (errorCount st - Z.of_nat (length (printed st))).
Proof.
  intros Hclosed Ht Hset Hf.
  destruct (checkType_walked fuel Hclosed t st Ht) as (st' & Hrun & [M R N (us & D & U & P) C]).
  { assert (left_to_check st <= size (dom types))%nat; [|lia]. unfold left_to_check. apply subseteq_size. set_solver. }
  assert (settled st') as Hset'.
  { intros u v Hu Hv. destruct (decide (u ∈ checked st)) as [Hin|Hin]; [apply M; by eapply Hset|].
    by apply (N u Hu Hin). }
  assert (∀ u, reaches t u → u ∈ checked st') as Hreach.
  { intros u Hr. unfold reaches in Hr. assert (t ∈ checked st') as H by (apply R; by left). clear -Hr H Hset'.
    induction Hr as [|x y z Hxy _ IH]; [done|]. apply IH. by eapply Hset'. }
  assert (∀ u, u ∈ checked st' → u ∉ checked st → reaches t u) as Hnew.
  { intros u Hu Hn. destruct (N u Hu Hn) as [(x & ->%list_elem_of_singleton & Hr) _]. done. }
  exists st', us. split_and!; try done.
  - intros u. destruct (decide (u ∈ checked st)); naive_solver.
  - intros u. rewrite U. naive_solver.
Qed.
End Walk.

(** A type with one lower-case field that refers back to itself:
    [type T4 struct { Yes int; no *T4 }]. *)
Definition example_types : gmap rtype TypeInfo :=
  {[ 1%positive := mkType "T4" (Struct [("Yes"%string, 2%positive); ("no"%string, 3%positive)]);
     2%positive := mkType "int" Basic;
     3%positive := mkType "" (Elems 1%positive) ]}.

Definition ascii_upper (r : Z) : bool := (65 <=? r) && (r <=? 90).

Lemma checkType_complains_once_witness :
  ∃ st' us, checkType example_types ascii_upper 4 3 (mkLab 0 ∅ []) = Done st' ∧
    printed st' = [("no"%string, "T4"%string)] ∧ NoDup us ∧
    (∀ u, u ∈ us ↔ reaches example_types 3 u ∧ u ∉ (∅ : gset rtype)).
Proof.
  destruct (checkType_complains_once example_types ascii_upper 4 3 (mkLab 0 ∅ []))
    as (st' & us & Hrun & _ & _ & D & U & _ & _).
  - intros t u [[name k] Ht] Hu. unfold refers in Hu. rewrite Ht in Hu.
    unfold example_types in Ht. rewrite !lookup_insert_Some, lookup_singleton_Some in Ht.
    destruct Ht as [[<- Hk]|[_ [[<- Hk]|[_ [<- Hk]]]]]; injection Hk as <- <-; simpl in Hu;
      rewrite ?elem_of_cons, elem_of_nil in Hu; repeat destruct Hu as [->|Hu]; try done; by eexists.
  - by eexists.
  - intros u v Hu. exfalso. set_solver.
  - vm_compute. lia.
  - exists st', us. split_and!; [done| |done|done].
    vm_compute in Hrun. by injection Hrun as <-.
Defined.

(** ** The check of the defaults *)

(** Everything basic in a value: how deep, under which name, of which type,
    whether it is the default, and how reflect got hold of it. *)
Record leaf := mkLeaf { l_depth : Z; l_name : string; l_type : string; l_zero : bool; l_access : access }.

Section Defaults.
Context (IsUpper : Z → bool).

Fixpoint leaves (acc : access) (value : rvalue) (depth : Z) (name : string) : list leaf :=
  match value with
  | VStruct fields =>
      flat_map (λ f, leaves (Field_access IsUpper acc f.1) f.2 (depth + 1) (field_name name f.1.1)) fields
  | VPtr (Some v) => leaves acc v (depth + 1) name
  | VPtr None | VOther => []
  | VBasic type is_zero => [mkLeaf depth name type is_zero acc]
  end.

(** A proper induction over the values. *)
Lemma rvalue_induction (P : rvalue → Prop) :
  (∀ fields, Forall (λ f, P f.2) fields → P (VStruct fields)) →
  P (VPtr None) → (∀ v, P v → P (VPtr (Some v))) →
  (∀ type z, P (VBasic type z)) → P VOther → ∀ v, P v.
Proof.
  intros HS HN HP HB HO. fix IH 1. intros [fields|[v|]|type z|]; [|by apply HP|done|done|done].
  apply HS. induction fields as [|[f v] fields IHf]; constructor; [apply IH|done].
Qed.

Definition check_leaf (l : leaf) (st : Lab) : outcome Lab :=
  if decide (l_access l = Exported) then
    if l_zero l then Done st else Done (warn_default (l_name l) (l_type l) st)
  else Panic "reflect.Value.Interface: cannot return value obtained from unexported field or method".

Definition looked_at (l : leaf) : Prop := l_depth l ≤ 3.

#[local] Instance looked_at_dec l : Decision (looked_at l).
Proof. unfold looked_at. apply _. Defined.

Lemma leaves_deeper v : ∀ acc depth name, Forall (λ l, depth <= l_depth l) (leaves acc v depth name).
Proof.
  induction v as [fields IH| |v IH| |] using rvalue_induction; intros acc depth name; simpl; try done.
  - induction IH as [|f fields Hf _ IHf]; simpl; [done|]. apply Forall_app. split; [|exact IHf].
    eapply Forall_impl; [apply Hf|]. simpl. lia.
  - eapply Forall_impl; [apply IH|]. simpl. lia.
  - by constructor.
Qed.

Lemma deep_leaves v acc depth name : 3 < depth → filter looked_at (leaves acc v depth name) = [].
Proof.
  intros Hd. apply filter_none, Forall_forall. eapply Forall_impl; [apply leaves_deeper|]. unfold looked_at. simpl. lia.
Qed.

Lemma deep_checkDefault1 v acc depth name st : 3 < depth → checkDefault1 IsUpper acc v depth name st = Done st.
Proof. intros Hd. destruct v; cbn [checkDefault1]; by destruct (Z.ltb_spec 3 depth); [|lia]. Qed.

Lemma checkDefault1_leaves v : ∀ acc depth name st,
  checkDefault1 IsUpper acc v depth name st =
  for_each (filter looked_at (leaves acc v depth name)) check_leaf st.
Proof.
  induction v as [fields IH| |v IH|type z|] using rvalue_induction; intros acc depth name st;
    (destruct (decide (3 < depth)) as [Hd|Hd]; [by rewrite deep_leaves, deep_checkDefault1|]);
    cbn [checkDefault1 leaves]; (destruct (Z.ltb_spec 3 depth) as [|_]; [lia|]); try done.
  - revert st. induction IH as [|[f v] fields Hf _ IHf]; intros st; [done|]. cbn [flat_map fst snd].
    rewrite filter_app, for_each_app, Hf.
    destruct (for_each _ _ st); cbn [mbind outcome_bind]; [apply IHf|done..].
  - rewrite filter_cons_True by (unfold looked_at; simpl; lia). simpl. unfold check_leaf. simpl.
    by repeat case_decide; destruct z.
Qed.

(** One warning at most for a program without complaints, and a count of every
    value that is not the default. *)
Definition suspicious (v : rvalue) : list leaf :=
  filter (λ l, l_zero l = false) (filter looked_at (leaves Exported v 1 "")).

Definition named (l : leaf) : string := if decide (l_name l = "")%string then l_type l else l_name l.

Lemma check_leaves ls : ∀ st,
  Forall (λ l, l_access l = Exported) ls →
  0 ≤ errorCount st → errorCount st + Z.of_nat (length ls) < 2 ^ 63 →
  let bad := filter (λ l, l_zero l = false) ls in
  for_each ls check_leaf st =
  Done (mkLab (errorCount st + Z.of_nat (length bad)) (checked st)
    (printed st ++ if decide (errorCount st = 0) then (λ l, (named l, "default"%string)) <$> take 1 bad else [])).
Proof.
  induction ls as [|[d name type z acc] ls IH]; intros st Hacc Hc Hb.
  { simpl. destruct st as [c k p]. simpl. by case_decide; rewrite Z.add_0_r, app_nil_r. }
  apply Forall_cons in Hacc as [Hacc Hls]. simpl in Hacc. subst acc. cbn [for_each].
  change (check_leaf (mkLeaf d name type z Exported) st) with (if z then Done st else Done (warn_default name type st)).
  rewrite length_cons in Hb. cbv zeta in IH |- *. destruct z; cbn [mbind outcome_bind].
  - rewrite filter_cons_False by (intros [=]). rewrite IH; [done|done|done|lia].
  - rewrite filter_cons_True by done. unfold warn_default. cbn [l_name l_type].
    rewrite int64_id by lia. rewrite IH; [|done|simpl; lia..]. cbn [errorCount checked printed length].
    rewrite (decide_False (P := errorCount st + 1 = 0)) by lia. rewrite app_nil_r. f_equal. f_equal; [lia|].
    destruct (Z.ltb_spec (errorCount st) 1); [rewrite (decide_True (P := errorCount st = 0)) by lia; done|].
    by rewrite (decide_False (P := errorCount st = 0)), app_nil_r by lia.
Qed.

(** The check of the defaults walks the value as deep as it goes and
    looks at what is basic within three steps: when none of that is in an unexported
    field the call returns, [errorCount] has grown by the number of values that are
    not the default, and a program without errors so far is warned about the first
    of them. *)
Theorem checkDefault_counts v st :
  Forall (λ l, l_depth l ≤ 3 → l_access l = Exported) (leaves Exported v 1 "") →
  0 ≤ errorCount st → errorCount st + Z.of_nat (length (leaves Exported v 1 "")) < 2 ^ 63 →
  checkDefault IsUpper (Some v) st =
  Done (mkLab (errorCount st + Z.of_nat (length (suspicious v))) (checked st)
    (printed st ++
     if decide (errorCount st = 0) then (λ l, (named l, "default"%string)) <$> take 1 (suspicious v) else [])).
Proof.
  intros Hacc Hc Hb. unfold checkDefault. rewrite checkDefault1_leaves. apply check_leaves; [|done|].
  - apply Forall_forall. intros l [Hl Hin]%list_elem_of_filter. rewrite Forall_forall in Hacc. by apply Hacc.
  - pose proof (length_filter looked_at (leaves Exported v 1 "")). lia.
Qed.

(** Decoding over a struct with a lower-case basic field within reach does
    not end in the warning the package was made for, whatever the field holds: the check
    of the defaults asks reflect for the value of the field, which panics. *)
Theorem checkDefault_unexported_panics v st l :
  l ∈ leaves Exported v 1 "" → l_depth l ≤ 3 → l_access l ≠ Exported →
  checkDefault IsUpper (Some v) st =
  Panic "reflect.Value.Interface: cannot return value obtained from unexported field or method".
Proof.
  intros Hl Hd Hacc. unfold checkDefault. rewrite checkDefault1_leaves.
  assert (l ∈ filter looked_at (leaves Exported v 1 "")) as Hin by (by apply list_elem_of_filter).
  clear Hl Hd. revert st Hin. induction (filter _ _) as [|x ls IH]; intros st Hin; [by apply elem_of_nil in Hin|].
  cbn [for_each]. unfold check_leaf at 2. case_decide as Hx; [|done]. apply elem_of_cons in Hin as [->|Hin]; [done|].
  by destruct (l_zero x); cbn [mbind outcome_bind]; apply IH.
Qed.
End Defaults.

(** A reply that was used before: [&Reply{Err: "x", Version: 3, Inner: {{Deep: 7}}}]. *)
Definition used_reply : rvalue :=
  VPtr (Some (VStruct [(("Err"%string, false), VBasic "string" false);
                       (("Version"%string, false), VBasic "int" false);
                       (("Inner"%string, false), VStruct [(("Deep"%string, false), VBasic "int" false)])])).

Lemma checkDefault_counts_witness :
  checkDefault ascii_upper (Some used_reply) (mkLab 0 ∅ []) =
  Done (mkLab 2 ∅ [("Err"%string, "default"%string)]).
Proof.
  rewrite (checkDefault_counts ascii_upper used_reply (mkLab 0 ∅ [])); [reflexivity| |simpl; lia|vm_compute; done].
  repeat constructor.
Defined.

Lemma checkDefault_unexported_panics_witness :
  checkDefault ascii_upper (Some (VPtr (Some (VStruct [(("Yes"%string, false), VBasic "int" true);
    (("no"%string, false), VBasic "int" true)])))) (mkLab 0 ∅ []) =
  Panic "reflect.Value.Interface: cannot return value obtained from unexported field or method".
Proof.
  apply (checkDefault_unexported_panics ascii_upper _ _ (mkLeaf 3 "no" "int" true StickyRO)); [|simpl; lia|done].
  simpl. apply elem_of_cons. right. apply list_elem_of_singleton. reflexivity.
Defined.
