(* ===== verification/Services.v ===== *)
(** * Services: the servers the program registers (src/src/kvsrv1/server.go,
    src/src/kvraft1/server.go, src/src/kvraft1/rsm/rsm.go,
    src/src/shardkv1/shardgrp/server.go)

    The tester starts servers with functions it is given; here are the program's.
    Each makes its services as objects in a heap: a Raft peer, and a key/value server above it. What
    reflection finds in them, and what a call of each method does, is what the
    network of [Labrpc] dispatches to. The handlers of the key/value servers
    are not written yet: they leave the reply as it is. *)

From S2P Require Import Prelude RaftTest Persister Labrpc Group Raft Labgob.

Local Open Scope Z_scope.

(** ** What is sent: arguments and replies *)
Inductive Val :=
| GetArgs (key : string)
| GetReply (value : string) (version : Z) (err : string)
| PutArgs (key value : string) (version : Z)
| PutReply (err : string)
| FreezeShardArgs (shard num : Z)
| FreezeShardReply (state : list Z) (num : Z) (err : string)
| InstallShardArgs (shard : Z) (state : list Z) (num : Z)
| InstallShardReply (err : string)
| DeleteShardArgs (shard num : Z)
| DeleteShardReply (err : string)
| VoteArgs (a : RequestVoteArgs)
| VoteReply (r : RequestVoteReply)
| EntriesArgs (a : AppendEntriesArgs)
| EntriesReply (r : AppendEntriesReply).

(** ** Objects *)

(** [sm] and [applyCh] are not kept: nothing reads them. [rf] points to a peer, or is nil. *)
Record RSM := mkRSM { rsm_me : Z; maxraftstate : Z; rf : option nat }.

(** kvraft1's server and, with [gid], a shard group's. *)
Record KVServer := mkKVServer { kv_me : Z; kv_dead : Z; kv_gid : Z; kv_rsm : RSM }.

(** A peer with the ends to the others. *)
Record Peer := mkPeer { peer : Raft; peers : list string }.

(** The program's memory: labgob's variables, the peers, the servers of kvraft1, those of
    the shard groups and those of the Raft tests, with the elements of the slice [srvs] of the [Test] these
    belong to; and the time that [time.Now] shows. *)
Record App := mkApp {
  lab : Lab;
  rafts : list Peer;
  kvrafts : list KVServer;
  shardgrps : list KVServer;
  rfsrvs : list rfsrv;
  test_srvs : gmap Z nat;
  now : Z
}.

Definition set_lab l a := mkApp l (rafts a) (kvrafts a) (shardgrps a) (rfsrvs a) (test_srvs a) (now a).
Definition set_rafts l a := mkApp (lab a) l (kvrafts a) (shardgrps a) (rfsrvs a) (test_srvs a) (now a).
Definition set_kvrafts l a := mkApp (lab a) (rafts a) l (shardgrps a) (rfsrvs a) (test_srvs a) (now a).
Definition set_shardgrps l a := mkApp (lab a) (rafts a) (kvrafts a) l (rfsrvs a) (test_srvs a) (now a).
Definition set_rfsrvs l a := mkApp (lab a) (rafts a) (kvrafts a) (shardgrps a) l (test_srvs a) (now a).
Definition set_test_srvs m a := mkApp (lab a) (rafts a) (kvrafts a) (shardgrps a) (rfsrvs a) m (now a).
Definition set_now t a := mkApp (lab a) (rafts a) (kvrafts a) (shardgrps a) (rfsrvs a) (test_srvs a) t.

(** Services are pointers; a server of kvsrv1 has no fields. *)
Inductive Svc := KVsrv | Kvraft (p : nat) | Shardgrp (p : nat) | Rfsrv (p : nat) | RaftPeer (p : nat).

#[export] Instance Svc_eq_dec : EqDecision Svc.
Proof. solve_decision. Defined.

(** ** The types that are registered with labgob *)
Definition rpc_types : gmap rtype TypeInfo :=
  {[ 1%positive := mkType "string" Basic;
     2%positive := mkType "Tversion" Basic;
     3%positive := mkType "PutArgs" (Struct [("Key", 1%positive); ("Value", 1%positive); ("Version", 2%positive)]%string);
     4%positive := mkType "GetArgs" (Struct [("Key"%string, 1%positive)]);
     5%positive := mkType "Op" (Struct []) ]}.

Definition shard_types : gmap rtype TypeInfo :=
  {[ 6%positive := mkType "Tshid" Basic;
     7%positive := mkType "Tnum" Basic;
     8%positive := mkType "uint8" Basic;
     9%positive := mkType "" (Elems 8);
     10%positive := mkType "FreezeShardArgs" (Struct [("Shard", 6%positive); ("Num", 7%positive)]%string);
     11%positive := mkType "InstallShardArgs"
       (Struct [("Shard", 6%positive); ("State", 9%positive); ("Num", 7%positive)]%string);
     12%positive := mkType "DeleteShardArgs" (Struct [("Shard", 6%positive); ("Num", 7%positive)]%string) ]}.

Definition service_types : gmap rtype TypeInfo := rpc_types ∪ shard_types.

(** More than the number of types, so that a walk over them ends. *)
Definition types_fuel : nat := 13.

Section Services.
Variable IsUpper : Z → bool.

(** The variable of package rsm that plugs in another Raft. *)
Variable useRaftStateMachine : bool.

Definition register_all (ts : list rtype) (a : App) : outcome App :=
  l ← for_each ts (λ t l, Register service_types IsUpper types_fuel (Some t) l) (lab a); Done (set_lab l a).

(** [raft.Make] on the state that was persisted; the ticker it starts is in [RaftCluster]. *)
Definition make_peer (servers : list string) (me : Z) (p : nat) (st : Store) (a : App) : outcome (nat * Store * App) :=
  '(data, st) ← ReadRaftState p st;
  let x := mkPeer (Make (length servers) me (deref st data)) servers in
  Done (length (rafts a), st, set_rafts (rafts a ++ [x]) a).

Definition MakeRSM (servers : list string) (me : Z) (p : nat) (maxraftstate : Z) (st : Store) (a : App) :
    outcome (RSM * Store * App) :=
  if negb useRaftStateMachine then
    '(r, st, a) ← make_peer servers me p st a; Done (mkRSM me maxraftstate (Some r), st, a)
  else Done (mkRSM me maxraftstate None, st, a).

(** [Raft()] as a service: nil when there is none. *)
Definition RSM_Raft (r : RSM) : option Svc := RaftPeer <$> rf r.

(** [Submit] always answers ErrWrongLeader and nil. *)
Definition Submit (req : any) (r : RSM) : string * any := ("ErrWrongLeader"%string, any_nil).

(** ** Starting a server *)
Definition kvsrv_StartKVServer (ends : list string) (gid srv : Z) (p : nat) (st : Store) (a : App) :
    outcome (list (option Svc) * Store * App) := Done ([Some KVsrv], st, a).

Definition kvraft_StartKVServer (maxraftstate : Z) (servers : list string) (gid me : Z) (p : nat) (st : Store) (a : App) :
    outcome (list (option Svc) * Store * App) :=
  a ← register_all [5; 3; 4]%positive a;
  '(r, st, a) ← MakeRSM servers me p maxraftstate st a;
  let kv := length (kvrafts a) in
  Done ([Some (Kvraft kv); RSM_Raft r], st, set_kvrafts (kvrafts a ++ [mkKVServer me 0 0 r]) a).

Definition StartServerShardGrp (maxraftstate : Z) (servers : list string) (gid me : Z) (p : nat) (st : Store) (a : App) :
    outcome (list (option Svc) * Store * App) :=
  a ← register_all [3; 4; 10; 11; 12; 5]%positive a;
  '(r, st, a) ← MakeRSM servers me p maxraftstate st a;
  let kv := length (shardgrps a) in
  Done ([Some (Shardgrp kv); RSM_Raft r], st, set_shardgrps (shardgrps a ++ [mkKVServer me 0 gid r]) a).
End Services.

(** ** Killing a service *)
Definition KVServer_Kill (kv : KVServer) : KVServer := mkKVServer (kv_me kv) 1 (kv_gid kv) (kv_rsm kv).
Definition KVServer_killed (kv : KVServer) : bool := kv_dead kv =? 1.

Definition Shardgrp_Kill (kv : KVServer) : KVServer := mkKVServer (kv_me kv) 1 (kv_gid kv) (kv_rsm kv).
Definition Shardgrp_killed (kv : KVServer) : bool := kv_dead kv =? 1.

Definition Raft_Kill (p : nat) (a : App) : App := set_rafts (alter (λ x, mkPeer (Kill (peer x)) (peers x)) p (rafts a)) a.

(** On a pointer: the methods of an object change the heap. A server of the Raft tests saves, too. *)
Definition Svc_Kill (svc : Svc) (st : Store) (a : App) : outcome (Store * App) :=
  match svc with
  | KVsrv => Done (st, a)
  | Kvraft p => Done (st, set_kvrafts (alter KVServer_Kill p (kvrafts a)) a)
  | Shardgrp p => Done (st, set_shardgrps (alter Shardgrp_Kill p (shardgrps a)) a)
  | Rfsrv p =>
      match rfsrvs a !! p with
      | Some s => '(s, st) ← RaftTest.Kill s st; Done (st, set_rfsrvs (<[p := s]> (rfsrvs a)) a)
      | None => Panic "nil pointer dereference"
      end
  | RaftPeer p => Done (st, Raft_Kill p a)
  end.

(** ** Methods *)
Definition wrong_type {A} : outcome A := Panic "reflect: Call using value as another type".

(** A handler on the arguments of its type; [reply] is what it leaves. *)
Definition handles (takes : Val → bool) (reply : Val) (v : Val) (a : App) : outcome (Val * App) :=
  if takes v then Done (reply, a) else wrong_type.

Definition is_GetArgs (v : Val) : bool := match v with GetArgs _ => true | _ => false end.
Definition is_PutArgs (v : Val) : bool := match v with PutArgs _ _ _ => true | _ => false end.
Definition is_FreezeShardArgs (v : Val) : bool := match v with FreezeShardArgs _ _ => true | _ => false end.
Definition is_InstallShardArgs (v : Val) : bool := match v with InstallShardArgs _ _ _ => true | _ => false end.
Definition is_DeleteShardArgs (v : Val) : bool := match v with DeleteShardArgs _ _ => true | _ => false end.

(** The bodies are empty: the reply is the zero value. *)
Definition KVsrv_Get : Val → App → outcome (Val * App) := handles is_GetArgs (GetReply "" 0 "").
Definition KVsrv_Put : Val → App → outcome (Val * App) := handles is_PutArgs (PutReply "").
Definition Kvraft_Get : Val → App → outcome (Val * App) := handles is_GetArgs (GetReply "" 0 "").
Definition Kvraft_Put : Val → App → outcome (Val * App) := handles is_PutArgs (PutReply "").
Definition Shardgrp_Get : Val → App → outcome (Val * App) := handles is_GetArgs (GetReply "" 0 "").
Definition Shardgrp_Put : Val → App → outcome (Val * App) := handles is_PutArgs (PutReply "").
Definition FreezeShard : Val → App → outcome (Val * App) := handles is_FreezeShardArgs (FreezeShardReply [] 0 "").
Definition InstallShard : Val → App → outcome (Val * App) := handles is_InstallShardArgs (InstallShardReply "").
Definition DeleteShard : Val → App → outcome (Val * App) := handles is_DeleteShardArgs (DeleteShardReply "").

(** What the server offers its replicated state machine, which never asks for it. *)
Definition Kvraft_DoOp (req : any) (kv : KVServer) : any * KVServer := (any_nil, kv).
Definition Kvraft_Snapshot (kv : KVServer) : list Z := [].
Definition Kvraft_Restore (data : list Z) (kv : KVServer) : KVServer := kv.
Definition Shardgrp_DoOp (req : any) (kv : KVServer) : any * KVServer := (any_nil, kv).
Definition Shardgrp_Snapshot (kv : KVServer) : list Z := [].
Definition Shardgrp_Restore (data : list Z) (kv : KVServer) : KVServer := kv.

(** The peer at [p]. *)
Definition with_peer {B} (p : nat) (a : App) (k : Raft → outcome (Raft * B)) : outcome (B * App) :=
  match rafts a !! p with
  | Some x => '(r, b) ← k (peer x); Done (b, set_rafts (<[p := mkPeer r (peers x)]> (rafts a)) a)
  | None => Panic "nil pointer dereference"
  end.

Definition Raft_RequestVote (p : nat) (v : Val) (a : App) : outcome (Val * App) :=
  match v with
  | VoteArgs args => '(r, a) ← with_peer p a (λ x, Done (RequestVote (now a) x args empty_vote_reply)); Done (VoteReply r, a)
  | _ => wrong_type
  end.

Definition Raft_AppendEntries (p : nat) (v : Val) (a : App) : outcome (Val * App) :=
  match v with
  | EntriesArgs args => '(r, a) ← with_peer p a (λ x, AppendEntries (now a) x args empty_append_reply); Done (EntriesReply r, a)
  | _ => wrong_type
  end.

(** A method that does not look like a handler is never called through the network. *)
Definition not_handler (v : Val) (a : App) : outcome (Val * App) := Panic "not a handler".

Definition handler_method (f : Val → App → outcome (Val * App)) : @Method Val App := mkMethod "" 3 true 0 f.
Definition other_method (ins : Z) (outs : Z) : @Method Val App := mkMethod "" ins false outs not_handler.

Definition kvsrv_methods : list (string * @Method Val App) :=
  [("Get", handler_method KVsrv_Get); ("Kill", other_method 1 0); ("Put", handler_method KVsrv_Put)]%string.

Definition kvraft_methods : list (string * @Method Val App) :=
  [("DoOp", other_method 2 1); ("Get", handler_method Kvraft_Get); ("Kill", other_method 1 0);
   ("Put", handler_method Kvraft_Put); ("Restore", other_method 2 0); ("Snapshot", other_method 1 1)]%string.

Definition shardgrp_methods : list (string * @Method Val App) :=
  [("DeleteShard", handler_method DeleteShard); ("DoOp", other_method 2 1); ("FreezeShard", handler_method FreezeShard);
   ("Get", handler_method Shardgrp_Get); ("InstallShard", handler_method InstallShard); ("Kill", other_method 1 0);
   ("Put", handler_method Shardgrp_Put); ("Restore", other_method 2 0); ("Snapshot", other_method 1 1)]%string.

Definition rfsrv_methods : list (string * @Method Val App) :=
  [("GetState", other_method 1 2); ("Kill", other_method 1 0); ("Logs", other_method 2 2); ("Raft", other_method 1 1)]%string.

(** [Snapshot] of a peer has two arguments, but the second is not a pointer. *)
Definition raft_methods (p : nat) : list (string * @Method Val App) :=
  [("AppendEntries", handler_method (Raft_AppendEntries p)); ("GetState", other_method 1 2); ("Kill", other_method 1 0);
   ("PersistBytes", other_method 1 1); ("RequestVote", handler_method (Raft_RequestVote p));
   ("Snapshot", other_method 3 0); ("Start", other_method 2 3)]%string.

(** [labrpc.MakeService] of a service. *)
Definition service_of (svc : Svc) : @Service Val App :=
  match svc with
  | KVsrv => MakeService "KVServer" kvsrv_methods
  | Kvraft _ => MakeService "KVServer" kvraft_methods
  | Shardgrp _ => MakeService "KVServer" shardgrp_methods
  | Rfsrv _ => MakeService "rfsrv" rfsrv_methods
  | RaftPeer p => MakeService "Raft" (raft_methods p)
  end.
