(* ===== verification/ServicesProps.v ===== *)
(** * ServicesProps: the program's servers under the tester

    The functions that start servers return and print no warning, every
    service that is made can be killed, and in a group that was started with them a
    peer's call to another, through the simulated network, is a call of its
    handler. *)

From S2P Require Import Prelude Persister Labrpc LabrpcSafety Group GroupProps GroupStart Raft Labgob LabgobProps Services.
From Stdlib Require Import Strings.Byte.

Local Open Scope Z_scope.

(** ** Registering types *)
Section Types.
Context (IsUpper : Z → bool) (capitals : ∀ b, 65 <= b <= 90 → IsUpper b = true).

Lemma service_types_closed : closed_table service_types.
Proof.
  assert (map_Forall (λ t _, Forall (λ u, is_Some (service_types !! u)) (refers service_types t)) service_types) as H.
  { apply (bool_decide_eq_true_1 _). vm_compute. reflexivity. }
  intros t u [ty Ht] Hu. specialize (H t ty Ht). rewrite Forall_forall in H. by apply H.
Qed.

(** The first letter of every field that is sent. *)
Definition first_letters : list Z := first_rune <$> ["Key"; "Value"; "Version"; "Shard"; "Num"; "State"]%string.

Lemma no_lower_case f : first_rune f ∈ first_letters → lower_case IsUpper f = false.
Proof.
  intros Hf. unfold lower_case. rewrite capitals; [done|].
  assert (Forall (λ b, 65 <= b <= 90) first_letters) as H by (repeat constructor; vm_compute; discriminate).
  rewrite Forall_forall in H. by apply H.
Qed.

Definition quiet (ty : TypeInfo) : bool :=
  match kind ty with Struct fs => forallb (λ f, bool_decide (first_rune f.1 ∈ first_letters)) fs | _ => true end.

Lemma service_types_quiet t : complaints service_types IsUpper t = [].
Proof.
  assert (map_Forall (λ _ ty, quiet ty = true) service_types) as H.
  { apply (bool_decide_eq_true_1 _). vm_compute. reflexivity. }
  unfold complaints. destruct (service_types !! t) as [[nm k]|] eqn:Et; [|done]. specialize (H t _ Et).
  destruct k as [fs| | | |]; try done. unfold quiet in H. cbn [kind] in H.
  rewrite forallb_forall in H. unfold complaints_of. rewrite filter_none; [done|]. intros f Hf.
  rewrite no_lower_case; [done|]. apply (bool_decide_eq_true_1 _), H. by apply list_elem_of_In.
Qed.

Lemma register_all_ok ts (a : App) :
  (∀ t, t ∈ ts → is_Some (service_types !! t)) →
  ∃ l, register_all IsUpper ts a = Done (set_lab l a) ∧ printed l ≡ₚ printed (lab a).
Proof.
  intros Hts. unfold register_all.
  assert (∀ l, ∃ l', for_each ts (λ t l, Register service_types IsUpper types_fuel (Some t) l) l = Done l' ∧
    printed l' ≡ₚ printed l) as Hall.
  { induction ts as [|t ts IH]; intros l; [by exists l|]. cbn [for_each].
    destruct (checkType_walked service_types IsUpper types_fuel service_types_closed t l) as (l1 & Hl1 & Hw).
    { apply Hts. by left. }
    { unfold left_to_check. eapply Nat.le_lt_trans; [apply subseteq_size, subseteq_difference_l; reflexivity|].
      vm_compute. lia. }
    change (Register service_types IsUpper types_fuel (Some t) l) with (checkType service_types IsUpper types_fuel t l).
    rewrite Hl1. cbn [mbind outcome_bind].
    destruct (IH (λ t Ht, Hts t (proj2 (elem_of_cons _ _ _) (or_intror Ht))) l1) as (l2 & -> & Hp). exists l2. split; [done|].
    rewrite Hp. destruct (w_printed _ _ _ _ _ _ Hw) as (us & _ & _ & ->). rewrite app_nil_l.
    replace (concat (complaints service_types IsUpper <$> us)) with ([] : list (string * string)); [by rewrite app_nil_r|].
    symmetry. clear -capitals. induction us as [|u us IH]; [done|]. cbn [fmap list_fmap concat]. by rewrite service_types_quiet, IH. }
  destruct (Hall (lab a)) as (l & -> & Hp). by exists l.
Qed.

(** ** Starting and killing *)

(** Pointer [r] is to the peer [i] of those that [cl] leads to. *)
Definition peer_at (r : nat) (cl : list string) (i : Z) (a : App) : Prop :=
  ∃ x, rafts a !! r = Some x ∧ npeers (peer x) = length cl ∧ me (peer x) = i ∧ peers x = cl.

(** A server has a key/value server, or a server of the Raft tests with its persister, and a peer below it. *)
Inductive raft_services (g : Z) (cl : list string) (i : Z) (p : nat) (a : App) : list Svc → Prop :=
| rs_kvraft k r : is_Some (kvrafts a !! k) → peer_at r cl i a → raft_services g cl i p a [Kvraft k; RaftPeer r]
| rs_shardgrp k r kv : shardgrps a !! k = Some kv → kv_gid kv = g → peer_at r cl i a →
    raft_services g cl i p a [Shardgrp k; RaftPeer r]
| rs_rfsrv k r s : rfsrvs a !! k = Some s → RaftTest.persister s = Some p → peer_at r cl i a →
    raft_services g cl i p a [Rfsrv k; RaftPeer r].

Definition with_raft (g : Z) (cl : list string) (i : Z) (p : nat) (sv : list Svc) (a : App) : Prop := raft_services g cl i p a sv.

(** Any of the program's servers. *)
Definition any_server (g : Z) (cl : list string) (i : Z) (p : nat) (sv : list Svc) (a : App) : Prop :=
  sv = [KVsrv] ∨ with_raft g cl i p sv a.

(** From [a] to [a'] no object goes away, and none becomes another's. *)
Record grows (a a' : App) : Prop := {
  gr_rafts : ∀ r x, rafts a !! r = Some x → ∃ x', rafts a' !! r = Some x' ∧ peers x' = peers x ∧
    npeers (peer x') = npeers (peer x) ∧ me (peer x') = me (peer x);
  gr_kvrafts : ∀ k, is_Some (kvrafts a !! k) → is_Some (kvrafts a' !! k);
  gr_shardgrps : ∀ k kv, shardgrps a !! k = Some kv → ∃ kv', shardgrps a' !! k = Some kv' ∧ kv_gid kv' = kv_gid kv;
  gr_rfsrvs : ∀ k s, rfsrvs a !! k = Some s → ∃ s', rfsrvs a' !! k = Some s' ∧ RaftTest.persister s' = RaftTest.persister s
}.

Lemma app_grows_refl a : grows a a.
Proof. split; eauto. Qed.

Lemma app_grows_trans a1 a2 a3 : grows a1 a2 → grows a2 a3 → grows a1 a3.
Proof.
  intros [R1 K1 S1 T1] [R2 K2 S2 T2]. split.
  - intros r x Hx. destruct (R1 r x Hx) as (y & Hy & E1 & E2 & E3). destruct (R2 r y Hy) as (z & Hz & F1 & F2 & F3).
    exists z. split_and!; congruence.
  - auto.
  - intros k kv Hk. destruct (S1 k kv Hk) as (kv1 & H1 & E1). destruct (S2 k kv1 H1) as (kv2 & H2 & E2).
    exists kv2. split; congruence.
  - intros k t Hk. destruct (T1 k t Hk) as (t1 & H1 & E1). destruct (T2 k t1 H1) as (t2 & H2 & E2).
    exists t2. split; congruence.
Qed.

Lemma with_raft_grows a a' : grows a a' → made_kept with_raft a a'.
Proof.
  intros [R K S F] g cl i p sv [k r Hk (x & Hx & Hn & Hm & Hp)|k r kv Hk Hg (x & Hx & Hn & Hm & Hp)|k r t Hk Ht (x & Hx & Hn & Hm & Hp)];
    destruct (R r x Hx) as (x' & Hx' & E1 & E2 & E3);
    assert (peer_at r cl i a') as Hpeer by (exists x'; split_and!; congruence).
  - apply rs_kvraft; [by apply K|done].
  - destruct (S k kv Hk) as (kv' & Hk' & E). apply (rs_shardgrp _ _ _ _ _ k r kv'); [done|congruence|done].
  - destruct (F k t Hk) as (t' & Hk' & E). apply (rs_rfsrv _ _ _ _ _ k r t'); [done|congruence|done].
Qed.

Lemma any_server_grows a a' : grows a a' → made_kept any_server a a'.
Proof. intros Hg g cl i p sv [->|H]; [by left|]. right. by apply (with_raft_grows a a' Hg). Qed.

Lemma grows_app_kvrafts a kv : grows a (set_kvrafts (kvrafts a ++ [kv]) a).
Proof. split; eauto. intros k [x Hx]. exists x. simpl. by apply lookup_app_l_Some. Qed.

Lemma grows_app_shardgrps a kv : grows a (set_shardgrps (shardgrps a ++ [kv]) a).
Proof. split; eauto. intros k x Hx. exists x. simpl. split; [by apply lookup_app_l_Some|done]. Qed.

(** [MakeRSM] on a persister makes a new peer of the group. *)
Lemma MakeRSM_new (servers : list string) i p maxr st a :
  is_Some (persisters st !! p) →
  ∃ st', MakeRSM false servers i p maxr st a =
      Done (mkRSM i maxr (Some (length (rafts a))), st', set_rafts (rafts a ++ [mkPeer (Make (length servers) i []) servers]) a) ∧
    persisters_kept st st'.
Proof.
  intros [ps Hps]. unfold MakeRSM, make_peer, ReadRaftState, with_persister. rewrite Hps. cbn [negb mbind outcome_bind].
  destruct (clone (raftstate ps) st) as [data st'] eqn:Hc. cbn [mbind outcome_bind]. exists st'. rewrite !Make_fresh.
  split; [done|]. unfold clone, alloc_array in Hc. injection Hc as _ <-. by intros q.
Qed.

Lemma MakeRSM_ok (servers : list string) i p maxr st a :
  is_Some (persisters st !! p) →
  ∃ r st' a', MakeRSM false servers i p maxr st a = Done (mkRSM i maxr (Some r), st', a') ∧ peer_at r servers i a' ∧
    grows a a' ∧ kvrafts a' = kvrafts a ∧ shardgrps a' = shardgrps a ∧
    persisters_kept st st'.
Proof.
  intros Hps. destruct (MakeRSM_new servers i p maxr st a Hps) as (st' & Hrun & Hst).
  eexists _, st', _. split; [exact Hrun|]. split_and!; [|split; eauto|done|done|exact Hst].
  - eexists. split; [simpl; rewrite lookup_app_r, Nat.sub_diag by lia; reflexivity|]. by rewrite Make_fresh.
  - intros r x Hx. exists x. simpl. by rewrite (lookup_app_l_Some _ _ _ _ Hx).
Qed.

(** What a start function has to do for the tester. *)
Definition start_fun : Type := list string → Z → Z → nat → Store → App → outcome (list (option Svc) * Store * App).

Definition starts_raft (mks : start_fun) : Prop := ∀ cl g i p st a, is_Some (persisters st !! p) →
  ∃ sv st' a', mks cl g i p st a = Done (Some <$> sv, st', a') ∧ with_raft g cl i p sv a' ∧ grows a a' ∧
    persisters_kept st st'.

Ltac registered := let t := fresh in let Ht := fresh in
  intros t Ht; apply (bool_decide_eq_true_1 _);
  repeat (apply elem_of_cons in Ht as [->|Ht]; [vm_compute; reflexivity|]); by apply elem_of_nil in Ht.

Lemma kvraft_registers a : ∃ l, register_all IsUpper [5; 3; 4]%positive a = Done (set_lab l a).
Proof. destruct (register_all_ok [5; 3; 4]%positive a) as (l & E & _); [registered|by exists l]. Qed.

Lemma shardgrp_registers a : ∃ l, register_all IsUpper [3; 4; 10; 11; 12; 5]%positive a = Done (set_lab l a).
Proof. destruct (register_all_ok [3; 4; 10; 11; 12; 5]%positive a) as (l & E & _); [registered|by exists l]. Qed.

Lemma kvraft_starts maxr : starts_raft (kvraft_StartKVServer IsUpper false maxr).
Proof.
  intros cl g i p st a Hp. unfold kvraft_StartKVServer.
  destruct (kvraft_registers a) as [l ->]. cbn [mbind outcome_bind].
  destruct (MakeRSM_ok cl i p maxr st (set_lab l a) Hp) as (r & st' & a' & -> & Hr & Hg & _ & _ & Hst).
  cbn [mbind outcome_bind]. eexists [Kvraft _; RaftPeer r], st', _. split; [reflexivity|]. split_and!; [| |exact Hst].
  - apply rs_kvraft; [|exact Hr]. simpl. rewrite lookup_app_r, Nat.sub_diag by lia. by eexists.
  - eapply app_grows_trans; [|apply grows_app_kvrafts]. eapply app_grows_trans; [|exact Hg]. split; eauto.
Qed.

Lemma shardgrp_starts maxr : starts_raft (StartServerShardGrp IsUpper false maxr).
Proof.
  intros cl g i p st a Hp. unfold StartServerShardGrp.
  destruct (shardgrp_registers a) as [l ->]. cbn [mbind outcome_bind].
  destruct (MakeRSM_ok cl i p maxr st (set_lab l a) Hp) as (r & st' & a' & -> & Hr & Hg & _ & _ & Hst).
  cbn [mbind outcome_bind]. eexists [Shardgrp _; RaftPeer r], st', _. split; [reflexivity|]. split_and!; [| |exact Hst].
  - apply (rs_shardgrp _ _ _ _ _ _ _ (mkKVServer i 0 g (mkRSM i maxr (Some r)))); [|reflexivity|exact Hr].
    simpl. rewrite lookup_app_r, Nat.sub_diag by lia. reflexivity.
  - eapply app_grows_trans; [|apply grows_app_shardgrps]. eapply app_grows_trans; [|exact Hg]. split; eauto.
Qed.
End Types.

Lemma starts_with_raft mks : starts_raft mks → starts mks with_raft.
Proof.
  intros Hs n cl g i p st a _ _ Hp. destruct (Hs cl g i p st a Hp) as (sv & st' & a' & Hrun & Hm & Hg & Hst).
  exists sv, st', a'. split_and!; [done|done|by apply with_raft_grows|done].
Qed.

Lemma starts_any mks : starts_raft mks → starts mks any_server.
Proof.
  intros Hs n cl g i p st a _ _ Hp. destruct (Hs cl g i p st a Hp) as (sv & st' & a' & Hrun & Hm & Hg & Hst).
  exists sv, st', a'. split_and!; [done|by right|by apply any_server_grows|done].
Qed.

Lemma kvsrv_starts : starts kvsrv_StartKVServer any_server.
Proof. intros n cl g i p st a _ _ _. exists [KVsrv], st, a. split_and!; [done|by left|by intros g' cl' i' q sv|by intros q]. Qed.

Lemma alter_is_Some {X} (f : X → X) k (l : list X) j x : l !! j = Some x →
  ∃ y, alter f k l !! j = Some y ∧ (y = x ∨ y = f x).
Proof.
  intros Hx. destruct (decide (k = j)) as [->|Hne].
  - exists (f x). split; [|by right]. by rewrite list_lookup_alter_eq, Hx.
  - exists x. split; [|by left]. by rewrite list_lookup_alter_ne.
Qed.

(** A server of the Raft tests can be killed as long as it has its persister. *)
Lemma rfsrv_Kill s st p : RaftTest.persister s = Some p → is_Some (persisters st !! p) →
  ∃ st', RaftTest.Kill s st = Done (RaftTest.set_raft None s, st') ∧ persisters_kept st st'.
Proof.
  intros Hp [ps Hps]. unfold RaftTest.Kill. cbn [RaftTest.persister RaftTest.set_raft]. rewrite Hp.
  unfold ReadRaftState, ReadSnapshot, Save, with_persister. rewrite Hps. cbn [mbind outcome_bind clone alloc_array].
  cbn. rewrite Hps. cbn. rewrite Hps. cbn. eexists. split; [reflexivity|]. intros q Hq. simpl. apply lookup_insert_is_Some'. by right.
Qed.

Lemma rfsrv_killed s st s' st' : RaftTest.Kill s st = Done (s', st') → s' = RaftTest.set_raft None s.
Proof.
  unfold RaftTest.Kill. cbn [RaftTest.persister RaftTest.set_raft]. destruct (RaftTest.persister s); [|by intros [= <-]].
  intros ([d1 st1] & _ & Hrun)%bind_Done. apply bind_Done in Hrun as ([d2 st2] & _ & Hrun).
  by apply bind_Done in Hrun as (st3 & _ & [= <- _]).
Qed.

Lemma Svc_Kill_grows g cl i p sv svc st a : any_server g cl i p sv a → svc ∈ sv → is_Some (persisters st !! p) →
  ∃ st' a', Svc_Kill svc st a = Done (st', a') ∧ grows a a' ∧ persisters_kept st st'.
Proof.
  intros Hsv Hin Hp. assert (persisters_kept st st) as Hrefl by by intros q.
  destruct svc as [|k|k|k|r]; try (eexists st, _; split; [reflexivity|split; [|exact Hrefl]]; [apply app_grows_refl || (split; eauto; simpl)]).
  - intros j [x Hx]. destruct (alter_is_Some KVServer_Kill k _ j x Hx) as (y & -> & _). by eexists.
  - intros j x Hx. destruct (alter_is_Some Shardgrp_Kill k _ j x Hx) as (y & -> & [->| ->]); by eexists.
  - assert (∃ s, rfsrvs a !! k = Some s ∧ RaftTest.persister s = Some p) as (s & Hs & Hsp).
    { destruct Hsv as [->|Hr]; [by apply list_elem_of_singleton in Hin|]. inversion Hr as [k' r' H1 H2 E|k' r' kv' H1 H2 H3 E|k' r' t H1 H2 H3 E]; subst sv;
        apply elem_of_cons in Hin as [Hin|[=]%list_elem_of_singleton]; [discriminate|discriminate|injection Hin as ->]. by exists t. }
    cbn [Svc_Kill]. rewrite Hs. destruct (rfsrv_Kill s st p Hsp Hp) as (st' & -> & Hst). cbn [mbind outcome_bind].
    eexists st', _. split; [reflexivity|]. split; [|exact Hst]. split; eauto. simpl. intros j t Hj.
    destruct (decide (k = j)) as [->|Hne]; [|exists t; by rewrite list_lookup_insert_ne].
    eexists. rewrite list_lookup_insert_eq by (by eapply lookup_lt_Some). split; [done|]. rewrite Hs in Hj. by injection Hj as <-.
  - intros j x Hx. destruct (alter_is_Some (λ x, mkPeer (Kill (peer x)) (peers x)) r _ j x Hx) as (y & -> & [->| ->]);
      by eexists.
Qed.

Lemma with_raft_stops : stops Svc_Kill with_raft.
Proof.
  intros g cl i p sv svc st a Hm Hin Hp. destruct (Svc_Kill_grows g cl i p sv svc st a (or_intror Hm) Hin Hp) as (st' & a' & E & Hg & Hst).
  exists st', a'. split_and!; [done|by apply with_raft_grows|done].
Qed.

Lemma any_server_stops : stops Svc_Kill any_server.
Proof.
  intros g cl i p sv svc st a Hm Hin Hp. destruct (Svc_Kill_grows g cl i p sv svc st a Hm Hin Hp) as (st' & a' & E & Hg & Hst).
  exists st', a'. split_and!; [done|by apply any_server_grows|done].
Qed.

(** Killing does not change what the persisters have as snapshots. *)
Definition snapshot_at (st : Store) (p : nat) (bs : list byte) : Prop :=
  ∃ ps, persisters st !! p = Some ps ∧ slice_valid st (snapshot ps) ∧ deref st (snapshot ps) = bs.

Definition snapshots_kept (st st' : Store) : Prop := ∀ q bs, snapshot_at st q bs → snapshot_at st' q bs.

Lemma snapshot_extends st st' q bs : extends st st' → persisters st' = persisters st → snapshot_at st q bs → snapshot_at st' q bs.
Proof.
  intros Hx Hp (ps & Hps & Hv & <-). exists ps. rewrite Hp. split_and!; [done|by eapply slice_valid_extends|by apply deref_extends].
Qed.

Lemma clone_snapshots s st s' st' : clone s st = (s', st') → snapshots_kept st st' ∧ persisters st' = persisters st.
Proof.
  intros Hc. pose proof (clone_extends _ _ _ _ Hc). apply clone_spec in Hc as (a & _ & _ & _ & Hp).
  split; [|done]. intros q bs. by apply snapshot_extends.
Qed.

Lemma rfsrv_Kill_snapshots s st s' st' : RaftTest.Kill s st = Done (s', st') → snapshots_kept st st'.
Proof.
  unfold RaftTest.Kill. cbn [RaftTest.persister RaftTest.set_raft]. destruct (RaftTest.persister s) as [p|]; [|intros [= _ <-]; by intros q bs].
  unfold ReadRaftState, ReadSnapshot, Save, with_persister. destruct (persisters st !! p) as [ps|] eqn:Hps; [|done]. cbn [mbind outcome_bind].
  destruct (clone (raftstate ps) st) as [d1 st1] eqn:E1. cbn [mbind outcome_bind]. destruct (clone_snapshots _ _ _ _ E1) as [K1 P1].
  rewrite P1, Hps. cbn [mbind outcome_bind]. destruct (clone (snapshot ps) st1) as [d2 st2] eqn:E2. cbn [mbind outcome_bind].
  destruct (clone_snapshots _ _ _ _ E2) as [K2 P2]. rewrite P2, P1, Hps. cbn [mbind outcome_bind].
  destruct (clone d1 st2) as [d3 st3] eqn:E3. destruct (clone d2 st3) as [d4 st4] eqn:E4.
  destruct (clone_snapshots _ _ _ _ E3) as [K3 P3], (clone_snapshots _ _ _ _ E4) as [K4 P4].
  intros [= _ <-]. intros q bs Hq. destruct (decide (q = p)) as [->|Hne].
  - destruct (K1 _ _ Hq) as (ps1 & Hps1 & Hv1 & <-). rewrite P1, Hps in Hps1. injection Hps1 as <-.
    apply clone_spec in E2 as (a & -> & Ha & Ha1 & _). apply clone_spec in E4 as (b & -> & Hb & Hb1 & _).
    pose proof (clone_extends _ _ _ _ E3) as X3.
    eexists. simpl. rewrite lookup_insert_eq. split; [done|]. simpl. rewrite Hb1. split; [by eexists|]. simpl.
    by rewrite (lookup_weaken _ _ _ _ Ha1 X3).
  - destruct (K4 _ _ (K3 _ _ (K2 _ _ (K1 _ _ Hq)))) as (ps' & Hps' & H). exists ps'. simpl. by rewrite lookup_insert_ne.
Qed.

Lemma Svc_Kill_snapshots svc st a st' a' : Svc_Kill svc st a = Done (st', a') → snapshots_kept st st'.
Proof.
  destruct svc as [|k|k|k|r]; cbn [Svc_Kill]; try (intros [= <- _]; by intros q bs).
  destruct (rfsrvs a !! k) as [s|]; [|done]. intros ([s' st1] & Hk & [= <- _])%bind_Done. by eapply rfsrv_Kill_snapshots.
Qed.

(** ** Calls between peers *)
Section Votes.
Context {Typ : Type} (encode : Val → list Z * bool) (decode : Typ → list Z → Val * bool) (typeOf : Val → Typ).

(** labgob reads back what it wrote. *)
Context (codec : ∀ v, (encode v).2 = true ∧ decode (typeOf v) (encode v).1 = (v, true)).

Lemma raft_service r : methods (service_of (RaftPeer r)) !! "RequestVote"%string = Some (handler_method (Raft_RequestVote r)) ∧
  methods (service_of (RaftPeer r)) !! "AppendEntries"%string = Some (handler_method (Raft_AppendEntries r)).
Proof. split; reflexivity. Qed.

(** What is known of a server of a running group. *)
Lemma running_server g n sg (T : @Tester Typ Val App) i s :
  running service_of with_raft g n sg T → srvs sg !! i = Some s →
  endNames s = Some (clntEnds s) ∧
  ∃ q ls kv r, server_at (any_string (ServerName g (Z.of_nat i))) (tnet T) = Some q ∧ heap (world T) !! q = Some ls ∧
    svcs s = [Some kv; Some (RaftPeer r)] ∧ services ls !! "Raft"%string = Some (service_of (RaftPeer r)) ∧
    peer_at r (clntEnds s) (Z.of_nat i) (app (world T)).
Proof.
  intros Hr Hs. destruct (run_up _ _ _ _ _ _ Hr _ _ Hs) as [_ Hcl (q & p & sv & Hq & _ & _ & Hsv & Hmade & Hheap)].
  split; [exact Hcl|].
  destruct Hmade as [k r _ Hp|k r kv _ _ Hp|k r t _ _ Hp]; exists q; eexists; eexists; exists r;
    (split_and!; [exact Hq|exact Hheap|exact Hsv|reflexivity|exact Hp]).
Qed.

(** The end that peer [i] uses to reach [j]. *)
Lemma peer_end n g sg (T : @Tester Typ Val App) i j s :
  running service_of with_raft g n sg T → srvs sg !! i = Some s → (i < n)%nat → (j < n)%nat →
  ∃ e, clntEnds s !! j = Some e ∧ link sg (Z.of_nat i) (Z.of_nat j) = any_string e.
Proof.
  intros Hr Hs Hi Hj. destruct (running_server g n sg T i s Hr Hs) as [Hcl _].
  destruct (ok_names n sg (run_ok _ _ _ _ _ _ Hr) i s Hs) as (names & Hn & Hl). rewrite Hcl in Hn. injection Hn as <-.
  destruct (lookup_lt_is_Some_2 (clntEnds s) j) as [e He]; [lia|]. exists e. split; [done|].
  unfold link. rewrite !Nat2Z.id, Hs. cbn [mbind option_bind]. rewrite Hcl. cbn [mbind option_bind]. by rewrite He.
Qed.

(** In every group that was started with the program's own servers, any peer can call
    any other through the network as if it were local: on a reliable network the
    call [peers[j].Call("Raft.RequestVote", args, reply)] of peer [i] runs the handler of peer
    [j], on its state, once, changes nothing else, and returns its reply. *)
Theorem group_votes (mks : start_fun) IsUpper maxr rand1 rand2 g n gs (T : @Tester Typ Val App) :
  (∀ b, 65 <= b <= 90 → IsUpper b = true) →
  mks = kvraft_StartKVServer IsUpper false maxr ∨ mks = StartServerShardGrp IsUpper false maxr →
  fresh_draws n rand1 rand2 (tnet T) → cluster service_of with_raft gs T → gs !! g = None →
  ∃ sg T', MakeGroupStart mks service_of rand1 rand2 g n gs T = Done (<[g := sg]> gs, T') ∧
    cluster service_of with_raft (<[g := sg]> gs) T' ∧
    (reliable (tnet T') = true → longReordering (tnet T') = false → serving (tnet T') = true →
     ∀ i j args r1 r2 r3 r4 r5, (i < n)%nat → (j < n)%nat →
     let a := app (world T') in
     ∃ pi pj x y e, rafts a !! pi = Some x ∧ me (peer x) = Z.of_nat i ∧ peers x !! j = Some e ∧
       rafts a !! pj = Some y ∧ me (peer y) = Z.of_nat j ∧
       let '(rf', reply) := RequestVote (now a) (peer y) args empty_vote_reply in
       let c := length (calls (world T')) in
       ∃ w' call r,
         run encode decode typeOf
           [Call_ (any_string e) "Raft.RequestVote" (VoteArgs args); Receive c; Begin c r1; Dispatch c; Wait c false;
            End c r2 r3 r4 r5] (world T') = Done w' ∧
         app w' = set_rafts (<[pj := mkPeer rf' (peers y)]> (rafts a)) a ∧
         calls w' !! c = Some call ∧ at_phase call = Answered r ∧
         Call_result decode (typeOf (VoteReply reply)) r = Done (Some (VoteReply reply))).
Proof.
  intros Hcap Hmks Hfresh Hcl Hg.
  assert (starts mks with_raft) as Hst.
  { apply starts_with_raft. destruct Hmks as [-> | ->]; [by apply kvraft_starts|by apply shardgrp_starts]. }
  destruct (MakeGroupStart_ok mks service_of with_raft rand1 rand2 g n gs T (Hst n) Hfresh) as (sg & T' & -> & Hr & K & Hnew).
  exists sg, T'. split_and!; [done|by eapply cluster_insert; [..|intros e He; by apply Hnew]|].
  intros Hrel Hlr Hsv i j args r1 r2 r3 r4 r5 Hi Hj. cbn zeta. pose proof (run_ok _ _ _ _ _ _ Hr) as Hok.
  destruct (lookup_lt_is_Some_2 (srvs sg) i) as [si Hsi]; [by rewrite (ok_srvs n sg Hok)|].
  destruct (lookup_lt_is_Some_2 (srvs sg) j) as [sj Hsj]; [by rewrite (ok_srvs n sg Hok)|].
  destruct (running_server g n sg T' i si Hr Hsi) as (_ & qi & lsi & kvi & pi & _ & _ & _ & _ & x & Hx & _ & Hmx & Hpx).
  destruct (running_server g n sg T' j sj Hr Hsj) as (_ & q & ls & kvj & pj & Hq & Hls & _ & Hsvc & y & Hy & _ & Hmy & _).
  destruct (peer_end n g sg T' i j si Hr Hsi Hi Hj) as (e & He & Hlink).
  exists pi, pj, x, y, e. split_and!; [done|done|by rewrite Hpx|done|done|].
  destruct (RequestVote (now (app (world T'))) (peer y) args empty_vote_reply) as [rf' reply] eqn:Hrv.
  destruct (codec (VoteArgs args)) as [Hea Hda], (codec (VoteReply reply)) as [_ Hdr].
  assert (valid n (Z.of_nat i) ∧ valid n (Z.of_nat j)) as [Hvi Hvj] by (unfold valid; lia).
  destruct (running_link _ _ g n sg T' (Z.of_nat i) (Z.of_nat j) Hr Hvi Hvj) as [_ Hcon]. rewrite Hlink in Hcon.
  pose proof (run_links _ _ _ _ _ _ Hr _ _ Hvi Hvj) as Hen. rewrite Hlink in Hen.
  destruct (Call_delivers encode decode typeOf (world T') (any_string e)
    (any_string (ServerName g (Z.of_nat j))) q ls "Raft" (service_of (RaftPeer pj)) "RequestVote"
    (handler_method (Raft_RequestVote pj)) (VoteArgs args) (VoteReply reply)
    (set_rafts (<[pj := mkPeer rf' (peers y)]> (rafts (app (world T')))) (app (world T'))) (typeOf (VoteReply reply))
    r1 r2 r3 r4 r5) as (w' & call & r & Hrun & Happ & Hcall & Hph & Hres & _); try done.
  - vm_compute. intros H. repeat (apply elem_of_cons in H as [H|H]; [discriminate H|]). by apply elem_of_nil in H.
  - cbn [Func handler_method Raft_RequestVote]. unfold with_peer. rewrite Hy. cbn [mbind outcome_bind]. by rewrite Hrv.
  - exists w', call, r. split_and!; done.
Qed.

(** From [a] to [a'] the services [kv] and [r] of one server are killed, and no other object changes. *)
Definition services_killed (kv : Svc) (r : nat) (a a' : App) : Prop :=
  (∃ x x', rafts a !! r = Some x ∧ rafts a' !! r = Some x' ∧ killed (peer x') = true ∧
    currentTerm (peer x') = currentTerm (peer x) ∧ votedFor (peer x') = votedFor (peer x)) ∧
  (∀ r', r' ≠ r → rafts a' !! r' = rafts a !! r') ∧
  match kv with
  | Kvraft k => (∃ x, kvrafts a' !! k = Some x ∧ KVServer_killed x = true) ∧ shardgrps a' = shardgrps a ∧
      rfsrvs a' = rfsrvs a ∧ ∀ k', k' ≠ k → kvrafts a' !! k' = kvrafts a !! k'
  | Shardgrp k => (∃ x, shardgrps a' !! k = Some x ∧ KVServer_killed x = true) ∧ kvrafts a' = kvrafts a ∧
      rfsrvs a' = rfsrvs a ∧ ∀ k', k' ≠ k → shardgrps a' !! k' = shardgrps a !! k'
  | Rfsrv k => (∃ x, rfsrvs a' !! k = Some x ∧ RaftTest.raft x = None) ∧ kvrafts a' = kvrafts a ∧
      shardgrps a' = shardgrps a ∧ ∀ k', k' ≠ k → rfsrvs a' !! k' = rfsrvs a !! k'
  | _ => False
  end.

Lemma kill_services g cl i p sv (a : App) st :
  with_raft g cl i p sv a → ∃ kv r, sv = [kv; RaftPeer r] ∧
    ∀ st1 st' a1 a', Svc_Kill kv st a = Done (st1, a1) → Svc_Kill (RaftPeer r) st1 a1 = Done (st', a') → services_killed kv r a a'.
Proof.
  intros Hmade. destruct Hmade as [k r [kv Hk] (x & Hx & _)|k r kv Hk _ (x & Hx & _)|k r t Hk _ (x & Hx & _)];
    eexists _, r; (split; [reflexivity|]); intros st1 st' a1 a' H1 H2; cbn [Svc_Kill] in H1, H2; apply Done_inj in H2 as [= _ <-].
  3: { rewrite Hk in H1. destruct (RaftTest.Kill t st) as [[t' st2]| | |] eqn:Ht; try discriminate.
    apply rfsrv_killed in Ht as ->. cbn [mbind outcome_bind] in H1. apply Done_inj in H1 as [= _ <-]. unfold services_killed. cbn. split_and!; try done.
    - exists x. eexists. split_and!; [exact Hx|by rewrite list_lookup_alter_eq, Hx|done..].
    - intros r' Hne. by apply list_lookup_alter_ne.
    - eexists. rewrite list_lookup_insert_eq by (by eapply lookup_lt_Some). done.
    - intros k' Hne. by apply list_lookup_insert_ne. }
  all: apply Done_inj in H1 as [= _ <-]; unfold services_killed; cbn; split_and!; try done.
  1, 5: exists x; eexists; split_and!; [exact Hx|by rewrite list_lookup_alter_eq, Hx|done..].
  1, 4: intros r' Hne; by apply list_lookup_alter_ne.
  1, 3: exists (KVServer_Kill kv); by rewrite list_lookup_alter_eq, Hk.
  1, 2: intros k' Hne; by apply list_lookup_alter_ne.
Qed.

(** (C27) A server that is shut down leaves nothing running: it is not registered any
    more, its key/value server and its peer are told to stop, which the ticker
    looks at, and no other object changes. A server of the Raft tests lets go of its peer. *)
Theorem shutdown_kills g n sg (T : @Tester Typ Val App) i :
  running service_of with_raft g n sg T → (i < n)%nat →
  ∃ kv r sg' T', svcs <$> srvs sg !! i = Some [Some kv; Some (RaftPeer r)] ∧
    ShutdownServer Svc_Kill (Z.of_nat i) sg T = Done (sg', T') ∧
    server_at (any_string (ServerName g (Z.of_nat i))) (tnet T') = None ∧
    services_killed kv r (app (world T)) (app (world T')).
Proof.
  intros Hr Hi. pose proof (run_ok _ _ _ _ _ _ Hr) as Hok.
  destruct (lookup_lt_is_Some_2 (srvs sg) i) as [s Hs]; [by rewrite (ok_srvs n sg Hok)|].
  destruct (run_up _ _ _ _ _ _ Hr _ _ Hs) as [_ _ (q & p & sv & _ & Hp & Hpp & Hsv & Hmade & _)].
  assert (alive with_raft T s p) as Hal by (split_and!; [done|done|by exists g, (clntEnds s), (Z.of_nat i), sv]).
  destruct (ShutdownServer_ok Svc_Kill with_raft n i sg T s p with_raft_stops Hok Hi Hs Hal)
    as (s' & T' & Hrun & _ & Hnone & (_ & p' & st & _ & _ & Hkill) & _).
  rewrite (run_gid _ _ _ _ _ _ Hr) in Hnone.
  destruct (kill_services _ _ _ _ _ _ st Hmade) as (kv & r & -> & Hall).
  eexists kv, r, _, T'. split_and!; [by rewrite Hs; cbn; rewrite Hsv|exact Hrun|exact Hnone|].
  rewrite Hsv in Hkill. apply bind_Done in Hkill as ([st1 a1] & H1 & Hkill). apply bind_Done in Hkill as ([st2 a2] & H2 & Hend).
  apply Done_inj in Hend as [= -> ->]. exact (Hall _ _ _ _ H1 H2).
Qed.
End Votes.

(** ** Witnesses: values in binary, ASCII capitals *)
#[local] Instance LogEntry_eq_dec : EqDecision LogEntry.
Proof. solve_decision. Defined.
#[local] Instance LogEntry_countable : Countable LogEntry.
Proof. refine (inj_countable' (λ e, (Command e, EntryTerm e)) (λ x, mkLogEntry x.1 x.2) _); by intros []. Defined.

Definition Val_sum : Type :=
  (string + string * Z * string + string * string * Z + string) +
  (Z * Z + list Z * Z * string + Z * list Z * Z + string + Z * Z + string) +
  (Z * Z * Z * Z + Z * bool + Z * Z * Z * Z * list (option LogEntry) * Z + Z * bool).

Definition to_sum (v : Val) : Val_sum :=
  match v with
  | GetArgs k => inl (inl (inl (inl (inl k))))
  | GetReply v n e => inl (inl (inl (inl (inr (v, n, e)))))
  | PutArgs k v n => inl (inl (inl (inr (k, v, n))))
  | PutReply e => inl (inl (inr e))
  | FreezeShardArgs s n => inl (inr (inl (inl (inl (inl (inl (s, n)))))))
  | FreezeShardReply s n e => inl (inr (inl (inl (inl (inl (inr (s, n, e)))))))
  | InstallShardArgs s l n => inl (inr (inl (inl (inl (inr (s, l, n))))))
  | InstallShardReply e => inl (inr (inl (inl (inr e))))
  | DeleteShardArgs s n => inl (inr (inl (inr (s, n))))
  | DeleteShardReply e => inl (inr (inr e))
  | VoteArgs a => inr (inl (inl (inl (rv_Term a, rv_CandidateID a, rv_LastLogIndex a, rv_LastLogTerm a))))
  | VoteReply r => inr (inl (inl (inr (rvr_Term r, rvr_VoteGranted r))))
  | EntriesArgs a => inr (inl (inr (ae_Term a, ae_LeaderId a, ae_PrevLogIndex a, ae_PrevLogTerm a, ae_Entries a, ae_LeaderCommit a)))
  | EntriesReply r => inr (inr (aer_Term r, aer_Success r))
  end.

Definition of_sum (x : Val_sum) : Val :=
  match x with
  | inl (inl (inl (inl (inl k)))) => GetArgs k
  | inl (inl (inl (inl (inr (v, n, e))))) => GetReply v n e
  | inl (inl (inl (inr (k, v, n)))) => PutArgs k v n
  | inl (inl (inr e)) => PutReply e
  | inl (inr (inl (inl (inl (inl (inl (s, n))))))) => FreezeShardArgs s n
  | inl (inr (inl (inl (inl (inl (inr (s, n, e))))))) => FreezeShardReply s n e
  | inl (inr (inl (inl (inl (inr (s, l, n)))))) => InstallShardArgs s l n
  | inl (inr (inl (inl (inr e)))) => InstallShardReply e
  | inl (inr (inl (inr (s, n)))) => DeleteShardArgs s n
  | inl (inr (inr e)) => DeleteShardReply e
  | inr (inl (inl (inl (t, c, i, u)))) => VoteArgs (mkRequestVoteArgs t c i u)
  | inr (inl (inl (inr (t, b)))) => VoteReply (mkRequestVoteReply t b)
  | inr (inl (inr (t, l, i, u, es, c))) => EntriesArgs (mkAppendEntriesArgs t l i u es c)
  | inr (inr (t, b)) => EntriesReply (mkAppendEntriesReply t b)
  end.

Definition binary_encode (v : Val) : list Z * bool := ([Zpos (encode (to_sum v))], true).
Definition binary_decode (t : unit) (bs : list Z) : Val * bool :=
  match bs with
  | [Zpos p] => match decode p with Some x => (of_sum x, true) | None => (PutReply "", false) end
  | _ => (PutReply "", false)
  end.

Lemma binary_codec (v : Val) : (binary_encode v).2 = true ∧ binary_decode () (binary_encode v).1 = (v, true).
Proof.
  split; [done|]. cbn [binary_encode fst binary_decode]. rewrite decode_encode. f_equal.
  by destruct v as [| | | | | | | | | |[]|[]|[]|[]].
Qed.

Definition ascii_capital (b : Z) : bool := (65 <=? b) && (b <=? 90).

Lemma ascii_capitals b : 65 <= b <= 90 → ascii_capital b = true.
Proof. intros H. unfold ascii_capital. lia. Qed.

Definition boot_app : App := mkApp (mkLab 0 ∅ []) [] [] [] [] ∅ 0.
Definition app_tester : @Tester unit Val App := mkTester (mkWorld MakeNetwork [] boot_app [] []) (mkStore ∅ ∅).

Lemma group_votes_witness :
  ∃ (T' : @Tester unit Val App) e w' call r,
    run binary_encode binary_decode (λ _, ()) [Call_ (any_string e) "Raft.RequestVote" (VoteArgs (mkRequestVoteArgs 1 0 0 0));
      Receive 0; Begin 0 0; Dispatch 0; Wait 0 false; End 0 0 0 0 0] (world T') = Done w' ∧
    calls w' !! 0%nat = Some call ∧ at_phase call = Answered r ∧
    Call_result binary_decode () r = Done (Some (VoteReply (mkRequestVoteReply 1 true))).
Proof.
  destruct (group_votes binary_encode binary_decode (λ _, ()) binary_codec (kvraft_StartKVServer ascii_capital false (-1))
    ascii_capital (-1) (new_names 3 MakeNetwork 0) (new_names 3 MakeNetwork 1) 0 3 ∅ app_tester ascii_capitals
    (or_introl eq_refl) (new_names_fresh 3 MakeNetwork) (cluster_empty service_of with_raft app_tester) (lookup_empty 0))
    as (sg & T' & Hrun & _ & H).
  assert (∃ T0, T' = T0 ∧ reliable (tnet T0) = true ∧ longReordering (tnet T0) = false ∧ serving (tnet T0) = true ∧
    calls (world T0) = [] ∧ peer <$> rafts (app (world T0)) = [Make 3 0 []; Make 3 1 []; Make 3 2 []]) as (T0 & <- & Hre & Hlo & Hse & Hca & Hra).
  { exists T'. split; [done|].
    assert (match MakeGroupStart (kvraft_StartKVServer ascii_capital false (-1)) service_of (new_names 3 MakeNetwork 0)
      (new_names 3 MakeNetwork 1) 0 3 ∅ app_tester with
      | Done (_, T) => reliable (tnet T) = true ∧ longReordering (tnet T) = false ∧ serving (tnet T) = true ∧
          calls (world T) = [] ∧ peer <$> rafts (app (world T)) = [Make 3 0 []; Make 3 1 []; Make 3 2 []]
      | _ => True end) as Hf by (vm_compute; split_and!; reflexivity).
    by rewrite Hrun in Hf. }
  destruct (H Hre Hlo Hse 0%nat 1%nat (mkRequestVoteArgs 1 0 0 0) 0 0 0 0 0) as (pi & pj & x & y & e & _ & _ & _ & Hy & Hme & Hrest);
    [lia|lia|].
  assert (peer y = Make 3 1 []) as Epeer.
  { assert ((peer <$> rafts (app (world T'))) !! pj = Some (peer y)) as Hy' by (by rewrite list_lookup_fmap, Hy).
    rewrite Hra in Hy'. destruct pj as [|[|[|pj]]]; [| | |discriminate Hy'];
      apply (inj Some) in Hy'; rewrite <- Hy' in Hme |- *; done. }
  rewrite Epeer, Hca in Hrest. cbn zeta in Hrest. destruct Hrest as (w' & call & r & Hr & _ & Hc & Hp & Hres).
  exists T', e, w', call, r. split_and!; [exact Hr|exact Hc|exact Hp|exact Hres].
Defined.

Lemma shutdown_kills_witness :
  ∃ sg (T : @Tester unit Val App) sg' T', ShutdownServer Svc_Kill 1 sg T = Done (sg', T') ∧
    server_at (any_string "server-0-1") (tnet T') = None ∧ ∃ r x, rafts (app (world T')) !! r = Some x ∧ killed (peer x) = true.
Proof.
  destruct (MakeGroupStart_ok (kvraft_StartKVServer ascii_capital false (-1)) service_of with_raft (new_names 3 MakeNetwork 0)
    (new_names 3 MakeNetwork 1) 0 3 ∅ app_tester (starts_with_raft _ (kvraft_starts ascii_capital ascii_capitals (-1)) 3%nat)
    (new_names_fresh 3 MakeNetwork)) as (sg & T & _ & Hr & _).
  destruct (shutdown_kills 0 3 sg T 1 Hr) as (kv & r & sg' & T' & _ & Hrun & Hnone & (x & x' & _ & Hx & Hk & _) & _); [lia|].
  exists sg, T, sg', T'. split_and!; [exact Hrun|exact Hnone|]. by exists r, x'.
Defined.
