(* ===== verification/Config.v ===== *)
(** * Config: the configuration of a test (src/src/tester1/config.go)

    A [Config] holds the clients and the groups of servers of a test, the
    network they share, and the statistics of the part of the test that runs.
    It is made from the parts of [Group] and [Clnts]. Times are in nanoseconds;
    what the clock shows and what the random sources draw are arguments, and so
    is the order in which a map is visited. [failed] is what the testing package
    remembers of a test. *)

From S2P Require Import Prelude Persister Labrpc Group Clnts Annotation.

Local Open Scope Z_scope.

Definition GRP0 : Z := 0.

(** [120 * time.Second] *)
Definition test_limit : Z := 120 * 10 ^ 9.

Section Test.
Context {Typ Val A Svc : Type}.
Variable mks : list string → Z → Z → nat → Store → A → outcome (list (option Svc) * Store * A).
Variable Kill : Svc → Store → A → outcome (Store * A).
Variable service_of : Svc → @Service Val A.

Abbreviation Tester := (@Tester Typ Val A).
Abbreviation GroupMap := (gmap Z (@ServerGrp Svc)).

(** The network of the clients is the one of the tester. *)
Record Config := mkConfig {
  clnts : list Clnt * option (gset nat);
  groups : GroupMap;
  tester : Tester;
  failed : bool;
  start : Z;
  t0 : Z;
  rpcs0 : Z;
  ops : Z
}.

(** The line that [End] prints: time, peers, RPCs and operations. *)
Record Stats := mkStats { s_time : Z; s_npeers : Z; s_nrpc : Z; s_ops : Z }.

Definition on_net_of (f : Network → Network) (cfg : Config) : Config :=
  mkConfig (clnts cfg) (groups cfg) (with_net (f (tnet (tester cfg))) (tester cfg)) (failed cfg) (start cfg)
    (t0 cfg) (rpcs0 cfg) (ops cfg).

Definition with_groups (r : GroupMap * Tester) (cfg : Config) : Config :=
  mkConfig (clnts cfg) r.1 r.2 (failed cfg) (start cfg) (t0 cfg) (rpcs0 cfg) (ops cfg).

Definition clnts_of (cfg : Config) : Clnts.Clnts := mkClnts (clnts cfg).1 (clnts cfg).2 (tnet (tester cfg)).

Definition with_clnts (cs : Clnts.Clnts) (cfg : Config) : Config :=
  mkConfig (clients cs, clerks cs) (groups cfg) (with_net (cnet cs) (tester cfg)) (failed cfg) (start cfg)
    (t0 cfg) (rpcs0 cfg) (ops cfg).

(** [T] is a tester with the network that was just made. *)
Definition MakeConfig rand1 rand2 (n : nat) (rel : bool) (now : Z) (T : Tester) : outcome Config :=
  '(gs, T) ← MakeGroupStart mks service_of rand1 rand2 GRP0 n ∅ T;
  let cs := makeClnts (tnet T) in
  Done (on_net_of (Reliable rel) (mkConfig (clients cs, clerks cs) gs T false now 0 0 0)).

Definition SetReliable (rel : bool) (cfg : Config) : Config := on_net_of (Reliable rel) cfg.
Definition Config_IsReliable (cfg : Config) : bool := IsReliable (tnet (tester cfg)).
Definition SetLongReordering (longrel : bool) (cfg : Config) : Config := on_net_of (LongReordering longrel) cfg.
Definition SetLongDelays (longdel : bool) (cfg : Config) : Config := on_net_of (LongDelays longdel) cfg.

Definition Config_Group (gid : Z) (cfg : Config) : outcome ServerGrp := lookupGroup gid (groups cfg).

Definition Config_MakeGroupStart rand1 rand2 (gid : Z) (nsrv : nat) (cfg : Config) : outcome Config :=
  r ← MakeGroupStart mks service_of rand1 rand2 gid nsrv (groups cfg) (tester cfg); Done (with_groups r cfg).

Definition Config_ExitGroup (gid : Z) (cfg : Config) : outcome Config :=
  r ← ExitGroup Kill gid (groups cfg) (tester cfg); Done (with_groups r cfg).

Definition RpcTotal (cfg : Config) : Z := GetTotalCount (tnet (tester cfg)).
Definition BytesTotal (cfg : Config) : Z := GetTotalBytes (tnet (tester cfg)).

(** [Begin], with the line it prints. *)
Definition Begin (description : string) (now : Z) (cfg : Config) : string * Config :=
  let rel := if Config_IsReliable cfg then "reliable"%string else "unreliable"%string in
  (description +:+ " (" +:+ rel +:+ " network)...",
   mkConfig (clnts cfg) (groups cfg) (tester cfg) (failed cfg) (start cfg) now (RpcTotal cfg) 0).

Definition Op (cfg : Config) : Config :=
  mkConfig (clnts cfg) (groups cfg) (tester cfg) (failed cfg) (start cfg) (t0 cfg) (rpcs0 cfg) (int32 (ops cfg + 1)).

Definition CheckTimeout (now : Z) (cfg : Config) : outcome () :=
  if negb (failed cfg) && (test_limit <? int64 (now - start cfg))
  then Fatal "test took longer than 120 seconds" else Done ().

(** [now1] is when the time is checked, [now2] when the statistics are taken. *)
Definition Config_End (now1 now2 : Z) (cfg : Config) : outcome (option Stats) :=
  CheckTimeout now1 cfg ;;
  if negb (failed cfg) then
    g ← Config_Group GRP0 cfg;
    Done (Some (mkStats (int64 (now2 - t0 cfg)) (N g) (int64 (RpcTotal cfg - rpcs0 cfg)) (ops cfg)))
  else Done None.

(** What is drawn, if anything, is returned. *)
Definition Config_Cleanup (clerk_order : list nat) (grp_order : list Z) (VIS_ENABLE : string)
    (an_order : list (string * Continuous)) (t now : Z) (cfg : Config) (an : Annotation) :
    outcome (option (list Ann) * Config * Annotation) :=
  cs ← Clnts.cleanup clerk_order (clnts_of cfg);
  let cfg := with_clnts cs cfg in
  '(st, a) ← Groups_cleanup Kill grp_order (groups cfg) (store (tester cfg), app (world (tester cfg)));
  let cfg := with_groups (groups cfg, with_app a (with_store st (tester cfg))) cfg in
  rn ← Labrpc.Cleanup (tnet (tester cfg));
  let cfg := on_net_of (λ _, rn) cfg in
  let '(drawn, an) :=
    if failed cfg then Annotation.cleanup VIS_ENABLE true "test failed" an_order t an
    else Annotation.cleanup VIS_ENABLE false "test passed" an_order t an in
  CheckTimeout now cfg ;; Done (drawn, cfg, an).
End Test.

(** ** Random strings: base64.URLEncoding *)
Definition url_alphabet : list Z :=
  bytes_of "ABCDEFGHIJKLMNOPQRSTUVWXYZabcdefghijklmnopqrstuvwxyz0123456789-_".

Definition url_char (v : Z) : Z := default 0 (url_alphabet !! Z.to_nat v).
Definition padding : Z := 61.

(** Three bytes to four characters; what is left is padded. *)
Fixpoint EncodeToString (b : list Z) : list Z :=
  match b with
  | [] => []
  | [x] =>
      [url_char (Z.shiftr x 2); url_char (Z.land (Z.shiftl x 4) 63); padding; padding]
  | [x; y] =>
      let v := Z.lor (Z.shiftl x 8) y in
      [url_char (Z.shiftr v 10); url_char (Z.land (Z.shiftr v 4) 63); url_char (Z.land (Z.shiftl v 2) 63); padding]
  | x :: y :: z :: b =>
      let v := Z.lor (Z.lor (Z.shiftl x 16) (Z.shiftl y 8)) z in
      [url_char (Z.shiftr v 18); url_char (Z.land (Z.shiftr v 12) 63); url_char (Z.land (Z.shiftr v 6) 63);
       url_char (Z.land v 63)] ++ EncodeToString b
  end.

(** [b] is what crypto/rand reads, twice as many bytes as are asked for. *)
Definition Randstring (n : nat) (b : list Z) : outcome (list Z) :=
  let s := EncodeToString b in
  if decide (n ≤ length s)%nat then Done (take n s) else Panic "slice bounds out of range".

(** ** The order of the servers' handles

    [draws i] is the [i]-th result of [rand.Intn(i + 1)]. *)
Definition swap {H} (sa : list H) (i j : Z) : outcome (list H) :=
  x ← slice_get sa j;
  y ← slice_get sa i;
  sa ← slice_set sa i x;
  slice_set sa j y.

Definition random_handles {H} (draws : nat → Z) (kvh : list H) : outcome (list H) :=
  for_each (seq 0 (length kvh)) (λ i sa, swap sa (Z.of_nat i) (draws i)) kvh.
