(* ===== verification/ConfigProps.v ===== *)
(** * ConfigProps: the random choices of the test configuration

    The shuffle of the servers' handles gives permutations, and every one of
    them; the random strings have the length that is asked for and are made of
    characters a URL can hold. *)

From S2P Require Import Prelude Group GroupProps Clnts Config.

Local Open Scope Z_scope.

(** ** The clients of a configuration *)
Lemma clnts_of_with {Typ Val A Svc} cs (cfg : @Config Typ Val A Svc) : clnts_of (with_clnts cs cfg) = cs.
Proof. by destruct cs. Qed.

Lemma with_same_net {Typ Val A} (T : @Tester Typ Val A) : with_net (tnet T) T = T.
Proof. by destruct T as [[n h a cs e] st]. Qed.

(** ** The shuffle *)
Section Shuffle.
Context {H : Type}.
Implicit Types (sa kvh : list H) (i j k : nat).

Definition transpose i j k : nat := if decide (k = i) then j else if decide (k = j) then i else k.

Lemma transpose_involutive i j k : transpose i j (transpose i j k) = k.
Proof. unfold transpose. repeat case_decide; congruence. Qed.

Lemma swap_spec sa i j :
  (i < length sa)%nat → (j < length sa)%nat →
  ∃ sa', swap sa (Z.of_nat i) (Z.of_nat j) = Done sa' ∧ length sa' = length sa ∧
    ∀ k, sa' !! k = sa !! transpose i j k.
Proof.
  intros Hi Hj. unfold swap.
  destruct (lookup_lt_is_Some_2 sa i Hi) as [y Hy], (lookup_lt_is_Some_2 sa j Hj) as [x Hx].
  rewrite (slice_get_Some _ _ _ Hx), (slice_get_Some _ _ _ Hy). cbn [mbind outcome_bind].
  rewrite slice_set_lt, Nat2Z.id by lia. cbn [mbind outcome_bind].
  rewrite slice_set_lt, Nat2Z.id by (rewrite length_insert; lia).
  eexists. split; [done|]. rewrite !length_insert. split; [done|]. intros k. unfold transpose.
  destruct (decide (k = j)) as [->|Hkj].
  - rewrite list_lookup_insert_eq by (rewrite length_insert; lia). by case_decide as E; [rewrite E in *|].
  - rewrite list_lookup_insert_ne by done. case_decide as E; [subst k; by rewrite list_lookup_insert_eq|].
    by rewrite list_lookup_insert_ne by done.
Qed.

Lemma slice_swap_perm sa sa' i j :
  (∀ k, sa' !! k = sa !! transpose i j k) → length sa' = length sa → sa' ≡ₚ sa.
Proof.
  intros Hk Hl. apply Permutation_inj. split; [done|]. exists (transpose i j). split; [|done].
  intros a b E. apply (f_equal (transpose i j)) in E. by rewrite !transpose_involutive in E.
Qed.

(** What [rand.Intn(i + 1)] can return, for [i] below [n]. *)
Definition drawn_below (n : nat) (draws : nat → Z) : Prop := ∀ i, (i < n)%nat → 0 <= draws i < Z.of_nat i + 1.

Definition shuffle_upto (n : nat) (draws : nat → Z) kvh : outcome (list H) :=
  for_each (seq 0 n) (λ i sa, swap sa (Z.of_nat i) (draws i)) kvh.

Lemma shuffle_S n draws kvh :
  shuffle_upto (S n) draws kvh = (sa ← shuffle_upto n draws kvh; swap sa (Z.of_nat n) (draws n)).
Proof.
  unfold shuffle_upto. rewrite seq_S, for_each_app. simpl. destruct (for_each _ _ kvh) as [sa| | |]; [|done..].
  simpl. by destruct (swap _ _ _).
Qed.

(** The first [n] iterations permute the first [n] handles. *)
Lemma shuffle_perm n draws kvh :
  (n <= length kvh)%nat → drawn_below n draws →
  ∃ sa, shuffle_upto n draws kvh = Done sa ∧ sa ≡ₚ kvh ∧ ∀ k, (n <= k)%nat → sa !! k = kvh !! k.
Proof.
  induction n as [|n IH]; intros Hn Hd; [by exists kvh|].
  destruct IH as (sa & Hrun & Hp & Hk); [lia|intros i Hi; apply Hd; lia|]. rewrite shuffle_S, Hrun.
  pose proof (Permutation_length Hp) as Hl. pose proof (Hd n ltac:(lia)) as Hj. cbn [mbind outcome_bind].
  rewrite <- (Z2Nat.id (draws n)) by lia.
  destruct (swap_spec sa n (Z.to_nat (draws n))) as (sa' & -> & Hl' & Hsw); [lia|lia|].
  exists sa'. split; [done|]. split; [by rewrite (slice_swap_perm _ _ _ _ Hsw Hl')|].
  intros k Hnk. rewrite Hsw. unfold transpose. rewrite !decide_False by lia. apply Hk. lia.
Qed.

(** Any order of the first [n] handles is drawn by someone. *)
Lemma shuffle_onto n kvh : ∀ l,
  (n <= length kvh)%nat → l ≡ₚ kvh → (∀ k, (n <= k)%nat → l !! k = kvh !! k) →
  ∃ draws, drawn_below n draws ∧ shuffle_upto n draws kvh = Done l.
Proof.
  induction n as [|n IH]; intros l Hn Hp Hk.
  { exists (λ _, 0). split; [intros i Hi; lia|]. unfold shuffle_upto. simpl. f_equal. apply list_eq.
    intros k. symmetry. apply Hk. lia. }
  pose proof (Permutation_length Hp) as Hl.
  assert (∃ j, (j <= n)%nat ∧ l !! j = kvh !! n) as (j & Hj & Hjn).
  { destruct (lookup_lt_is_Some_2 kvh n) as [x Hx]; [lia|].
    assert (take (S n) l ≡ₚ take (S n) kvh) as Hpt.
    { apply (Permutation_app_inv_r (drop (S n) kvh)). rewrite take_drop.
      replace (drop (S n) kvh) with (drop (S n) l); [by rewrite take_drop|].
      apply list_eq. intros k. rewrite !lookup_drop. apply Hk. lia. }
    assert (x ∈ take (S n) kvh) as Hin by (apply list_elem_of_lookup; exists n; rewrite lookup_take_lt by lia; done).
    rewrite <- Hpt in Hin. apply list_elem_of_lookup in Hin as [j Hj]. apply lookup_take_Some in Hj as [Hj Hlt].
    exists j. split; [lia|]. by rewrite Hj, Hx. }
  destruct (swap_spec l n j) as (l' & _ & Hl' & Hsw); [lia|lia|].
  destruct (IH l') as (draws & Hd & Hrun); [lia|by rewrite (slice_swap_perm _ _ _ _ Hsw Hl')|..].
  { intros k Hnk. rewrite Hsw. unfold transpose. destruct (decide (k = n)) as [->|]; [done|].
    rewrite decide_False by lia. apply Hk. lia. }
  exists (λ i, if decide (i = n) then Z.of_nat j else draws i). split.
  { intros i Hi. case_decide; [lia|]. apply Hd. lia. }
  rewrite shuffle_S. unfold shuffle_upto in Hrun |- *.
  assert (∀ (b1 b2 : nat → list H → outcome (list H)) ks s, (∀ i s, i ∈ ks → b1 i s = b2 i s) →
    for_each ks b1 s = for_each ks b2 s) as Hext.
  { intros b1 b2 ks. induction ks as [|i ks IHk]; intros s Hb; [done|]. simpl. rewrite Hb by (by left).
    destruct (b2 i s); simpl; [|done..]. apply IHk. intros. apply Hb. by right. }
  rewrite (Hext _ (λ i sa, swap sa (Z.of_nat i) (draws i))).
  2: { intros i s Hi%elem_of_seq. by rewrite decide_False by lia. }
  rewrite Hrun. cbn [mbind outcome_bind]. rewrite decide_True by done.
  destruct (swap_spec l' n j) as (l2 & -> & Hl2 & Hsw2); [lia|lia|]. f_equal. apply list_eq.
  intros k. by rewrite Hsw2, Hsw, transpose_involutive.
Qed.

(** Shuffling the handles of the servers never goes out of bounds and only
    reorders them, and no order is left out: each is the result of some
    draws. *)
Theorem random_handles_permutes kvh :
  (∀ draws, drawn_below (length kvh) draws → ∃ sa, random_handles draws kvh = Done sa ∧ sa ≡ₚ kvh) ∧
  (∀ l, l ≡ₚ kvh → ∃ draws, drawn_below (length kvh) draws ∧ random_handles draws kvh = Done l).
Proof.
  split.
  - intros draws Hd. destruct (shuffle_perm (length kvh) draws kvh) as (sa & Hrun & Hp & _); [done..|]. by exists sa.
  - intros l Hp. apply shuffle_onto; [done..|]. intros k Hk.
    pose proof (Permutation_length Hp). rewrite !lookup_ge_None_2 by lia. done.
Qed.
End Shuffle.

(** ** Random strings *)
Definition is_byte (b : Z) : Prop := 0 <= b < 256.

Lemma url_char_elem v : 0 <= v < 64 → url_char v ∈ url_alphabet.
Proof.
  intros Hv. unfold url_char. destruct (lookup_lt_is_Some_2 url_alphabet (Z.to_nat v)) as [c Hc].
  { change (length url_alphabet) with 64%nat. lia. }
  rewrite Hc. simpl. by eapply list_elem_of_lookup_2.
Qed.

Lemma land63 v : 0 <= Z.land v 63 < 64.
Proof. change 63 with (Z.ones 6). rewrite Z.land_ones by lia. apply Z.mod_pos_bound. lia. Qed.

Lemma lor_below k a b : 0 <= k → 0 <= a < 2 ^ k → 0 <= b < 2 ^ k → 0 <= Z.lor a b < 2 ^ k.
Proof.
  intros Hk Ha Hb. assert (Z.lor a b = Z.land (Z.lor a b) (Z.ones k)) as ->.
  { rewrite Z.land_lor_distr_l, !Z.land_ones, !Z.mod_small by lia. done. }
  rewrite Z.land_ones by lia. apply Z.mod_pos_bound, Z.pow_pos_nonneg; lia.
Qed.

Lemma shiftl_byte x k : 0 <= k → is_byte x → 0 <= Z.shiftl x k < 2 ^ (8 + k).
Proof.
  intros Hk Hx. unfold is_byte in Hx. rewrite Z.shiftl_mul_pow2, Z.pow_add_r by lia.
  pose proof (Z.pow_pos_nonneg 2 k). change (2 ^ 8) with 256. nia.
Qed.

Lemma shiftr_below v k : 0 <= k → 0 <= v < 2 ^ (6 + k) → 0 <= Z.shiftr v k < 64.
Proof.
  intros Hk Hv. rewrite Z.shiftr_div_pow2 by lia. rewrite Z.pow_add_r in Hv by lia.
  pose proof (Z.pow_pos_nonneg 2 k). split; [apply Z.div_pos; lia|]. apply Z.div_lt_upper_bound; lia.
Qed.

#[local] Hint Resolve url_char_elem land63 shiftr_below : core.

#[local] Ltac each_char := repeat first [apply List.Forall_nil | apply List.Forall_cons].

(** The characters before the padding: at least one for every byte. *)
Lemma encoded n : ∀ b k,
  (length b <= n)%nat → Forall is_byte b → (k <= length b)%nat →
  (length b <= length (EncodeToString b))%nat ∧ Forall (.∈ url_alphabet) (take k (EncodeToString b)).
Proof.
  induction n as [|n IH]; intros [|x [|y [|z b]]] k Hn Hb Hk; simpl in Hn, Hk; try lia;
    repeat (apply Forall_cons in Hb as [? Hb]); cbn [EncodeToString]; try (split; [simpl; lia|]); try (by rewrite take_nil).
  - destruct k as [|[|]]; [constructor| |lia]. unfold is_byte in *. each_char. apply url_char_elem, shiftr_below; lia.
  - assert (0 <= Z.lor (Z.shiftl x 8) y < 2 ^ 16).
    { apply lor_below; [lia|apply (shiftl_byte x 8); [lia|done]|unfold is_byte in *; lia]. }
    destruct k as [|[|[|]]]; [constructor|..|lia]; simpl; each_char; auto.
    all: apply url_char_elem, shiftr_below; lia.
  - assert (0 <= Z.lor (Z.lor (Z.shiftl x 16) (Z.shiftl y 8)) z < 2 ^ 24).
    { apply lor_below; [lia| |unfold is_byte in *; lia]. apply lor_below; [lia|apply (shiftl_byte x 16); [lia|done]|].
      pose proof (shiftl_byte y 8 ltac:(lia) ltac:(done)). lia. }
    destruct (IH b (k - 4)%nat) as [Hl Hf]; [lia|done|lia|]. rewrite length_app.
    split; [simpl; lia|]. rewrite take_app. apply Forall_app. split; [|done]. apply Forall_take.
    each_char; auto. apply url_char_elem, shiftr_below; lia.
Qed.

(** A random string has the length that is asked for, and every character
    of it stands for six random bits: the cut is always before the padding. *)
Theorem Randstring_length n b :
  length b = (2 * n)%nat → Forall is_byte b →
  ∃ s, Randstring n b = Done s ∧ length s = n ∧ Forall (.∈ url_alphabet) s.
Proof.
  intros Hn Hb. destruct (encoded (length b) b n) as [Hl Hf]; [done|done|lia|]. unfold Randstring.
  rewrite decide_True by lia. eexists. split; [done|]. split; [|done]. rewrite length_take. lia.
Qed.

(** ** Witnesses *)
Lemma Randstring_length_witness :
  ∃ s, Randstring 3 [0; 255; 16; 131; 7; 99] = Done s ∧ length s = 3%nat ∧ Forall (.∈ url_alphabet) s.
Proof. apply Randstring_length; [done|]. repeat constructor; lia. Defined.
