(* ===== verification/RfTest.v ===== *)
(** * RfTest: a Raft test from set-up to clean-up (src/src/raft1/test.go and
    src/src/raft1/server.go over src/src/tester1/config.go)

    [RaftTest] has the checks, on servers given as values. Here the servers are
    objects in the program's memory: [mksrv] makes one above a peer when the tester starts
    a server, the tester kills both, and the [Test] reaches them through its slice
    [srvs]. That slice has length [n] for good, so its elements are a map from indices to objects;
    an element that is not there is nil. The appliers, which would read
    what the peers commit, are in [RaftTest]: these peers commit nothing. *)

From S2P Require Import Prelude RaftTest Persister Labrpc Group Clnts Annotation Config Raft Services.
From Stdlib Require Import Strings.Byte.

Local Open Scope Z_scope.

(** labgob, for snapshots. *)
Section Test.
Variable unpack : list byte → option (Z * list any).
Context {Typ : Type}.
Abbreviation Tester := (@Tester Typ Services.Val App).
Abbreviation Config := (@Config Typ Services.Val App Svc).

(** [mksrv], with [newRfsrv] on the peer that [Make] returns. *)
Definition mksrv (n : nat) (snapshot : bool) (ends : list string) (grp srv : Z) (p : nat) (st : Store) (a : App) :
    outcome (list (option Svc) * Store * App) :=
  '(r, st, a) ← make_peer ends srv p st a;
  '(s, st) ← newRfsrv unpack srv p r snapshot st;
  let k := length (rfsrvs a) in
  if (0 <=? srv) && (srv <? Z.of_nat n) then
    Done ([Some (Rfsrv k); Some (RaftPeer r)], st, set_test_srvs (<[srv := k]> (test_srvs a)) (set_rfsrvs (rfsrvs a ++ [s]) a))
  else Panic "index out of range".

(** [g] is the group that the configuration has under [GRP0]. *)
Record Test := mkTest { cfg : Config; ts_n : nat; finished : Z; ts_maxIndex : Z; ts_snapshot : bool }.

Definition with_cfg (c : Config) (ts : Test) : Test := mkTest c (ts_n ts) (finished ts) (ts_maxIndex ts) (ts_snapshot ts).
Definition memory (ts : Test) : App := app (world (tester (cfg ts))).

(** What the checks of [RaftTest] see. *)
Definition servers (n : nat) (a : App) : list (option rfsrv) :=
  (λ i, k ← test_srvs a !! Z.of_nat i; rfsrvs a !! k) <$> seq 0 n.
Definition view (ts : Test) : RaftTest.Test := RaftTest.mkTest (servers (ts_n ts) (memory ts)) (ts_maxIndex ts) (ts_snapshot ts).
Definition peer_GetState (a : App) (r : nat) : Z * bool :=
  match rafts a !! r with Some x => Raft.GetState (peer x) | None => (0, false) end.

Definition makeTest (rand1 rand2 : nat → nat → string) (n : nat) (reliable snapshot : bool) (now : Z) (T : Tester) : outcome Test :=
  c ← MakeConfig (mksrv n snapshot) service_of rand1 rand2 n reliable now T;
  let ts := mkTest (SetLongDelays true c) n 0 0 snapshot in
  _ ← Config_Group GRP0 (cfg ts);
  Done ts.

Definition checkFinished (ts : Test) : bool := negb (finished ts =? 0).

(** The times are those of the checks of the time limit and of the statistics. *)
Definition cleanup (clerk_order : list nat) (grp_order : list Z) (VIS_ENABLE : string) (an_order : list (string * Continuous))
    (t now1 now2 now3 now4 : Z) (ts : Test) (an : Annotation) : outcome (option Stats * option (list Ann) * Test * Annotation) :=
  let ts := mkTest (cfg ts) (ts_n ts) 1 (ts_maxIndex ts) (ts_snapshot ts) in
  stats ← Config_End now1 now2 (cfg ts);
  '(drawn, c, an) ← Config_Cleanup Svc_Kill clerk_order grp_order VIS_ENABLE an_order t now3 (cfg ts) an;
  CheckTimeout now4 c ;;
  Done (stats, drawn, with_cfg c ts, an).

(** What [one] gets from server [i]: [Start] of its peer, if it is connected and has one. *)
Definition start_answer (cmd : any) (i : Z) (ts : Test) : outcome (option (Z * bool)) :=
  sg ← Config_Group GRP0 (cfg ts);
  conn ← IsConnected sg i;
  if (conn : bool) then
    s ← srv_at i (view ts);
    match RaftTest.raft s with
    | Some r =>
        match rafts (memory ts) !! r with
        | Some x => let '(index, _, ok) := Raft.Start cmd (peer x) in Done (Some (index, ok))
        | None => Panic "nil pointer dereference"
        end
    | None => Done None
    end
  else Done None.

(** Server [i] is started again, and all are connected. *)
Definition restart (rand : nat → string) (i : Z) (ts : Test) : outcome Test :=
  sg ← Config_Group GRP0 (cfg ts);
  '(sg, T) ← StartServer (mksrv (ts_n ts) (ts_snapshot ts)) service_of rand i sg (tester (cfg ts));
  '(sg, rn) ← Group.ConnectAll sg (tnet T);
  Done (with_cfg (with_groups (<[GRP0 := sg]> (groups (cfg ts)), with_net rn T) (cfg ts)) ts).
End Test.

(** ** Starting a server *)

(** A persister from which a server of a test can be started: if the test has snapshots, the one it holds is
    empty or one that labgob reads. *)
Definition restorable (unpack : list byte → option (Z * list any)) (snap : bool) (st : Store) (p : nat) : Prop :=
  ∃ ps, persisters st !! p = Some ps ∧ slice_valid st (Persister.snapshot ps) ∧
    let bs := deref st (Persister.snapshot ps) in snap = true → bs = [] ∨ is_Some (unpack bs).

Lemma restorable_extends unpack snap st st' p :
  extends st st' → persisters st' = persisters st → restorable unpack snap st p → restorable unpack snap st' p.
Proof.
  intros Hx Hp (ps & Hps & Hv & H). exists ps. rewrite Hp. split_and!; [done|by eapply slice_valid_extends|].
  by rewrite (deref_extends st st').
Qed.

(** [mksrv] makes one object and one peer, and the test's slice points to the object. Without a snapshot to
    restore, the object has no entry. *)
Lemma mksrv_runs unpack n snap cl g i p st (a : App) :
  0 <= i < Z.of_nat n → restorable unpack snap st p →
  ∃ st' a' s, mksrv unpack n snap cl g i p st a = Done (Some <$> [Rfsrv (length (rfsrvs a)); RaftPeer (length (rafts a))], st', a') ∧
    (extends st st' ∧ persisters st' = persisters st) ∧
    a' = set_test_srvs (<[i := length (rfsrvs a)]> (test_srvs a)) (set_rfsrvs (rfsrvs a ++ [s])
           (set_rafts (rafts a ++ [mkPeer (Make (length cl) i []) cl]) a)) ∧
    RaftTest.me s = i ∧ RaftTest.persister s = Some p ∧ RaftTest.raft s = Some (length (rafts a)) ∧ applyErr s = ""%string ∧
    (snap = false → RaftTest.logs s = ∅).
Proof.
  intros Hi (ps & Hps & Hv & Hun). unfold mksrv, make_peer, ReadRaftState, with_persister. rewrite Hps. cbn [mbind outcome_bind].
  destruct (clone (raftstate ps) st) as [data st1] eqn:Hc. cbn [mbind outcome_bind]. rewrite !Make_fresh.
  assert (persisters st1 = persisters st) as E1 by (unfold clone, alloc_array in Hc; by injection Hc as _ <-).
  pose proof (clone_extends _ _ _ _ Hc) as X1.
  rewrite (proj2 (Z.leb_le 0 i)), (proj2 (Z.ltb_lt i _)) by lia. cbn [andb].
  unfold newRfsrv. destruct snap.
  2: { cbn [mbind outcome_bind]. eexists st1, _, _. split; [reflexivity|]. by split_and!. }
  unfold ReadSnapshot, with_persister. rewrite E1, Hps. cbn [mbind outcome_bind].
  destruct (clone (Persister.snapshot ps) st1) as [snap st2] eqn:Hc2. cbn [mbind outcome_bind].
  assert (persisters st2 = persisters st) as E2 by (rewrite <- E1; unfold clone, alloc_array in Hc2; by injection Hc2 as _ <-).
  assert (extends st st2) as X2 by (eapply extends_trans; [exact X1|by eapply clone_extends]).
  assert (deref st2 snap = deref st (Persister.snapshot ps)) as Ed.
  { apply clone_spec in Hc2 as (a0 & -> & _ & Ha & _). simpl. rewrite Ha. simpl. by apply deref_extends. }
  cbv zeta in Hun. rewrite Ed.
  destruct (deref st (Persister.snapshot ps)) as [|b bs]; cbn [mbind outcome_bind].
  { eexists st2, _, _. split; [reflexivity|]. by split_and!. }
  destruct (Hun eq_refl) as [|[[last xlog] Hu]]; [done|].
  unfold ingestSnap. rewrite Hu. cbn. eexists st2, _, _. split; [reflexivity|]. by split_and!.
Qed.

(** What [mksrv] makes, when it returns. *)
Lemma newRfsrv_made unpack srv p r snap st s st' :
  newRfsrv unpack srv p r snap st = Done (s, st') →
  RaftTest.me s = srv ∧ RaftTest.raft s = Some r ∧ (snap = false → RaftTest.logs s = ∅).
Proof.
  unfold newRfsrv. destruct snap; [|by intros [= <- _]]. intros ([sl st1] & _ & H)%bind_Done.
  destruct (deref st1 sl) as [|b bs]; [by injection H as <- _|].
  apply bind_Done in H as (res & Hi & H). destruct res as [err|s1]; [done|]. apply Done_inj in H as [= -> _].
  unfold ingestSnap in Hi. destruct (unpack (b :: bs)) as [[last xlog]|]; [|done]. destruct (_ && _); [done|].
  apply Done_inj in Hi as [= <-]. by split_and!.
Qed.

Lemma mksrv_made unpack n snap cl g i p st (a : App) sv st' a' :
  mksrv unpack n snap cl g i p st a = Done (sv, st', a') →
  ∃ s, sv = Some <$> [Rfsrv (length (rfsrvs a)); RaftPeer (length (rafts a))] ∧
    a' = set_test_srvs (<[i := length (rfsrvs a)]> (test_srvs a)) (set_rfsrvs (rfsrvs a ++ [s])
           (set_rafts (rafts a ++ [mkPeer (Make (length cl) i []) cl]) a)) ∧
    RaftTest.me s = i ∧ RaftTest.raft s = Some (length (rafts a)) ∧ (snap = false → RaftTest.logs s = ∅).
Proof.
  unfold mksrv, make_peer. intros ([[r st1] a1] & Hm & H)%bind_Done. apply bind_Done in Hm as ([data st0] & _ & [= <- _ <-]).
  apply bind_Done in H as ([s st2] & Hn & H). apply newRfsrv_made in Hn as (H1 & H2 & H3).
  destruct (_ && _); [|done]. apply Done_inj in H as [= <- _ <-]. exists s. split_and!; [done| |done..].
  simpl. by rewrite !Make_fresh.
Qed.
