(* ===== verification/RaftNet.v ===== *)
(** * RaftNet: the peers on the simulated network (src/src/raft1/raft.go over
    src/src/labrpc/labrpc.go)

    [RaftCluster] has the peers with an abstract network. Here their goroutines
    make real calls, through the ends they were given by the tester, on the network of
    [Labrpc], to the services of [Services]. The system moves when the clock does,
    when a goroutine runs to its next call or locked section, when the network
    or a handler takes a step, and when the test changes the network or kills
    a peer. *)

From S2P Require Import Prelude Labrpc Group Raft RaftCluster Services.

Local Open Scope Z_scope.

(** The goroutines that [ticker] and [broadcastHeartbeats] start. [owner] and [eid] are the
    peer and its election, [server] the peer that is called, [call] the call
    while it lasts. *)
Inductive thread :=
| VoteCall (eid server : nat)
| VoteWait (eid server call : nat)
| HbStart (owner server : nat)
| HbCall (owner server : nat) (args : AppendEntriesArgs)
| HbWait (owner server call : nat)
| Ended.

Section Net.
Context {Typ : Type}.
Variable encode : Val → list Z * bool.
Variable decode : Typ → list Z → Val * bool.
Variable typeOf : Val → Typ.

Abbreviation World := (@World Typ Val App).

(** [tickers] has the goroutines of [ticker], by the peer's pointer; an election's owner is a
    pointer too. *)
Record System := mkSystem {
  sworld : World;
  tickers : gmap nat ticker_pc;
  ballots : list Election;
  threads : list thread
}.

Definition on_app (f : App → App) (w : World) : World := mkWorld (net w) (heap w) (f (app w)) (calls w) (executed w).

Definition set_world (w : World) (s : System) : System := mkSystem w (tickers s) (ballots s) (threads s).
Definition set_ticker (p : nat) (pc : ticker_pc) (s : System) : System :=
  mkSystem (sworld s) (<[p := pc]> (tickers s)) (ballots s) (threads s).
Definition set_ballot (e : nat) (el : Election) (s : System) : System :=
  mkSystem (sworld s) (tickers s) (<[e := el]> (ballots s)) (threads s).
Definition add_ballot (el : Election) (s : System) : System :=
  mkSystem (sworld s) (tickers s) (ballots s ++ [el]) (threads s).
Definition set_thread (t : nat) (th : thread) (s : System) : System :=
  mkSystem (sworld s) (tickers s) (ballots s) (<[t := th]> (threads s)).
Definition spawn (ths : list thread) (s : System) : System :=
  mkSystem (sworld s) (tickers s) (ballots s) (threads s ++ ths).

Definition set_raft (p : nat) (rf : Raft) (s : System) : System :=
  set_world (on_app (λ a, set_rafts (alter (λ x, mkPeer rf (peers x)) p (rafts a)) a) (sworld s)) s.

Definition peer_of (p : nat) (s : System) : option Peer := rafts (app (sworld s)) !! p.
Definition clock (s : System) : Z := now (app (sworld s)).

(** ** The goroutines *)

(** A goroutine per peer that is called. *)
Definition broadcastHeartbeats (p : nat) (rf : Raft) (s : System) : System := spawn (HbStart p <$> other_peers rf) s.

(** [ticker], from one locked section to the next; [r] is drawn for the time-out. *)
Definition ticker (p : nat) (r : Z) (s : System) : System :=
  match peer_of p s, tickers s !! p with
  | Some x, Some TLoop => set_ticker p (if killed (peer x) then TDone else TRead (state (peer x))) s
  | Some x, Some (TRead Leader) => broadcastHeartbeats p (peer x) (set_ticker p TLoop s)
  | Some x, Some (TRead _) =>
      match start_election (clock s) r (peer x) with
      | (rf, None) => set_ticker p TLoop (set_raft p rf s)
      | (rf, Some args) =>
          spawn (VoteCall (length (ballots s)) <$> other_peers rf)
            (add_ballot (mkElection p args 1) (set_ticker p TLoop (set_raft p rf s)))
      end
  | _, _ => s
  end.

(** [rf.peers[server].Call(meth, args, reply)], up to where it waits. *)
Definition send (p server : nat) (meth : string) (args : Val) (s : System) : outcome (nat * System) :=
  match peer_of p s with
  | Some x =>
      e ← slice_get (peers x) (Z.of_nat server);
      w ← Labrpc.exec encode decode typeOf (Call_ (any_string e) meth args) (sworld s);
      Done (length (calls (sworld s)), set_world w s)
  | None => Panic "nil pointer dereference"
  end.

Definition sendRequestVote (p server : nat) (args : RequestVoteArgs) (s : System) : outcome (nat * System) :=
  send p server "Raft.RequestVote" (VoteArgs args) s.
Definition sendAppendEntries (p server : nat) (args : AppendEntriesArgs) (s : System) : outcome (nat * System) :=
  send p server "Raft.AppendEntries" (EntriesArgs args) s.

Inductive answer := Waits | Fails | Returns (v : Val).

(** What the call has come to; the reply is a variable of type [t]. *)
Definition answer_of (t : Typ) (c : nat) (s : System) : outcome answer :=
  match at_phase <$> calls (sworld s) !! c with
  | Some (Answered r) => v ← Call_result decode t r; Done (match v with Some v => Returns v | None => Fails end)
  | Some Destroyed => Done Fails
  | _ => Done Waits
  end.

(** The locked section after a vote. *)
Definition count_vote (e : nat) (reply : RequestVoteReply) (s : System) : System :=
  match ballots s !! e with
  | Some el =>
      match peer_of (el_owner el) s with
      | Some x =>
          let '(rf, votes) := vote_reply (el_args el) reply (peer x) (el_votes el) in
          set_ballot e (mkElection (el_owner el) (el_args el) votes) (set_raft (el_owner el) rf s)
      | None => s
      end
  | None => s
  end.

(** The goroutines go on, to their next call or locked section; one that waits stays. *)
Definition vote_goroutine (t : nat) (th : thread) (s : System) : outcome System :=
  match th with
  | VoteCall e server =>
      match ballots s !! e with
      | Some el =>
          '(c, s) ← sendRequestVote (el_owner el) server (el_args el) s;
          Done (set_thread t (VoteWait e server c) s)
      | None => Done s
      end
  | VoteWait e server c =>
      a ← answer_of (typeOf (VoteReply empty_vote_reply)) c s;
      match a with
      | Waits => Done s
      | Fails => Done (set_thread t Ended s)
      | Returns (VoteReply reply) => Done (set_thread t Ended (count_vote e reply s))
      | Returns _ => wrong_type
      end
  | _ => Done s
  end.

Definition heartbeat_goroutine (t : nat) (th : thread) (s : System) : outcome System :=
  match th with
  | HbStart p server =>
      match peer_of p s with
      | Some x =>
          Done (set_thread t (match heartbeat_args (peer x) with Some args => HbCall p server args | None => Ended end) s)
      | None => Done s
      end
  | HbCall p server args =>
      '(c, s) ← sendAppendEntries p server args s;
      Done (set_thread t (HbWait p server c) s)
  | HbWait p server c =>
      a ← answer_of (typeOf (EntriesReply empty_append_reply)) c s;
      match a with
      | Waits => Done s
      | Fails => Done (set_thread t Ended s)
      | Returns (EntriesReply reply) =>
          match peer_of p s with
          | Some x => Done (set_thread t Ended (set_raft p (heartbeat_reply reply (peer x)) s))
          | None => Done s
          end
      | Returns _ => wrong_type
      end
  | _ => Done s
  end.

Definition go_on (t : nat) (s : System) : outcome System :=
  match threads s !! t with
  | Some ((VoteCall _ _ | VoteWait _ _ _) as th) => vote_goroutine t th s
  | Some th => heartbeat_goroutine t th s
  | None => Done s
  end.

(** ** The whole *)
Inductive step :=
| Clock (t : Z)
| Tick (p : nat) (r : Z)
| Go (t : nat)
| Net (a : @Labrpc.action Val App)
| KillPeer (p : nat).

Definition exec_step (e : step) (s : System) : outcome System :=
  match e with
  | Clock t => Done (set_world (on_app (set_now t) (sworld s)) s)
  | Tick p r => Done (if 0 <=? r then ticker p r s else s)
  | Go t => go_on t s
  | Net a => w ← Labrpc.exec encode decode typeOf a (sworld s); Done (set_world w s)
  | KillPeer p => Done (set_world (on_app (Raft_Kill p) (sworld s)) s)
  end.

Definition run_steps (es : list step) (s : System) : outcome System := for_each es exec_step s.

(** [Make] starts the ticker of each peer in [ps]. *)
Definition started (ps : list nat) (w : World) : System :=
  mkSystem w (list_to_map ((λ p, (p, TLoop)) <$> ps)) [] [].
End Net.

(** The peers below the servers of a group. *)
Definition rafts_of (sg : @ServerGrp Svc) : list nat :=
  omap (λ s, match svcs s with [_; Some (RaftPeer r)] => Some r | _ => None end) (srvs sg).

(** What the network and the test may do to a group while it runs: calls of its peers
    are its goroutines', and its ends lead where they led. Anything may be
    enabled, disabled, unregistered, delayed, reordered or lost. *)
Definition leaves_group (sg : @ServerGrp Svc) (a : @Labrpc.action Val App) : Prop :=
  match a with
  | Call_ _ _ _ | AddService_ _ _ => False
  | Connect_ e _ | DeleteEnd_ e => ∀ s name, s ∈ srvs sg → name ∈ clntEnds s → e ≠ any_string name
  | AddServer_ n _ => ∀ name, name ∈ servernames sg → n ≠ any_string name
  | _ => True
  end.
