(* ===== verification/RaftNetSim.v ===== *)
(** * RaftNetSim: the simulation between the network and the cluster

    A run of a group on the simulated network, with whatever delays, losses,
    partitions and kills, is a run of [RaftCluster]: a call whose request has not been
    served is a request on its way, one that was served is a reply on its way, and
    a call that fails leaves a message that nobody waits for any more. [sim] says so of a
    state, and [run_follows] of every run. *)

From S2P Require Import Prelude Persister Labrpc LabrpcSafety Group GroupProps GroupStart Raft RaftCluster RaftSafety Labgob LabgobProps.
From S2P Require Import Services ServicesProps RaftNet.

Local Open Scope Z_scope.

(** A server of the group: its peer's pointer, the ends it was given, and the server that
    is registered for it. *)
Record member := mkMember { m_ptr : nat; m_ends : list string; m_server : nat }.

Section Net.
Context {Typ : Type} (encode : Val → list Z * bool) (decode : Typ → list Z → Val * bool) (typeOf : Val → Typ).
Context (codec : ∀ v, (encode v).2 = true ∧ decode (typeOf v) (encode v).1 = (v, true)).
Context (vote_type : ∀ r r', typeOf (VoteReply r) = typeOf (VoteReply r')).
Context (entries_type : ∀ r r', typeOf (EntriesReply r) = typeOf (EntriesReply r')).
Context (g : Z) (members : list member).

Abbreviation World := (@World Typ Val App).
Abbreviation Call := (@Call Typ).
Abbreviation exec_net := (@Labrpc.exec Typ Val App encode decode typeOf).

Definition name_of (j : nat) : any := any_string (ServerName g (Z.of_nat j)).

(** ** The wiring *)
Record wired_member (j : nat) (m : member) (w : World) : Prop := {
  wm_heap : ∃ ls, heap w !! m_server m = Some ls ∧ services ls !! "Raft"%string = Some (service_of (RaftPeer (m_ptr m)));
  wm_server : server_at (name_of j) (net w) = Some (m_server m) ∨ server_at (name_of j) (net w) = None;
  wm_ends : ∀ k e, m_ends m !! k = Some e →
    any_string e ∈ ends (net w) ∧ connection_at (any_string e) (net w) = name_of k
}.

Definition wired (w : World) : Prop := ∀ j m, members !! j = Some m → wired_member j m w.

(** What must not happen to the wiring. *)
Definition harmless (a : @Labrpc.action Val App) : Prop :=
  match a with
  | Call_ _ _ _ | AddService_ _ _ => False
  | Connect_ e _ | DeleteEnd_ e => ∀ m k x, m ∈ members → m_ends m !! k = Some x → e ≠ any_string x
  | AddServer_ n _ => ∀ j, (j < length members)%nat → n ≠ name_of j
  | _ => True
  end.

(** ** Calls *)

(** The request asks the peer [sv]. *)
Definition asks (rq : @reqMsg Typ) (sv : nat) (meth : string) (v : Val) : Prop :=
  ∃ m e, m ∈ members ∧ m_ends m !! sv = Some e ∧ rq = mkReqMsg (any_string e) meth (typeOf v) (encode v).1.

(** No handler has run for the call; if one is to run it is the server [q]'s. *)
Definition unserved (q : nat) (h : option nat) (p : phase) : Prop :=
  match p with
  | Sending | Accepted | Destroyed => h = None
  | Sleeping _ s _ _ => h = None ∧ s = q
  | Waiting _ s _ _ o => h = Some q ∧ s = q ∧ o = None
  | Exited _ _ _ _ o => h = Some q ∧ o = None
  | Delayed _ _ r | Answered r => r = no_reply ∧ (h = None ∨ h = Some q)
  end.

(** A handler has run, and returned [R]. *)
Definition served (R : replyMsg) (h : option nat) (p : phase) : Prop :=
  h = None ∧
  match p with
  | Waiting _ _ _ _ o | Exited _ _ _ _ o => o = None ∨ o = Some R
  | Delayed _ _ r | Answered r => r = no_reply ∨ r = R
  | _ => False
  end.

Definition args_at (e : nat) (c : Cluster) : option RequestVoteArgs := el_args <$> elections c !! e.

Definition vote_msg (reply : RequestVoteReply) : replyMsg := mkReplyMsg true (encode (VoteReply reply)).1.
Definition entries_msg (reply : AppendEntriesReply) : replyMsg := mkReplyMsg true (encode (EntriesReply reply)).1.

(** A call and what it is in the cluster. *)
Inductive call_sim (c : Cluster) (cl : Call) : option Task → Prop :=
| cs_vote e sv args m :
    args_at e c = Some args → asks (req cl) sv "Raft.RequestVote" (VoteArgs args) → members !! sv = Some m →
    unserved (m_server m) (handler cl) (at_phase cl) → call_sim c cl (Some (VoteSent e sv))
| cs_voted e sv reply :
    served (vote_msg reply) (handler cl) (at_phase cl) → call_sim c cl (Some (VoteReplied e sv reply))
| cs_beat o sv args m :
    asks (req cl) sv "Raft.AppendEntries" (EntriesArgs args) → members !! sv = Some m →
    unserved (m_server m) (handler cl) (at_phase cl) → call_sim c cl (Some (HbSent o sv args))
| cs_beaten o sv reply :
    served (entries_msg reply) (handler cl) (at_phase cl) → call_sim c cl (Some (HbReplied o sv reply))
| cs_over R : served R (handler cl) (at_phase cl) → call_sim c cl None.

(** A call that goes on keeps what it stands for. *)
Definition goes_on (cl cl' : Call) : Prop :=
  req cl' = req cl ∧
  (∀ sv m meth v, asks (req cl) sv meth v → members !! sv = Some m →
     unserved (m_server m) (handler cl) (at_phase cl) → unserved (m_server m) (handler cl') (at_phase cl')) ∧
  (∀ R, served R (handler cl) (at_phase cl) → served R (handler cl') (at_phase cl')).

Lemma goes_on_refl cl : goes_on cl cl.
Proof. by split_and!. Qed.

Lemma call_sim_goes_on c cl cl' task : goes_on cl cl' → call_sim c cl task → call_sim c cl' task.
Proof.
  intros (E & HU & HS) [e sv args m Ha Hq Hm Hu|e sv reply Hs|o sv args m Hq Hm Hu|o sv reply Hs|R Hs].
  - eapply cs_vote; [exact Ha|by rewrite E|exact Hm|by eapply HU].
  - by apply cs_voted, HS.
  - eapply cs_beat; [by rewrite E|exact Hm|by eapply HU].
  - by apply cs_beaten, HS.
  - by eapply cs_over, HS.
Qed.

(** ** A step of the network that runs no handler *)
Lemma begin_goes_on r1 rq h (w : World) :
  wired w →
  let p := processReq_begin r1 (endname rq) (net w) in
  goes_on (mkCall rq Accepted h) (mkCall rq p match p with Waiting _ s _ _ _ => Some s | _ => h end).
Proof.
  intros Hw p. split_and!; [done| |by intros R [_ []]]. intros sv m meth v (m0 & e & [j Hj]%list_elem_of_lookup & He & E) Hm Hu.
  cbn [req handler at_phase unserved] in *. subst h. destruct (wm_ends _ _ _ (Hw j m0 Hj) sv e He) as [_ Hc].
  assert (readEndnameInfo (endname rq) (net w) = (enabled_at (endname rq) (net w), name_of sv, server_at (name_of sv) (net w),
    reliable (net w), longReordering (net w))) as Hinfo.
  { unfold readEndnameInfo. rewrite E. cbn [endname]. rewrite Hc. by rewrite decide_False. }
  subst p. unfold processReq_begin. rewrite Hinfo. destruct (wm_server _ _ _ (Hw sv m Hm)) as [-> | ->].
  - destruct (enabled_at _ _ && _); [|by split; [|left]]. by destruct (reliable (net w)).
  - by split; [|left].
Qed.

Lemma wake_goes_on r rq n s lr ms h :
  let p := processReq_wake r n s lr in
  goes_on (mkCall rq (Sleeping n s lr ms) h) (mkCall rq p match p with Waiting _ s _ _ _ => Some s | _ => h end).
Proof.
  intros p. split_and!; [done| |by intros R [_ []]]. intros sv m meth v _ _ [Hh Hs]. cbn [at_phase handler] in *. subst h.
  subst p. unfold processReq_wake. destruct (Z.rem r 1000 <? 100); [by split; [|left]|]. by subst s.
Qed.

Lemma wait_goes_on timeout rq n s rel lr ech h (rn : Network) :
  goes_on (mkCall rq (Waiting n s rel lr ech) h) (mkCall rq (processReq_wait timeout (endname rq) n s rel lr ech rn) h).
Proof.
  split_and!; [done| |]; unfold processReq_wait; destruct timeout.
  - intros sv m meth v _ _ (Hh & Hs & He). by destruct (isServerDead _ _ _ _).
  - intros sv m meth v _ _ (Hh & Hs & He). cbn [at_phase handler] in *. by subst ech.
  - intros R [Hh Ho]. split; [done|]. cbn [at_phase] in *. destruct (isServerDead _ _ _ _); [by left|done].
  - intros R [Hh Ho]. split; [done|]. cbn [at_phase] in *. by destruct Ho as [->| ->]; [left|right].
Qed.

Lemma end_goes_on r1 r2 r3 r4 rq n s rel lr got h (rn rn' : Network) p :
  processReq_end r1 r2 r3 r4 (endname rq) n s rel lr got rn = (p, rn') →
  goes_on (mkCall rq (Exited n s rel lr got) h) (mkCall rq p h) ∧ ends rn' = ends rn ∧ servers rn' = servers rn ∧
    connections rn' = connections rn.
Proof.
  unfold processReq_end. intros E.
  assert (ends rn' = ends rn ∧ servers rn' = servers rn ∧ connections rn' = connections rn) as Hrn.
  { destruct got as [r|]; [|by injection E as <- <-]. repeat (case_match; [by injection E as <- <-|]). by injection E as <- <-. }
  split; [|exact Hrn]. split_and!; [done| |].
  - intros sv m meth v _ _ [Hh Hg]. cbn [at_phase handler] in *. subst got. injection E as <- <-. split; [done|by right].
  - intros R [Hh Ho]. split; [done|]. cbn [at_phase] in *. destruct Ho as [->| ->]; [injection E as <- <-; by left|].
    repeat (case_match; [injection E as <- <-; first [by left|by right]|]). injection E as <- <-. by right.
Qed.

Lemma fire_goes_on rq ms counted r h : goes_on (mkCall rq (Delayed ms counted r) h) (mkCall rq (Answered r) h).
Proof. by split_and!. Qed.

(** What steps that run no handler leave alone. *)
Definition steps_on (w w' : World) : Prop := ∀ k cl', calls w' !! k = Some cl' → ∃ cl, calls w !! k = Some cl ∧ goes_on cl cl'.

Record quiet (w w' : World) : Prop := {
  q_wired : wired w → wired w';
  q_app : app w' = app w;
  q_calls : steps_on w w';
  q_length : length (calls w') = length (calls w)
}.

Lemma quiet_refl w : quiet w w.
Proof. split; try done. intros k cl Hk. exists cl. split; [done|apply goes_on_refl]. Qed.

Lemma goes_on_trans cl1 cl2 cl3 : goes_on cl1 cl2 → goes_on cl2 cl3 → goes_on cl1 cl3.
Proof.
  intros (E1 & U1 & S1) (E2 & U2 & S2). split_and!; [by rewrite E2| |by auto].
  intros sv m meth v Ha Hm Hu. apply (U2 sv m meth v); [by rewrite E1|done|by eapply U1].
Qed.

Lemma quiet_trans w1 w2 w3 : quiet w1 w2 → quiet w2 w3 → quiet w1 w3.
Proof.
  intros [W1 A1 C1 L1] [W2 A2 C2 L2]. split; [by auto|by rewrite A2|  |by rewrite L2].
  intros k cl3 (cl2 & H2 & G2)%C2. destruct (C1 k cl2 H2) as (cl1 & H1 & G1). exists cl1. split; [done|by eapply goes_on_trans].
Qed.

Definition member_end (e : any) : Prop := ∃ m k x, m ∈ members ∧ m_ends m !! k = Some x ∧ e = any_string x.

(** What the tables of the network may become. *)
Record tables_keep (rn rn' : Network) : Prop := {
  tk_server : ∀ j, (j < length members)%nat → server_at (name_of j) rn' = server_at (name_of j) rn ∨ server_at (name_of j) rn' = None;
  tk_ends : ∀ e, member_end e → e ∈ ends rn → e ∈ ends rn' ∧ connection_at e rn' = connection_at e rn
}.

Lemma same_tables (rn rn' : Network) :
  ends rn' = ends rn → servers rn' = servers rn → connections rn' = connections rn → tables_keep rn rn'.
Proof. intros E1 E2 E3. split; [intros j _; left; unfold server_at; by rewrite E2|intros e _ He; unfold connection_at; by rewrite E1, E3]. Qed.

(** The heap may change, as long as no server loses a service. *)
Lemma wired_keep (w w' : World) :
  (∀ q ls, heap w !! q = Some ls → ∃ ls', heap w' !! q = Some ls' ∧ services ls' = services ls) →
  tables_keep (net w) (net w') → wired w → wired w'.
Proof.
  intros Hh [Hs He] Hw j m Hm. destruct (Hw j m Hm) as [(ls & Hls & Hsvc) Hsv Hends]. split.
  - destruct (Hh _ _ Hls) as (ls' & Hls' & E). exists ls'. by rewrite E.
  - destruct (Hs j) as [->| ->]; [by eapply lookup_lt_Some|done|by right].
  - intros k e Hk. destruct (Hends k e Hk) as [Hin <-]. apply He; [|done]. exists m, k, e. split; [by eapply list_elem_of_lookup_2|done].
Qed.

Lemma quiet_net f (w : World) : tables_keep (net w) (f (net w)) → quiet w (on_net f w).
Proof.
  intros Hk. split; [|done| |done].
  - apply wired_keep; [|done]. intros q ls Hls. by exists ls.
  - intros k cl Hc. exists cl. split; [done|apply goes_on_refl].
Qed.

Lemma quiet_set_call i cl p h (w : World) : calls w !! i = Some cl → goes_on cl (mkCall (req cl) p h) → quiet w (set_call i p h w).
Proof.
  intros Hi Hg. split; [|done| |by apply length_alter].
  - apply wired_keep; [|by apply same_tables]. intros q ls Hls. by exists ls.
  - intros k cl' Hk. simpl in Hk. destruct (decide (k = i)) as [->|Hne].
    + rewrite list_lookup_alter_eq, Hi in Hk. injection Hk as <-. by exists cl.
    + rewrite list_lookup_alter_ne in Hk by done. exists cl'. split; [done|apply goes_on_refl].
Qed.

Lemma tables_connect e m (rn : Network) : ¬ member_end e → tables_keep rn (Connect e m rn).
Proof.
  intros Hne. split; [by left|]. intros x Hx Hin. split; [done|]. unfold connection_at. simpl.
  rewrite lookup_insert_ne; [done|]. by intros ->.
Qed.

Lemma tables_server e o (rn : Network) : (o = None ∨ ∀ j, (j < length members)%nat → e ≠ name_of j) →
  tables_keep rn (set_tables (ends rn) (enabled rn) (<[e := o]> (servers rn)) (connections rn) rn).
Proof.
  intros Ho. split; [|done]. intros j Hj. unfold server_at. simpl. destruct (decide (e = name_of j)) as [->|Hne].
  - rewrite lookup_insert_eq. destruct Ho as [->|Ho]; [by right|]. by destruct (Ho j Hj).
  - rewrite lookup_insert_ne by done. by left.
Qed.

Lemma not_member_end e : (∀ m k x, m ∈ members → m_ends m !! k = Some x → e ≠ any_string x) → ¬ member_end e.
Proof. intros H (m & k & x & Hm & Hk & ->). by apply (H m k x). Qed.

Ltac nothing := by (intros [= <-]; apply quiet_refl).
Ltac net_only := intros [= <-]; apply quiet_net; first [by apply same_tables|idtac].

(** Every harmless step of the network but a handler's. *)
Lemma exec_quiet a (w w' : World) :
  harmless a → (∀ i, a ≠ Dispatch i) → wired w → exec_net a w = Done w' → quiet w w'.
Proof.
  intros Ha Hd Hw. destruct a as [e|e|m p|m|e m|e b|b|b|b| | |p svc|e meth arg| |i|i|i r1|i r|i|i t|i r1 r2 r3 r4|i]; cbn [Labrpc.exec]; try done.
  - unfold MakeEnd. case_decide as He; [done|]. net_only. split; [by left|]. intros x _ Hin. simpl. split; [set_solver|].
    unfold connection_at. simpl. rewrite lookup_insert_ne; [done|]. by intros ->.
  - unfold DeleteEnd. case_decide; [|done]. net_only. split; [by left|]. intros x Hx Hin. simpl.
    assert (x ≠ e) as Hne by (intros ->; by apply (not_member_end e Ha)). split; [set_solver|].
    unfold connection_at. simpl. by rewrite lookup_delete_ne.
  - case_decide; [|nothing]. net_only. apply tables_server. by right.
  - net_only. apply tables_server. by left.
  - net_only. by apply tables_connect, not_member_end.
  - net_only.
  - net_only.
  - net_only.
  - net_only.
  - unfold Cleanup. case_match; [done|]. net_only.
  - intros [= <-]. split; [|done| |done].
    + apply wired_keep; [|by apply same_tables]. intros q ls Hls. exists ls. split; [by apply lookup_app_l_Some|done].
    + apply (q_calls _ _ (quiet_refl w)).
  - case_match; [net_only|nothing].
  - destruct (calls w !! i) as [[rq [] h]|] eqn:Ei; try nothing. case_match; [|nothing]. intros [= <-].
    eapply quiet_trans; [|by apply quiet_net, same_tables]. eapply quiet_set_call; [exact Ei|]. by split_and!.
  - destruct (calls w !! i) as [[rq [] h]|] eqn:Ei; try nothing. case_match; [|nothing]. intros [= <-].
    eapply quiet_set_call; [exact Ei|]. split_and!; [done|done|]. by intros R [_ []].
  - destruct (calls w !! i) as [[rq [] h]|] eqn:Ei; try nothing. intros [= <-].
    eapply quiet_set_call; [exact Ei|by apply begin_goes_on].
  - destruct (calls w !! i) as [[rq [] h]|] eqn:Ei; try nothing. intros [= <-].
    eapply quiet_set_call; [exact Ei|apply wake_goes_on].
  - by destruct (Hd i).
  - destruct (calls w !! i) as [[rq [] h]|] eqn:Ei; try nothing. intros [= <-].
    eapply quiet_set_call; [exact Ei|apply wait_goes_on].
  - destruct (calls w !! i) as [[rq [] h]|] eqn:Ei; try nothing.
    destruct (processReq_end _ _ _ _ _ _ _ _ _ _ _) as [p rn'] eqn:Ep. intros [= <-].
    destruct (end_goes_on _ _ _ _ _ _ _ _ _ _ h _ _ _ Ep) as (Hg & E1 & E2 & E3).
    eapply quiet_trans; [|by apply quiet_net, same_tables]. eapply quiet_set_call; [exact Ei|exact Hg].
  - destruct (calls w !! i) as [[rq [] h]|] eqn:Ei; try nothing. intros [= <-].
    assert (quiet w (set_call i (Answered r) h w)) as Hq by (eapply quiet_set_call; [exact Ei|apply fire_goes_on]).
    case_match; [|exact Hq]. eapply quiet_trans; [exact Hq|by apply quiet_net, same_tables].
Qed.

(** ** A handler runs *)

(** Call [k] has been served with [R]; whatever its phase, the reply is the handler's. *)
Record dispatched (k : nat) (R : replyMsg) (w w' : World) : Prop := {
  d_wired : wired w → wired w';
  d_length : length (calls w') = length (calls w);
  d_call : ∃ cl', calls w' !! k = Some cl' ∧ served R (handler cl') (at_phase cl');
  d_others : ∀ k', k' ≠ k → calls w' !! k' = calls w !! k'
}.

Lemma dispatch_runs k cl sv m meth f v (w w' : World) :
  wired w → calls w !! k = Some cl → asks (req cl) sv ("Raft." +:+ meth) v → members !! sv = Some m →
  unserved (m_server m) (handler cl) (at_phase cl) → dot ∉ String.list_ascii_of_string meth →
  methods (service_of (RaftPeer (m_ptr m))) !! meth = Some (handler_method f) → exec_net (Dispatch k) w = Done w' →
  w' = w ∨ ∃ v' a', f v (app w) = Done (v', a') ∧ app w' = a' ∧ dispatched k (mkReplyMsg true (encode v').1) w w'.
Proof.
  intros Hw Hk Ha Hm Hu Hdot Hmeth. destruct cl as [rq p h]. cbn [req handler at_phase Labrpc.exec] in *. rewrite Hk.
  destruct h as [q|]; [|intros [= <-]; by left].
  assert (q = m_server m) as ->.
  { destruct p; cbn [unserved] in Hu; try discriminate; destruct_and?; try congruence; destruct_or?; congruence. }
  destruct (wm_heap _ _ _ (Hw sv m Hm)) as (ls & Hls & Hsvc). rewrite Hls.
  destruct Ha as (m0 & e & _ & _ & ->). unfold Server_dispatch. cbn [svcMeth].
  assert (split_svcMeth ("Raft." +:+ meth) = Done ("Raft"%string, meth)) as -> by exact (split_svcMeth_app "Raft" meth Hdot).
  cbn [mbind outcome_bind services]. rewrite Hsvc. unfold Service_dispatch. rewrite Hmeth. cbn [Func handler_method argsType args].
  destruct (codec v) as [_ ->]. cbn [fst]. destruct (f v (app w)) as [[v' a']| | |]; [|discriminate..]. cbn [mbind outcome_bind].
  intros [= <-]. right. exists v', a'. split_and!; [done|done|]. split.
  - apply wired_keep; [|by apply same_tables]. intros q0 ls0 Hq0. simpl. destruct (decide (q0 = m_server m)) as [->|Hne].
    + rewrite list_lookup_insert_eq by by eapply lookup_lt_Some. rewrite Hls in Hq0. injection Hq0 as <-. by eexists.
    + rewrite list_lookup_insert_ne by done. by exists ls0.
  - simpl. by rewrite length_alter.
  - eexists. split; [simpl; rewrite list_lookup_alter_eq, Hk; reflexivity|]. cbn [handler at_phase]. split; [done|].
    destruct p; cbn [unserved] in Hu; destruct_and?; try discriminate; [by right|by left|by left|by left].
  - intros k' Hne. simpl. by rewrite list_lookup_alter_ne.
Qed.

(** Without a handler to run, nothing happens. *)
Lemma dispatch_idle k cl (w w' : World) :
  calls w !! k = Some cl → handler cl = None → exec_net (Dispatch k) w = Done w' → w' = w.
Proof. destruct cl as [rq p h]. cbn [handler Labrpc.exec]. intros -> -> [= <-]. done. Qed.

(** ** The simulation *)
Context (apart : ∀ i j m m', members !! i = Some m → members !! j = Some m' → m_ptr m = m_ptr m' → i = j).
Context (all_ends : ∀ m, m ∈ members → length (m_ends m) = length members).

Abbreviation System := (@System Typ).

Definition ballot_sim (el ea : Election) : Prop :=
  el_args el = el_args ea ∧ el_votes el = el_votes ea ∧ ∃ m, members !! el_owner ea = Some m ∧ m_ptr m = el_owner el.

(** [cs] says which goroutine made a call. *)
Inductive thread_sim (cs : gmap nat nat) (t : nat) : thread → option Task → Prop :=
| ts_vote e sv : (∀ k, cs !! k ≠ Some t) → thread_sim cs t (VoteCall e sv) (Some (VoteSent e sv))
| ts_vote_sent e sv k : cs !! k = Some t → thread_sim cs t (VoteWait e sv k) (Some (VoteSent e sv))
| ts_voted e sv k reply : cs !! k = Some t → thread_sim cs t (VoteWait e sv k) (Some (VoteReplied e sv reply))
| ts_start i m sv : members !! i = Some m → (∀ k, cs !! k ≠ Some t) →
    thread_sim cs t (RaftNet.HbStart (m_ptr m) sv) (Some (HbSpawned i sv))
| ts_beat i m sv args : members !! i = Some m → (∀ k, cs !! k ≠ Some t) →
    thread_sim cs t (HbCall (m_ptr m) sv args) (Some (HbSent i sv args))
| ts_beat_sent i m sv k args : members !! i = Some m → cs !! k = Some t →
    thread_sim cs t (HbWait (m_ptr m) sv k) (Some (HbSent i sv args))
| ts_beaten i m sv k reply : members !! i = Some m → cs !! k = Some t →
    thread_sim cs t (HbWait (m_ptr m) sv k) (Some (HbReplied i sv reply))
| ts_ended task : thread_sim cs t RaftNet.Ended task.

Record sim (cs : gmap nat nat) (s : System) (c : Cluster) : Prop := {
  sm_wired : wired (sworld s);
  sm_current : current c = seq 0 (length members);
  sm_insts : length (insts c) = length members;
  sm_peers : ∀ i m, members !! i = Some m → ∃ x pc, peer_of (m_ptr m) s = Some (mkPeer x (m_ends m)) ∧
    insts c !! i = Some (mkInst x pc) ∧ tickers s !! m_ptr m = Some pc;
  sm_tickers : ∀ p pc, tickers s !! p = Some pc → ∃ i m, members !! i = Some m ∧ m_ptr m = p;
  sm_ballots : Forall2 ballot_sim (ballots s) (elections c);
  sm_next : next_task c = length (threads s);
  sm_calls : ∀ k cl, calls (sworld s) !! k = Some cl → ∃ t, cs !! k = Some t ∧ call_sim c cl (tasks c !! t);
  sm_cs : ∀ k t, cs !! k = Some t → (k < length (calls (sworld s)))%nat ∧ (t < length (threads s))%nat;
  sm_inj : ∀ k k' t, cs !! k = Some t → cs !! k' = Some t → k = k';
  sm_threads : ∀ t th, threads s !! t = Some th → thread_sim cs t th (tasks c !! t)
}.

(** What a run of the system is to the cluster: actions that lead to a cluster it stands for. *)
Definition follows (c : Cluster) (s' : System) : Prop :=
  ∃ tr c' cs', no_restart tr ∧ (length tr <= 1)%nat ∧ RaftCluster.run c tr = Some (Done c') ∧ sim cs' s' c'.

Lemma follows_none cs (s' : System) c : sim cs s' c → follows c s'.
Proof. intros S. exists [], c, cs. split_and!; [constructor|simpl; lia|done|done]. Qed.

Lemma follows_one a cs (s' : System) c c' :
  match a with ARestart _ => False | _ => True end → RaftCluster.exec c a = Some (Done c') → sim cs s' c' → follows c s'.
Proof.
  intros Ha He S. exists [a], c', cs. split_and!; [by constructor|simpl; lia| |done]. cbn [RaftCluster.run]. by rewrite He.
Qed.

Lemma call_sim_cluster c c' cl task :
  (∀ e a, args_at e c = Some a → args_at e c' = Some a) → call_sim c cl task → call_sim c' cl task.
Proof.
  intros He [e sv args m Ha Hq Hm Hu|e sv reply Hs|o sv args m Hq Hm Hu|o sv reply Hs|R Hs].
  - eapply cs_vote; eauto.
  - by apply cs_voted.
  - by eapply cs_beat.
  - by apply cs_beaten.
  - by eapply cs_over.
Qed.

(** A peer changes, or its ticker does. *)
Lemma sim_peer cs (s s' : System) c i m rf pc :
  sim cs s c → members !! i = Some m → wired (sworld s') → calls (sworld s') = calls (sworld s) →
  ballots s' = ballots s → threads s' = threads s → tickers s' = <[m_ptr m := pc]> (tickers s) →
  peer_of (m_ptr m) s' = Some (mkPeer rf (m_ends m)) → (∀ p, p ≠ m_ptr m → peer_of p s' = peer_of p s) →
  sim cs s' (set_inst i (mkInst rf pc) c).
Proof.
  intros [Hw Hc Hi Hp Ht Hb Hn Hcl Hcs Hinj Hth] Hm Hw' Ec Eb Eth Et Hx Hother.
  assert (i < length (insts c))%nat as Hlt by (rewrite Hi; by eapply lookup_lt_Some).
  split; simpl; rewrite ?Ec, ?Eth, ?Eb; try done.
  - by rewrite length_insert.
  - intros j mj Hj. destruct (decide (j = i)) as [->|Hne].
    + rewrite Hm in Hj. injection Hj as <-. exists rf, pc. split_and!; [done|by apply list_lookup_insert_eq|].
      by rewrite Et, lookup_insert_eq.
    + destruct (Hp j mj Hj) as (x & pc' & Hpx & Hix & Htx).
      assert (m_ptr mj ≠ m_ptr m) as Hptr by (intros E; apply Hne; by eapply apart).
      exists x, pc'. split_and!; [by rewrite Hother|by rewrite list_lookup_insert_ne by done|].
      by rewrite Et, lookup_insert_ne by by apply not_eq_sym.
  - intros p pc' Hpc. rewrite Et in Hpc. apply lookup_insert_Some in Hpc as [[<- _]|[_ Hpc]]; [by exists i, m|by eapply Ht].
  - intros k cl Hk. destruct (Hcl k cl Hk) as (t & Ht' & Hsim). exists t. split; [done|].
    by eapply (call_sim_cluster c).
Qed.

Lemma wired_app f (w : World) : wired w → wired (on_app f w).
Proof. apply wired_keep; [|by apply same_tables]. intros q ls Hls. by exists ls. Qed.

Lemma peer_set_raft p rf x (s : System) : peer_of p s = Some x → peer_of p (set_raft p rf s) = Some (mkPeer rf (peers x)).
Proof. unfold peer_of. intros Hx. simpl. by rewrite list_lookup_alter_eq, Hx. Qed.

Lemma peer_set_raft_ne p q rf (s : System) : q ≠ p → peer_of q (set_raft p rf s) = peer_of q s.
Proof. unfold peer_of. intros Hne. simpl. by rewrite list_lookup_alter_ne. Qed.

(** A locked section, after which the ticker is at [pc]. *)
Lemma sim_section cs (s : System) c i m x rf pc :
  sim cs s c → members !! i = Some m → peer_of (m_ptr m) s = Some x →
  sim cs (set_ticker (m_ptr m) pc (set_raft (m_ptr m) rf s)) (set_inst i (mkInst rf pc) c).
Proof.
  intros S Hm Hx. eapply sim_peer; [exact S|exact Hm|apply wired_app, S|done..| |].
  - destruct (sm_peers _ _ _ S i m Hm) as (y & _ & Hy & _). rewrite Hx in Hy. injection Hy as ->.
    exact (peer_set_raft (m_ptr m) rf (mkPeer y (m_ends m)) s Hx).
  - intros p Hp. by apply (peer_set_raft_ne (m_ptr m) p rf s).
Qed.

Lemma sim_pc cs (s : System) c i m x pc :
  sim cs s c → members !! i = Some m → peer_of (m_ptr m) s = Some x →
  sim cs (set_ticker (m_ptr m) pc s) (set_inst i (mkInst (peer x) pc) c).
Proof.
  intros S Hm Hx. destruct (sm_peers _ _ _ S i m Hm) as (y & _ & Hy & _). rewrite Hx in Hy. injection Hy as ->.
  eapply sim_peer; [exact S|exact Hm|apply S|done..].
Qed.

(** The ticker stays where it is. *)
Lemma sim_raft cs (s : System) c i m x pc rf :
  sim cs s c → members !! i = Some m → insts c !! i = Some (mkInst x pc) →
  sim cs (set_raft (m_ptr m) rf s) (set_inst i (mkInst rf pc) c).
Proof.
  intros S Hm Hi. destruct (sm_peers _ _ _ S i m Hm) as (y & pc' & Hy & Hi' & Ht). rewrite Hi in Hi'. injection Hi' as <- <-.
  replace (set_raft (m_ptr m) rf s) with (set_ticker (m_ptr m) pc (set_raft (m_ptr m) rf s)); [by eapply sim_section|].
  destruct s as [w tk b th]. unfold set_ticker, set_raft, set_world. simpl in *. by rewrite insert_id.
Qed.

(** An election's count of votes. *)
Lemma sim_ballot cs (s : System) c e el ea votes :
  sim cs s c → ballots s !! e = Some el → elections c !! e = Some ea →
  sim cs (set_ballot e (mkElection (el_owner el) (el_args el) votes) s)
    (set_election e (mkElection (el_owner ea) (el_args ea) votes) c).
Proof.
  intros [Hw Hc Hi Hp Ht Hb Hn Hcl Hcs Hinj Hth] He Hea.
  destruct (Forall2_lookup_lr _ _ _ _ _ _ Hb He Hea) as (Eargs & _ & Hown).
  split; simpl; try done.
  - by apply Forall2_insert.
  - intros k cl Hk. destruct (Hcl k cl Hk) as (t & Ht' & Hsim). exists t. split; [done|].
    eapply call_sim_cluster; [|exact Hsim]. intros e' a. unfold args_at. simpl.
    destruct (decide (e' = e)) as [->|Hne]; [|by rewrite list_lookup_insert_ne].
    by rewrite list_lookup_insert_eq, Hea by by eapply lookup_lt_Some.
Qed.

(** A goroutine goes on, and its task with it. *)
Lemma sim_task cs (s : System) c t th th' task' c' :
  sim cs s c → threads s !! t = Some th →
  insts c' = insts c → current c' = current c → elections c' = elections c → next_task c' = next_task c →
  tasks c' !! t = task' → (∀ t', t' ≠ t → tasks c' !! t' = tasks c !! t') →
  thread_sim cs t th' task' →
  (∀ k cl, cs !! k = Some t → calls (sworld s) !! k = Some cl → call_sim c cl (tasks c !! t) → call_sim c cl task') →
  sim cs (set_thread t th' s) c'.
Proof.
  intros [Hw Hc Hi Hp Ht Hb Hn Hcl Hcs Hinj Hth] Hl Ei Ecur Ee En Et Hother Hth' Hcall.
  split; simpl; rewrite ?Ei, ?Ecur, ?Ee, ?En, ?length_insert; try done.
  - intros k cl Hk. destruct (Hcl k cl Hk) as (t' & Ht' & Hsim). exists t'. split; [done|].
    eapply (call_sim_cluster c); [by unfold args_at; rewrite Ee|].
    destruct (decide (t' = t)) as [->|Hne]; [|by rewrite Hother]. rewrite Et. by eapply Hcall.
  - intros t' th0. destruct (decide (t' = t)) as [->|Hne].
    + rewrite list_lookup_insert_eq by by eapply lookup_lt_Some. intros [= <-]. by rewrite Et.
    + rewrite list_lookup_insert_ne by done. rewrite Hother by done. apply Hth.
Qed.

(** A goroutine that ends leaves its task to whoever serves it. *)
Lemma sim_end cs (s : System) c t th : sim cs s c → threads s !! t = Some th → sim cs (set_thread t RaftNet.Ended s) c.
Proof. intros S Ht. eapply sim_task; [exact S|exact Ht|done..|by constructor|done]. Qed.

(** A [go] statement, and a loop of them. *)
Lemma sim_go cs (s : System) c th task :
  sim cs s c → (∀ t, (∀ k, cs !! k ≠ Some t) → thread_sim cs t th (Some task)) → sim cs (RaftNet.spawn [th] s) (go task c).
Proof.
  intros [Hw Hc Hi Hp Ht Hb Hn Hcl Hcs Hinj Hth] Hnew.
  assert (∀ k, cs !! k ≠ Some (length (threads s))) as Hno by (intros k [_ Hk]%Hcs; lia).
  split; simpl; try done.
  - rewrite length_app, Hn. simpl. lia.
  - intros k cl Hk. destruct (Hcl k cl Hk) as (t & Ht' & Hsim). exists t. split; [done|].
    rewrite lookup_insert_ne; [by eapply (call_sim_cluster c)|]. rewrite Hn. intros <-. by apply (Hno k).
  - intros k t Hk. destruct (Hcs k t Hk). rewrite length_app. lia.
  - intros t th0 [Hl|[Hle Hl]]%lookup_app_Some.
    + rewrite lookup_insert_ne; [by apply Hth|]. rewrite Hn. intros <-. apply lookup_lt_Some in Hl. lia.
    + apply list_lookup_singleton_Some in Hl as [E <-]. assert (t = next_task c) as -> by lia.
      rewrite lookup_insert_eq. apply Hnew. by rewrite Hn.
Qed.

Lemma sim_go_all cs {B} (l : list B) (f : B → thread) (h : B → Task) : ∀ (s : System) c,
  sim cs s c → (∀ b t, b ∈ l → (∀ k, cs !! k ≠ Some t) → thread_sim cs t (f b) (Some (h b))) →
  sim cs (RaftNet.spawn (f <$> l) s) (go_all (h <$> l) c).
Proof.
  induction l as [|b l IH]; intros s c S Hl.
  - destruct s as [w tk bs th]. unfold RaftNet.spawn. simpl. by rewrite app_nil_r.
  - replace (RaftNet.spawn (f <$> b :: l) s) with (RaftNet.spawn (f <$> l) (RaftNet.spawn [f b] s)).
    + apply IH; [|intros b' t Hb; apply Hl; by right]. apply sim_go; [done|]. intros t. apply Hl. by left.
    + unfold RaftNet.spawn. simpl. by rewrite <- app_assoc.
Qed.

(** A new election. *)
Lemma sim_elect cs (s : System) c i m args :
  sim cs s c → members !! i = Some m →
  sim cs (add_ballot (mkElection (m_ptr m) args 1) s) (add_election (mkElection i args 1) c).
Proof.
  intros [Hw Hc Hi Hp Ht Hb Hn Hcl Hcs Hinj Hth] Hm. split; simpl; try done.
  - apply Forall2_app; [done|]. constructor; [|done]. split_and!; [done|done|]. by exists m.
  - intros k cl Hk. destruct (Hcl k cl Hk) as (t & Ht' & Hsim). exists t. split; [done|].
    eapply call_sim_cluster; [|exact Hsim]. intros e a. unfold args_at. simpl. intros (el & Hel & Ha)%fmap_Some.
    by rewrite (lookup_app_l_Some _ _ _ _ Hel), Ha.
Qed.

(** ** The ticker *)
Lemma ticker_follows cs p r (s : System) c : sim cs s c → 0 <= r → follows c (ticker p r s).
Proof.
  intros S Hr. pose proof (follows_none cs s c S) as Hsame. unfold ticker, broadcastHeartbeats.
  destruct (peer_of p s) as [x|] eqn:Hx; [|done]. destruct (tickers s !! p) as [pc|] eqn:Hpc; [|done].
  destruct (sm_tickers _ _ _ S p pc Hpc) as (i & m & Hm & <-).
  destruct (sm_peers _ _ _ S i m Hm) as (y & pc' & Hy & Hi & Ht). rewrite Hx in Hy. injection Hy as ->.
  rewrite Hpc in Ht. injection Ht as <-. cbn [peer].
  assert (∀ c', tick i (clock s) r c = Some c' → RaftCluster.exec c (ATick i (clock s) r) = Some (Done c')) as Htick.
  { intros c' Htk. cbn [RaftCluster.exec]. by rewrite (proj2 (Z.leb_le _ _) Hr), Htk. }
  assert (∀ c', tick i (clock s) r c = Some c' → ∀ s', sim cs s' c' → follows c s') as Hfol.
  { intros c' Htk s' S'. apply (follows_one (ATick i (clock s) r) cs s' c c'); [done|by apply Htick|done]. }
  unfold tick in Hfol. rewrite Hi in Hfol. cbn [mbind option_bind RaftCluster.pc RaftCluster.raft] in Hfol. clear Htick.
  destruct pc as [|st|]; [| |done].
  - eapply Hfol; [reflexivity|]. apply (sim_pc cs s c i m (mkPeer y (m_ends m))); done.
  - assert (follows c (match start_election (clock s) r y with
      | (rf, None) => set_ticker (m_ptr m) TLoop (set_raft (m_ptr m) rf s)
      | (rf, Some args) => RaftNet.spawn (VoteCall (length (ballots s)) <$> other_peers rf)
          (add_ballot (mkElection (m_ptr m) args 1) (set_ticker (m_ptr m) TLoop (set_raft (m_ptr m) rf s)))
      end) ∧ st ≠ Leader ∨ st = Leader) as [[Hdone Hl]|Hl].
    { destruct (decide (st = Leader)) as [->|Hl]; [by right|left; split; [|done]].
      assert (∀ c', match start_election (clock s) r y with
        | (rf, None) => Some (set_inst i (mkInst rf TLoop) c)
        | (rf, Some args) => Some (go_all (VoteSent (length (elections c)) <$> other_peers rf)
            (add_election (mkElection i args 1) (set_inst i (mkInst rf TLoop) c)))
        end = Some c' → ∀ s', sim cs s' c' → follows c s') as Hf by (by destruct st).
      rewrite (Forall2_length _ _ _ (sm_ballots _ _ _ S)).
      destruct (start_election (clock s) r y) as [rf [args|]]; eapply Hf; [reflexivity| |reflexivity|].
      - apply sim_go_all; [|intros b t _ Hno; by constructor]. apply sim_elect; [|done]. by eapply sim_section.
      - exact (sim_section cs s c i m _ rf TLoop S Hm Hx). }
    { by destruct st. }
    subst st. eapply Hfol; [reflexivity|]. apply sim_go_all; [|intros b t _ Hno; by apply (ts_start _ _ i)].
    by apply (sim_pc cs s c i m (mkPeer y (m_ends m))).
Qed.

(** ** The goroutines that call *)
Lemma thread_sim_insert cs k t t' th task :
  cs !! k = None → t' ≠ t → thread_sim cs t' th task → thread_sim (<[k := t]> cs) t' th task.
Proof.
  intros Hk Hne.
  assert (∀ k', cs !! k' = Some t' → <[k := t]> cs !! k' = Some t') as Hyes.
  { intros k' H. rewrite lookup_insert_ne; [done|]. intros ->. by rewrite Hk in H. }
  assert ((∀ k', cs !! k' ≠ Some t') → ∀ k', <[k := t]> cs !! k' ≠ Some t') as Hno.
  { intros H k' [[_ E]|[_ E]]%lookup_insert_Some; [by apply Hne|by apply (H k')]. }
  intros H. destruct H; econstructor; eauto.
Qed.

Definition asked (x : Peer) (server : nat) (meth : string) (v : Val) (rq : @reqMsg Typ) : Prop :=
  ∃ e, peers x !! server = Some e ∧ rq = mkReqMsg (any_string e) meth (typeOf v) (encode v).1.

Lemma send_Done p server meth v (s s' : System) k :
  send encode decode typeOf p server meth v s = Done (k, s') →
  ∃ x rq, peer_of p s = Some x ∧ asked x server meth v rq ∧ k = length (calls (sworld s)) ∧
    let w := sworld s in
    s' = set_world (mkWorld (net w) (heap w) (app w) (calls w ++ [mkCall rq Sending None]) (executed w)) s.
Proof.
  unfold send. destruct (peer_of p s) as [x|]; [|done]. destruct (slice_get _ _) as [e| | |] eqn:He; try done.
  apply slice_get_Done in He as [_ He]. rewrite Nat2Z.id in He. cbn [mbind outcome_bind Labrpc.exec]. unfold Call_request.
  destruct (encode v) as [bs []] eqn:Eb; [|done]. cbn [mbind outcome_bind]. intros [= <- <-]. exists x, (mkReqMsg (any_string e) meth (typeOf v) bs).
  split_and!; [done| |done|done]. exists e. by rewrite Eb.
Qed.

Lemma asks_asked cs (s : System) c i m x server meth v rq :
  sim cs s c → members !! i = Some m → peer_of (m_ptr m) s = Some x → asked x server meth v rq → asks rq server meth v.
Proof.
  intros S Hm Hx (e & He & Hrq). destruct (sm_peers _ _ _ S i m Hm) as (y & _ & Hy & _). rewrite Hx in Hy. injection Hy as ->.
  exists m, e. split_and!; [by eapply list_elem_of_lookup_2|done|done].
Qed.

(** A call is made. *)
Lemma sim_send cs (s : System) c t th th' task rq :
  let w := sworld s in let k := length (calls w) in
  sim cs s c → threads s !! t = Some th → (∀ k, cs !! k ≠ Some t) → tasks c !! t = Some task →
  call_sim c (mkCall rq Sending None) (Some task) → (∀ cs', cs' !! k = Some t → thread_sim cs' t th' (Some task)) →
  sim (<[k := t]> cs) (set_thread t th' (set_world
    (mkWorld (net w) (heap w) (app w) (calls w ++ [mkCall rq Sending None]) (executed w)) s)) c.
Proof.
  intros w k [Hw Hc Hi Hp Ht Hb Hn Hcl Hcs Hinj Hth] Hl Hno Htask Hcall Hth'.
  assert (cs !! k = None) as Hk by (apply eq_None_not_Some; intros [t0 [H _]%Hcs]; unfold k, w in H; lia).
  split; simpl; rewrite ?length_insert; try done.
  - apply (wired_keep w); [|by apply same_tables|done]. intros q ls Hls. by exists ls.
  - intros k' cl [Hk'|[Hle Hk']]%lookup_app_Some.
    + destruct (Hcl k' cl Hk') as (t' & Ht' & Hsim). exists t'. split; [|done]. rewrite lookup_insert_ne; [done|].
      intros E. rewrite <- E, Hk in Ht'. done.
    + apply list_lookup_singleton_Some in Hk' as [E <-]. assert (k' = k) as -> by (unfold k, w in *; lia).
      exists t. rewrite lookup_insert_eq, Htask. done.
  - intros k' t' [[<- <-]|[_ H]]%lookup_insert_Some.
    + rewrite length_app. split; [unfold k, w in *; cbn [length]; lia|by eapply lookup_lt_Some].
    + destruct (Hcs k' t' H). rewrite length_app. unfold w in *. lia.
  - intros k1 k2 t' [[<- <-]|[_ H1]]%lookup_insert_Some [[<- E]|[_ H2]]%lookup_insert_Some; [done| | |by eapply Hinj].
    + by destruct (Hno k2).
    + subst t'. by destruct (Hno k1).
  - intros t' th0. destruct (decide (t' = t)) as [->|Hne].
    + rewrite list_lookup_insert_eq by by eapply lookup_lt_Some. intros [= <-]. rewrite Htask. apply Hth'. apply lookup_insert_eq.
    + rewrite list_lookup_insert_ne by done. intros H. apply thread_sim_insert; [done|done|]. by apply Hth.
Qed.

(** A call that was answered. *)
Lemma answer_Returns t k (s : System) v : answer_of decode t k s = Done (Returns v) →
  ∃ cl r, calls (sworld s) !! k = Some cl ∧ at_phase cl = Answered r ∧ ok r = true ∧ decode t (reply r) = (v, true).
Proof.
  unfold answer_of. destruct (calls (sworld s) !! k) as [cl|]; [|done]. cbn [fmap option_fmap option_map].
  destruct (at_phase cl) as [| | | | | |r|] eqn:Ep; try done. unfold Call_result. destruct (ok r) eqn:Eo; [|done].
  destruct (decode t (reply r)) as [v' []] eqn:Ed; [|done]. intros [= <-]. by exists cl, r.
Qed.

Lemma unserved_fails q h r : unserved q h (Answered r) → ok r = false.
Proof. by intros [-> _]. Qed.

Lemma served_reply R h r : served R h (Answered r) → ok r = true → reply r = reply R.
Proof. intros [_ [->| ->]]; done. Qed.

(** The task of a goroutine that waits. *)
Lemma vote_waits cs t e sv k o : thread_sim cs t (VoteWait e sv k) o →
  cs !! k = Some t ∧ (o = Some (VoteSent e sv) ∨ ∃ reply, o = Some (VoteReplied e sv reply)).
Proof. intros H. inversion H; subst; (split; [done|]); [by left|right; by eexists]. Qed.

Lemma beat_waits cs t p sv k o : thread_sim cs t (HbWait p sv k) o →
  ∃ i m, members !! i = Some m ∧ p = m_ptr m ∧ cs !! k = Some t ∧
    ((∃ args, o = Some (HbSent i sv args)) ∨ ∃ reply, o = Some (HbReplied i sv reply)).
Proof.
  intros H. inversion H as [| | | | |i m ? ? args|i m ? ? reply|]; subst; exists i, m;
    (split_and!; [done..|]); [left; by exists args|right; by exists reply].
Qed.

(** The reply is the one that the handler made. *)
Lemma vote_returns cs (s : System) c t e sv k v :
  sim cs s c → threads s !! t = Some (VoteWait e sv k) →
  answer_of decode (typeOf (VoteReply empty_vote_reply)) k s = Done (Returns v) →
  ∃ reply, v = VoteReply reply ∧ tasks c !! t = Some (VoteReplied e sv reply) ∧ cs !! k = Some t.
Proof.
  intros S Ht (cl & r & Hk & Hp & Hok & Hd)%answer_Returns. destruct (sm_calls _ _ _ S k cl Hk) as (t' & Hk' & Hsim).
  destruct (vote_waits _ _ _ _ _ _ (sm_threads _ _ _ S t _ Ht)) as [Hck Htask]. rewrite Hk' in Hck. injection Hck as ->.
  destruct Htask as [E|[reply E]]; rewrite E in Hsim.
  - inversion Hsim as [e0 sv0 args m _ _ _ Hu| | | |]; subst. rewrite Hp in Hu. apply unserved_fails in Hu. congruence.
  - inversion Hsim as [|e0 sv0 reply0 Hs| | |]; subst. rewrite Hp in Hs. exists reply. split; [|done].
    rewrite (served_reply _ _ _ Hs Hok), (vote_type _ reply) in Hd. destruct (codec (VoteReply reply)) as [_ Hc].
    cbn [vote_msg Labrpc.reply] in Hd. rewrite Hc in Hd. by injection Hd as <-.
Qed.

Lemma entries_returns cs (s : System) c t p sv k v :
  sim cs s c → threads s !! t = Some (HbWait p sv k) →
  answer_of decode (typeOf (EntriesReply empty_append_reply)) k s = Done (Returns v) →
  ∃ i m reply, v = EntriesReply reply ∧ members !! i = Some m ∧ p = m_ptr m ∧
    tasks c !! t = Some (HbReplied i sv reply) ∧ cs !! k = Some t.
Proof.
  intros S Ht (cl & r & Hk & Hp & Hok & Hd)%answer_Returns. destruct (sm_calls _ _ _ S k cl Hk) as (t' & Hk' & Hsim).
  destruct (beat_waits _ _ _ _ _ _ (sm_threads _ _ _ S t _ Ht)) as (i & m & Hm & -> & Hck & Htask).
  rewrite Hk' in Hck. injection Hck as ->. destruct Htask as [[args E]|[reply E]]; rewrite E in Hsim.
  - inversion Hsim as [| |o sv0 args0 m0 _ _ Hu| |]; subst. rewrite Hp in Hu. apply unserved_fails in Hu. congruence.
  - inversion Hsim as [| | |o sv0 reply0 Hs|]; subst. rewrite Hp in Hs. exists i, m, reply. split; [|done].
    rewrite (served_reply _ _ _ Hs Hok), (entries_type _ reply) in Hd. destruct (codec (EntriesReply reply)) as [_ Hc].
    cbn [entries_msg Labrpc.reply] in Hd. rewrite Hc in Hd. by injection Hd as <-.
Qed.

(** A goroutine whose call has returned a reply ends, and nobody serves its task any more. *)
Lemma sim_returned cs (s : System) c t th k task :
  sim cs s c → threads s !! t = Some th → cs !! k = Some t → tasks c !! t = Some task →
  match task with VoteReplied _ _ _ | HbReplied _ _ _ => True | _ => False end →
  sim cs (set_thread t RaftNet.Ended s) (del_task t c).
Proof.
  intros S Ht Hk Htask Hkind. eapply sim_task; [exact S|exact Ht|done..| | | |].
  - simpl. by rewrite lookup_delete_eq.
  - intros t' Hne. simpl. by rewrite lookup_delete_ne.
  - constructor.
  - intros k' cl _ _ Hsim. rewrite Htask in Hsim.
    inversion Hsim as [|e sv reply Hs| |o sv reply Hs|]; subst; [done|by eapply cs_over|done|by eapply cs_over].
Qed.

(** Whoever is asked through a member's end is a member. *)
Lemma asked_member cs (s : System) c i m x sv meth v rq :
  sim cs s c → members !! i = Some m → peer_of (m_ptr m) s = Some x → asked x sv meth v rq → ∃ m', members !! sv = Some m'.
Proof.
  intros S Hm Hx (e & He & _). destruct (sm_peers _ _ _ S i m Hm) as (y & _ & Hy & _). rewrite Hx in Hy. injection Hy as ->.
  apply lookup_lt_is_Some_2. rewrite <- (all_ends m) by by eapply list_elem_of_lookup_2. by eapply lookup_lt_Some.
Qed.

Lemma ballot_owner cs (s : System) c e el : sim cs s c → ballots s !! e = Some el →
  ∃ ea m x pc, elections c !! e = Some ea ∧ el_args ea = el_args el ∧ el_votes ea = el_votes el ∧
    members !! el_owner ea = Some m ∧ el_owner el = m_ptr m ∧ peer_of (m_ptr m) s = Some (mkPeer x (m_ends m)) ∧
    insts c !! el_owner ea = Some (mkInst x pc).
Proof.
  intros S He. destruct (Forall2_lookup_l _ _ _ _ _ (sm_ballots _ _ _ S) He) as (ea & Hea & E1 & E2 & m & Hm & Hp).
  destruct (sm_peers _ _ _ S _ m Hm) as (x & pc & Hx & Hi & _). exists ea, m, x, pc. by split_and!.
Qed.

Lemma count_vote_follows cs (s : System) c t e sv k reply :
  sim cs s c → threads s !! t = Some (VoteWait e sv k) → tasks c !! t = Some (VoteReplied e sv reply) → cs !! k = Some t →
  follows c (set_thread t RaftNet.Ended (count_vote e reply s)).
Proof.
  intros S Ht Htask Hk. unfold count_vote. destruct (ballots s !! e) as [el|] eqn:He; [|by eapply follows_none, sim_end].
  destruct (ballot_owner _ _ _ _ _ S He) as (ea & m & x & pc & Hea & Ea & Ev & Hm & Hown & Hx & Hi).
  rewrite Hown, Hx. cbn [peer]. destruct (vote_reply (el_args el) reply x (el_votes el)) as [rf votes] eqn:Ev'.
  apply (follows_one (AReturn t) cs _ c (del_task t (set_election e (mkElection (el_owner ea) (el_args ea) votes)
    (set_inst (el_owner ea) (mkInst rf pc) c)))); [done| |].
  - cbn [RaftCluster.exec]. unfold return_reply. rewrite Htask. cbn [mbind option_bind]. rewrite Hea. cbn [mbind option_bind].
    rewrite Hi. cbn [mbind option_bind RaftCluster.raft RaftCluster.pc]. by rewrite Ea, Ev, Ev'.
  - eapply (sim_returned cs _ _ t (VoteWait e sv k) k); [|exact Ht|exact Hk|exact Htask|done]. rewrite <- Hown.
    eapply sim_ballot; [|exact He|exact Hea]. rewrite Hown. by eapply sim_raft.
Qed.

Lemma go_follows cs t (s s' : System) c : sim cs s c → go_on encode decode typeOf t s = Done s' → follows c s'.
Proof.
  intros S. pose proof (follows_none cs s c S) as Hsame. unfold go_on, vote_goroutine, heartbeat_goroutine, sendRequestVote, sendAppendEntries.
  destruct (threads s !! t) as [th|] eqn:Ht; [|by intros [= <-]]. pose proof (sm_threads _ _ _ S t _ Ht) as Hth.
  destruct th as [e sv|e sv k|p sv|p sv args|p sv k|].
  - destruct (ballots s !! e) as [el|] eqn:He; [|by intros [= <-]].
    destruct (ballot_owner _ _ _ _ _ S He) as (ea & m & y & pc & Hea & Ea & _ & Hm & Hown & _).
    destruct (send _ _ _ _ _ _ _ s) as [[k s1]| | |] eqn:Hsend; try done. cbn [mbind outcome_bind]. intros [= <-].
    apply send_Done in Hsend as (x & rq & Hx & Hrq & -> & ->). rewrite Hown in Hx.
    destruct (asked_member _ _ _ _ _ _ _ _ _ _ S Hm Hx Hrq) as [m' Hm'].
    inversion Hth as [e0 sv0 Hno E0 Etask| | | | | | |]; subst. eapply follows_none, sim_send; [exact S|exact Ht|exact Hno|done| |].
    + eapply cs_vote; [unfold args_at; by rewrite Hea|rewrite Ea; exact (asks_asked cs s c _ m x _ _ _ _ S Hm Hx Hrq)|exact Hm'|done].
    + intros cs' Hk. by constructor.
  - destruct (answer_of _ _ _ s) as [[| |v]| | |] eqn:Ha; try done; cbn [mbind outcome_bind].
    + by intros [= <-].
    + intros [= <-]. by eapply follows_none, sim_end.
    + destruct (vote_returns _ _ _ _ _ _ _ _ S Ht Ha) as (reply & -> & Htask & Hk). intros [= <-].
      by eapply count_vote_follows.
  - destruct (peer_of p s) as [x|] eqn:Hx; [|by intros [= <-]]. intros [= <-].
    inversion Hth as [| | |i m sv0 Hm Hno E0 Etask| | | |]; subst.
    destruct (sm_peers _ _ _ S i m Hm) as (y & pc & Hy & Hi & _). rewrite Hx in Hy. injection Hy as ->. cbn [peer].
    assert (RaftCluster.exec c (AHeartbeat t) = Some (Done (match heartbeat_args y with
      | None => del_task t c | Some args => set_task t (HbSent i sv args) c end))) as Hexec.
    { cbn [RaftCluster.exec]. unfold run_heartbeat. rewrite <- Etask. cbn [mbind option_bind]. by rewrite Hi. }
    eapply (follows_one (AHeartbeat t) cs); [done|exact Hexec|].
    assert (∀ k cl, cs !! k = Some t → calls (sworld s) !! k = Some cl → False) as Hnone by (intros k cl Hk; by destruct (Hno k)).
    destruct (heartbeat_args y) as [args|]; (eapply sim_task; [exact S|exact Ht|done..|reflexivity| | |]).
    + intros t' Hne. simpl. by rewrite lookup_insert_ne.
    + simpl. rewrite lookup_insert_eq. by constructor.
    + intros k cl Hk Hcl. by destruct (Hnone k cl).
    + intros t' Hne. simpl. by rewrite lookup_delete_ne.
    + constructor.
    + intros k cl Hk Hcl. by destruct (Hnone k cl).
  - destruct (send _ _ _ _ _ _ _ s) as [[k s1]| | |] eqn:Hsend; try done. cbn [mbind outcome_bind]. intros [= <-].
    apply send_Done in Hsend as (x & rq & Hx & Hrq & -> & ->). inversion Hth as [| | | |i m sv0 args0 Hm Hno E0 Etask| | |]; subst.
    destruct (asked_member _ _ _ _ _ _ _ _ _ _ S Hm Hx Hrq) as [m' Hm'].
    eapply follows_none, sim_send; [exact S|exact Ht|exact Hno|done| |].
    + eapply cs_beat; [exact (asks_asked cs s c _ m x _ _ _ _ S Hm Hx Hrq)|exact Hm'|done].
    + intros cs' Hk. by constructor.
  - destruct (answer_of _ _ _ s) as [[| |v]| | |] eqn:Ha; try done; cbn [mbind outcome_bind].
    + by intros [= <-].
    + intros [= <-]. by eapply follows_none, sim_end.
    + destruct (entries_returns _ _ _ _ _ _ _ _ S Ht Ha) as (i & m & reply & -> & Hm & -> & Htask & Hk).
      destruct (sm_peers _ _ _ S i m Hm) as (y & pc & Hy & Hi & _). rewrite Hy. intros [= <-]. cbn [peer].
      apply (follows_one (AReturn t) cs _ c (del_task t (set_inst i (mkInst (heartbeat_reply reply y) pc) c))); [done| |].
      * cbn [RaftCluster.exec]. unfold return_reply. rewrite Htask. cbn [mbind option_bind]. by rewrite Hi.
      * eapply (sim_returned cs _ _ t (HbWait (m_ptr m) sv k) k); [|exact Ht|exact Hk|exact Htask|done]. by eapply sim_raft.
  - by intros [= <-].
Qed.

(** ** A handler is run for the group *)
Lemma thread_voted cs t k th e sv reply : cs !! k = Some t → thread_sim cs t th (Some (VoteSent e sv)) →
  thread_sim cs t th (Some (VoteReplied e sv reply)).
Proof. intros Hk H. inversion H as [e0 sv0 Hno|e0 sv0 k0 Hk0| | | | | |]; subst; [by destruct (Hno k)|by constructor|constructor]. Qed.

Lemma thread_beaten cs t k th i sv args reply : cs !! k = Some t → thread_sim cs t th (Some (HbSent i sv args)) →
  thread_sim cs t th (Some (HbReplied i sv reply)).
Proof.
  intros Hk H. inversion H as [| | | |i0 m sv0 args0 Hm Hno|i0 m sv0 k0 args0 Hm Hk0| |]; subst;
    [by destruct (Hno k)|by constructor|constructor].
Qed.

(** The call is served, and its task with it. *)
Lemma sim_serve cs (s : System) c k t R w' task :
  sim cs s c → cs !! k = Some t → dispatched k R (sworld s) w' → app w' = app (sworld s) →
  (∀ th, thread_sim cs t th (tasks c !! t) → thread_sim cs t th (Some task)) →
  (∀ cl, served R (handler cl) (at_phase cl) → call_sim c cl (Some task)) →
  sim cs (set_world w' s) (set_task t task c).
Proof.
  intros [Hw Hc Hi Hp Ht Hb Hn Hcl Hcs Hinj Hth] Hk [Dw Dl (cl' & Hcl' & Hs) Do] Ea Hthr Hcall.
  split; simpl; try done.
  - by apply Dw.
  - intros i m Hm. unfold peer_of. simpl. rewrite Ea. by apply Hp.
  - intros k' cl Hk'. destruct (decide (k' = k)) as [->|Hne].
    + exists t. split; [done|]. rewrite lookup_insert_eq. rewrite Hcl' in Hk'. injection Hk' as <-.
      by eapply (call_sim_cluster c); [|apply Hcall].
    + rewrite Do in Hk' by done. destruct (Hcl k' cl Hk') as (t' & Ht' & Hsim). exists t'. split; [done|].
      rewrite lookup_insert_ne; [by eapply (call_sim_cluster c)|]. intros <-. by apply Hne, (Hinj k' k t).
  - intros k' t' H. rewrite Dl. by apply Hcs.
  - intros t' th Hl. destruct (decide (t' = t)) as [->|Hne].
    + rewrite lookup_insert_eq. by apply Hthr, Hth.
    + rewrite lookup_insert_ne by done. by apply Hth.
Qed.

(** A handler changed the peer of member [i], and the call is served. *)
Lemma sim_handle cs (s : System) c k t R w' i m x pc rf task :
  sim cs s c → cs !! k = Some t → members !! i = Some m → insts c !! i = Some (mkInst x pc) →
  dispatched k R (sworld s) w' →
  app w' = set_rafts (<[m_ptr m := mkPeer rf (m_ends m)]> (rafts (app (sworld s)))) (app (sworld s)) →
  (∀ th, thread_sim cs t th (tasks c !! t) → thread_sim cs t th (Some task)) →
  (∀ c cl, served R (handler cl) (at_phase cl) → call_sim c cl (Some task)) →
  sim cs (set_world w' s) (set_task t task (set_inst i (mkInst rf pc) c)).
Proof.
  intros S Hk Hm Hi [Dw Dl Dc Do] Ea Hthr Hcall. set (w0 := on_app (λ _, app w') (sworld s)).
  destruct (sm_peers _ _ _ S i m Hm) as (y & pc' & Hy & Hi' & Htk). rewrite Hi in Hi'. injection Hi' as <- <-.
  assert (sim cs (set_world w0 s) (set_inst i (mkInst rf pc) c)) as S0.
  { eapply sim_peer; [exact S|exact Hm|apply wired_app, S|done|done|done| | |].
    - simpl. by rewrite insert_id.
    - unfold peer_of in *. simpl. rewrite Ea. simpl. apply list_lookup_insert_eq. by eapply lookup_lt_Some.
    - intros p Hp. unfold peer_of. simpl. rewrite Ea. simpl. by apply list_lookup_insert_ne. }
  change (set_world w' s) with (set_world w' (set_world w0 s)).
  apply (sim_serve cs (set_world w0 s) _ k t R); [exact S0|exact Hk| |done|exact Hthr|apply Hcall].
  split; [|exact Dl|exact Dc|exact Do]. intros _. by apply Dw, S.
Qed.

Lemma set_same_world (s : System) : set_world (sworld s) s = s.
Proof. by destruct s. Qed.

Lemma serving_member cs (s : System) c sv m : sim cs s c → members !! sv = Some m → RaftCluster.current c !! sv = Some sv.
Proof. intros S Hm. rewrite (sm_current _ _ _ S). apply lookup_seq. split; [done|by eapply lookup_lt_Some]. Qed.

Lemma dispatch_follows cs k (s : System) c w' :
  sim cs s c → exec_net (Dispatch k) (sworld s) = Done w' → follows c (set_world w' s).
Proof.
  intros S He. assert (w' = sworld s → follows c (set_world w' s)) as Hidle.
  { intros ->. rewrite set_same_world. by eapply follows_none. }
  destruct (calls (sworld s) !! k) as [cl|] eqn:Hk; [|cbn [Labrpc.exec] in He; rewrite Hk in He; injection He as <-; by apply Hidle].
  destruct (sm_calls _ _ _ S k cl Hk) as (t & Hcs & Hsim). destruct (tasks c !! t) as [task|] eqn:Htask.
  2: { inversion Hsim as [| | | |R [Hh _]]; subst. by apply Hidle, (dispatch_idle k cl). }
  inversion Hsim as [e sv args m Ha Hq Hm Hu|e sv reply [Hh _]|o sv args m Hq Hm Hu|o sv reply [Hh _]|]; subst.
  - destruct (sm_peers _ _ _ S sv m Hm) as (x & pc & Hx & Hi & _).
    destruct (dispatch_runs k cl sv m "RequestVote" (Raft_RequestVote (m_ptr m)) (VoteArgs args) _ w' (sm_wired _ _ _ S) Hk Hq Hm Hu)
      as [->|(v' & a' & Hf & Hap & D)]; [by vm_compute; set_solver|reflexivity|exact He|by apply Hidle|].
    unfold Raft_RequestVote, with_peer in Hf. unfold peer_of in Hx. rewrite Hx in Hf. cbn [mbind outcome_bind peer peers] in Hf.
    destruct (RequestVote (now (app (sworld s))) x args empty_vote_reply) as [rf reply] eqn:Hrv. injection Hf as <- <-.
    unfold args_at in Ha. apply fmap_Some in Ha as (ea & Hea & ->).
    apply (follows_one (AHandle t (clock s)) cs _ c (set_task t (VoteReplied e sv reply) (set_inst sv (mkInst rf pc) c))); [done| |].
    + cbn [RaftCluster.exec]. unfold handle. rewrite Htask. cbn [mbind option_bind]. rewrite Hea. cbn [mbind option_bind].
      rewrite (serving_member _ _ _ _ _ S Hm). cbn [mbind option_bind]. rewrite Hi. cbn [mbind option_bind RaftCluster.raft RaftCluster.pc].
      unfold clock. by rewrite Hrv.
    + eapply sim_handle; [exact S|exact Hcs|exact Hm|exact Hi|exact D|exact Hap| |].
      * intros th. rewrite Htask. by apply (thread_voted cs t k).
      * intros c0 cl0 Hs. by constructor.
  - by apply Hidle, (dispatch_idle k cl).
  - destruct (sm_peers _ _ _ S sv m Hm) as (x & pc & Hx & Hi & _).
    destruct (dispatch_runs k cl sv m "AppendEntries" (Raft_AppendEntries (m_ptr m)) (EntriesArgs args) _ w' (sm_wired _ _ _ S) Hk Hq Hm Hu)
      as [->|(v' & a' & Hf & Hap & D)]; [by vm_compute; set_solver|reflexivity|exact He|by apply Hidle|].
    unfold Raft_AppendEntries, with_peer in Hf. unfold peer_of in Hx. rewrite Hx in Hf. cbn [mbind outcome_bind peer peers] in Hf.
    destruct (AppendEntries (now (app (sworld s))) x args empty_append_reply) as [[rf reply]| | |] eqn:Hae; try done.
    cbn [mbind outcome_bind] in Hf. injection Hf as <- <-.
    apply (follows_one (AHandle t (clock s)) cs _ c (set_task t (HbReplied o sv reply) (set_inst sv (mkInst rf pc) c))); [done| |].
    + cbn [RaftCluster.exec]. unfold handle. rewrite Htask. cbn [mbind option_bind].
      rewrite (serving_member _ _ _ _ _ S Hm). cbn [mbind option_bind]. rewrite Hi. cbn [mbind option_bind RaftCluster.raft RaftCluster.pc].
      unfold clock. by rewrite Hae.
    + eapply sim_handle; [exact S|exact Hcs|exact Hm|exact Hi|exact D|exact Hap| |].
      * intros th. rewrite Htask. by apply (thread_beaten cs t k).
      * intros c0 cl0 Hs. by constructor.
  - by apply Hidle, (dispatch_idle k cl).
Qed.

(** ** Every step *)

(** The world changes, but not the peers. *)
Lemma sim_world cs (s : System) c w' :
  sim cs s c → wired w' → (∀ i m, members !! i = Some m → rafts (app w') !! m_ptr m = peer_of (m_ptr m) s) →
  steps_on (sworld s) w' → length (calls w') = length (calls (sworld s)) → sim cs (set_world w' s) c.
Proof.
  intros [Hw Hc Hi Hp Ht Hb Hn Hcl Hcs Hinj Hth] Hw' Hr Hst Hl. split; simpl; try done.
  - intros i m Hm. unfold peer_of. simpl. rewrite (Hr i m Hm). by apply Hp.
  - intros k cl' (cl & Hk & Hg)%Hst. destruct (Hcl k cl Hk) as (t & Ht' & Hsim). exists t. split; [done|].
    by eapply call_sim_goes_on.
  - intros k t H. rewrite Hl. by apply Hcs.
Qed.

Lemma kill_follows cs p (s : System) c : sim cs s c →
  follows c (set_world (on_app (λ a, set_rafts (alter (λ x, mkPeer (Kill (peer x)) (peers x)) p (rafts a)) a) (sworld s)) s).
Proof.
  intros S. destruct (decide (p ∈ m_ptr <$> members)) as [(m & -> & [i Hm]%list_elem_of_lookup)%list_elem_of_fmap|Hno].
  - destruct (sm_peers _ _ _ S i m Hm) as (x & pc & Hx & Hi & Htk).
    apply (follows_one (AKill i) cs _ c (set_inst i (mkInst (Kill x) pc) c)); [done| |].
    + cbn [RaftCluster.exec]. unfold kill. by rewrite Hi.
    + eapply sim_peer; [exact S|exact Hm|apply wired_app, S|done|done|done| | |].
      * simpl. by rewrite insert_id.
      * unfold peer_of in *. simpl. by rewrite list_lookup_alter_eq, Hx.
      * intros q Hq. unfold peer_of. simpl. by rewrite list_lookup_alter_ne.
  - eapply follows_none, sim_world; [exact S|apply wired_app, S| |apply (q_calls _ _ (quiet_refl (sworld s)))|done].
    intros i m Hm. simpl. rewrite list_lookup_alter_ne; [done|]. intros E. apply Hno. rewrite E. apply list_elem_of_fmap_2. by eapply list_elem_of_lookup_2.
Qed.

Lemma step_follows cs e (s s' : System) c :
  sim cs s c → (∀ a, e = Net a → harmless a) → exec_step encode decode typeOf e s = Done s' → follows c s'.
Proof.
  intros S Ha. destruct e as [t|p r|t|a|p]; cbn [exec_step].
  - intros [= <-]. eapply follows_none, sim_world; [exact S|apply wired_app, S|done|apply (q_calls _ _ (quiet_refl (sworld s)))|done].
  - intros [= <-]. destruct (Z.leb_spec 0 r); [by eapply ticker_follows|by eapply follows_none].
  - by apply (go_follows cs).
  - specialize (Ha a eq_refl). destruct (exec_net a (sworld s)) as [w'| | |] eqn:He; try done. intros [= <-].
    assert ((∃ k, a = Dispatch k) ∨ ∀ k, a ≠ Dispatch k) as [[k ->]|Hno] by (destruct a; eauto); [by eapply dispatch_follows|].
    destruct (exec_quiet a _ _ Ha Hno (sm_wired _ _ _ S) He) as [Qw Qa Qc Ql].
    eapply follows_none, sim_world; [exact S|by apply Qw, S|by rewrite Qa|exact Qc|exact Ql].
  - intros [= <-]. by apply (kill_follows cs).
Qed.

Lemma run_follows es : ∀ cs (s s' : System) c,
  sim cs s c → (∀ a, Net a ∈ es → harmless a) → run_steps encode decode typeOf es s = Done s' →
  ∃ tr c' cs', no_restart tr ∧ (length tr <= length es)%nat ∧ RaftCluster.run c tr = Some (Done c') ∧ sim cs' s' c'.
Proof.
  induction es as [|e es IH]; intros cs s s' c S Ha.
  - intros [= <-]. exists [], c, cs. split_and!; [constructor|done|done|done].
  - unfold run_steps. cbn [for_each]. destruct (exec_step _ _ _ e s) as [s1| | |] eqn:He; try done. cbn [mbind outcome_bind].
    intros Hrun. destruct (step_follows cs e s s1 c S) as (tr1 & c1 & cs1 & N1 & L1 & R1 & S1); [|done|].
    { intros a ->. apply Ha. by left. }
    destruct (IH cs1 s1 s' c1 S1) as (tr2 & c2 & cs2 & N2 & L2 & R2 & S2); [|done|].
    { intros a Hin. apply Ha. by right. }
    exists (tr1 ++ tr2), c2, cs2. split_and!; [by apply Forall_app|rewrite length_app; simpl; lia| |done].
    clear - R1 R2. revert c R1. induction tr1 as [|b tr1 IH]; intros c R1; simpl in *; [by injection R1 as ->|].
    destruct (RaftCluster.exec c b) as [[c0| | |]|]; try done. by apply IH.
Qed.
End Net.
