(* ===== verification/RaftNetProps.v ===== *)
(** * RaftNetProps: a group of the program on the network is a cluster

    In a group that the tester started with the program's own servers the peers are
    wired as [RaftNetSim] needs it. So every run of the peers on the simulated network is a
    run of [RaftCluster], and what was proved there holds of the group. *)

From S2P Require Import Prelude Persister Labrpc LabrpcSafety Group GroupProps GroupStart Raft RaftCluster RaftSafety Labgob LabgobProps.
From S2P Require Import Services ServicesProps RfTest RaftNet RaftNetSim.
From Stdlib Require Import Strings.Byte.

Local Open Scope Z_scope.

(** ** The group that was started *)

(** A server with a peer that has just been made. *)
Definition fresh_raft (g : Z) (cl : list string) (i : Z) (p : nat) (sv : list Svc) (a : App) : Prop :=
  ∃ k r, sv = [k; RaftPeer r] ∧ rafts a !! r = Some (mkPeer (Make (length cl) i []) cl).

(** The kinds of servers that have one: those of kvraft1, of the shard groups, and of the Raft tests. *)
Inductive raft_server (n : nat) : start_fun → Prop :=
| starts_kvraft IsUpper maxr : (∀ b, 65 <= b <= 90 → IsUpper b = true) → raft_server n (kvraft_StartKVServer IsUpper false maxr)
| starts_shardgrp IsUpper maxr : (∀ b, 65 <= b <= 90 → IsUpper b = true) → raft_server n (StartServerShardGrp IsUpper false maxr)
| starts_rfsrv unpack snapshot : raft_server n (mksrv unpack n snapshot).

(** The persisters of a Raft test. *)
#[program] Definition test_persister (unpack : list byte → option (Z * list any)) (snap : bool) : Usable :=
  {| usable := restorable unpack snap |}.
Next Obligation. intros unpack snap st p (ps & Hps & _). by eexists. Qed.
Next Obligation.
  intros unpack snap st. simpl. split.
  - eexists. simpl. rewrite lookup_insert_eq. split_and!; [done|done|]. intros _. by left.
  - intros q (ps & Hps & Hq). exists ps. simpl. rewrite lookup_insert_ne; [done|].
    intros E. by rewrite <- E, fresh_persister in Hps.
Qed.
Next Obligation.
  intros unpack snap st p p' st' (ps & Hps & Hp) (ps' & Hps' & Hnp & ->)%Copy_inv. rewrite Hps in Hps'. injection Hps' as <-. split.
  - exists ps. simpl. by rewrite lookup_insert_eq.
  - intros q (qs & Hqs & Hq). exists qs. simpl. rewrite lookup_insert_ne by congruence. done.
Qed.

Lemma fresh_raft_new g cl i p x l (a : App) :
  fresh_raft g cl i p [x; RaftPeer (length (rafts a))] (set_rafts (rafts a ++ [mkPeer (Make (length cl) i []) cl]) (set_lab l a)).
Proof. exists x, (length (rafts a)). split; [done|]. apply lookup_last. Qed.

Lemma fresh_raft_kept a a' : rafts a `prefix_of` rafts a' → made_kept fresh_raft a a'.
Proof. intros Hpre g cl i p sv (k & r & -> & Hr). exists k, r. split; [done|]. by eapply prefix_lookup_Some. Qed.

Lemma fresh_starts n mks : raft_server n mks → ∃ persisted, starts_n (persisted := persisted) mks fresh_raft n.
Proof.
  intros [IsUpper maxr Hcap|IsUpper maxr Hcap|unpack snapshot].
  - exists any_persister. intros cl g i p st a Hn Hi Hp. unfold kvraft_StartKVServer.
    destruct (kvraft_registers IsUpper Hcap a) as [l ->]. cbn [mbind outcome_bind].
    destruct (MakeRSM_new cl i p maxr st (set_lab l a) Hp) as (st' & -> & Hst). cbn [mbind outcome_bind].
    eexists [_; RaftPeer _], st', _. split; [reflexivity|]. split_and!; [exact (fresh_raft_new g cl i p _ l _)| |exact Hst].
    apply fresh_raft_kept. by eexists.
  - exists any_persister. intros cl g i p st a Hn Hi Hp. unfold StartServerShardGrp.
    destruct (shardgrp_registers IsUpper Hcap a) as [l ->]. cbn [mbind outcome_bind].
    destruct (MakeRSM_new cl i p maxr st (set_lab l a) Hp) as (st' & -> & Hst). cbn [mbind outcome_bind].
    eexists [_; RaftPeer _], st', _. split; [reflexivity|]. split_and!; [exact (fresh_raft_new g cl i p _ l _)| |exact Hst].
    apply fresh_raft_kept. by eexists.
  - exists (test_persister unpack snapshot). intros cl g i p st a Hn Hi Hp.
    destruct (mksrv_runs unpack n snapshot cl g i p st a Hi Hp) as (st' & a' & s & -> & [Hx Hst] & -> & _).
    eexists [_; RaftPeer _], st', _. split; [reflexivity|]. split_and!; [|apply fresh_raft_kept; by eexists|].
    + eexists _, _. split; [reflexivity|]. cbn. apply lookup_last.
    + intros q. by apply restorable_extends.
Qed.

Section Group.
Context (g : Z) (n : nat) (sg : @ServerGrp Svc).

Definition raft_pointer (s : @Srv Svc) : option nat := match svcs s with [_; Some (RaftPeer r)] => Some r | _ => None end.

Definition members_of {Typ} (T : @Tester Typ Val App) : list member :=
  imap (λ i s, mkMember (default 0%nat (raft_pointer s)) (clntEnds s) (default 0%nat (server_at (name_of g i) (tnet T)))) (srvs sg).

Context {Typ : Type} (T : @Tester Typ Val App) (running_g : running service_of fresh_raft g n sg T).

Lemma members_lookup i m : members_of T !! i = Some m ↔ ∃ s, srvs sg !! i = Some s ∧
  m = mkMember (default 0%nat (raft_pointer s)) (clntEnds s) (default 0%nat (server_at (name_of g i) (tnet T))).
Proof.
  unfold members_of. rewrite list_lookup_imap. destruct (srvs sg !! i) as [s|]; simpl; [|naive_solver].
  split; [intros [= <-]; by exists s|intros (s' & [= <-] & ->); done].
Qed.

Lemma length_members : length (members_of T) = n.
Proof. unfold members_of. rewrite length_imap. apply (ok_srvs n sg (run_ok _ _ _ _ _ _ running_g)). Qed.

(** What is known of a member. *)
Lemma member_up i m : members_of T !! i = Some m → ∃ s k ls, srvs sg !! i = Some s ∧ m_ends m = clntEnds s ∧
  svcs s = [Some k; Some (RaftPeer (m_ptr m))] ∧ length (m_ends m) = n ∧
  rafts (app (world T)) !! m_ptr m = Some (mkPeer (Make n (Z.of_nat i) []) (m_ends m)) ∧
  server_at (name_of g i) (tnet T) = Some (m_server m) ∧ heap (world T) !! m_server m = Some ls ∧
  services ls !! "Raft"%string = Some (service_of (RaftPeer (m_ptr m))).
Proof.
  intros (s & Hs & ->)%members_lookup. destruct (run_up _ _ _ _ _ _ running_g _ _ Hs) as [_ Hcl (q & p & sv & Hq & _ & _ & Hsv & (k & r & -> & Hr) & Hheap)].
  destruct (ok_names n sg (run_ok _ _ _ _ _ _ running_g) i s Hs) as (names & Hn & Hl). rewrite Hcl in Hn. injection Hn as <-.
  change (server_at (name_of g i) (tnet T) = Some q) in Hq. unfold raft_pointer. rewrite Hsv, Hq, Hl in *. simpl in *.
  eexists s, k, _. split_and!; [done|done|done|done|exact Hr|done|exact Hheap|]. simpl. by rewrite lookup_insert_eq.
Qed.

Lemma members_apart i j m m' : members_of T !! i = Some m → members_of T !! j = Some m' → m_ptr m = m_ptr m' → i = j.
Proof.
  intros Hi Hj E. destruct (member_up i m Hi) as (_ & _ & _ & _ & _ & _ & _ & Hr & _).
  destruct (member_up j m' Hj) as (_ & _ & _ & _ & _ & _ & _ & Hr' & _). rewrite E, Hr' in Hr. rewrite !Make_fresh in Hr. injection Hr. lia.
Qed.

Lemma members_ends m : m ∈ members_of T → length (m_ends m) = length (members_of T).
Proof. rewrite length_members. intros [i Hi]%list_elem_of_lookup. by destruct (member_up i m Hi) as (_ & _ & _ & _ & _ & _ & Hl & _). Qed.

Lemma members_pointers : rafts_of sg = m_ptr <$> members_of T.
Proof.
  assert (m_ptr <$> members_of T = (λ s, default 0%nat (raft_pointer s)) <$> srvs sg) as ->.
  { apply list_eq. intros i. unfold members_of. rewrite !list_lookup_fmap, list_lookup_imap. by destruct (srvs sg !! i). }
  assert (Forall (λ s, is_Some (raft_pointer s)) (srvs sg)) as Hall.
  { apply Forall_lookup. intros i s Hs. destruct (member_up i _ (proj2 (members_lookup i _) (ex_intro _ s (conj Hs eq_refl))))
      as (s' & k & _ & Hs' & _ & E & _). rewrite Hs in Hs'. injection Hs' as <-. unfold raft_pointer. rewrite E. by eexists. }
  change (omap raft_pointer (srvs sg) = (λ s, default 0%nat (raft_pointer s)) <$> srvs sg).
  induction Hall as [|s l [r Hr] _ IH]; [done|]. cbn [omap list_omap fmap list_fmap]. by rewrite Hr, IH.
Qed.

Lemma members_wired : wired g (members_of T) (world T).
Proof.
  intros j m Hj. destruct (member_up j m Hj) as (s & k & ls & Hs & He & _ & _ & _ & Hq & Hls & Hsvc). split.
  - by exists ls.
  - by left.
  - intros i e Hi. rewrite He in Hi. destruct (run_up _ _ _ _ _ _ running_g _ _ Hs) as [Hends Hcl _].
    by apply (Hends (clntEnds s) i e).
Qed.

(** The first state stands for the first state of the cluster. *)
Lemma started_sim encode (decode : Typ → list Z → Val * bool) typeOf :
  calls (world T) = [] → sim encode typeOf g (members_of T) ∅ (started (rafts_of sg) (world T)) (init n).
Proof.
  intros Hcalls. rewrite members_pointers.
  assert (∀ p, (list_to_map ((λ p, (p, TLoop)) <$> (m_ptr <$> members_of T)) : gmap nat ticker_pc) !! p =
    if decide (p ∈ m_ptr <$> members_of T) then Some TLoop else None) as Htk.
  { intros p. generalize (m_ptr <$> members_of T). intros l. induction l as [|q l IH]; [done|]. rewrite fmap_cons, list_to_map_cons.
    destruct (decide (p = q)) as [->|Hne]; [by rewrite lookup_insert_eq, decide_True by by left|].
    rewrite lookup_insert_ne by (intros ->; done). rewrite IH. destruct (decide (p ∈ l)); [by rewrite decide_True by by right|].
    rewrite decide_False; [done|]. by intros [|]%elem_of_cons. }
  split; simpl; try done.
  - apply members_wired.
  - by rewrite length_members.
  - by rewrite length_fmap, length_seq, length_members.
  - intros i m Hi. destruct (member_up i m Hi) as (_ & _ & _ & _ & _ & _ & _ & Hr & _). exists (Make n (Z.of_nat i) []), TLoop.
    split_and!; [exact Hr| |].
    + rewrite list_lookup_fmap, lookup_seq_lt; [done|]. rewrite <- length_members. by eapply lookup_lt_Some.
    + rewrite Htk, decide_True; [done|]. apply list_elem_of_fmap_2. by eapply list_elem_of_lookup_2.
  - intros p pc. rewrite Htk. case_decide as Hp; [|done]. intros _. apply list_elem_of_fmap in Hp as (m & -> & [i Hi]%list_elem_of_lookup).
    by exists i, m.
  - intros k cl Hk. by rewrite Hcalls in Hk.
Qed.

(** What leaves the group alone is harmless. *)
Lemma leaves_harmless a : leaves_group sg a → harmless g (members_of T) a.
Proof.
  assert (∀ m k x, m ∈ members_of T → m_ends m !! k = Some x → ∃ s, s ∈ srvs sg ∧ x ∈ clntEnds s) as Hends.
  { intros m k x [i Hi]%list_elem_of_lookup Hx. destruct (member_up i m Hi) as (s & _ & _ & Hs & He & _). exists s.
    rewrite He in Hx. split; by eapply list_elem_of_lookup_2. }
  destruct a as [e|e|m p|m|e m|e b|b|b|b| | |p svc|e meth arg| |i|i|i r1|i r|i|i t|i r1 r2 r3 r4|i]; try done; simpl.
  - intros H m0 k x Hm Hx. destruct (Hends m0 k x Hm Hx) as (s & Hs & Hin). by apply (H s).
  - intros H j Hj. apply H. rewrite (run_names _ _ _ _ _ _ running_g). apply list_elem_of_fmap. exists (Z.of_nat j). split; [done|].
    apply elem_of_indices. rewrite length_members in Hj. unfold valid. lia.
  - intros H m0 k x Hm Hx. destruct (Hends m0 k x Hm Hx) as (s & Hs & Hin). by apply (H s).
Qed.
End Group.

(** ** What holds of the group *)
Section Runs.
Context {Typ : Type} (encode : Val → list Z * bool) (decode : Typ → list Z → Val * bool) (typeOf : Val → Typ).
Context (codec : ∀ v, (encode v).2 = true ∧ decode (typeOf v) (encode v).1 = (v, true)).
Context (vote_type : ∀ r r', typeOf (VoteReply r) = typeOf (VoteReply r')).
Context (entries_type : ∀ r r', typeOf (EntriesReply r) = typeOf (EntriesReply r')).

(** A tester that has just started a group of [n] of the program's servers, before any call. *)
Definition just_started (g : Z) (n : nat) (sg : @ServerGrp Svc) (T' : @Tester Typ Val App) : Prop :=
  ∃ mks rand1 rand2 gs (T : @Tester Typ Val App), raft_server n mks ∧ fresh_draws n rand1 rand2 (tnet T) ∧
    calls (world T) = [] ∧ MakeGroupStart mks service_of rand1 rand2 g n gs T = Done (<[g := sg]> gs, T').

Lemma just_started_running g n sg (T' : @Tester Typ Val App) :
  just_started g n sg T' → running service_of fresh_raft g n sg T' ∧ calls (world T') = [].
Proof.
  intros (mks & rand1 & rand2 & gs & T & Hmks & Hfresh & Hcalls & Hrun).
  destruct (fresh_starts n mks Hmks) as [persisted Hstarts].
  destruct (MakeGroupStart_ok mks service_of fresh_raft rand1 rand2 g n gs T Hstarts Hfresh)
    as (sg0 & T0 & Hrun0 & Hr & K & _). apply running_any in Hr.
  rewrite Hrun in Hrun0. apply Done_inj in Hrun0 as [= E <-].
  assert (sg0 = sg) as ->. { apply (f_equal (lookup g)) in E. rewrite !lookup_insert_eq in E. by injection E. }
  split; [exact Hr|]. by rewrite (k_calls _ _ _ _ _ K).
Qed.

Lemma group_simulated g n sg (T : @Tester Typ Val App) es s :
  just_started g n sg T → (∀ a, Net a ∈ es → leaves_group sg a) →
  run_steps encode decode typeOf es (started (rafts_of sg) (world T)) = Done s →
  ∃ tr c cs, no_restart tr ∧ (length tr <= length es)%nat ∧ RaftCluster.run (init n) tr = Some (Done c) ∧
    sim encode typeOf g (members_of g sg T) cs s c.
Proof.
  intros [Hr Hcalls]%just_started_running Ha Hrun.
  eapply (run_follows encode decode typeOf codec vote_type entries_type g (members_of g sg T) (members_apart g n sg T Hr)
    (members_ends g n sg T Hr)); [by apply started_sim| |exact Hrun].
  intros a Hin. by apply (leaves_harmless g n sg T Hr), Ha.
Qed.

Lemma sim_peer_of g n sg (T : @Tester Typ Val App) cs s c i p :
  running service_of fresh_raft g n sg T → sim encode typeOf g (members_of g sg T) cs s c → rafts_of sg !! i = Some p →
  ∃ x y, peer_of p s = Some x ∧ insts c !! i = Some y ∧ RaftCluster.raft y = peer x.
Proof.
  intros Hr S Hp. rewrite (members_pointers g n sg T Hr), list_lookup_fmap in Hp. apply fmap_Some in Hp as (m & Hm & ->).
  destruct (sm_peers _ _ _ _ _ _ _ S i m Hm) as (x & pc & Hx & Hi & _). exists (mkPeer x (m_ends m)), (mkInst x pc). done.
Qed.

(** (C2) The peers of a group on the simulated network implement the cluster: after every run of the
    goroutines, the network, the handlers and the test, in any order, with any
    delays, losses and partitions, with servers unregistered and peers killed, the
    peers are in the state of a run of the cluster that is no longer. *)
Theorem network_refines_cluster g n sg (T : @Tester Typ Val App) es s :
  just_started g n sg T → (∀ a, Net a ∈ es → leaves_group sg a) →
  run_steps encode decode typeOf es (started (rafts_of sg) (world T)) = Done s →
  ∃ tr c, no_restart tr ∧ (length tr <= length es)%nat ∧ RaftCluster.run (init n) tr = Some (Done c) ∧
    length (rafts_of sg) = n ∧
    ∀ i p, rafts_of sg !! i = Some p → ∃ x y, peer_of p s = Some x ∧ insts c !! i = Some y ∧ RaftCluster.raft y = peer x.
Proof.
  intros Hst Ha Hrun. destruct (group_simulated g n sg T es s Hst Ha Hrun) as (tr & c & cs & N & L & R & S).
  destruct (just_started_running _ _ _ _ Hst) as [Hr _]. exists tr, c. split_and!; [done..| |].
  - by rewrite (members_pointers g n sg T Hr), length_fmap, (length_members g n sg T Hr).
  - intros i p Hp. by eapply sim_peer_of.
Qed.

(** The peer at [p] leads term [t]. *)
Definition leads (p : nat) (t : Z) (s : @System Typ) : Prop :=
  ∃ x, peer_of p s = Some x ∧ state (peer x) = Leader ∧ currentTerm (peer x) = t.

Lemma leads_is_leader g n sg (T : @Tester Typ Val App) cs s c i p t :
  running service_of fresh_raft g n sg T → sim encode typeOf g (members_of g sg T) cs s c → rafts_of sg !! i = Some p →
  leads p t s → is_leader c i t.
Proof.
  intros Hr Hsim Hp (x & Hx & Hl & Ht). destruct (sim_peer_of g n sg T cs s c i p Hr Hsim Hp) as (x' & y & Hx' & Hy & E).
  rewrite Hx in Hx'. injection Hx' as <-. exists y. by rewrite E.
Qed.

Lemma leaders_on_network g n sg (T : @Tester Typ Val App) es1 es2 s1 s2 p q t :
  just_started g n sg T → (∀ a, Net a ∈ es1 ++ es2 → leaves_group sg a) →
  run_steps encode decode typeOf es1 (started (rafts_of sg) (world T)) = Done s1 → run_steps encode decode typeOf es2 s1 = Done s2 →
  Z.of_nat n < max_int64 → Z.of_nat (length (es1 ++ es2)) <= max_int64 →
  p ∈ rafts_of sg → q ∈ rafts_of sg → leads p t s1 → leads q t s2 → p = q.
Proof.
  intros Hst Ha R1 R2 Hn Hes [i Hi]%list_elem_of_lookup [j Hj]%list_elem_of_lookup Lp Lq. rewrite length_app in Hes.
  destruct (group_simulated g n sg T es1 s1 Hst) as (tr1 & c1 & cs1 & N1 & L1 & C1 & S1); [|done|].
  { intros a Hin. apply Ha, elem_of_app. by left. }
  destruct (just_started_running _ _ _ _ Hst) as [Hr _].
  destruct (run_follows encode decode typeOf codec vote_type entries_type g (members_of g sg T) (members_apart g n sg T Hr)
    (members_ends g n sg T Hr) es2 cs1 s1 s2 c1 S1) as (tr2 & c2 & cs2 & N2 & L2 & C2 & S2); [|done|].
  { intros a Hin. apply (leaves_harmless g n sg T Hr), Ha, elem_of_app. by right. }
  destruct (run_inv_from n 0 ∅ (λ _, ∅) (init n) tr1 c1 (init_inv n) Hn) as (H & V & HI); [lia|done|done|].
  assert (i = j) as <-.
  { apply (leaders_agree_later n _ H V c1 tr2 c2 i j t HI Hn); [lia|exact N2|exact C2| |]; by eapply leads_is_leader. }
  rewrite Hi in Hj. by injection Hj.
Qed.

(** (C3) In a group on the network a term has at most one leader ever: a peer that leads a term at
    one time and a peer that leads it at a later time are the same, whatever the network and the
    test do to the group while its servers are not restarted. *)
Theorem network_elects_one_leader g n sg (T : @Tester Typ Val App) es1 es2 s1 s2 p q t :
  just_started g n sg T → (∀ a, Net a ∈ es1 ++ es2 → leaves_group sg a) →
  run_steps encode decode typeOf es1 (started (rafts_of sg) (world T)) = Done s1 → run_steps encode decode typeOf es2 s1 = Done s2 →
  Z.of_nat n < max_int64 → Z.of_nat (length (es1 ++ es2)) <= max_int64 →
  p ∈ rafts_of sg → q ∈ rafts_of sg → leads p t s1 → leads q t s2 → p = q.
Proof. apply leaders_on_network. Qed.
End Runs.

(** ** Witnesses: three servers, values in binary *)
Abbreviation three_mks := (kvraft_StartKVServer ascii_capital false (-1)).

Definition three : gmap Z (@ServerGrp Svc) * @Tester unit Val App :=
  match MakeGroupStart three_mks service_of (new_names 3 MakeNetwork 0) (new_names 3 MakeNetwork 1) 0 3 ∅ app_tester with
  | Done r => r
  | _ => (∅, app_tester)
  end.
Definition three_sg : @ServerGrp Svc := default (mkServerGrp [] [] 0 []) (three.1 !! 0).

Lemma three_started : just_started 0 3 three_sg three.2.
Proof.
  pose proof (starts_kvraft 3 ascii_capital (-1) ascii_capitals : raft_server 3 three_mks) as Hmks.
  pose proof (new_names_fresh 3 (tnet app_tester)) as Hfresh.
  destruct (fresh_starts 3 three_mks Hmks) as [persisted Hstarts].
  destruct (MakeGroupStart_ok three_mks service_of fresh_raft (new_names 3 MakeNetwork 0) (new_names 3 MakeNetwork 1) 0 3 ∅ app_tester
    Hstarts Hfresh) as (sg & T & Hrun & _).
  assert (three = (<[0 := sg]> ∅, T)) as E by (unfold three; rewrite Hrun; exact eq_refl).
  assert (three_sg = sg) as -> by (unfold three_sg; rewrite E; cbn [fst]; rewrite lookup_insert_eq; exact eq_refl).
  rewrite E. cbn [snd]. clear E.
  exists three_mks, (new_names 3 MakeNetwork 0), (new_names 3 MakeNetwork 1), ∅, app_tester.
  exact (conj Hmks (conj Hfresh (conj eq_refl Hrun))).
Qed.

Abbreviation three_run es :=
  (run_steps binary_encode binary_decode (λ _, ()) es (started (rafts_of three_sg) (world three.2))).

(** Peer 0 times out, asks peer 1 for its vote and is elected; the end to peer 2 is disabled meanwhile. *)
Definition elect_steps : list (@step) :=
  [Clock 10000000000; Tick 0 0; Net (Enable_ (any_string "x") false); Tick 0 0; Go 0; Net (Receive 0); Net (Begin 0 0);
   Net (Dispatch 0); Net (Wait 0 false); Net (End 0 0 0 0 0); Go 0].

Lemma elect_steps_run : ∃ s, three_run elect_steps = Done s ∧ rafts_of three_sg = [0; 1; 2]%nat ∧
  (λ x, (state (peer x), currentTerm (peer x))) <$> peer_of 0 s = Some (Leader, 1).
Proof.
  assert (match three_run elect_steps with
    | Done s => rafts_of three_sg = [0; 1; 2]%nat ∧ (λ x, (state (peer x), currentTerm (peer x))) <$> peer_of 0 s = Some (Leader, 1)
    | _ => False end) as H by (vm_compute; split; reflexivity).
  destruct (three_run elect_steps) as [s| | |]; [by exists s|done..].
Qed.

Lemma elect_steps_leave : ∀ a, Net a ∈ elect_steps → leaves_group three_sg a.
Proof. intros a Ha. repeat (apply elem_of_cons in Ha as [Ha|Ha]; [first [done|injection Ha as ->; done]|]). by apply elem_of_nil in Ha. Qed.

Lemma network_refines_cluster_witness :
  ∃ s tr c, three_run elect_steps = Done s ∧ no_restart tr ∧ (length tr <= 11)%nat ∧
    RaftCluster.run (init 3) tr = Some (Done c) ∧ is_leader c 0 1.
Proof.
  destruct elect_steps_run as (s & Hrun & Hps & Hlead). destruct (peer_of 0 s) as [x0|] eqn:Hx0; [|discriminate Hlead].
  injection Hlead as Hl Ht.
  destruct (network_refines_cluster binary_encode binary_decode (λ _, ()) binary_codec (λ _ _, eq_refl) (λ _ _, eq_refl)
    0 3 three_sg three.2 elect_steps s three_started elect_steps_leave Hrun) as (tr & c & N & L & R & _ & Hall).
  destruct (Hall 0%nat 0%nat) as (x & y & Hx & Hy & E); [rewrite Hps; reflexivity|]. exists s, tr, c. refine (conj Hrun (conj N (conj L (conj R _)))).
  exists y. rewrite E. rewrite Hx0 in Hx. injection Hx as <-. exact (conj Hy (conj Hl Ht)).
Defined.

(** It begins its heartbeats, and peer 1 is killed. *)
Definition lead_steps : list (@step) := [Tick 0 0; Tick 0 0; Go 1; KillPeer 1].

Lemma lead_steps_run s : three_run elect_steps = Done s → ∃ s', run_steps binary_encode binary_decode (λ _, ()) lead_steps s = Done s'.
Proof.
  assert (match three_run elect_steps with
    | Done s => match run_steps binary_encode binary_decode (λ _, ()) lead_steps s with Done _ => True | _ => False end
    | _ => False end) as H by (vm_compute; exact I).
  intros Hrun. rewrite Hrun in H. destruct (run_steps _ _ _ lead_steps s) as [s'| | |]; [exists s'; reflexivity|destruct H..].
Qed.

Lemma network_elects_one_leader_witness :
  ∃ s, three_run elect_steps = Done s ∧ leads 0 1 s ∧
    ∃ s', run_steps binary_encode binary_decode (λ _, ()) lead_steps s = Done s' ∧
      ∀ q, q ∈ rafts_of three_sg → leads q 1 s' → q = 0%nat.
Proof.
  destruct elect_steps_run as (s & Hrun & Hps & Hlead). destruct (peer_of 0 s) as [x0|] eqn:Hx0; [|discriminate Hlead].
  injection Hlead as Hl Ht. assert (leads 0 1 s) as L0 by (exists x0; exact (conj Hx0 (conj Hl Ht))).
  destruct (lead_steps_run s Hrun) as [s' Hrun'].
  exists s. refine (conj Hrun (conj L0 _)). exists s'. refine (conj Hrun' _). intros q Hq Lq.
  assert (Z.of_nat 3 < max_int64 ∧ Z.of_nat (length (elect_steps ++ lead_steps)) <= max_int64) as [H1 H2]
    by (split; vm_compute; congruence).
  assert (0%nat ∈ rafts_of three_sg) as H0 by (rewrite Hps; apply elem_of_cons; left; reflexivity).
  assert (∀ a, Net a ∈ elect_steps ++ lead_steps → leaves_group three_sg a) as Ha.
  { intros a [Ha|Ha]%elem_of_app; [exact (elect_steps_leave a Ha)|].
    repeat (apply elem_of_cons in Ha as [Ha|Ha]; [discriminate Ha|]). apply elem_of_nil in Ha. destruct Ha. }
  symmetry. exact (network_elects_one_leader binary_encode binary_decode (λ _, ()) binary_codec (λ _ _, eq_refl) (λ _ _, eq_refl)
    0 3 three_sg three.2 elect_steps lead_steps s s' 0 q 1 three_started Ha Hrun Hrun' H1 H2 H0 Hq L0 Lq).
Defined.
