(* ===== verification/RaftNetLive.v ===== *)
(** * RaftNetLive: elections on the network succeed

    While the simulated network is in order, a vote takes two steps of the goroutine that
    asks for it and five of the network and the handler. So a peer that times out can
    be elected through the network, whatever happened before. *)

From S2P Require Import Prelude Persister Labrpc LabrpcSafety Group GroupProps GroupStart Raft RaftCluster RaftSafety RaftLiveness.
From S2P Require Import Services ServicesProps RaftNet RaftNetSim RaftNetProps.

Local Open Scope Z_scope.

Section Live.
Context {Typ : Type} (encode : Val → list Z * bool) (decode : Typ → list Z → Val * bool) (typeOf : Val → Typ).
Context (codec : ∀ v, (encode v).2 = true ∧ decode (typeOf v) (encode v).1 = (v, true)).
Context (vote_type : ∀ r r', typeOf (VoteReply r) = typeOf (VoteReply r')).
Context (g : Z) (members : list member).
Context (apart : ∀ i j m m', members !! i = Some m → members !! j = Some m' → m_ptr m = m_ptr m' → i = j).

Abbreviation System := (@System Typ).
Abbreviation run_steps := (@run_steps Typ encode decode typeOf).

(** The network is in order: every server is registered, every end is enabled, nothing is
    lost or held back. *)
Record in_order (w : @World Typ Val App) : Prop := {
  io_reliable : reliable (net w) = true;
  io_ordered : longReordering (net w) = false;
  io_serving : serving (net w) = true;
  io_member : ∀ j m, members !! j = Some m → server_at (name_of g j) (net w) = Some (m_server m) ∧
    (∃ ls, heap w !! m_server m = Some ls ∧ services ls !! "Raft"%string = Some (service_of (RaftPeer (m_ptr m)))) ∧
    ∀ k e, m_ends m !! k = Some e →
      enabled_at (any_string e) (net w) = true ∧ connection_at (any_string e) (net w) = name_of g k
}.

(** The steps of one vote, for a goroutine [t] whose call is number [k]. *)
Definition vote_steps (t k : nat) : list (@step) :=
  [Go t; Net (Receive k); Net (Begin k 0); Net (Dispatch k); Net (Wait k false); Net (End k 0 0 0 0); Go t].

Lemma run_steps_app es1 es2 (s : System) : run_steps (es1 ++ es2) s = (s ← run_steps es1 s; run_steps es2 s).
Proof. apply for_each_app. Qed.

Lemma run_steps_cons e es (s : System) : run_steps (e :: es) s = (s ← exec_step encode decode typeOf e s; run_steps es s).
Proof. reflexivity. Qed.

(** Steps of the network alone. *)
Lemma run_net l (s : System) w' :
  Labrpc.run encode decode typeOf l (sworld s) = Done w' → run_steps (Net <$> l) s = Done (set_world w' s).
Proof.
  revert s. induction l as [|a l IH]; intros s; cbn [Labrpc.run for_each].
  - intros [= <-]. by rewrite set_same_world.
  - unfold Labrpc.run. cbn [for_each]. destruct (Labrpc.exec _ _ _ a (sworld s)) as [w1| | |] eqn:Ea; try done. cbn [mbind outcome_bind].
    intros Hrun. unfold RaftNet.run_steps. cbn [fmap list_fmap for_each exec_step]. rewrite Ea. cbn [mbind outcome_bind].
    exact (IH (set_world w1 s) Hrun).
Qed.

(** Two worlds whose networks have the same tables, and whose heaps have the same services. *)
Lemma in_order_keep (w w' : @World Typ Val App) :
  in_order w → reliable (net w') = reliable (net w) → longReordering (net w') = longReordering (net w) →
  serving (net w') = serving (net w) → servers (net w') = servers (net w) → enabled (net w') = enabled (net w) →
  connections (net w') = connections (net w) →
  (∀ q ls, heap w !! q = Some ls → ∃ ls', heap w' !! q = Some ls' ∧ services ls' = services ls) → in_order w'.
Proof.
  intros [H1 H2 H3 H4] E1 E2 E3 E4 E5 E6 Hh. split; [congruence..|]. intros j m Hm.
  destruct (H4 j m Hm) as (Hs & (ls & Hls & Hsvc) & He). split_and!.
  - unfold server_at. by rewrite E4.
  - destruct (Hh _ _ Hls) as (ls' & Hls' & E). exists ls'. by rewrite E.
  - intros k e Hk. unfold enabled_at, connection_at. rewrite E5, E6. by apply He.
Qed.

(** One vote: the goroutine calls, the handler of [m'] runs, and its reply is counted. *)
Lemma vote_round t e sv el m x m' y rf reply (s : System) :
  in_order (sworld s) → threads s !! t = Some (VoteCall e sv) → ballots s !! e = Some el →
  peer_of (el_owner el) s = Some x → m ∈ members → peers x = m_ends m → length (m_ends m) = length members →
  members !! sv = Some m' → peer_of (m_ptr m') s = Some y →
  RequestVote (clock s) (peer y) (el_args el) empty_vote_reply = (rf, reply) →
  let k := length (calls (sworld s)) in
  ∃ w', run_steps (vote_steps t k) s =
      Done (set_thread t RaftNet.Ended (count_vote e reply (set_thread t (VoteWait e sv k) (set_world w' s)))) ∧
    in_order w' ∧ app w' = set_rafts (<[m_ptr m' := mkPeer rf (peers y)]> (rafts (app (sworld s)))) (app (sworld s)).
Proof.
  intros Hio Ht He Hx [i Hm]%list_elem_of_lookup Hends Hlen Hm' Hy Hrv k. pose proof Hio as [Hre Hor Hse Hmem].
  destruct (lookup_lt_is_Some_2 (m_ends m) sv) as [en Hen]; [rewrite Hlen; by eapply lookup_lt_Some|].
  destruct (Hmem i m Hm) as (_ & _ & Hends'). destruct (Hends' sv en Hen) as [Hena Hcon].
  destruct (Hmem sv m' Hm') as (Hreg & (ls & Hls & Hsvc) & _).
  destruct (codec (VoteArgs (el_args el))) as [Hea Hda], (codec (VoteReply reply)) as [_ Hdr].
  destruct (encode (VoteArgs (el_args el))) as [bs good] eqn:Eenc. simpl in Hea, Hda. subst good.
  set (w := sworld s). set (rq := mkReqMsg (any_string en) "Raft.RequestVote" (typeOf (VoteArgs (el_args el))) bs).
  set (w0 := mkWorld (net w) (heap w) (app w) (calls w ++ [mkCall rq Sending None]) (executed w)).
  set (a' := set_rafts (<[m_ptr m' := mkPeer rf (peers y)]> (rafts (app w))) (app w)).
  set (r := mkReplyMsg true (encode (VoteReply reply)).1).
  set (w' := mkWorld (add_bytes (length (Labrpc.reply r)) (add_bytes (length bs) (add_count (net w))))
    (<[m_server m' := mkServer (services ls) (int64 (rpcs ls + 1))]> (heap w)) a' (calls w ++ [mkCall rq (Answered r) None])
    ((k, m_server m', r) :: executed w)).
  set (s0 := set_thread t (VoteWait e sv k) (set_world w0 s)).
  assert (go_on encode decode typeOf t s = Done s0) as Hgo.
  { unfold go_on. rewrite Ht. unfold vote_goroutine, sendRequestVote, send. rewrite He. rewrite Hx, Hends, (slice_get_Some _ _ _ Hen).
    cbn [mbind outcome_bind Labrpc.exec]. unfold Call_request. rewrite Eenc. reflexivity. }
  assert (Labrpc.run encode decode typeOf [Receive k; Begin k 0; Dispatch k; Wait k false; End k 0 0 0 0] (sworld s0) = Done w') as Hnet.
  { eapply (call_last encode decode typeOf 0 0 0 0 0 (net w) (heap w) (app w) (calls w) rq None (executed w) (m_server m') ls
      (service_of (RaftPeer (m_ptr m'))) "Raft" (handler_method (Raft_RequestVote (m_ptr m'))) "RequestVote" (VoteArgs (el_args el)) (VoteReply reply) a');
      try done.
    - unfold rq. cbn [endname]. fold w in Hcon. by rewrite Hcon.
    - unfold rq. cbn [endname]. fold w in Hcon. by rewrite Hcon.
    - by vm_compute; set_solver.
    - cbn [Func handler_method Raft_RequestVote]. unfold with_peer. unfold peer_of in Hy. fold w in Hy. rewrite Hy.
      cbn [mbind outcome_bind]. unfold clock in Hrv. fold w in Hrv. by rewrite Hrv. }
  exists w'. split_and!; [| |reflexivity].
  - change (vote_steps t k) with (Go t :: (Net <$> [Receive k; Begin k 0; Dispatch k; Wait k false; End k 0 0 0 0]) ++ [Go t]).
    rewrite run_steps_cons. cbn [exec_step]. rewrite Hgo. cbn [mbind outcome_bind].
    rewrite run_steps_app, (run_net _ _ _ Hnet). cbn [mbind outcome_bind]. rewrite run_steps_cons. cbn [exec_step].
    unfold go_on, vote_goroutine. cbn [threads set_world s0 set_thread].
    rewrite list_lookup_insert_eq by by eapply lookup_lt_Some.
    unfold answer_of. cbn [sworld set_world set_thread s0 w' calls]. unfold k, w. rewrite lookup_last. cbn [fmap option_fmap option_map at_phase].
    unfold Call_result. cbn [ok Labrpc.reply r]. rewrite (vote_type _ reply), Hdr. reflexivity.
  - apply (in_order_keep w); [exact Hio|done..|]. intros q ls0 Hq. cbn [heap w']. destruct (decide (q = m_server m')) as [->|Hne].
    + rewrite list_lookup_insert_eq by by eapply lookup_lt_Some. fold w in Hls. rewrite Hls in Hq. injection Hq as <-. by eexists.
    + rewrite list_lookup_insert_ne by done. by exists ls0.
Qed.

(** ** The course of an election

    As in [RaftLiveness], but on the network: in election [e] member [i] is candidate of term
    [T] and has [v] votes; those of [ds] are counted, those of [js] are to be asked for. *)
Context (all_ends : ∀ m, m ∈ members → length (m_ends m) = length members).

Abbreviation n := (length members).

Record net_campaign (i e : nat) (mi : member) (T : Z) (js ds : list nat) (v : Z) (s : System) : Prop := {
  nc_order : in_order (sworld s);
  nc_peers : ∀ j m, members !! j = Some m → ∃ x, peer_of (m_ptr m) s = Some x ∧ peers x = m_ends m ∧ npeers (peer x) = n;
  nc_candidate : ∃ x, peer_of (m_ptr mi) s = Some x ∧ currentTerm (peer x) = T ∧
    (state (peer x) = Leader ∨ state (peer x) = Candidate ∧ 2 * v <= Z.of_nat n);
  nc_ballot : ∃ args, ballots s !! e = Some (mkElection (m_ptr mi) args v) ∧ rv_Term args = T ∧ rv_CandidateID args = Z.of_nat i;
  nc_waiting : ∀ sv, sv ∈ js → sv ≠ i ∧ (∃ t, threads s !! t = Some (VoteCall e sv)) ∧
    ∃ m y, members !! sv = Some m ∧ peer_of (m_ptr m) s = Some y ∧ currentTerm (peer y) < T;
  nc_voted : ∀ sv, sv ∈ ds → sv ≠ i ∧ ∃ m y, members !! sv = Some m ∧ peer_of (m_ptr m) s = Some y ∧
    votedFor (peer y) = Z.of_nat i ∧ currentTerm (peer y) = T;
  nc_votes : 0 <= v
}.

Lemma net_campaign_step i e mi T sv js ds v (s : System) :
  members !! i = Some mi → net_campaign i e mi T (sv :: js) ds v s → NoDup (sv :: js) → (∀ sv', sv' ∈ ds → sv' ∉ sv :: js) →
  v < max_int64 →
  ∃ t k s', run_steps (vote_steps t k) s = Done s' ∧ net_campaign i e mi T js (sv :: ds) (v + 1) s'.
Proof.
  intros Hmi [Hio Hp (x & Hx & HT & Hst) (args & He & Ha & Hc) Hwait Hvoted Hv] Hnd Hds Hmax.
  apply NoDup_cons in Hnd as [Hsv Hnd].
  destruct (Hwait sv) as (Hsi & (t & Ht) & m & y & Hm & Hy & Hlt); [by left|].
  assert (m_ptr m ≠ m_ptr mi) as Hptr by (intros E; apply Hsi; by eapply apart).
  destruct (Hp i mi Hmi) as (x0 & Hx0 & Hpx & Hn). rewrite Hx in Hx0. injection Hx0 as <-.
  destruct (Hp sv m Hm) as (y0 & Hy0 & Hpy & Hny). rewrite Hy in Hy0. injection Hy0 as <-.
  destruct (vote_reply_counts args (peer x) v) as (rf' & Hvr & Hn' & HT' & Hst'); [congruence|lia|by rewrite Hn|].
  assert (mi ∈ members) as Hin by by eapply list_elem_of_lookup_2.
  assert (currentTerm (peer y) < rv_Term args) as Hnew by (by rewrite Ha).
  destruct (vote_round t e sv _ mi x m y _ _ s Hio Ht He Hx Hin Hpx (all_ends mi Hin) Hm Hy (RequestVote_newer (clock s) (peer y) args Hnew))
    as (w' & Hrun & Hio' & Happ).
  set (y' := set_lastHeartbeat _ _) in Happ.
  assert (∀ q, rafts (app w') !! q = if decide (q = m_ptr m) then Some (mkPeer y' (peers y)) else peer_of q s) as Hrafts.
  { intros q. rewrite Happ. cbn [rafts set_rafts]. case_decide as Hq; [subst q|by apply list_lookup_insert_ne].
    apply list_lookup_insert_eq. unfold peer_of in Hy. by eapply lookup_lt_Some. }
  exists t, (length (calls (sworld s))). eexists. split; [exact Hrun|]. unfold count_vote.
  cbn [ballots set_thread set_world]. rewrite He. cbn [el_owner el_args el_votes].
  unfold peer_of at 1. cbn [sworld set_thread set_world]. rewrite Hrafts, decide_False by by apply not_eq_sym. rewrite Hx, Hvr.
  set (s' := set_thread t _ _).
  assert (∀ q, peer_of q s' = if decide (q = m_ptr mi) then Some (mkPeer rf' (peers x))
    else if decide (q = m_ptr m) then Some (mkPeer y' (peers y)) else peer_of q s) as Hpeers.
  { intros q. unfold peer_of at 1. cbn [s' sworld set_thread set_ballot RaftNet.set_raft set_world on_app app rafts set_rafts].
    case_decide as Hq; [subst q|by rewrite list_lookup_alter_ne by done]. by rewrite list_lookup_alter_eq, Hrafts, decide_False, Hx by by apply not_eq_sym. }
  split.
  - cbn [s' sworld set_thread set_ballot RaftNet.set_raft set_world]. apply (in_order_keep w'); [exact Hio'|done..|]. intros q ls Hq. by exists ls.
  - intros j mj Hj. rewrite Hpeers. destruct (Hp j mj Hj) as (z & Hz & Hpz & Hnz). case_decide as E1; [|case_decide as E2; [|by exists z]].
    + assert (j = i) as -> by (by eapply apart). rewrite Hmi in Hj. injection Hj as <-. eexists. split_and!; [done|exact Hpx|cbn [peer]; congruence].
    + assert (j = sv) as -> by (by eapply apart). rewrite Hm in Hj. injection Hj as <-. eexists. split_and!; [done|exact Hpy|exact Hny].
  - exists (mkPeer rf' (peers x)). rewrite Hpeers, decide_True by done. split_and!; [done|cbn [peer]; congruence|]. cbn [peer]. by rewrite <- Hn.
  - exists args. split; [|done]. cbn [s' ballots set_thread set_ballot RaftNet.set_raft set_world].
    apply list_lookup_insert_eq. by eapply lookup_lt_Some.
  - intros sv' Hs'. destruct (Hwait sv') as (H1 & (t' & Ht') & m2 & y2 & Hm2 & Hy2 & Hlt2); [by right|].
    assert (sv' ≠ sv) as Hne by (intros ->; done). split; [done|]. split.
    + exists t'. cbn [s' threads set_thread set_ballot RaftNet.set_raft set_world].
      assert (t ≠ t') by (intros ->; rewrite Ht in Ht'; congruence). by rewrite !list_lookup_insert_ne by done.
    + exists m2, y2. split; [done|]. rewrite Hpeers, !decide_False; [done|intros E; apply Hne; by eapply apart|intros E; apply H1; by eapply apart].
  - intros sv' [->|Hs']%elem_of_cons.
    + split; [done|]. exists m, (mkPeer y' (peers y)). split; [done|]. rewrite Hpeers, decide_False, decide_True by done. by split_and!.
    + destruct (Hvoted sv' Hs') as (H1 & m2 & y2 & Hm2 & Hy2 & Hv2). split; [done|]. exists m2, y2. split; [done|].
      rewrite Hpeers, !decide_False; [done| |intros E; apply H1; by eapply apart]. intros E.
      assert (sv' = sv) as -> by (by eapply apart). apply (Hds sv Hs'). by left.
  - lia.
Qed.

Definition vote_only (es : list (@step)) : Prop := ∀ a, Net a ∈ es → ∃ k, a ∈ [Receive k; Begin k 0; Dispatch k; Wait k false; End k 0 0 0 0].

Lemma vote_steps_only t k : vote_only (vote_steps t k).
Proof.
  intros a Ha. exists k.
  change (vote_steps t k) with (Go t :: (Net <$> [Receive k; Begin k 0; Dispatch k; Wait k false; End k 0 0 0 0]) ++ [Go t]) in Ha.
  apply elem_of_cons in Ha as [Ha|[(b & [= ->] & Hb)%list_elem_of_fmap|Ha%list_elem_of_singleton]%elem_of_app]; [done|exact Hb|done].
Qed.

Lemma vote_only_app es1 es2 : vote_only es1 → vote_only es2 → vote_only (es1 ++ es2).
Proof. intros H1 H2 a [Ha|Ha]%elem_of_app; [by apply H1|by apply H2]. Qed.

Lemma net_campaign_run i e mi T : members !! i = Some mi → ∀ js ds v (s : System),
  net_campaign i e mi T js ds v s → NoDup js → (∀ sv, sv ∈ ds → sv ∉ js) → v + Z.of_nat (length js) <= max_int64 →
  ∃ es s', length es = (7 * length js)%nat ∧ vote_only es ∧ run_steps es s = Done s' ∧
    net_campaign i e mi T [] (reverse js ++ ds) (v + Z.of_nat (length js)) s'.
Proof.
  intros Hmi. induction js as [|sv js IH]; intros ds v s Hca Hnd Hds Hmax.
  { exists [], s. rewrite Z.add_0_r. split_and!; [done| |done|done]. by intros a Ha%elem_of_nil. }
  rewrite length_cons in Hmax.
  destruct (net_campaign_step i e mi T sv js ds v s Hmi Hca Hnd Hds) as (t & k & s1 & Hrun & Hca1); [lia|].
  apply NoDup_cons in Hnd as [Hs Hnd].
  destruct (IH (sv :: ds) (v + 1) s1 Hca1 Hnd) as (es & s' & Hlen & Hvo & Hrun' & Hca').
  - intros sv' [->|Hs']%elem_of_cons; [done|]. intros Hin. apply (Hds sv' Hs'). by right.
  - lia.
  - exists (vote_steps t k ++ es), s'. split_and!.
    + rewrite length_app, Hlen. simpl. lia.
    + apply vote_only_app; [apply vote_steps_only|done].
    + by rewrite run_steps_app, Hrun.
    + rewrite reverse_cons, <- app_assoc, length_cons.
      replace (v + Z.of_nat (S (length js))) with (v + 1 + Z.of_nat (length js)) by lia. exact Hca'.
Qed.

(** The clock moves on, and the ticker starts an election. *)
Lemma net_campaign_start i mi x now r js (s : System) :
  members !! i = Some mi → in_order (sworld s) →
  (∀ j m, members !! j = Some m → ∃ x, peer_of (m_ptr m) s = Some x ∧ peers x = m_ends m ∧ npeers (peer x) = n) →
  peer_of (m_ptr mi) s = Some x → me (peer x) = Z.of_nat i → (2 <= n)%nat → tickers s !! m_ptr mi = Some TLoop →
  killed (peer x) = false → state (peer x) ≠ Leader → 0 <= currentTerm (peer x) < max_int64 →
  0 <= r → election_timeout r < time_Since (lastHeartbeat (peer x)) now →
  (∀ sv, sv ∈ js → sv ≠ i ∧ ∃ m y, members !! sv = Some m ∧ peer_of (m_ptr m) s = Some y ∧
    currentTerm (peer y) <= currentTerm (peer x)) →
  ∃ e s', run_steps [Clock now; Tick (m_ptr mi) r; Tick (m_ptr mi) r] s = Done s' ∧
    net_campaign i e mi (currentTerm (peer x) + 1) js [] 1 s'.
Proof.
  intros Hmi Hio Hp Hx Hme H2 Htk Hk Hst HT Hr Hto Hjs. set (T := currentTerm (peer x) + 1). set (p := m_ptr mi) in *.
  set (rf := set_lastHeartbeat (Some now) (set_votedFor (me (peer x)) (set_term T (set_state Candidate (peer x))))).
  assert (start_election now r (peer x) = (rf, Some (mkRequestVoteArgs T (Z.of_nat i) 0 0))) as Hse.
  { unfold start_election. rewrite bool_decide_eq_false_2 by done. cbn [negb andb].
    rewrite (proj2 (Z.ltb_lt _ _) Hto). cbn [currentTerm set_state]. rewrite int64_id by (unfold max_int64 in HT; lia).
    fold T. unfold rf. cbn [currentTerm me set_lastHeartbeat set_votedFor set_term set_state]. by rewrite Hme. }
  set (s1 := set_world (on_app (set_now now) (sworld s)) s).
  set (s2 := set_ticker p (TRead (state (peer x))) s1).
  set (s3 := RaftNet.spawn (VoteCall (length (ballots s)) <$> other_peers rf)
    (add_ballot (mkElection p (mkRequestVoteArgs T (Z.of_nat i) 0 0) 1) (set_ticker p TLoop (RaftNet.set_raft p rf s2)))).
  assert (ticker p r s1 = s2) as E1.
  { unfold ticker. change (peer_of p s1) with (peer_of p s). rewrite Hx. change (tickers s1) with (tickers s). by rewrite Htk, Hk. }
  assert (ticker p r s2 = s3) as E2.
  { unfold ticker. change (peer_of p s2) with (peer_of p s). rewrite Hx. cbn [tickers s2 set_ticker]. rewrite lookup_insert_eq.
    change (clock s2) with now. rewrite Hse. by destruct (state (peer x)). }
  exists (length (ballots s)), s3. split.
  { assert (∀ s0, exec_step encode decode typeOf (Tick p r) s0 = Done (ticker p r s0)) as Htick.
    { intros s0. cbn [exec_step]. by rewrite (proj2 (Z.leb_le 0 r) Hr). }
    rewrite run_steps_cons. change (exec_step encode decode typeOf (Clock now) s) with (Done s1). cbn [mbind outcome_bind].
    rewrite run_steps_cons, Htick, E1. cbn [mbind outcome_bind]. by rewrite run_steps_cons, Htick, E2. }
  assert (∀ q, peer_of q s3 = if decide (q = p) then Some (mkPeer rf (peers x)) else peer_of q s) as Hpeers.
  { intros q. unfold peer_of. cbn. case_decide as Hq; [subst q|by rewrite list_lookup_alter_ne].
    unfold peer_of in Hx. by rewrite list_lookup_alter_eq, Hx. }
  assert (∀ sv m, sv ≠ i → members !! sv = Some m → m_ptr m ≠ p) as Hne by (intros sv m Hs Hm E; apply Hs; by eapply apart).
  split.
  - apply (in_order_keep (sworld s)); [exact Hio|done..|]. intros q ls Hq. by exists ls.
  - intros j m Hj. destruct (Hp j m Hj) as (y & Hy & Hpy & Hny). rewrite Hpeers. case_decide as E; [|by exists y].
    rewrite E, Hx in Hy. injection Hy as <-. eexists. split_and!; [done|exact Hpy|exact Hny].
  - exists (mkPeer rf (peers x)). rewrite Hpeers, decide_True by done. split_and!; [done|done|]. right. split; [done|lia].
  - exists (mkRequestVoteArgs T (Z.of_nat i) 0 0). split; [|done]. cbn. by rewrite lookup_app_r, Nat.sub_diag.
  - intros sv Hs. destruct (Hjs sv Hs) as (Hsi & m & y & Hm & Hy & Hle). split; [done|]. split.
    + destruct (Hp i mi Hmi) as (x0 & Hx0 & _ & Hn). fold p in Hx0. rewrite Hx in Hx0. injection Hx0 as <-.
      assert (VoteCall (length (ballots s)) sv ∈ VoteCall (length (ballots s)) <$> other_peers rf) as Hin.
      { apply list_elem_of_fmap_2, other_peers_spec. change (npeers rf) with (npeers (peer x)). change (me rf) with (me (peer x)).
        rewrite Hn, Hme. apply lookup_lt_Some in Hm. lia. }
      apply list_elem_of_lookup in Hin as [j Hj]. exists (length (threads s) + j)%nat. cbn.
      rewrite lookup_app_r by lia. by replace (length (threads s) + j - length (threads s))%nat with j by lia.
    + exists m, y. split; [done|]. rewrite Hpeers, decide_False by (by eapply Hne). split; [done|unfold T; lia].
  - by intros sv Hs%elem_of_nil.
  - lia.
Qed.
End Live.

(** ** A group of the program *)
Section Group.
Context {Typ : Type} (encode : Val → list Z * bool) (decode : Typ → list Z → Val * bool) (typeOf : Val → Typ).
Context (codec : ∀ v, (encode v).2 = true ∧ decode (typeOf v) (encode v).1 = (v, true)).
Context (vote_type : ∀ r r', typeOf (VoteReply r) = typeOf (VoteReply r')).
Context (entries_type : ∀ r r', typeOf (EntriesReply r) = typeOf (EntriesReply r')).

(** Nothing is lost or held back, the servers of the group are registered, and every end between two of them
    is enabled. *)
Record healthy (g : Z) (n : nat) (sg : @ServerGrp Svc) (rn : Network) : Prop := {
  h_reliable : reliable rn = true;
  h_ordered : longReordering rn = false;
  h_serving : serving rn = true;
  h_servers : ∀ i, (i < n)%nat → is_Some (server_at (name_of g i) rn);
  h_links : ∀ s e, s ∈ srvs sg → e ∈ clntEnds s → enabled_at (any_string e) rn = true
}.

Lemma healthy_in_order g n sg (T : @Tester Typ Val App) (w : @World Typ Val App) :
  running service_of fresh_raft g n sg T → wired g (members_of g sg T) w → healthy g n sg (net w) →
  in_order g (members_of g sg T) w.
Proof.
  intros Hr Hw [H1 H2 H3 H4 H5]. split; [done..|]. intros j m Hm. destruct (Hw j m Hm) as [Hh Hs He]. split_and!.
  - destruct (H4 j) as [q Hq]; [rewrite <- (length_members g n sg T Hr); by eapply lookup_lt_Some|].
    destruct Hs as [Hs|Hs]; [done|congruence].
  - exact Hh.
  - intros k e Hk. split; [|by apply He]. destruct (member_up g n sg T Hr j m Hm) as (s & _ & _ & Hsj & Hends & _).
    rewrite Hends in Hk. by apply (H5 s e); eapply list_elem_of_lookup_2.
Qed.

Lemma vote_only_leaves (sg : @ServerGrp Svc) es : vote_only es → ∀ a, Net a ∈ es → leaves_group sg a.
Proof.
  intros Hv a Ha. destruct (Hv a Ha) as [k Hk].
  repeat (apply elem_of_cons in Hk as [->|Hk]; [done|]). by apply elem_of_nil in Hk.
Qed.

Lemma group_elects g n sg (T : @Tester Typ Val App) es s i p x now r js :
  just_started g n sg T → (∀ a, Net a ∈ es → leaves_group sg a) →
  run_steps encode decode typeOf es (started (rafts_of sg) (world T)) = Done s →
  Z.of_nat n < max_int64 → Z.of_nat (length es) <= max_int64 → healthy g n sg (net (sworld s)) →
  rafts_of sg !! i = Some p → peer_of p s = Some x → tickers s !! p = Some TLoop → killed (peer x) = false →
  state (peer x) ≠ Leader → currentTerm (peer x) < max_int64 →
  0 <= r → election_timeout r < time_Since (lastHeartbeat (peer x)) now →
  NoDup js → js ≠ [] → (n < 2 * S (length js))%nat →
  (∀ j, j ∈ js → j ≠ i ∧ ∃ q y, rafts_of sg !! j = Some q ∧ peer_of q s = Some y ∧ currentTerm (peer y) <= currentTerm (peer x)) →
  ∃ es' s' x', length es' = (3 + 7 * length js)%nat ∧ (∀ a, Net a ∈ es' → leaves_group sg a) ∧
    run_steps encode decode typeOf (es ++ es') (started (rafts_of sg) (world T)) = Done s' ∧
    peer_of p s' = Some x' ∧ state (peer x') = Leader ∧ currentTerm (peer x') = currentTerm (peer x) + 1 ∧
    ∀ j, j ∈ js → ∃ q y, rafts_of sg !! j = Some q ∧ peer_of q s' = Some y ∧ votedFor (peer y) = Z.of_nat i ∧
      currentTerm (peer y) = currentTerm (peer x) + 1.
Proof.
  intros Hst Ha Hrun Hbig Hes Hh Hp Hx Htk Hk Hnl Hmax Hr0 Hto Hnd Hne Hmaj Hjs.
  destruct (group_simulated encode decode typeOf codec vote_type entries_type g n sg T es s Hst Ha Hrun) as (tr & c & cs & N & L & R & Hsim).
  destruct (just_started_running _ _ _ _ Hst) as [Hr _]. set (ms := members_of g sg T) in *.
  pose proof (length_members g n sg T Hr) as Hlen. fold ms in Hlen.
  destruct (run_inv n tr c) as (k & H & V & HI); [split; lia|done|done|].
  assert (∀ j q, rafts_of sg !! j = Some q ↔ ∃ m, ms !! j = Some m ∧ q = m_ptr m) as Hptr.
  { intros j q. rewrite (members_pointers g n sg T Hr), list_lookup_fmap. fold ms. rewrite fmap_Some. done. }
  assert (∀ j m, ms !! j = Some m → ∃ z, peer_of (m_ptr m) s = Some z ∧ peers z = m_ends m ∧ npeers (peer z) = length ms ∧
    me (peer z) = Z.of_nat j ∧ 0 <= currentTerm (peer z)) as Hpeers.
  { intros j m Hm. destruct (sm_peers _ _ _ _ _ _ _ Hsim j m Hm) as (z & pc & Hz & Hi & _).
    destruct (inv_inst _ _ _ _ _ HI j _ Hi) as (E1 & E2 & E3 & _). exists (mkPeer z (m_ends m)). rewrite Hlen. cbn in *.
    split_and!; [exact Hz|done|done|done|lia]. }
  apply Hptr in Hp as (mi & Hmi & ->). destruct (Hpeers i mi Hmi) as (x0 & Hx0 & _ & _ & Hme & HT0).
  rewrite Hx in Hx0. injection Hx0 as <-.
  assert (∀ j, j ∈ js → j ≠ i ∧ ∃ m y, ms !! j = Some m ∧ peer_of (m_ptr m) s = Some y ∧ currentTerm (peer y) <= currentTerm (peer x)) as Hjs'.
  { intros j Hj. destruct (Hjs j Hj) as (Hji & q & y & (m & Hm & ->)%Hptr & Hy & Hle). split; [done|]. by exists m, y. }
  assert (S (length js) <= n)%nat as Hmany.
  { assert (NoDup (i :: js)) as Hnd' by (constructor; [intros Hi; by destruct (Hjs' i Hi)|done]).
    rewrite <- (length_seq n 0) at 1. change (length (i :: js) <= length (seq 0 n))%nat.
    apply submseteq_length, NoDup_submseteq; [done|]. intros j [->|Hj]%elem_of_cons; apply elem_of_seq.
    - apply lookup_lt_Some in Hmi. lia.
    - destruct (Hjs' j Hj) as (_ & m & _ & Hm & _). apply lookup_lt_Some in Hm. lia. }
  destruct (net_campaign_start encode decode typeOf g ms (members_apart g n sg T Hr) i mi x now r js s Hmi
    (healthy_in_order g n sg T _ Hr (sm_wired _ _ _ _ _ _ _ Hsim) Hh)) as (e & s1 & Hrun1 & Hca); try done.
  { intros j m Hm. destruct (Hpeers j m Hm) as (z & Hz & Hpz & Hnz & _). by exists z. }
  { destruct js; [done|]. simpl in Hmany. lia. }
  destruct (net_campaign_run encode decode typeOf codec vote_type g ms (members_apart g n sg T Hr) (members_ends g n sg T Hr)
    i e mi _ Hmi js [] 1 s1 Hca Hnd) as (es' & s' & Hl & Hvo & Hrun' & Hca').
  { by intros j Hj%elem_of_nil. } { unfold max_int64 in *. lia. }
  exists ([Clock now; Tick (m_ptr mi) r; Tick (m_ptr mi) r] ++ es'), s'.
  destruct (nc_candidate _ _ _ _ _ _ _ _ _ _ Hca') as (x' & Hx' & HT' & Hlead). exists x'. split_and!.
  - rewrite length_app, Hl. simpl. lia.
  - apply vote_only_leaves, vote_only_app; [|done]. intros a Hin. repeat (apply elem_of_cons in Hin as [Hin|Hin]; [done|]).
    by apply elem_of_nil in Hin.
  - rewrite run_steps_app, Hrun. cbn [mbind outcome_bind]. by rewrite run_steps_app, Hrun1.
  - exact Hx'.
  - destruct Hlead as [Hl'|[_ Hno]]; [exact Hl'|]. fold ms in Hno. lia.
  - exact HT'.
  - intros j Hj. destruct (nc_voted _ _ _ _ _ _ _ _ _ _ Hca' j) as (_ & m & y & Hm & Hy & Hvf & Hty).
    { rewrite app_nil_r. by apply elem_of_reverse. }
    exists (m_ptr m), y. split_and!; [|done..]. apply Hptr. by exists m.
Qed.

(** (C4) A group can always elect a leader once the network is in order, whatever happened
    before: a peer whose time is up becomes leader of the next term, by steps of its
    ticker, of its goroutines, of the network and of the handlers alone, three for the election and
    seven for each of any peers [js] that make a majority with it and are not in a newer
    term; all of them have then voted for it. *)
Theorem network_elects_a_leader g n sg (T : @Tester Typ Val App) es s i p x now r js :
  just_started g n sg T → (∀ a, Net a ∈ es → leaves_group sg a) →
  run_steps encode decode typeOf es (started (rafts_of sg) (world T)) = Done s →
  Z.of_nat n < max_int64 → Z.of_nat (length es) <= max_int64 → healthy g n sg (net (sworld s)) →
  rafts_of sg !! i = Some p → peer_of p s = Some x → tickers s !! p = Some TLoop → killed (peer x) = false →
  state (peer x) ≠ Leader → currentTerm (peer x) < max_int64 →
  0 <= r → election_timeout r < time_Since (lastHeartbeat (peer x)) now →
  NoDup js → js ≠ [] → (n < 2 * S (length js))%nat →
  (∀ j, j ∈ js → j ≠ i ∧ ∃ q y, rafts_of sg !! j = Some q ∧ peer_of q s = Some y ∧ currentTerm (peer y) <= currentTerm (peer x)) →
  ∃ es' s' x', length es' = (3 + 7 * length js)%nat ∧ (∀ a, Net a ∈ es' → leaves_group sg a) ∧
    run_steps encode decode typeOf (es ++ es') (started (rafts_of sg) (world T)) = Done s' ∧
    peer_of p s' = Some x' ∧ state (peer x') = Leader ∧ currentTerm (peer x') = currentTerm (peer x) + 1 ∧
    ∀ j, j ∈ js → ∃ q y, rafts_of sg !! j = Some q ∧ peer_of q s' = Some y ∧ votedFor (peer y) = Z.of_nat i ∧
      currentTerm (peer y) = currentTerm (peer x) + 1.
Proof. apply group_elects. Qed.
End Group.

(** ** A witness: peer 0 of three, as soon as they have started *)
Lemma three_healthy : healthy 0 3 three_sg (net (world three.2)).
Proof.
  assert (reliable (net (world three.2)) = true ∧ longReordering (net (world three.2)) = false ∧
    serving (net (world three.2)) = true ∧
    forallb (λ i, match server_at (name_of 0 i) (net (world three.2)) with Some _ => true | None => false end) (seq 0 3) = true ∧
    forallb (λ s, forallb (λ e, enabled_at (any_string e) (net (world three.2))) (clntEnds s)) (srvs three_sg) = true)
    as (H1 & H2 & H3 & H4 & H5) by (vm_compute; split_and!; reflexivity).
  split; [exact H1|exact H2|exact H3| |].
  - intros i Hi. rewrite forallb_forall in H4. specialize (H4 i (proj2 (in_seq 3 0 i) (conj (Nat.le_0_l i) Hi))).
    destruct (server_at (name_of 0 i) (net (world three.2))) as [q|]; [exists q; reflexivity|discriminate H4].
  - intros s e Hs He. rewrite forallb_forall in H5. specialize (H5 s (proj1 (list_elem_of_In _ _) Hs)).
    rewrite forallb_forall in H5. exact (H5 e (proj1 (list_elem_of_In _ _) He)).
Qed.

(** The peers of [three], before any step. *)
Lemma three_peers : ∃ x y, rafts_of three_sg = [0; 1; 2]%nat ∧
  let s := started (rafts_of three_sg) (world three.2) in
  peer_of 0 s = Some x ∧ peer_of 1 s = Some y ∧ tickers s !! 0%nat = Some TLoop ∧
  peer x = Make 3 0 [] ∧ peer y = Make 3 1 [].
Proof.
  assert (rafts_of three_sg = [0; 1; 2]%nat ∧
    let s := started (rafts_of three_sg) (world three.2) in
    peer <$> peer_of 0 s = Some (Make 3 0 []) ∧ peer <$> peer_of 1 s = Some (Make 3 1 []) ∧ tickers s !! 0%nat = Some TLoop)
    as (H1 & H2 & H3 & H4) by (vm_compute; split_and!; reflexivity).
  apply fmap_Some in H2 as (x & Hx & Ex). apply fmap_Some in H3 as (y & Hy & Ey).
  exists x, y. exact (conj H1 (conj Hx (conj Hy (conj H4 (conj (eq_sym Ex) (eq_sym Ey)))))).
Qed.

Lemma network_elects_a_leader_witness :
  ∃ es s x, length es = 10%nat ∧ three_run es = Done s ∧ peer_of 0 s = Some x ∧ state (peer x) = Leader ∧ currentTerm (peer x) = 1.
Proof.
  destruct three_peers as (x & y & Hps & Hx & Hy & Htk & Ex & Ey).
  assert (∀ a, Net a ∈ [] → leaves_group three_sg a) as Hnone by (intros a Ha; apply elem_of_nil in Ha; destruct Ha).
  assert (killed (peer x) = false ∧ state (peer x) ≠ Leader ∧ currentTerm (peer x) = 0 ∧ lastHeartbeat (peer x) = None)
    as (Hk & Hl & Ht & Hb) by (rewrite Ex; split_and!; [reflexivity|discriminate|reflexivity|reflexivity]).
  assert (currentTerm (peer y) = 0) as Hty by (rewrite Ey; reflexivity).
  assert (Z.of_nat 3 < max_int64 ∧ Z.of_nat 0 <= max_int64 ∧ 0 < max_int64) as (M1 & M2 & M3) by (unfold max_int64; lia).
  assert (election_timeout 0 < time_Since (lastHeartbeat (peer x)) 10000000000) as Hto by (rewrite Hb; vm_compute; reflexivity).
  destruct (network_elects_a_leader binary_encode binary_decode (λ _, ()) binary_codec (λ _ _, eq_refl) (λ _ _, eq_refl)
    0 3 three_sg three.2 [] (started (rafts_of three_sg) (world three.2)) 0 0 x 10000000000 0 [1%nat]
    three_started Hnone eq_refl M1 M2 three_healthy) as (es & s & x' & Hlen & _ & Hrun & Hx' & Hl' & Ht' & _).
  - rewrite Hps. reflexivity.
  - exact Hx.
  - exact Htk.
  - exact Hk.
  - exact Hl.
  - rewrite Ht. exact M3.
  - lia.
  - exact Hto.
  - apply NoDup_singleton.
  - discriminate.
  - simpl. lia.
  - intros j Hj. apply list_elem_of_singleton in Hj. subst j. split; [discriminate|]. exists 1%nat, y.
    rewrite Hps, Ht, Hty. exact (conj eq_refl (conj Hy (Z.le_refl 0))).
  - exists es, s, x'. rewrite Ht in Ht'. exact (conj Hlen (conj Hrun (conj Hx' (conj Hl' Ht')))).
Defined.
