(* ===== verification/RaftNetTest.v ===== *)
(** * RaftNetTest: the leader check of the Raft tests, on the network
    (src/src/raft1/test.go over raft.go and labrpc.go)

    [checkOneLeader] looks at the peers one after the other while they run. Here it
    looks at the peers of a started group on the simulated network: between two
    looks the system takes any steps. So what the check reports is compared with what the
    peers do. *)

From S2P Require Import Prelude Persister RaftTest RaftTestProps.
From S2P Require Import Labrpc LabrpcSafety Group GroupProps GroupStart Raft RaftCluster RaftSafety RaftLiveness.
From S2P Require Import Services ServicesProps RaftNet RaftNetSim RaftNetProps RaftNetLive.

Local Open Scope Z_scope.

Section Check.
Context {Typ : Type} (encode : Val → list Z * bool) (decode : Typ → list Z → Val * bool) (typeOf : Val → Typ).
Abbreviation System := (@System Typ).
Abbreviation run_steps := (@run_steps Typ encode decode typeOf).

(** One server: its peer, and whether the test has it connected. *)
Definition look_at (p : nat) (conn : bool) (s : System) : outcome (option (Z * bool)) :=
  if conn then
    match peer_of p s with Some x => Done (Some (Raft.GetState (peer x))) | None => Panic "nil pointer dereference" end
  else Done None.

(** One round: the servers in order, with the steps before each look. *)
Fixpoint poll (servers : list (nat * bool)) (ess : list (list (@step))) (s : System) :
    outcome (list (option (Z * bool)) * System) :=
  match servers with
  | [] => Done ([], s)
  | (p, conn) :: servers =>
      s ← run_steps (hd [] ess) s;
      o ← look_at p conn s;
      '(seen, s) ← poll servers (tl ess) s;
      Done (o :: seen, s)
  end.

(** The rounds, each with the order in which it goes through its map of leaders. *)
Fixpoint observe (servers : list (nat * bool)) (rounds : list ((gmap Z (list Z) → list Z) * list (list (@step)))) (s : System) :
    outcome (list (list Z * list (option (Z * bool))) * System) :=
  match rounds with
  | [] => Done ([], s)
  | (order, ess) :: rounds =>
      '(seen, s) ← poll servers ess s;
      '(obs, s) ← observe servers rounds s;
      Done ((order (leaders_of seen), seen) :: obs, s)
  end.

(** The steps of some rounds. *)
Definition steps_of (servers : list (nat * bool)) (ess : list (list (@step))) : list (@step) :=
  mjoin (take (length servers) ess).

Definition all_steps (servers : list (nat * bool)) (rounds : list ((gmap Z (list Z) → list Z) * list (list (@step)))) : list (@step) :=
  mjoin (steps_of servers ∘ snd <$> rounds).

(** What a round sees are moments of one run. *)
Definition seen_in (servers : list (nat * bool)) (es : list (@step)) (s : System) (seen : list (option (Z * bool))) : Prop :=
  ∀ i p t b, seen !! i = Some (Some (t, b)) → servers.*1 !! i = Some p →
    ∃ es1 es2 s1 x, es = es1 ++ es2 ∧ run_steps es1 s = Done s1 ∧ peer_of p s1 = Some x ∧ Raft.GetState (peer x) = (t, b).

Lemma poll_seen servers : ∀ ess s seen s',
  poll servers ess s = Done (seen, s') →
  length seen = length servers ∧ run_steps (steps_of servers ess) s = Done s' ∧ seen_in servers (steps_of servers ess) s seen.
Proof.
  induction servers as [|[p conn] servers IH]; intros ess s seen s'; cbn [poll].
  { intros [= <- <-]. split_and!; [done|done|]. intros i q t b Hi. by rewrite lookup_nil in Hi. }
  intros (s1 & H1 & Hrun)%bind_Done. apply bind_Done in Hrun as (o & Ho & Hrun). apply bind_Done in Hrun as ([l s2] & Hp & [= <- <-]).
  destruct (IH _ _ _ _ Hp) as (Hl & Hr & Hs).
  assert (steps_of ((p, conn) :: servers) ess = hd [] ess ++ steps_of servers (tl ess)) as ->.
  { unfold steps_of. destruct ess as [|es ess]; [cbn; by rewrite !take_nil|done]. }
  split_and!.
  - cbn [length]. by rewrite Hl.
  - by rewrite run_steps_app, H1.
  - intros [|i] q t b Hi Hq; cbn in Hi, Hq.
    + injection Hi as ->. injection Hq as <-. unfold look_at in Ho. destruct conn; [|done].
      destruct (peer_of p s1) as [x|] eqn:Hx; [|done]. apply Done_inj, (inj Some) in Ho. by exists (hd [] ess), (steps_of servers (tl ess)), s1, x.
    + destruct (Hs i q t b Hi Hq) as (es1 & es2 & s3 & x & E & Hr1 & Hx & Hg).
      exists (hd [] ess ++ es1), es2, s3, x. split_and!; [by rewrite <- app_assoc, <- E|by rewrite run_steps_app, H1|done|done].
Qed.

(** Every round is a part of the run. *)
Lemma observe_seen servers : ∀ rounds s obs s',
  observe servers rounds s = Done (obs, s') →
  ∀ o seen, (o, seen) ∈ obs → ∃ es1 es2 es3 s1 order, all_steps servers rounds = es1 ++ es2 ++ es3 ∧ run_steps es1 s = Done s1 ∧
    seen_in servers es2 s1 seen ∧ length seen = length servers ∧ o = order (leaders_of seen) ∧ order ∈ rounds.*1.
Proof.
  induction rounds as [|[order ess] rounds IH]; intros s obs s'; cbn [observe].
  { intros [= <- <-] o seen Hin%elem_of_nil. done. }
  intros ([l s1] & Hp & Hrun)%bind_Done o seen. apply bind_Done in Hrun as ([obs1 s2] & Ho & [= <- <-]).
  destruct (poll_seen _ _ _ _ _ Hp) as (Hl & Hr & Hs).
  change (all_steps servers ((order, ess) :: rounds)) with (steps_of servers ess ++ all_steps servers rounds).
  intros [[= -> ->]|Hin]%elem_of_cons.
  - exists [], (steps_of servers ess), (all_steps servers rounds), s, order. split_and!; try done. by left.
  - destruct (IH _ _ _ Ho o seen Hin) as (es1 & es2 & es3 & s3 & order' & E & Hr3 & H). exists (steps_of servers ess ++ es1), es2, es3, s3, order'.
    rewrite E, <- app_assoc. split_and!; [done|by rewrite run_steps_app, Hr|apply H..|]. right. apply H.
Qed.
End Check.

(** ** The check itself *)

(** With at most one claim to each term a round gives a leader, or there was none. *)
Lemma one_leader_round_total order seen :
  order ≡ₚ elements (dom (leaders_of seen)) → (∀ j t, claims seen j t → 0 <= t) →
  (∀ j k t, claims seen j t → claims seen k t → j = k) →
  (∃ i, one_leader_round order (leaders_of seen) = Done (Some i)) ∨
  one_leader_round order (leaders_of seen) = Done None ∧ ∀ j t, ¬ claims seen j t.
Proof.
  intros Hperm Hpos Hone. destruct (leaders_of_spec seen) as (S1 & S2 & S3).
  assert (∀ t, (length (default [] (leaders_of seen !! t)) <= 1)%nat) as Hlen.
  { intros t. pose proof (S2 t) as Hnd. pose proof (λ i, proj1 (S1 i t)) as Hcl.
    destruct (default [] (leaders_of seen !! t)) as [|x [|y l]]; simpl; [lia|lia|].
    exfalso. apply NoDup_cons in Hnd as [Hx _]. apply Hx. rewrite (Hone x y t); [by left|apply Hcl; by left|apply Hcl; right; by left]. }
  assert (∀ l last, ∃ last', for_each l (λ term last,
    let l := default [] (leaders_of seen !! term) in
    if (1 <? Z.of_nat (length l)) then Fatal "term has more than one leader"
    else Done (if last <? term then term else last)) last = Done last') as Hloop.
  { induction l as [|t l IH]; intros last; [by exists last|]. cbn [for_each]. cbv zeta.
    rewrite (proj2 (Z.ltb_ge 1 _)) by (specialize (Hlen t); lia). cbn [mbind outcome_bind]. apply IH. }
  destruct (Hloop order (-1)) as [last Hlast]. unfold one_leader_round. cbv zeta in Hlast |- *. rewrite Hlast. cbn [mbind outcome_bind].
  destruct (one_leader_loop _ _ _ _ Hlast) as (H1 & H2 & H3). case_decide as Hemp.
  - right. split; [done|]. intros j t Hj%S1. rewrite Hemp, lookup_empty in Hj. by apply elem_of_nil in Hj.
  - left. apply map_choose in Hemp as (t & l & Hl).
    assert (t ∈ order) as Ht by (rewrite Hperm, elem_of_elements; by eapply elem_of_dom_2).
    assert (0 <= t) as Hpos'.
    { destruct l as [|x l]; [by destruct (S3 t [])|]. apply (Hpos x), S1. rewrite Hl. by left. }
    destruct (H1 t Ht) as [_ Hle]. destruct H3 as [->|Hin]; [lia|]. rewrite Hperm, elem_of_elements, elem_of_dom in Hin.
    destruct Hin as [[|x l'] Hl']; [by destruct (S3 last [])|]. rewrite Hl'. exists x. reflexivity.
Qed.

Lemma leader_rounds_total obs :
  (∀ order seen, (order, seen) ∈ obs → order ≡ₚ elements (dom (leaders_of seen)) ∧ (∀ j t, claims seen j t → 0 <= t) ∧
    ∀ j k t, claims seen j t → claims seen k t → j = k) →
  (∃ i, leader_rounds obs = Done i) ∨
  leader_rounds obs = Fatal "expected one leader, got none" ∧ ∀ order seen j t, (order, seen) ∈ obs → ¬ claims seen j t.
Proof.
  induction obs as [|[order seen] obs IH]; intros Hall.
  { right. split; [done|]. by intros order seen j t Hin%elem_of_nil. }
  destruct (Hall order seen ltac:(by left)) as (Hp & Hpos & Hone). cbn [leader_rounds].
  destruct (one_leader_round_total order seen Hp Hpos Hone) as [[i ->]|[-> Hno]]; cbn [mbind outcome_bind]; [left; by exists i|].
  destruct IH as [?|[Hf Hno']]; [intros; apply Hall; by right|by left|right]. split; [done|].
  intros o se j t [[= -> ->]|Hin]%elem_of_cons; [by apply Hno|by eapply Hno'].
Qed.

(** What a round shows when nothing moves. *)
Definition shown {Typ} (servers : list (nat * bool)) (s : @System Typ) : list (option (Z * bool)) :=
  (λ '(p, c), if (c : bool) then Raft.GetState ∘ peer <$> peer_of p s else None) <$> servers.

Lemma poll_still {Typ} encode decode typeOf servers (s : @System Typ) :
  (∀ p c, (p, c) ∈ servers → is_Some (peer_of p s)) → poll encode decode typeOf servers [] s = Done (shown servers s, s).
Proof.
  induction servers as [|[p c] servers IH]; intros Hall; [done|]. cbn [poll hd tl].
  change (run_steps encode decode typeOf [] s) with (Done s). cbn [mbind outcome_bind].
  destruct (Hall p c ltac:(by left)) as [x Hx]. unfold look_at. rewrite Hx.
  assert (poll encode decode typeOf servers [] s = Done (shown servers s, s)) as E by (apply IH; intros q d Hin; apply (Hall q d); by right).
  unfold shown. cbn [fmap list_fmap]. rewrite Hx. destruct c; cbn [mbind outcome_bind]; by rewrite E.
Qed.

(** All the steps before the first look. *)
Lemma poll_shown {Typ} encode decode typeOf servers es (s s' : @System Typ) :
  run_steps encode decode typeOf es s = Done s' → servers ≠ [] → (∀ p c, (p, c) ∈ servers → is_Some (peer_of p s')) →
  poll encode decode typeOf servers [es] s = Done (shown servers s', s').
Proof.
  intros Hrun Hne Hall. rewrite <- (poll_still encode decode typeOf servers s' Hall). destruct servers as [|[p c] servers]; [done|].
  cbn [poll hd tl]. by rewrite Hrun.
Qed.

(** The indices other than one. *)
Lemma others_of n i : (i < n)%nat → ∃ js, NoDup js ∧ (∀ j, j ∈ js ↔ (j < n)%nat ∧ j ≠ i) ∧ length js = (n - 1)%nat.
Proof.
  intros Hi. exists (seq 0 i ++ seq (S i) (n - S i)). split_and!.
  - apply NoDup_app. split_and!; [apply NoDup_seq| |apply NoDup_seq]. intros j Hj Hj'. apply elem_of_seq in Hj, Hj'. lia.
  - intros j. rewrite elem_of_app, !elem_of_seq. lia.
  - rewrite length_app, !length_seq. lia.
Qed.

(** ** A group of the program *)
Section Group.
Context {Typ : Type} (encode : Val → list Z * bool) (decode : Typ → list Z → Val * bool) (typeOf : Val → Typ).
Context (codec : ∀ v, (encode v).2 = true ∧ decode (typeOf v) (encode v).1 = (v, true)).
Context (vote_type : ∀ r r', typeOf (VoteReply r) = typeOf (VoteReply r')).
Context (entries_type : ∀ r r', typeOf (EntriesReply r) = typeOf (EntriesReply r')).
Context (g : Z) (n : nat) (sg : @ServerGrp Svc) (T : @Tester Typ Val App).
Context (Hst : just_started g n sg T).

Abbreviation run_steps := (@run_steps Typ encode decode typeOf).
Abbreviation start := (started (rafts_of sg) (world T)).

Lemma pointers_differ i j p : rafts_of sg !! i = Some p → rafts_of sg !! j = Some p → i = j.
Proof.
  destruct (just_started_running _ _ _ _ Hst) as [Hr _]. rewrite (members_pointers g n sg T Hr), !list_lookup_fmap, !fmap_Some.
  intros (m & Hm & ->) (m' & Hm' & E). by apply (members_apart g n sg T Hr _ _ _ _ Hm Hm').
Qed.

Lemma leads_positive es s p t :
  (∀ a, Net a ∈ es → leaves_group sg a) → run_steps es start = Done s → Z.of_nat n < max_int64 → Z.of_nat (length es) <= max_int64 →
  p ∈ rafts_of sg → leads p t s → 0 <= t.
Proof.
  intros Ha Hrun Hn Hes [i Hi]%list_elem_of_lookup Hl.
  destruct (group_simulated encode decode typeOf codec vote_type entries_type g n sg T es s Hst Ha Hrun) as (tr & c & cs & N & L & R & S).
  destruct (just_started_running _ _ _ _ Hst) as [Hr _].
  destruct (run_inv n tr c) as (k & H & V & HI); [split; lia|done|done|].
  destruct (leads_is_leader encode typeOf g n sg T cs s c i p t Hr S Hi Hl) as (x & Hx & _ & <-).
  apply (inv_inst _ _ _ _ _ HI i x Hx).
Qed.

Lemma group_peer es s i p :
  (∀ a, Net a ∈ es → leaves_group sg a) → run_steps es start = Done s → rafts_of sg !! i = Some p → is_Some (peer_of p s).
Proof.
  intros Ha Hrun Hp.
  destruct (group_simulated encode decode typeOf codec vote_type entries_type g n sg T es s Hst Ha Hrun) as (tr & c & cs & _ & _ & _ & S).
  destruct (just_started_running _ _ _ _ Hst) as [Hr _].
  destruct (sim_peer_of encode typeOf g n sg T cs s c i p Hr S Hp) as (x & _ & Hx & _). by exists x.
Qed.

Lemma leader_alone es s i j p q t :
  (∀ a, Net a ∈ es → leaves_group sg a) → run_steps es start = Done s → Z.of_nat n < max_int64 → Z.of_nat (length es) <= max_int64 →
  rafts_of sg !! i = Some p → rafts_of sg !! j = Some q → leads p t s → leads q t s → i = j.
Proof.
  intros Ha Hrun Hn Hlen Hp Hq Lp Lq.
  assert (p = q) as <-.
  { apply (leaders_on_network encode decode typeOf codec vote_type entries_type g n sg T es [] s s p q t Hst); rewrite ?app_nil_r; try done;
      by eapply list_elem_of_lookup_2. }
  by eapply pointers_differ.
Qed.

(** What a round sees of the group's peers: at most one leader of a term. *)
Lemma round_claims servers es es2 es3 s seen :
  servers.*1 = rafts_of sg → (∀ a, Net a ∈ es ++ es2 ++ es3 → leaves_group sg a) → run_steps es start = Done s →
  Z.of_nat n < max_int64 → Z.of_nat (length (es ++ es2 ++ es3)) <= max_int64 → seen_in encode decode typeOf servers es2 s seen →
  length seen = length servers →
  (∀ j t, claims seen j t → ∃ p es1 es3 s1, rafts_of sg !! Z.to_nat j = Some p ∧ es2 = es1 ++ es3 ∧ run_steps es1 s = Done s1 ∧ leads p t s1) ∧
  (∀ j t, claims seen j t → 0 <= t) ∧ (∀ j k t, claims seen j t → claims seen k t → j = k).
Proof.
  intros Hsv Ha Hrun Hn Hlen Hseen Hl. rewrite !length_app in Hlen.
  assert (∀ j t, claims seen j t → ∃ p es1 es3 s1, rafts_of sg !! Z.to_nat j = Some p ∧ es2 = es1 ++ es3 ∧
    run_steps es1 s = Done s1 ∧ leads p t s1) as Hclaim.
  { intros j t [Hj Hs]. destruct (lookup_lt_is_Some_2 servers.*1 (Z.to_nat j)) as [p Hp].
    { rewrite length_fmap, <- Hl. by eapply lookup_lt_Some. }
    destruct (Hseen _ p t true Hs Hp) as (es1 & es4 & s1 & x & E & R & Hx & Hg). rewrite Hsv in Hp. exists p, es1, es4, s1. split_and!; try done.
    exists x. unfold Raft.GetState in Hg. injection Hg as Ht Hlead. apply bool_decide_eq_true in Hlead. by split_and!. }
  split; [exact Hclaim|].
  assert (∀ es1 es4 s1, es2 = es1 ++ es4 → run_steps es1 s = Done s1 → run_steps (es ++ es1) start = Done s1 ∧
    (∀ a, Net a ∈ es ++ es1 → leaves_group sg a) ∧ Z.of_nat (length (es ++ es1)) <= max_int64) as Hmoment.
  { intros es1 es4 s1 -> R. split_and!.
    - rewrite run_steps_app, Hrun. exact R.
    - intros a Hin. apply Ha. rewrite <- !app_assoc, app_assoc. apply elem_of_app. by left.
    - rewrite !length_app in *. lia. }
  assert (∀ es1 es4 es5 s1 s2 p q t j k, es2 = (es1 ++ es4) ++ es5 → run_steps es1 s = Done s1 → run_steps (es1 ++ es4) s = Done s2 →
    rafts_of sg !! Z.to_nat j = Some p → rafts_of sg !! Z.to_nat k = Some q → leads p t s1 → leads q t s2 → p = q) as Hagree.
  { intros es1 es4 es5 s1 s2 p q t j k E R1 R2 Hp Hq Lp Lq. destruct (Hmoment _ _ _ E R2) as (R & Hl2 & Hb).
    rewrite <- app_assoc in E. destruct (Hmoment _ _ _ E R1) as (R0 & _ & _). rewrite run_steps_app, R1 in R2.
    rewrite app_assoc in Hl2, Hb.
    eapply (leaders_on_network encode decode typeOf codec vote_type entries_type g n sg T (es ++ es1) es4 s1 s2 p q t Hst Hl2 R0 R2 Hn Hb);
      [by eapply list_elem_of_lookup_2..|exact Lp|exact Lq]. }
  split.
  - intros j t Hj. destruct (Hclaim j t Hj) as (p & es1 & es4 & s1 & Hp & E & R & Lp). destruct (Hmoment _ _ _ E R) as (R' & Hl' & Hb).
    eapply leads_positive; [exact Hl'|exact R'|done|exact Hb| |exact Lp]. by eapply list_elem_of_lookup_2.
  - intros j k t Hj Hk. destruct (Hclaim j t Hj) as (p & es1 & es4 & s1 & Hp & E1 & R1 & Lp).
    destruct (Hclaim k t Hk) as (q & es5 & es6 & s2 & Hq & E2 & R2 & Lq).
    assert (p = q) as ->.
    { rewrite E1 in E2. apply app_eq_app in E2 as (l & [[-> ->]|[-> ->]]).
      - symmetry. by eapply (Hagree es5 l es4 s2 s1 q p t k j).
      - rewrite app_assoc in E1. by eapply (Hagree es1 l es6 s1 s2 p q t j k). }
    pose proof (pointers_differ _ _ _ Hp Hq). destruct Hj as [? _], Hk as [? _]. lia.
Qed.

(** (C5) On the network the leader check never raises a false alarm: whatever the peers, the network and the
    test do while it looks, it does not see two leaders of one term. It returns a peer that led at one of
    its looks the newest term that it saw led in that round, or reports that there is no leader, and then
    has seen none in any round. *)
Theorem checkOneLeader_on_network es s servers rounds obs s' :
  (∀ a, Net a ∈ es ++ all_steps servers rounds → leaves_group sg a) →
  run_steps es start = Done s → servers.*1 = rafts_of sg →
  observe encode decode typeOf servers rounds s = Done (obs, s') →
  (∀ order m, order ∈ rounds.*1 → order m ≡ₚ elements (dom m)) →
  Z.of_nat n < max_int64 → Z.of_nat (length (es ++ all_steps servers rounds)) <= max_int64 →
  (∃ i p t order seen es1 es2 s1, checkOneLeader obs = Done i ∧ rafts_of sg !! Z.to_nat i = Some p ∧
    (order, seen) ∈ obs ∧ claims seen i t ∧ (∀ j t', claims seen j t' → t' <= t) ∧
    all_steps servers rounds = es1 ++ es2 ∧ run_steps es1 s = Done s1 ∧ leads p t s1) ∨
  checkOneLeader obs = Fatal "expected one leader, got none" ∧
    ∀ order seen i t, (order, seen) ∈ take 10 obs → ¬ claims seen i t.
Proof.
  intros Ha Hrun Hsv Hobs Horder Hn Hlen.
  assert (∀ order seen, (order, seen) ∈ obs → order ≡ₚ elements (dom (leaders_of seen)) ∧
    (∀ j t, claims seen j t → ∃ p es1 es2 s1, rafts_of sg !! Z.to_nat j = Some p ∧
      all_steps servers rounds = es1 ++ es2 ∧ run_steps es1 s = Done s1 ∧ leads p t s1) ∧
    (∀ j t, claims seen j t → 0 <= t) ∧ ∀ j k t, claims seen j t → claims seen k t → j = k) as Hall.
  { intros order seen Hin.
    destruct (observe_seen _ _ _ _ _ _ _ _ Hobs order seen Hin) as (es1 & es2 & es3 & s1 & f & E & R1 & Hseen & Hl & -> & Hf).
    rewrite E, app_assoc in Ha, Hlen. assert (run_steps (es ++ es1) start = Done s1) as R by (by rewrite run_steps_app, Hrun).
    destruct (round_claims servers (es ++ es1) es2 es3 s1 seen Hsv Ha R Hn Hlen Hseen Hl) as (H1 & H2 & H3).
    split_and!; [by apply Horder| |done|done]. intros j t Hj. destruct (H1 j t Hj) as (p & es4 & es5 & s2 & Hp & -> & R2 & Lp).
    exists p, (es1 ++ es4), (es5 ++ es3), s2. split_and!; [done|by rewrite E, <- !app_assoc|by rewrite run_steps_app, R1|done]. }
  assert (∀ x, x ∈ take 10 obs → x ∈ obs) as Hsub by (intros x Hx; rewrite <- (take_drop 10 obs); apply elem_of_app; by left).
  unfold checkOneLeader. destruct (leader_rounds_total (take 10 obs)) as [[i Hi]|Hno].
  { intros order seen Hin%Hsub. destruct (Hall order seen Hin) as (? & _ & ? & ?). done. }
  - left. destruct (leader_rounds_sound (take 10 obs) i) as (order & seen & t & Hin & Hc & Hmax & _); [|exact Hi|].
    { intros order seen Hin%Hsub. destruct (Hall order seen Hin) as (? & _ & ? & _). done. }
    apply Hsub in Hin. destruct (Hall order seen Hin) as (_ & H1 & _). destruct (H1 i t Hc) as (p & es1 & es2 & s1 & Hp & E & R & Lp).
    by exists i, p, t, order, seen, es1, es2, s1.
  - right. split; [apply Hno|]. intros order seen i t Hin. by apply (proj2 Hno order seen i t).
Qed.

Lemma claims_at servers (s : @System Typ) j t : claims (shown servers s) j t →
  ∃ p x, servers !! Z.to_nat j = Some (p, true) ∧ peer_of p s = Some x ∧ state (peer x) = Leader ∧ currentTerm (peer x) = t.
Proof.
  intros [Hj Hs]. unfold shown in Hs. rewrite list_lookup_fmap in Hs. apply fmap_Some in Hs as ([p [|]] & Hp & E); [|done].
  destruct (peer_of p s) as [x|] eqn:Hx; [|done]. apply (inj Some) in E. unfold Raft.GetState in E. injection E as -> Hl.
  symmetry in Hl. apply bool_decide_eq_true in Hl. by exists p, x.
Qed.

(** With one leader that is shown, and nobody else in a newer or older term shown to lead, the check returns it. *)
Lemma check_returns order seen i t :
  (∀ m, order m ≡ₚ elements (dom m)) → 0 <= t → claims seen i t → (∀ j t', claims seen j t' → j = i ∧ t' = t) →
  checkOneLeader [(order (leaders_of seen), seen)] = Done i.
Proof.
  intros Horder Hpos Hclaim Honly.
  assert (∀ o se, (o, se) ∈ [(order (leaders_of seen), seen)] → o ≡ₚ elements (dom (leaders_of se)) ∧ ∀ j t, claims se j t → 0 <= t) as Hobs.
  { intros o se [= -> ->]%list_elem_of_singleton. split; [apply Horder|]. by intros j t' [_ ->]%Honly. }
  unfold checkOneLeader. change (take 10 [(order (leaders_of seen), seen)]) with [(order (leaders_of seen), seen)].
  destruct (leader_rounds_total [(order (leaders_of seen), seen)]) as [[i' Hi']|[_ Hno]].
  - intros o se Hin. destruct (Hobs o se Hin) as [? ?]. split_and!; [done|done|]. apply list_elem_of_singleton in Hin as [= -> ->].
    intros j k t' [-> _]%Honly [-> _]%Honly. done.
  - destruct (leader_rounds_sound _ _ Hobs Hi') as (o & se & t' & [= -> ->]%list_elem_of_singleton & [-> _]%Honly & _). exact Hi'.
  - exfalso. by eapply Hno; [by left|exact Hclaim].
Qed.

(** (C6) The leader check can pass: whatever happened before, once the network is in order a peer whose time is up,
    and whose term is not behind that of the others, can be elected before the check looks for the first
    time; the check then returns it. *)
Theorem checkOneLeader_passes es s i p x now r conns :
  (∀ a, Net a ∈ es → leaves_group sg a) → run_steps es start = Done s → (2 <= n)%nat → Z.of_nat n < max_int64 →
  Z.of_nat (length es + 3 + 7 * n) <= max_int64 → healthy g n sg (net (sworld s)) →
  rafts_of sg !! i = Some p → peer_of p s = Some x → tickers s !! p = Some TLoop → killed (peer x) = false →
  state (peer x) ≠ Leader → currentTerm (peer x) < max_int64 →
  0 <= r → election_timeout r < time_Since (lastHeartbeat (peer x)) now →
  (∀ j q y, rafts_of sg !! j = Some q → peer_of q s = Some y → currentTerm (peer y) <= currentTerm (peer x)) →
  length conns = n → conns !! i = Some true →
  ∃ es' s', (∀ a, Net a ∈ es' → leaves_group sg a) ∧ length es' = (3 + 7 * (n - 1))%nat ∧
    ∀ order, (∀ m, order m ≡ₚ elements (dom m)) →
      ∃ obs, observe encode decode typeOf (zip (rafts_of sg) conns) [(order, [es'])] s = Done (obs, s') ∧
        checkOneLeader obs = Done (Z.of_nat i).
Proof.
  intros Ha Hrun H2 Hn Hlen Hh Hp Hx Htk Hk Hnl Hmax Hr0 Hto Hterms Hlc Hci.
  destruct (just_started_running _ _ _ _ Hst) as [Hr _].
  assert (length (rafts_of sg) = n) as Hln by (by rewrite (members_pointers g n sg T Hr), length_fmap, (length_members g n sg T Hr)).
  assert (i < n)%nat as Hi by (rewrite <- Hln; by eapply lookup_lt_Some).
  destruct (others_of n i Hi) as (js & Hnd & Hjs & Hlj).
  destruct (group_elects encode decode typeOf codec vote_type entries_type g n sg T es s i p x now r js Hst Ha Hrun Hn)
    as (es' & s' & x' & Hl' & Ha' & Hrun' & Hx' & Hlead' & Ht' & Hvoted); try done; [lia|by intros ->; simpl in Hlj; lia|lia| |].
  { intros j [Hjn Hji]%Hjs. split; [done|]. destruct (lookup_lt_is_Some_2 (rafts_of sg) j) as [q Hq]; [by rewrite Hln|].
    destruct (group_peer es s j q Ha Hrun Hq) as [y Hy]. exists q, y. split_and!; [done|done|by eapply Hterms]. }
  exists es', s'. rewrite Hl', Hlj. split_and!; [done|done|]. intros order Horder.
  assert (∀ a, Net a ∈ es ++ es' → leaves_group sg a) as Hall by (intros a [Hin|Hin]%elem_of_app; [by apply Ha|by apply Ha']).
  set (servers := zip (rafts_of sg) conns). set (seen := shown servers s').
  assert (run_steps es' s = Done s') as Hrun2 by (by rewrite run_steps_app, Hrun in Hrun').
  assert (∀ j q c, servers !! j = Some (q, c) → rafts_of sg !! j = Some q) as Hserver.
  { intros j q c Hj. unfold servers in Hj. apply lookup_zip_with_Some in Hj as (? & ? & [= <- <-] & Hq & _). done. }
  exists [(order (leaders_of seen), seen)]. split.
  { cbn [observe]. rewrite (poll_shown encode decode typeOf servers es' s s'); [done|exact Hrun2| |].
    - destruct servers as [|sv l] eqn:E; [|done]. assert (length servers = 0%nat) as E0 by (by rewrite E).
      unfold servers in E0. rewrite length_zip_with, Hln, Hlc in E0. lia.
    - intros q c [j Hj]%list_elem_of_lookup. apply Hserver in Hj. by eapply group_peer. }
  assert (leads p (currentTerm (peer x) + 1) s') as Lp by (by exists x').
  assert (∀ j t, claims seen j t → j = Z.of_nat i ∧ t = currentTerm (peer x) + 1) as Honly.
  { intros j t Hc. pose proof Hc as [Hj0 _]. apply claims_at in Hc as (q & y & Hq & Hy & Hly & Hty). apply Hserver in Hq.
    destruct (decide (Z.to_nat j = i)) as [<-|Hne].
    - rewrite Hp in Hq. injection Hq as <-. rewrite Hx' in Hy. injection Hy as <-. split; [lia|congruence].
    - destruct (Hvoted (Z.to_nat j)) as (q' & y' & Hq' & Hy' & _ & Ht2).
      { apply Hjs. split; [rewrite <- Hln; by eapply lookup_lt_Some|done]. }
      rewrite Hq in Hq'. injection Hq' as <-. rewrite Hy in Hy'. injection Hy' as <-.
      destruct Hne. apply (leader_alone (es ++ es') s' (Z.to_nat j) i q p (currentTerm (peer x) + 1)); try done;
        [rewrite length_app; lia|by exists y]. }
  assert (claims seen (Z.of_nat i) (currentTerm (peer x) + 1)) as Hclaim.
  { split; [lia|]. rewrite Nat2Z.id. unfold seen, shown. rewrite list_lookup_fmap. unfold servers.
    rewrite (proj2 (lookup_zip_with_Some pair _ _ i (p, true))); [|by exists p, true]. cbn [fmap option_fmap option_map].
    rewrite Hx'. cbn. unfold Raft.GetState. by rewrite Ht', bool_decide_eq_true_2. }
  assert (0 <= currentTerm (peer x) + 1) as Hpos.
  { eapply (leads_positive (es ++ es') s' p); [exact Hall|exact Hrun'|done| |by eapply list_elem_of_lookup_2|exact Lp].
    rewrite length_app. lia. }
  by eapply check_returns.
Qed.
End Group.

(** ** Witnesses: three servers again *)
Definition any_order (m : gmap Z (list Z)) : list Z := elements (dom m).

(** The election runs between the first look and the second of the second round. *)
Definition three_servers : list (nat * bool) := [(0, true); (1, true); (2, false)]%nat.
Definition two_rounds : list ((gmap Z (list Z) → list Z) * list (list (@step))) :=
  [(any_order, []); (any_order, [elect_steps; lead_steps])].
Definition two_rounds_seen : list (list Z * list (option (Z * bool))) :=
  [([], [Some (0, false); Some (0, false); None]); ([1], [Some (1, true); Some (1, false); None])].

Lemma two_rounds_run : ∃ s', rafts_of three_sg = [0; 1; 2]%nat ∧
  observe binary_encode binary_decode (λ _, ()) three_servers two_rounds (started (rafts_of three_sg) (world three.2)) = Done (two_rounds_seen, s').
Proof.
  assert (match observe binary_encode binary_decode (λ _, ()) three_servers two_rounds (started (rafts_of three_sg) (world three.2)) with
    | Done (obs, _) => obs = two_rounds_seen | _ => False end ∧ rafts_of three_sg = [0; 1; 2]%nat) as [H Hps] by (vm_compute; split; reflexivity).
  destruct (observe binary_encode binary_decode (λ _, ()) three_servers two_rounds (started (rafts_of three_sg) (world three.2)))
    as [[obs s']| | |]; [|destruct H..].
  exists s'. rewrite H. exact (conj Hps eq_refl).
Qed.

Lemma two_rounds_leave : ∀ a, Net a ∈ [] ++ all_steps three_servers two_rounds → leaves_group three_sg a.
Proof.
  change ([] ++ all_steps three_servers two_rounds) with (elect_steps ++ lead_steps). intros a [Ha|Ha]%elem_of_app; [exact (elect_steps_leave a Ha)|].
  repeat (apply elem_of_cons in Ha as [Ha|Ha]; [discriminate Ha|]). apply elem_of_nil in Ha. destruct Ha.
Qed.

Lemma checkOneLeader_on_network_witness :
  checkOneLeader two_rounds_seen = Done 0 ∧ ∃ p t es1 s1,
    run_steps binary_encode binary_decode (λ _, ()) es1 (started (rafts_of three_sg) (world three.2)) = Done s1 ∧ leads p t s1.
Proof.
  destruct two_rounds_run as (s' & Hps & Hobs). split; [vm_compute; reflexivity|].
  assert (Z.of_nat 3 < max_int64 ∧ Z.of_nat (length ([] ++ all_steps three_servers two_rounds)) <= max_int64) as [H1 H2]
    by (split; vm_compute; congruence).
  assert (∀ order m, order ∈ two_rounds.*1 → order m ≡ₚ elements (dom m)) as Horder.
  { intros order m Hin. apply elem_of_cons in Hin as [->|Hin]; [reflexivity|]. apply list_elem_of_singleton in Hin as ->. reflexivity. }
  destruct (checkOneLeader_on_network binary_encode binary_decode (λ _, ()) binary_codec (λ _ _, eq_refl) (λ _ _, eq_refl)
    0 3 three_sg three.2 three_started [] (started (rafts_of three_sg) (world three.2)) three_servers two_rounds two_rounds_seen s'
    two_rounds_leave eq_refl (eq_sym Hps) Hobs Horder H1 H2)
    as [(i & p & t & order & seen & es1 & es2 & s1 & _ & _ & _ & _ & _ & _ & R & L)|[Hf _]].
  - exists p, t, es1, s1. exact (conj R L).
  - exfalso. vm_compute in Hf. discriminate Hf.
Defined.

(** Every peer starts in term 0. *)
Lemma three_terms q y : q ∈ rafts_of three_sg → peer_of q (started (rafts_of three_sg) (world three.2)) = Some y → currentTerm (peer y) = 0.
Proof.
  assert (forallb (λ q, match peer_of q (started (rafts_of three_sg) (world three.2)) with
    | Some y => currentTerm (peer y) =? 0 | None => false end) (rafts_of three_sg) = true) as H by (vm_compute; reflexivity).
  intros Hq Hy. rewrite forallb_forall in H. specialize (H q (proj1 (list_elem_of_In _ _) Hq)). rewrite Hy in H.
  apply Z.eqb_eq. exact H.
Qed.

Lemma checkOneLeader_passes_witness :
  ∃ es' s' obs, length es' = 17%nat ∧
    observe binary_encode binary_decode (λ _, ()) (zip (rafts_of three_sg) [true; false; true]) [(any_order, [es'])]
      (started (rafts_of three_sg) (world three.2)) = Done (obs, s') ∧ checkOneLeader obs = Done 0.
Proof.
  destruct three_peers as (x & y & Hps & Hx & _ & Htk & Ex & _).
  assert (∀ a, Net a ∈ [] → leaves_group three_sg a) as Hnone by (intros a Ha; apply elem_of_nil in Ha; destruct Ha).
  assert (killed (peer x) = false ∧ state (peer x) ≠ Leader ∧ currentTerm (peer x) = 0 ∧ lastHeartbeat (peer x) = None)
    as (Hk & Hl & Ht & Hb) by (rewrite Ex; split_and!; [reflexivity|discriminate|reflexivity|reflexivity]).
  assert (Z.of_nat 3 < max_int64 ∧ Z.of_nat (0 + 3 + 7 * 3) <= max_int64 ∧ 0 < max_int64) as (M1 & M2 & M3) by (unfold max_int64; lia).
  assert (election_timeout 0 < time_Since (lastHeartbeat (peer x)) 10000000000) as Hto by (rewrite Hb; vm_compute; reflexivity).
  destruct (checkOneLeader_passes binary_encode binary_decode (λ _, ()) binary_codec (λ _ _, eq_refl) (λ _ _, eq_refl)
    0 3 three_sg three.2 three_started [] (started (rafts_of three_sg) (world three.2)) 0 0 x 10000000000 0 [true; false; true]
    Hnone eq_refl) as (es' & s' & _ & Hlen & Hcheck).
  - lia.
  - exact M1.
  - exact M2.
  - exact three_healthy.
  - rewrite Hps. reflexivity.
  - exact Hx.
  - exact Htk.
  - exact Hk.
  - exact Hl.
  - rewrite Ht. exact M3.
  - lia.
  - exact Hto.
  - intros j q z Hq Hz. rewrite Ht, (three_terms q z (list_elem_of_lookup_2 _ _ _ Hq) Hz). apply Z.le_refl.
  - reflexivity.
  - reflexivity.
  - destruct (Hcheck any_order (λ m, reflexivity _)) as (obs & Hobs & Hres). exists es', s', obs. exact (conj Hlen (conj Hobs Hres)).
Defined.
