(* ===== verification/RfTestProps.v ===== *)
(** * RfTestProps: a Raft test from set-up to clean-up

    [makeTest] gives a test whose servers run, each with an object and a peer that are new, so that what
    [RaftNetProps] and [RaftNetTest] show holds of it; at the end [cleanup] kills them. *)

From S2P Require Import Prelude RaftTest Persister Labrpc LabrpcSafety Group GroupProps GroupStart Annotation Config ConfigProps Raft RaftCluster.
From S2P Require Import Services ServicesProps RfTest RaftNet RaftNetSim RaftNetProps.
From Stdlib Require Import Strings.Byte.

Local Open Scope Z_scope.

Section Start.
Context {Typ : Type} (unpack : list byte → option (Z * list any)) (n : nat) (snap : bool).
Abbreviation Tester := (@Tester Typ Services.Val App).
Abbreviation mks := (mksrv unpack n snap).

Lemma StartServer_inv rand i (sg sg' : @ServerGrp Svc) (T T' : Tester) :
  StartServer mks service_of rand i sg T = Done (sg', T') →
  ∃ (srv : @Srv Svc) p st sv st' a', mks (clntEnds srv) (gid sg) i p st (app (world T)) = Done (sv, st', a') ∧ app (world T') = a' ∧
    0 <= i < Z.of_nat (length (srvs sg)) ∧
    srvs sg' = <[Z.to_nat i := mkSrv (saved srv) sv (endNames srv) (clntEnds srv)]> (srvs sg).
Proof.
  unfold StartServer. intros (s & _ & Hrun)%bind_Done. apply bind_Done in Hrun as ([[srv p] T1] & Hs & Hrun).
  apply bind_Done in Hrun as ([[sv st] a] & Hm & Hrun). apply bind_Done in Hrun as (l & Hl & Hrun).
  apply bind_Done in Hrun as (ls & _ & [= <- <-]).
  assert (app (world T1) = app (world T)) as E.
  { unfold startServer in Hs. apply bind_Done in Hs as ([srv0 rn] & _ & Hs). apply bind_Done in Hs as ([p0 st0] & _ & [= _ _ <-]). reflexivity. }
  rewrite E in Hm. apply slice_set_Done in Hl as [Hi ->]. exists srv, p, (store T1), sv, st, a. split_and!; [done|done|lia|lia|done].
Qed.

(** Starting server [i]: its services are the object and the peer that [mksrv] makes. *)
Lemma StartServer_new rand i (sg sg' : @ServerGrp Svc) (T T' : Tester) :
  length (srvs sg) = n → StartServer mks service_of rand (Z.of_nat i) sg T = Done (sg', T') →
  ∃ (srv : @Srv Svc) s, srvs sg' = <[i := srv]> (srvs sg) ∧
    (let a := app (world T) in let cl := clntEnds srv in
     svcs srv = [Some (Rfsrv (length (rfsrvs a))); Some (RaftPeer (length (rafts a)))] ∧
     app (world T') = set_test_srvs (<[Z.of_nat i := length (rfsrvs a)]> (test_srvs a)) (set_rfsrvs (rfsrvs a ++ [s])
       (set_rafts (rafts a ++ [mkPeer (Make (length cl) (Z.of_nat i) []) cl]) a)) ∧
     RaftTest.raft s = Some (length (rafts a))) ∧
    RaftTest.me s = Z.of_nat i ∧ (snap = false → RaftTest.logs s = ∅).
Proof.
  intros Hlen Hst. destruct (StartServer_inv _ _ _ _ _ _ Hst) as (srv & p & st & sv & st' & a' & Hm & Ea & Hi & Es). rewrite Nat2Z.id in Es.
  destruct (mksrv_made unpack n snap _ _ _ _ _ _ _ _ _ Hm) as (s & -> & Ea2 & F1 & F2 & F4).
  eexists _, s. split; [exact Es|]. cbv zeta. split_and!; [done|by rewrite Ea, Ea2|done..].
Qed.

(** What the test has for server [i], whose services are those of [srv]. *)
Definition ready (a : App) (i : nat) (srv : @Srv Svc) : Prop :=
  ∃ k r s, svcs srv = [Some (Rfsrv k); Some (RaftPeer r)] ∧ test_srvs a !! Z.of_nat i = Some k ∧ rfsrvs a !! k = Some s ∧
    RaftTest.me s = Z.of_nat i ∧ RaftTest.raft s = Some r ∧ (snap = false → RaftTest.logs s = ∅).

Lemma start_ready rand (sg sg' : @ServerGrp Svc) (T T' : Tester) :
  length (srvs sg) = n → Group.start mks service_of rand sg T = Done (sg', T') →
  ∀ i srv, (i < n)%nat → srvs sg' !! i = Some srv → ready (app (world T')) i srv.
Proof.
  intros Hlen Hrun. unfold Group.start in Hrun. rewrite Hlen in Hrun.
  set (P := λ (j : nat) (x : @ServerGrp Svc * Tester), length (srvs x.1) = n ∧
    ∀ i srv, (i < j)%nat → srvs x.1 !! i = Some srv → ready (app (world x.2)) i srv).
  assert (P n (sg', T')) as [_ H]; [|exact H].
  refine (for_each_seq P n _ (sg, T) (sg', T') _ _ Hrun); [split; [done|lia]|].
  intros i [sg1 T1] [sg2 T2] Hi [Hl1 H1] Hst. cbn [fst snd] in *.
  destruct (StartServer_new _ _ _ _ _ _ Hl1 Hst) as (srv & s & Es & (Hsv & Ea & Hr) & Hme & Hlogs).
  split; cbn [fst snd]; [by rewrite Es, length_insert|].
  intros j srv' Hj. rewrite Es, Ea. destruct (decide (i = j)) as [->|Hne].
  - rewrite list_lookup_insert_eq by lia. intros [= <-]. eexists _, _, s.
    split_and!; [exact Hsv|apply lookup_insert_eq|apply lookup_last|done..].
  - rewrite list_lookup_insert_ne by done. intros Hsrv. destruct (H1 j srv') as (k & r & t & G1 & G2 & G3 & G4); [lia|done|].
    exists k, r, t. split_and!; [done|cbn; by rewrite lookup_insert_ne by lia|by apply lookup_app_l_Some|apply G4..].
Qed.

Lemma ConnectAll_srvs (sg sg' : @ServerGrp Svc) rn rn' : Group.ConnectAll sg rn = Done (sg', rn') → srvs sg' = srvs sg.
Proof.
  intros Hrun. refine (for_each_ind (λ x : ServerGrp * Network, srvs x.1 = srvs sg) _ _ (sg, rn) (sg', rn') eq_refl _ Hrun).
  intros i [sg1 rn1] [sg2 rn2] _ H1 Hc. cbn [fst] in *. rewrite <- H1. unfold ConnectOne, Group.connect in Hc.
  apply bind_Done in Hc as (conn & _ & Hc). apply bind_Done in Hc as (s & _ & Hc). apply bind_Done in Hc as (rn3 & _ & Hc).
  by apply bind_Done in Hc as (rn4 & _ & [= <- _]).
Qed.

Lemma MakeGroupStart_ready rand1 rand2 g gs (T T' : Tester) sg gs' :
  MakeGroupStart mks service_of rand1 rand2 g n gs T = Done (gs', T') → gs' !! g = Some sg →
  ∀ i srv, (i < n)%nat → srvs sg !! i = Some srv → ready (app (world T')) i srv.
Proof.
  unfold MakeGroupStart, MakeGroup. intros ([gs1 T1] & Hmk & Hrun)%bind_Done. apply bind_Done in Hmk as ([sg0 rn0] & Hsg0 & [= <- <-]).
  apply bind_Done in Hrun as (sg1 & Hl & Hrun). unfold lookupGroup in Hl. rewrite lookup_insert_eq in Hl. injection Hl as <-.
  apply bind_Done in Hrun as ([sg2 T2] & Hst & [= <- <-]). rewrite lookup_insert_eq. intros [= <-].
  destruct (makeSrvGrp_spec _ _ _ _ _ _ Hsg0) as (Hok & _).
  unfold StartServers in Hst. apply bind_Done in Hst as ([sg3 T3] & Hs & Hst). apply bind_Done in Hst as ([sg4 rn4] & Hc & [= <- <-]).
  rewrite (ConnectAll_srvs _ _ _ _ Hc). exact (start_ready _ _ _ _ _ (ok_srvs n sg0 Hok) Hs).
Qed.
End Start.

(** The servers of a Raft test as [GroupStart] needs them: they start on the persisters they can be restored from, and
    killing one keeps what the persisters hold. *)
Lemma mksrv_starts unpack n snap : starts_n (persisted := test_persister unpack snap) (mksrv unpack n snap) with_raft n.
Proof.
  intros cl g i p st a Hcl Hi Hp.
  destruct (mksrv_runs unpack n snap cl g i p st a Hi Hp) as (st' & a' & s & Hrun & [Hx Hst] & -> & _ & Hsp & _).
  eexists _, st', _. split; [exact Hrun|]. split_and!.
  - eapply rs_rfsrv; [apply lookup_last|exact Hsp|]. exists (mkPeer (Make (length cl) i []) cl). split_and!; [apply lookup_last|done..].
  - apply with_raft_grows. split; cbn.
    + intros r x Hr. exists x. split; [by apply lookup_app_l_Some|done].
    + done.
    + intros k kv Hk. by exists kv.
    + intros k t Hk. exists t. split; [by apply lookup_app_l_Some|done].
  - intros q. by apply restorable_extends.
Qed.

Lemma restorable_snapshot unpack snap st p : restorable unpack snap st p ↔
  ∃ bs, snapshot_at st p bs ∧ (snap = true → bs = [] ∨ is_Some (unpack bs)).
Proof.
  split.
  - intros (ps & Hps & Hv & H). eexists. split; [by exists ps|exact H].
  - intros (bs & (ps & Hps & Hv & <-) & H). by exists ps.
Qed.

Lemma mksrv_stops unpack snap : stops (persisted := test_persister unpack snap) Svc_Kill with_raft.
Proof.
  intros g cl i p sv svc st a Hm Hin Hp.
  destruct (with_raft_stops g cl i p sv svc st a Hm Hin (@usable_is_Some (test_persister unpack snap) st p Hp)) as (st' & a' & Hrun & Hk & _).
  exists st', a'. split_and!; [done|exact Hk|]. intros q Hq. apply restorable_snapshot in Hq as (bs & Hbs & H).
  apply restorable_snapshot. exists bs. split; [|done]. by apply (Svc_Kill_snapshots _ _ _ _ _ Hrun).
Qed.

(** ** A new test *)
Section Test.
Context {Typ : Type} (unpack : list byte → option (Z * list any)).
Abbreviation Tester := (@Tester Typ Services.Val App).
Abbreviation Test := (@Test Typ).

(** Server [i] of the test: its object, which [srvs] points to, and the peer below, which is new. *)
Definition new_server (ts : Test) (sg : @ServerGrp Svc) (i : nat) : Prop :=
  ∃ s r x, RaftTest.srvs (view ts) !! i = Some (Some s) ∧ RaftTest.me s = Z.of_nat i ∧ RaftTest.raft s = Some r ∧
    (ts_snapshot ts = false → RaftTest.logs s = ∅) ∧ rafts_of sg !! i = Some r ∧ rafts (memory ts) !! r = Some x ∧
    peer x = Make (ts_n ts) (Z.of_nat i) [].

Lemma view_lookup (ts : Test) i k s :
  (i < ts_n ts)%nat → test_srvs (memory ts) !! Z.of_nat i = Some k → rfsrvs (memory ts) !! k = Some s →
  RaftTest.srvs (view ts) !! i = Some (Some s).
Proof.
  intros Hi Hk Hs. unfold view, servers. cbn [RaftTest.srvs]. rewrite list_lookup_fmap, lookup_seq_lt by done. cbn.
  by rewrite Hk; cbn; rewrite Hs.
Qed.

(** What the checks see of new servers. *)
Lemma new_look (ts : Test) sg connected i c :
  new_server ts sg i → connected !! i = Some c →
  look (peer_GetState (memory ts)) (Z.of_nat i) connected (view ts) = Done (if (c : bool) then Some (0, false) else None).
Proof.
  intros (s & r & x & Hs & _ & Hr & _ & _ & Hx & E) Hc. unfold look. rewrite (slice_get_Some _ _ _ Hc). cbn [mbind outcome_bind].
  destruct c; [|done]. unfold srv_at. rewrite (slice_get_Some _ _ _ Hs). cbn [mbind outcome_bind non_nil].
  unfold RaftTest.GetState. rewrite Hr. cbn [mbind outcome_bind]. unfold peer_GetState. by rewrite Hx, E.
Qed.

Lemma take_S_existsb (l : list bool) i c : l !! i = Some c → existsb id (take (S i) l) = existsb id (take i l) || c.
Proof. intros Hi. rewrite (take_S_r _ _ _ Hi), existsb_app. simpl. by rewrite orb_false_r. Qed.

Lemma new_checks (ts : Test) sg connected :
  (∀ i, (i < ts_n ts)%nat → new_server ts sg i) → length connected = ts_n ts →
  checkTerms (peer_GetState (memory ts)) connected (view ts) = Done (if existsb id connected then 0 else -1) ∧
  checkNoLeader (peer_GetState (memory ts)) connected (view ts) = Done ().
Proof.
  intros Hnew Hlen. assert (length (RaftTest.srvs (view ts)) = ts_n ts) as Hl.
  { unfold view, servers. cbn [RaftTest.srvs]. by rewrite length_fmap, length_seq. }
  unfold checkTerms, checkNoLeader. rewrite Hl.
  assert (∀ i, (i < ts_n ts)%nat → ∃ c, connected !! i = Some c ∧
    look (peer_GetState (memory ts)) (Z.of_nat i) connected (view ts) = Done (if (c : bool) then Some (0, false) else None)) as Hlook.
  { intros i Hi. destruct (lookup_lt_is_Some_2 connected i) as [c Hc]; [lia|]. exists c. split; [done|].
    by eapply new_look; [apply Hnew|]. }
  split.
  - assert (∀ k, (k <= ts_n ts)%nat → for_each (seq 0 k) (λ i term,
      o ← look (peer_GetState (memory ts)) (Z.of_nat i) connected (view ts);
      match o with
      | Some (xterm, _) =>
          if term =? -1 then Done xterm
          else if negb (term =? xterm) then Fatal "servers disagree on term" else Done term
      | None => Done term
      end) (-1) = Done (if existsb id (take k connected) then 0 else -1)) as Hloop.
    { induction k as [|k IH]; intros Hk; [done|]. rewrite seq_S, for_each_app, IH by lia. cbn [mbind outcome_bind for_each].
      destruct (Hlook k) as (c & Hc & E); [lia|]. rewrite Nat.add_0_l, E, (take_S_existsb _ _ _ Hc). cbn [mbind outcome_bind].
      by destruct c, (existsb id (take k connected)). }
    rewrite Hloop by done. by rewrite take_ge by lia.
  - assert (∀ k, (k <= ts_n ts)%nat → for_each (seq 0 k) (λ i _,
      o ← look (peer_GetState (memory ts)) (Z.of_nat i) connected (view ts);
      match o with Some (_, true) => Fatal "leader" | _ => Done () end) () = Done ()) as Hloop.
    { induction k as [|k IH]; intros Hk; [done|]. rewrite seq_S, for_each_app, IH by lia. cbn [mbind outcome_bind for_each].
      destruct (Hlook k) as (c & Hc & E); [lia|]. rewrite Nat.add_0_l, E. by destruct c. }
    by rewrite Hloop.
Qed.

(** (C15) A new Raft test is ready: [makeTest] returns a test whose group has just started, on a network
    that is as reliable as was asked for and delays for long; [srvs] points to one server per index, with an empty log and
    a new peer, the one that is registered; so what was shown of such groups on the network holds of
    the tests, and the checks find no leader, and one term. Nothing is assumed of labgob's decoder: a new persister holds no snapshot. *)
Theorem makeTest_ready rand1 rand2 n rel snap now (T : Tester) :
  fresh_draws n rand1 rand2 (tnet T) → calls (world T) = [] →
  ∃ ts sg (T' : Tester), makeTest unpack rand1 rand2 n rel snap now T = Done ts ∧ groups (cfg ts) = {[GRP0 := sg]} ∧
    just_started GRP0 n sg T' ∧ running (persisted := test_persister unpack snap) service_of with_raft GRP0 n sg (tester (cfg ts)) ∧
    (∀ encode decode typeOf, run_steps encode decode typeOf [Net (Reliable_ rel); Net (LongDelays_ true)]
       (started (rafts_of sg) (world T')) = Done (started (rafts_of sg) (world (tester (cfg ts))))) ∧
    (∀ i, (i < n)%nat → new_server ts sg i) ∧ checkFinished ts = false ∧
    ∀ connected, length connected = n →
      checkTerms (peer_GetState (memory ts)) connected (view ts) = Done (if existsb id connected then 0 else -1) ∧
      checkNoLeader (peer_GetState (memory ts)) connected (view ts) = Done ().
Proof.
  intros Hfresh Hcalls. unfold makeTest, MakeConfig.
  destruct (MakeGroupStart_ok (mksrv unpack n snap) service_of with_raft rand1 rand2 GRP0 n ∅ T
    (mksrv_starts unpack n snap) Hfresh) as (sg & T' & Hrun & Hrw & _ & _).
  rewrite Hrun. cbn [mbind outcome_bind]. set (ts := mkTest _ _ _ _ _).
  assert (groups (cfg ts) = {[GRP0 := sg]}) as Hg by done.
  unfold Config_Group, lookupGroup. rewrite Hg, lookup_singleton_eq. cbn [mbind outcome_bind]. exists ts, sg, T'.
  assert (just_started GRP0 n sg T') as Hst.
  { exists (mksrv unpack n snap), rand1, rand2, ∅, T. split_and!; [by apply starts_rfsrv|done|done|exact Hrun]. }
  destruct (just_started_running GRP0 n sg T' Hst) as [Hr _].
  assert (∀ i, (i < n)%nat → new_server ts sg i) as Hnew.
  { intros i Hi. destruct (lookup_lt_is_Some_2 (members_of GRP0 sg T') i) as [m Hm]; [by rewrite (length_members GRP0 n sg T' Hr)|].
    destruct (member_up GRP0 n sg T' Hr i m Hm) as (srv & k & ls & Hsrv & _ & Hsv & _ & Hx & _).
    destruct (MakeGroupStart_ready unpack n snap _ _ _ _ _ _ _ _ Hrun (lookup_insert_eq _ _ _) i srv Hi Hsrv)
      as (k' & r & s & Hsv' & Hk & Hs & Hme & Hraft & Hlogs).
    rewrite Hsv in Hsv'. injection Hsv' as -> <-. exists s, (m_ptr m). eexists. split_and!.
    - by eapply view_lookup.
    - exact Hme.
    - exact Hraft.
    - exact Hlogs.
    - rewrite (members_pointers GRP0 n sg T' Hr), list_lookup_fmap. by rewrite Hm.
    - exact Hx.
    - done. }
  split_and!; [done|done|exact Hst|by apply (running_world _ _ _ _ _ _ T')|done|exact Hnew|done|]. intros connected Hlen. by eapply (new_checks ts sg).
Qed.
(** ** Crashes, restarts, and the end of a test *)

Lemma omap_lookup_total {X Y} (f : X → option Y) (l : list X) i : (∀ x, x ∈ l → is_Some (f x)) → omap f l !! i = (x ← l !! i; f x).
Proof.
  revert i. induction l as [|x l IH]; intros i Hf; [done|]. destruct (Hf x) as [y Hy]; [by left|]. simpl. rewrite Hy.
  destruct i as [|i]; [done|]. simpl. apply IH. intros z Hz. apply Hf. by right.
Qed.

Lemma rafts_of_lookup g n sg (T : Tester) i : running service_of with_raft g n sg T →
  rafts_of sg !! i = (s ← srvs sg !! i; match svcs s with [_; Some (RaftPeer r)] => Some r | _ => None end).
Proof.
  intros Hr. apply omap_lookup_total. intros s [j Hj]%list_elem_of_lookup.
  destruct (up_server _ _ _ _ _ _ (run_up _ _ _ _ _ _ Hr j s Hj)) as (q & p & sv & _ & _ & _ & Hsv & Hm & _).
  destruct (kill_services _ _ _ _ _ _ (store T) Hm) as (kv & r & -> & _). rewrite Hsv. by eexists.
Qed.

Definition dead (r : nat) (a : App) : Prop := ∃ x, rafts a !! r = Some x ∧ killed (peer x) = true.

Lemma services_killed_dead kv r a a' : services_killed kv r a a' → dead r a' ∧ ∀ r', dead r' a → dead r' a'.
Proof.
  intros ((x & x' & _ & Hx' & Hk & _) & Hother & _). assert (dead r a') by by exists x'.
  split; [done|]. intros r' (y & Hy & Hyk). destruct (decide (r' = r)) as [->|Hne]; [done|].
  exists y. by rewrite Hother.
Qed.

(** (C16) A server that crashes and is restarted, as the Raft tests do it: the group runs again, all of
    it connected; the peer that ran is killed and every other one is what it was; and server [i]'s new peer starts from nothing, whatever
    the old one had voted and logged and saved. In a test with snapshots the persisters of the group have to hold
    snapshots that are empty or that labgob reads ([test_persister]), and they still do afterwards. *)
Theorem crash_and_restart rand i r sg (ts : Test) :
  let persisted := test_persister unpack (ts_snapshot ts) in groups (cfg ts) !! GRP0 = Some sg →
  running (persisted := persisted) service_of with_raft GRP0 (ts_n ts) sg (tester (cfg ts)) → rafts_of sg !! i = Some r →
  (∀ j, (j < ts_n ts)%nat → any_string (rand j) ∉ ends (tnet (tester (cfg ts)))) →
  (∀ j k, (j < ts_n ts)%nat → (k < ts_n ts)%nat → rand j = rand k → j = k) →
  ∃ sg1 T1 (ts' : Test) sg', ShutdownServer Svc_Kill (Z.of_nat i) sg (tester (cfg ts)) = Done (sg1, T1) ∧
    restart unpack rand (Z.of_nat i) (with_cfg (with_groups (<[GRP0 := sg1]> (groups (cfg ts)), T1) (cfg ts)) ts) = Done ts' ∧
    groups (cfg ts') = <[GRP0 := sg']> (groups (cfg ts)) ∧
    running (persisted := persisted) service_of with_raft GRP0 (ts_n ts) sg' (tester (cfg ts')) ∧ new_server ts' sg' i ∧
    (∀ j, i ≠ j → rafts_of sg' !! j = rafts_of sg !! j) ∧
    dead r (memory ts') ∧ ∀ r', r' ≠ r → (r' < length (rafts (memory ts)))%nat → rafts (memory ts') !! r' = rafts (memory ts) !! r'.
Proof.
  intros persisted Hsg Hr Hri Hnew Hinj. set (n := ts_n ts) in *. pose proof Hri as Hri0.
  rewrite (rafts_of_lookup _ _ _ _ _ (running_any _ _ _ _ _ _ _ Hr)) in Hri.
  destruct (srvs sg !! i) as [s|] eqn:Hs; [|done]. simpl in Hri.
  assert (i < n)%nat as Hi by (rewrite <- (ok_srvs n sg (run_ok _ _ _ _ _ _ Hr)); by eapply lookup_lt_Some).
  destruct (server_restarts (mksrv unpack n (ts_snapshot ts)) Svc_Kill service_of with_raft rand GRP0 n i sg _ s
    (mksrv_starts unpack n (ts_snapshot ts)) (mksrv_stops unpack (ts_snapshot ts)) Hr Hi Hs Hnew Hinj)
    as (sg1 & T1 & sg2 & T2 & sg3 & rn & Hrun1 & (p & p' & st & _ & _ & Hkill) & Hlen & Hrun2 & Hrun3 & Hr3 & Esrvs & Hothers & _).
  destruct (up_server _ _ _ _ _ _ (run_up _ _ _ _ _ _ Hr i s Hs)) as (q & p0 & sv & _ & _ & _ & Hsv & Hm & _).
  destruct (kill_services _ _ _ _ _ _ st Hm) as (kv & r0 & -> & Hall). rewrite Hsv in Hri. injection Hri as ->. rewrite Hsv in Hkill.
  apply bind_Done in Hkill as ([st1 a1] & H1 & Hkill). apply bind_Done in Hkill as ([st2 a2] & H2 & Hend).
  apply Done_inj in Hend as [= -> ->]. specialize (Hall _ _ _ _ H1 H2).
  destruct (StartServer_new unpack n (ts_snapshot ts) _ _ _ _ _ _ Hlen Hrun2) as (srv & t & Es & (Hsv2 & Ea & Ht) & Hme & Hlogs).
  destruct (services_killed_dead _ _ _ _ Hall) as [Hdead _]. destruct Hall as (_ & Hsame & _).
  assert (srvs sg3 !! i = Some srv) as Hsrv by (rewrite Esrvs, Es, list_lookup_insert_eq; [done|lia]).
  assert (length (clntEnds srv) = n) as Hcl.
  { destruct (ok_names _ _ (run_ok _ _ _ _ _ _ Hr3) i srv Hsrv) as (names & Hnames & Hl).
    rewrite (up_clnt _ _ _ _ _ _ (run_up _ _ _ _ _ _ Hr3 i srv Hsrv)) in Hnames. by injection Hnames as ->. }
  eexists sg1, T1, (with_cfg (with_groups (<[GRP0 := sg3]> (groups (cfg ts)), with_net rn T2) (cfg ts)) ts), sg3. split_and!.
  - exact Hrun1.
  - unfold restart, Config_Group, lookupGroup. cbn [cfg with_cfg groups with_groups fst]. rewrite lookup_insert_eq. cbn [mbind outcome_bind].
    change (tester (with_groups _ _)) with T1. change (ts_n (with_cfg _ _)) with n. change (ts_snapshot (with_cfg _ _)) with (ts_snapshot ts).
    rewrite Hrun2. cbn [mbind outcome_bind]. rewrite Hrun3. cbn [mbind outcome_bind].
    unfold with_cfg, with_groups. cbn [cfg groups fst snd ts_n finished ts_maxIndex ts_snapshot]. by rewrite insert_insert_eq.
  - done.
  - exact Hr3.
  - eexists t, _, _. split_and!; [| |exact Ht| | |change (memory _) with (app (world T2)); rewrite Ea; apply lookup_last|].
    + eapply view_lookup; [done|change (memory _) with (app (world T2)); rewrite Ea; apply lookup_insert_eq|].
      change (memory _) with (app (world T2)). rewrite Ea. apply lookup_last.
    + exact Hme.
    + exact Hlogs.
    + by rewrite (rafts_of_lookup _ _ _ _ _ (running_any _ _ _ _ _ _ _ Hr3)), Hsrv; simpl; rewrite Hsv2.
    + simpl. by rewrite Hcl.
  - intros j Hne. by rewrite (rafts_of_lookup _ _ _ _ _ (running_any _ _ _ _ _ _ _ Hr3)), (rafts_of_lookup _ _ _ _ _ (running_any _ _ _ _ _ _ _ Hr)), Hothers.
  - change (memory _) with (app (world T2)). rewrite Ea. destruct Hdead as (x & Hx & Hk). exists x. split; [|done].
    by apply lookup_app_l_Some.
  - intros r' Hne Hlt. change (rafts (app (world T2)) !! r' = rafts (memory ts) !! r'). rewrite Ea. apply lookup_lt_is_Some_2 in Hlt as [x Hx].
    rewrite Hx. apply lookup_app_l_Some. by rewrite Hsame.
Qed.

Lemma answer_claims cmd i (ts : Test) a : start_answer cmd i ts = Done a → a = None ∨ a = Some (-1, true).
Proof.
  unfold start_answer. intros (sg & _ & H)%bind_Done. apply bind_Done in H as (conn & _ & H).
  destruct conn; [|left; by injection H]. apply bind_Done in H as (s & _ & H).
  destruct (RaftTest.raft s) as [r|]; [|left; by injection H]. destruct (rafts (memory ts) !! r) as [x|]; [|done].
  right. by injection H as <-.
Qed.

(** No agreement is ever reported: [Start] claims to lead without an index, so whatever the servers answer,
    at whatever moments of the test, [one] does not even wait, and fails the test unless it is over. *)
Theorem one_never_agrees cmd n retry over (rounds : list Round) :
  (∀ rd a, rd ∈ rounds → a ∈ answers rd → ∃ i (ts : Test), start_answer cmd i ts = Done a) →
  one cmd n retry over rounds = if over then Done (-1) else Fatal "failed to reach agreement".
Proof.
  induction rounds as [|rd rounds IH]; intros Hall; [done|]. cbn [one].
  assert (∀ l, (∀ a, a ∈ l → ∃ i (ts : Test), start_answer cmd i ts = Done a) → first_start l = -1) as Hfirst.
  { induction l as [|a l IHl]; intros Hl; [done|]. destruct (Hl a) as (i & ts & Ha); [by left|].
    apply answer_claims in Ha as [->| ->]; [|done]. apply IHl. intros b Hb. apply Hl. by right. }
  rewrite Hfirst by (intros a Ha; apply (Hall rd); [by left|done]). apply IH. intros rd' a Hrd. apply Hall. by right.
Qed.

(** Killing the services of every server. *)
Lemma cleanup_kills_all (ss : list (@Srv Svc)) : ∀ st (a : App),
  (∀ s, s ∈ ss → ∃ g cl i p sv, svcs s = Some <$> sv ∧ with_raft g cl i p sv a ∧ is_Some (persisters st !! p)) →
  ∃ st' a', for_each ss (λ s m, for_each (svcs s) (λ svc '(st, a),
      match svc with Some svc => Svc_Kill svc st a | None => Panic "nil pointer dereference" end) m) (st, a) = Done (st', a') ∧
    (∀ r, dead r a → dead r a') ∧ ∀ s kv r, s ∈ ss → svcs s = [kv; Some (RaftPeer r)] → dead r a'.
Proof.
  induction ss as [|s ss IH]; intros st a Hss.
  { exists st, a. split_and!; [done|done|]. by intros s kv r ?%elem_of_nil. }
  destruct (Hss s) as (g & cl & i & p & sv & Hsv & Hm & Hp); [by left|]. cbn [for_each]. rewrite Hsv.
  destruct (kill_services _ _ _ _ _ _ st Hm) as (kv & r & -> & Hall). cbn [fmap list_fmap for_each].
  destruct (with_raft_stops g cl i p _ kv st a Hm (list_elem_of_here _ _) Hp) as (st1 & a1 & H1 & M1 & S1). rewrite H1. cbn [mbind outcome_bind].
  destruct (with_raft_stops g cl i p _ (RaftPeer r) st1 a1 (M1 _ _ _ _ _ Hm) (list_elem_of_further _ _ _ (list_elem_of_here _ _)) (S1 _ Hp))
    as (st2 & a2 & H2 & M2 & S2). rewrite H2. cbn [mbind outcome_bind].
  destruct (services_killed_dead _ _ _ _ (Hall _ _ _ _ H1 H2)) as [Hdead Hkept].
  destruct (IH st2 a2) as (st3 & a3 & E & Hk3 & Hd3).
  { intros s' Hs'. destruct (Hss s') as (g' & cl' & i' & p' & sv' & Hsv' & Hm' & Hp'); [by right|].
    exists g', cl', i', p', sv'. split_and!; [done|by apply M2, M1|by apply S2, S1]. }
  exists st3, a3. split_and!; [exact E|intros r' Hr'; by apply Hk3, Hkept|].
  intros s' kv' r' [->|Hin]%elem_of_cons Hs'; [|by eapply Hd3]. rewrite Hsv in Hs'. injection Hs' as _ ->. by apply Hk3.
Qed.

(** (C17) The end of a test: [cleanup] returns, in time, with the statistics; the checks are told, the network is
    closed, and every peer of the group is killed, so that its ticker stops. *)
Theorem cleanup_stops_everything sg (ts : Test) VIS_ENABLE an_order t now1 now2 now3 now4 an :
  groups (cfg ts) = {[GRP0 := sg]} → running service_of with_raft GRP0 (ts_n ts) sg (tester (cfg ts)) →
  done (tnet (tester (cfg ts))) = false → failed (cfg ts) = false →
  (∀ now, now ∈ [now1; now3; now4] → int64 (now - start (cfg ts)) <= test_limit) →
  ∃ stats drawn (ts' : Test) an', cleanup [] [GRP0] VIS_ENABLE an_order t now1 now2 now3 now4 ts an = Done (Some stats, drawn, ts', an') ∧
    s_npeers stats = Z.of_nat (ts_n ts) ∧ checkFinished ts' = true ∧ done (tnet (tester (cfg ts'))) = true ∧
    ∀ i, (i < ts_n ts)%nat → ∃ r, rafts_of sg !! i = Some r ∧ dead r (memory ts').
Proof.
  intros Hg Hr Hdone Hfail Htime.
  assert (∀ now, now ∈ [now1; now3; now4] → (test_limit <? int64 (now - start (cfg ts))) = false) as Ht.
  { intros now Hin. apply Z.ltb_ge. by apply Htime. }
  destruct (cleanup_kills_all (srvs sg) (store (tester (cfg ts))) (memory ts)) as (st' & a' & Hkill & _ & Hdead).
  { intros s [i Hs]%list_elem_of_lookup. destruct (up_server _ _ _ _ _ _ (run_up _ _ _ _ _ _ Hr i s Hs)) as (q & p & sv & _ & _ & Hp & Hsv & Hm & _).
    by exists GRP0, (clntEnds s), (Z.of_nat i), p, sv. }
  assert (∀ i, (i < ts_n ts)%nat → ∃ r, rafts_of sg !! i = Some r ∧ dead r a') as Hall.
  { intros i Hi. destruct (lookup_lt_is_Some_2 (srvs sg) i) as [s Hs]; [by rewrite (ok_srvs _ sg (run_ok _ _ _ _ _ _ Hr))|].
    rewrite (rafts_of_lookup _ _ _ _ _ Hr), Hs.
    destruct (up_server _ _ _ _ _ _ (run_up _ _ _ _ _ _ Hr i s Hs)) as (q & p & sv & _ & _ & _ & Hsv & Hm & _).
    destruct (kill_services _ _ _ _ _ _ st' Hm) as (kv & r & -> & _). simpl. rewrite Hsv. exists r. split; [done|].
    apply (Hdead s (Some kv) r); [by eapply list_elem_of_lookup_2|done]. }
  unfold cleanup, Config_End, CheckTimeout, Config_Group, lookupGroup. cbn [cfg]. rewrite Hfail, Hg, lookup_singleton_eq, Ht by set_solver.
  cbn [mbind outcome_bind negb andb]. unfold Config_Cleanup, Clnts.cleanup. cbn [for_each mbind outcome_bind].
  unfold Groups_cleanup. change (groups (with_clnts _ _)) with (groups (cfg ts)). rewrite Hg. cbn [for_each].
  rewrite lookup_singleton_eq. unfold Group.cleanup. unfold memory in Hkill.
  change (store (tester (with_clnts _ _))) with (store (tester (cfg ts))).
  change (app (world (tester (with_clnts _ _)))) with (app (world (tester (cfg ts)))).
  rewrite Hkill. cbn [mbind outcome_bind]. unfold Cleanup. change (done (tnet (tester (with_groups _ _)))) with (done (tnet (tester (cfg ts)))). rewrite Hdone.
  cbn [mbind outcome_bind]. change (failed (on_net_of _ _)) with (failed (cfg ts)). rewrite Hfail.
  destruct (Annotation.cleanup VIS_ENABLE false "test passed" an_order t an) as [drawn an'].
  unfold CheckTimeout. change (failed (on_net_of _ _)) with (failed (cfg ts)). change (start (on_net_of _ _)) with (start (cfg ts)).
  rewrite Hfail, Ht by set_solver. cbn [mbind outcome_bind negb andb].
  change (failed (on_net_of _ _)) with (failed (cfg ts)). change (start (on_net_of _ _)) with (start (cfg ts)).
  rewrite Hfail, Ht by set_solver. cbn [mbind outcome_bind negb andb].
  eexists _, drawn, _, an'. split_and!; [reflexivity|simpl|done|done|exact Hall].
  unfold N. by rewrite (ok_srvs _ sg (run_ok _ _ _ _ _ _ Hr)).
Qed.
End Test.

(** ** Witnesses: a test of three servers, with snapshots, of which labgob reads one *)
Definition one_snapshot (bs : list byte) : option (Z * list any) :=
  match bs with [x01] => Some (0, [any_int 5]) | _ => None end.
Abbreviation three_names := (new_names 3 MakeNetwork).
Abbreviation new_test := (makeTest one_snapshot (three_names 0) (three_names 1) 3 true true 0 app_tester).

Lemma makeTest_ready_witness :
  ∃ ts sg, new_test = Done ts ∧ groups (cfg ts) = {[GRP0 := sg]} ∧ new_server ts sg 2 ∧
    checkTerms (peer_GetState (memory ts)) [true; false; true] (view ts) = Done 0.
Proof.
  destruct (makeTest_ready one_snapshot (three_names 0) (three_names 1) 3 true true 0 app_tester
    (new_names_fresh 3 MakeNetwork) eq_refl) as (ts & sg & T' & H1 & H2 & _ & _ & _ & H3 & _ & H4).
  exists ts, sg. refine (conj H1 (conj H2 (conj (H3 2%nat _) _))); [lia|]. exact (proj1 (H4 [true; false; true] eq_refl)).
Defined.

(** Every server has saved that snapshot. *)
Definition all_saved (st : Store) : Store :=
  let '(a, st) := alloc_array [x01] st in
  mkStore (arrays st) ((λ ps, Persister.mkPersister (raftstate ps) (Some a)) <$> persisters st).

Lemma all_saved_usable st p : restorable one_snapshot true st p → restorable one_snapshot true (all_saved st) p.
Proof.
  intros (ps & Hps & _). unfold all_saved. simpl. eexists. cbn [persisters]. rewrite lookup_fmap, Hps. split; [reflexivity|].
  cbn [Persister.snapshot]. unfold slice_valid, deref. cbn [arrays]. rewrite lookup_insert_eq. split; [by eexists|]. intros _. right. by eexists.
Qed.

Lemma three_running : ∃ (ts : @Test unit) sg, ts_n ts = 3%nat ∧ ts_snapshot ts = true ∧ groups (cfg ts) = {[GRP0 := sg]} ∧
  running (persisted := test_persister one_snapshot true) service_of with_raft GRP0 3 sg (tester (cfg ts)) ∧
  done (tnet (tester (cfg ts))) = false ∧ failed (cfg ts) = false ∧ start (cfg ts) = 0.
Proof.
  destruct (MakeGroupStart_ok (mksrv one_snapshot 3 true) service_of with_raft (three_names 0) (three_names 1) GRP0 3 ∅ app_tester
    (mksrv_starts one_snapshot 3 true) (new_names_fresh 3 MakeNetwork)) as (sg & T & Hrun & Hr & _).
  assert (done (tnet T) = false) as Hd.
  { assert (match MakeGroupStart (mksrv one_snapshot 3 true) service_of (three_names 0) (three_names 1) GRP0 3 ∅ app_tester with
      | Done (_, T) => done (tnet T) = false | _ => True end) as H by (vm_compute; reflexivity).
    rewrite Hrun in H. exact H. }
  set (T' := with_store (all_saved (store T)) T).
  assert (running (persisted := test_persister one_snapshot true) service_of with_raft GRP0 3 sg T') as Hr'.
  { exact (running_world (test_persister one_snapshot true) service_of with_raft GRP0 3 sg T T' Hr (λ e He, conj He eq_refl)
      (λ _, eq_refl) (λ _, eq_refl) (all_saved_usable (store T)) eq_refl eq_refl). }
  exists (mkTest (mkConfig ([], None) {[GRP0 := sg]} T' false 0 0 0 0) 3 0 0 true), sg.
  exact (conj eq_refl (conj eq_refl (conj eq_refl (conj Hr' (conj Hd (conj eq_refl eq_refl)))))).
Qed.

Lemma one_never_agrees_witness : ∃ (ts : @Test unit), start_answer (any_int 100) 0 ts = Done (Some (-1, true)) ∧
  one (any_int 100) 3 true false [mkRound [Some (-1, true)] []] = Fatal "failed to reach agreement".
Proof.
  assert (match new_test with Done ts => start_answer (any_int 100) 0 ts = Done (Some (-1, true)) | _ => False end) as H
    by (vm_compute; reflexivity).
  destruct new_test as [ts| | |]; [|destruct H..]. exists ts. refine (conj H _).
  apply (one_never_agrees (Typ := unit) (any_int 100) 3 true false [mkRound [Some (-1, true)] []]).
  intros rd a ->%list_elem_of_singleton ->%list_elem_of_singleton. exists 0, ts. exact H.
Defined.

Lemma crash_and_restart_witness :
  ∃ (ts ts1 ts' : @Test unit) sg sg' r, groups (cfg ts) = {[GRP0 := sg]} ∧ rafts_of sg !! 1%nat = Some r ∧
    restart one_snapshot (new_names 3 (tnet (tester (cfg ts))) 0 0) 1 ts1 = Done ts' ∧ new_server ts' sg' 1 ∧ dead r (memory ts').
Proof.
  destruct three_running as (ts & sg & Hn & Hsnap & Hg & Hr & _).
  pose proof (fd_1 _ _ _ _ (new_names_fresh 3 (tnet (tester (cfg ts))))) as [Hnew Hinj].
  destruct (lookup_lt_is_Some_2 (srvs sg) 1) as [s Hs]; [rewrite (ok_srvs _ _ (run_ok _ _ _ _ _ _ Hr)); lia|].
  pose proof (running_any _ _ _ _ _ _ _ Hr) as Hany.
  destruct (up_server _ _ _ _ _ _ (run_up _ _ _ _ _ _ Hr 1%nat s Hs)) as (q & p & sv & _ & _ & _ & Hsv & Hm & _).
  destruct (kill_services _ _ _ _ _ _ (store (tester (cfg ts))) Hm) as (kv & r & -> & _).
  assert (rafts_of sg !! 1%nat = Some r) as Hri by (rewrite (rafts_of_lookup _ _ _ _ _ Hany), Hs; simpl; rewrite Hsv; exact eq_refl).
  rewrite <- Hn, <- Hsnap in Hr.
  assert (groups (cfg ts) !! GRP0 = Some sg) as Hl by (rewrite Hg; apply lookup_singleton_eq).
  destruct (crash_and_restart one_snapshot (new_names 3 (tnet (tester (cfg ts))) 0 0) 1 r sg ts) as
    (sg1 & T1 & ts' & sg' & _ & Hrun & _ & _ & Hserver & _ & Hdead & _).
  - exact Hl.
  - exact Hr.
  - exact Hri.
  - intros j Hj. apply Hnew; lia.
  - intros j k Hj Hk E. apply Hinj in E; lia.
  - eexists ts, _, ts', sg, sg', r. exact (conj Hg (conj Hri (conj Hrun (conj Hserver Hdead)))).
Defined.

Lemma cleanup_stops_everything_witness :
  ∃ (ts ts' : @Test unit) stats drawn an an', cleanup [] [GRP0] "never" [] 5 10 11 12 13 ts an = Done (Some stats, drawn, ts', an') ∧
    s_npeers stats = 3 ∧ checkFinished ts' = true.
Proof.
  destruct three_running as (ts & sg & Hn & _ & Hg & Hr & Hd & Hf & Hs). rewrite <- Hn in Hr. apply running_any in Hr.
  destruct (cleanup_stops_everything sg ts "never" [] 5 10 11 12 13 empty_annotation Hg Hr Hd Hf)
    as (stats & drawn & ts' & an' & Hrun & Hstats & Hfin & _).
  - intros now Hin. rewrite Hs. repeat (apply elem_of_cons in Hin as [->|Hin]; [vm_compute; congruence|]). by apply elem_of_nil in Hin.
  - eexists ts, ts', stats, drawn, _, an'. rewrite Hn in Hstats. exact (conj Hrun (conj Hstats Hfin)).
Defined.
