(* ===== verification/RsmTest.v ===== *)
(** * RsmTest: the test service of the replicated state machine
    (src/src/kvraft1/rsm/server.go and src/src/kvraft1/rsm/test.go)

    The service counts: [DoOp] is what the replicated state machine calls for
    every committed request, [Snapshot] and [Restore] go through [Labgob]. The
    tests send requests to whichever server is the leader and look at the
    counters. The state machine itself (rsm.go) is unwritten: its [Submit], and gob,
    are parameters; so is the passing of time. *)

From S2P Require Import Prelude MapReduce Labgob KVTest Labrpc Group.

Local Open Scope Z_scope.

(** The requests; [OtherReq] is anything of another type. *)
Inductive Req := Inc | Null | Dec | OtherReq.
Inductive Rep := IncRep (N : Z) | NullRep.

(** [rsm] is nil after [Kill]. *)
Record rsmSrv := mkRsmSrv { me : Z; rsm : option nat; counter : Z }.

(** ** The service *)

(** What [DoOp] does under the lock for an [Inc], and the reply it then reads
    without it. *)
Definition DoOp_count (rs : rsmSrv) : rsmSrv := mkRsmSrv (me rs) (rsm rs) (int64 (counter rs + 1)).
Definition DoOp_reply (rs : rsmSrv) : Rep := IncRep (counter rs).

Definition DoOp (req : Req) (rs : rsmSrv) : outcome (Rep * rsmSrv) :=
  match req with
  | Inc => let rs := DoOp_count rs in Done (DoOp_reply rs, rs)
  | Null => Done (NullRep, rs)
  | _ => Fatal "DoOp should execute only Inc"
  end.

(** The types that are registered, encoded and decoded. *)
Definition rsm_types : gmap rtype TypeInfo :=
  {[ 1%positive := mkType "int" Basic;
     2%positive := mkType "" (Elems 1);
     3%positive := mkType "Op" (Struct []);
     4%positive := mkType "Inc" (Struct []);
     5%positive := mkType "IncRep" (Struct [("N"%string, 1%positive)]);
     6%positive := mkType "Null" (Struct []);
     7%positive := mkType "NullRep" (Struct []);
     8%positive := mkType "Dec" (Struct []) ]}.

(** Deep enough for types without cycles through more than their number. *)
Definition rsm_fuel : nat := 9.

Section Service.
Variable IsUpper : Z → bool.
Variable gob : Z → list Z.
Variable ungob : list Z → option Z.

Definition makeRsmSrv (srv : Z) (handle : nat) (st : Lab) : outcome (rsmSrv * Lab) :=
  st ← for_each [3; 4; 5; 6; 7; 8]%positive (λ t st, Register rsm_types IsUpper rsm_fuel (Some t) st) st;
  Done (mkRsmSrv srv (Some handle) 0, st).

Definition Snapshot (rs : rsmSrv) (st : Lab) : outcome (list Z * Lab) :=
  Encode rsm_types IsUpper (gob (counter rs)) rsm_fuel (Some 1%positive) st.

Definition Restore (data : list Z) (rs : rsmSrv) (st : Lab) : outcome (rsmSrv * Lab) :=
  '(r, st) ← Decode rsm_types IsUpper (ungob data) rsm_fuel (Some 2%positive)
              (Some (VPtr (Some (VBasic "int" (counter rs =? 0))))) st;
  match r with
  | None => Fatal "couldn't decode counter"
  | Some c => Done (mkRsmSrv (me rs) (rsm rs) c, st)
  end.
End Service.

Definition Kill (rs : rsmSrv) : rsmSrv := mkRsmSrv (me rs) None (counter rs).

Definition Raft (rs : rsmSrv) : outcome nat :=
  match rsm rs with Some h => Done h | None => Panic "nil pointer dereference" end.

(** ** The test *)
Record Test := mkTest { srvs : list (option rsmSrv); leader : Z }.

Definition NSRV : nat := 3.
Definition makeTest : Test := mkTest (replicate NSRV None) 0.

(** [ts.srvs[srv] = s]; a server that is started again replaces the old one. *)
Definition mksrv IsUpper (srv : Z) (handle : nat) (ts : Test) (st : Lab) : outcome (nat * Test * Lab) :=
  '(s, st) ← makeRsmSrv IsUpper srv handle st;
  l ← slice_set (srvs ts) srv (Some s);
  h ← Raft s;
  Done (h, mkTest l (leader ts), st).

Definition srv_at (i : Z) (ts : Test) : outcome rsmSrv :=
  o ← slice_get (srvs ts) i;
  match o with Some s => Done s | None => Panic "nil pointer dereference" end.

Definition inPartition (s : Z) (p : option (list Z)) : bool :=
  match p with None => true | Some l => existsb (λ i, s =? i) l end.

(** [E] is the rest of the world: the group, the network, the state machines. *)
Section Requests.
Context {E : Type}.
Variable IsConnected : Z → E → outcome bool.
Variable Submit : Z → Req → E → string * option Rep * E.
Variable Sleep : E → E.

(** The [n] servers from [index] on; a reply comes with its server. *)
Fixpoint try_servers (n : nat) (index : Z) (p : option (list Z)) (req : Req) (ts : Test) (e : E) :
    outcome (option (option Rep * Z) * E) :=
  match n with
  | O => Done (None, e)
  | S n =>
      let next := Z.rem (index + 1) (Z.of_nat (length (srvs ts))) in
      c ← IsConnected index e;
      if (c : bool) then
        s ← srv_at index ts;
        if bool_decide (is_Some (rsm s)) && inPartition index p then
          let '(err, rep, e) := Submit index req e in
          if decide (err = OK) then Done (Some (rep, index), e) else try_servers n next p req ts e
        else try_servers n next p req ts e
      else try_servers n next p req ts e
  end.

(** [rounds]: how often the clock shows that the time is not up. *)
Fixpoint onePartition (rounds : nat) (p : option (list Z)) (req : Req) (ts : Test) (e : E) :
    outcome (option Rep * Test * E) :=
  match rounds with
  | O => Done (None, ts, e)
  | S rounds =>
      '(r, e) ← try_servers (length (srvs ts)) (leader ts) p req ts e;
      match r with
      | Some (rep, index) => Done (rep, mkTest (srvs ts) index, e)
      | None => onePartition rounds p req ts (Sleep e)
      end
  end.

Definition oneInc (rounds : nat) (ts : Test) (e : E) : outcome (option Z * Test * E) :=
  '(rep, ts, e) ← onePartition rounds None Inc ts e;
  match rep with
  | None => Done (None, ts, e)
  | Some (IncRep N) => Done (Some N, ts, e)
  | Some NullRep => Panic "interface conversion"
  end.

Definition oneNull (rounds : nat) (ts : Test) (e : E) : outcome (bool * Test * E) :=
  '(rep, ts, e) ← onePartition rounds None Null ts e;
  match rep with
  | None => Done (false, ts, e)
  | Some NullRep => Done (true, ts, e)
  | Some (IncRep _) => Panic "interface conversion"
  end.
End Requests.

(** ** The counters *)
Definition countValue (v : Z) (ts : Test) : outcome Z :=
  for_each (srvs ts) (λ o i,
    match o with
    | None => Panic "nil pointer dereference"
    | Some s => Done (if counter s =? v then i + 1 else i)
    end) 0.

(** The sleep after a look, in milliseconds, doubles up to a second. *)
Definition next_to (to : Z) : Z := if to <? 1000 then to * 2 else to.

(** [looks i] is what the servers are at the [i]-th iteration; the result is
    the time slept. *)
Fixpoint counter_rounds (iters i : nat) (looks : nat → Test) (v nsrv to slept : Z) : outcome Z :=
  match iters with
  | O => Fatal "checkCounter"
  | S iters =>
      n ← countValue v (looks i);
      if nsrv <=? n then Done slept
      else counter_rounds iters (S i) looks v nsrv (next_to to) (slept + to)
  end.

Definition checkCounter (looks : nat → Test) (v nsrv : Z) : outcome Z := counter_rounds 30 0 looks v nsrv 10 0.

(** ** Connections *)
Definition disconnectLeader {Svc} (ts : Test) (g : @ServerGrp Svc) (rn : Network) :
    outcome (Z * @ServerGrp Svc * Network) :=
  '(g, rn) ← Group.DisconnectAll (leader ts) g rn; Done (leader ts, g, rn).

Definition connect {Svc} (i : Z) (g : @ServerGrp Svc) (rn : Network) : outcome (@ServerGrp Svc * Network) :=
  Group.ConnectOne i g rn.

(** [GetState] of a service that is a Raft peer; [None] for another. *)
Fixpoint leader_in {Svc} (GetState : Svc → option (Z * bool)) (ss : list (option Svc)) : bool :=
  match ss with
  | [] => false
  | s :: ss =>
      match s ≫= GetState with
      | Some (_, true) => true
      | _ => leader_in GetState ss
      end
  end.

Definition Leader {Svc} (GetState : Svc → option (Z * bool)) (g : @ServerGrp Svc) : bool * Z :=
  match list_find (λ ss, leader_in GetState ss = true) (Services g) with
  | Some (i, _) => (true, Z.of_nat i)
  | None => (false, 0)
  end.
