(* ===== verification/RsmTestProps.v ===== *)
(** * RsmTestProps: the counting service and the tests' requests

    A replica that restarts from a snapshot agrees with one that executed
    everything; the requests reach a server that answers, whoever the leader is; the
    check of the counters. *)

From S2P Require Import Prelude GroupProps MapReduce Labgob LabgobProps KVTest Labrpc Group RsmTest.

Local Open Scope Z_scope.

(** ** Replicas *)
Section Replicas.
Context (IsUpper : Z → bool) (gob : Z → list Z) (ungob : list Z → option Z).

(** Applying committed requests, in the order of the log: the replies. *)
Definition apply_all (reqs : list Req) (rs : rsmSrv) : outcome (list Rep * rsmSrv) :=
  for_each reqs (λ req '(reps, rs), '(rep, rs) ← DoOp req rs; Done (reps ++ [rep], rs)) ([], rs).

Definition is_Inc (r : Req) : bool := match r with Inc => true | _ => false end.
Definition ok_req (r : Req) : Prop := r = Inc ∨ r = Null.

Definition incs (reqs : list Req) : Z := Z.of_nat (length (filter (λ r, is_Inc r = true) reqs)).

(** The reply to a request after the requests [before]. *)
Definition reply_after (n : Z) (before : list Req) (req : Req) : Rep :=
  match req with Inc => IncRep (n + incs (before ++ [req])) | _ => NullRep end.

Lemma incs_snoc reqs r : incs (reqs ++ [r]) = incs reqs + (if is_Inc r then 1 else 0).
Proof. unfold incs. rewrite filter_app, length_app, filter_cons. destruct r; simpl; lia. Qed.

Lemma incs_app r1 r2 : incs (r1 ++ r2) = incs r1 + incs r2.
Proof. unfold incs. rewrite filter_app, length_app. lia. Qed.

Lemma incs_bound reqs : 0 <= incs reqs <= Z.of_nat (length reqs).
Proof. unfold incs. pose proof (length_filter (λ r, is_Inc r = true) reqs). lia. Qed.

(** The replies accumulate. *)
Lemma apply_from reqs acc rs :
  for_each reqs (λ req '(reps, rs), '(rep, rs) ← DoOp req rs; Done (reps ++ [rep], rs)) (acc, rs) =
  ('(reps, rs) ← apply_all reqs rs; Done (acc ++ reps, rs)).
Proof.
  unfold apply_all. revert acc rs. induction reqs as [|r reqs IH]; intros acc rs; simpl; [by rewrite app_nil_r|].
  destruct (DoOp r rs) as [[rep rs']| | |]; simpl; [|done..]. rewrite IH, (IH [rep]).
  destruct (for_each _ _ _) as [[reps rs2]| | |]; simpl; [|done..]. by rewrite <- app_assoc.
Qed.

Lemma apply_all_app r1 r2 rs :
  apply_all (r1 ++ r2) rs =
  ('(reps1, rs) ← apply_all r1 rs; '(reps2, rs) ← apply_all r2 rs; Done (reps1 ++ reps2, rs)).
Proof.
  unfold apply_all at 1. rewrite for_each_app. fold (apply_all r1 rs).
  destruct (apply_all r1 rs) as [[reps1 rs1]| | |]; simpl; [|done..]. apply apply_from.
Qed.

(** What a replica is after requests that the tests make. *)
Lemma apply_all_spec reqs rs :
  Forall ok_req reqs → 0 <= counter rs → counter rs + Z.of_nat (length reqs) < 2 ^ 63 →
  ∃ reps, apply_all reqs rs = Done (reps, mkRsmSrv (me rs) (rsm rs) (counter rs + incs reqs)) ∧
    length reps = length reqs ∧
    ∀ i req, reqs !! i = Some req → reps !! i = Some (reply_after (counter rs) (take i reqs) req).
Proof.
  intros Hok H0 Hb. unfold apply_all. induction reqs as [|r reqs IH] using rev_ind.
  { exists []. split; [|done]. simpl. unfold incs. simpl. rewrite Z.add_0_r. by destruct rs. }
  apply Forall_app in Hok as [Hok [Hr _]%Forall_cons]. rewrite length_app in Hb. simpl in Hb.
  destruct IH as (reps & Hrun & Hl & Hreps); [done|lia|]. rewrite for_each_app, Hrun. cbn [mbind outcome_bind for_each].
  pose proof (incs_bound reqs). pose proof (incs_snoc reqs r) as Hsnoc.
  exists (reps ++ [reply_after (counter rs) reqs r]). split_and!.
  - rewrite Hsnoc. destruct Hr as [-> | ->]; cbn [DoOp]; cbv zeta; cbn [mbind outcome_bind is_Inc];
      unfold DoOp_count, DoOp_reply, reply_after; cbn [counter me rsm]; rewrite ?Z.add_0_r; [|done].
    rewrite Hsnoc. cbn [is_Inc]. rewrite int64_id by lia. by rewrite Z.add_assoc.
  - rewrite !length_app, Hl. done.
  - intros i req [[Hlt Hi]|[-> <-]]%lookup_snoc_Some.
    + rewrite lookup_app_l by lia. rewrite take_app_le by lia.
      by apply Hreps.
    + rewrite <- Hl, lookup_app_r, Nat.sub_diag by lia. simpl. by rewrite Hl, take_app_length.
Qed.

(** The types that are encoded and decoded have no complaints. *)
Lemma int_walk fuel st :
  ∃ st1, checkType rsm_types IsUpper (S fuel) 1 st = Done st1 ∧ printed st1 = printed st ∧ errorCount st1 = errorCount st.
Proof. rewrite (checkType_step _ _ _ _ (mkType "int" Basic)) by reflexivity. cbn [kind]. case_decide; by eexists. Qed.

Lemma snapshot_types st :
  ∃ st1, checkType rsm_types IsUpper rsm_fuel 1 st = Done st1 ∧ printed st1 = printed st ∧ errorCount st1 = errorCount st.
Proof. apply int_walk. Qed.

Lemma restore_types st :
  ∃ st1, checkType rsm_types IsUpper rsm_fuel 2 st = Done st1 ∧ printed st1 = printed st ∧ errorCount st1 = errorCount st.
Proof.
  unfold rsm_fuel. rewrite (checkType_step _ _ _ _ (mkType "" (Elems 1))) by reflexivity. cbn [kind].
  case_decide; [by eexists|]. apply (int_walk _ (mark 2 st)).
Qed.

(** (C35) Replicas agree, whether they executed the whole log or restarted from a
    snapshot: restoring the snapshot that was taken after a prefix into a new server, and
    applying the rest, gives the counter and the replies that executing everything gives,
    and the [n]-th [Inc] is answered [n]. Restoring into the new server prints no
    warning. *)
Theorem restart_from_snapshot srv h prefix rest st :
  (∀ c, - 2 ^ 63 <= c < 2 ^ 63 → ungob (gob c) = Some c) →
  Forall ok_req (prefix ++ rest) → Z.of_nat (length (prefix ++ rest)) < 2 ^ 63 →
  let fresh := mkRsmSrv srv (Some h) 0 in
  ∃ reps1 rs data st1 rs' st2 reps2,
    apply_all prefix fresh = Done (reps1, rs) ∧
    Snapshot IsUpper gob rs st = Done (data, st1) ∧
    Restore IsUpper ungob data fresh st1 = Done (rs', st2) ∧ printed st2 = printed st ∧
    apply_all rest rs' = Done (reps2, mkRsmSrv srv (Some h) (incs (prefix ++ rest))) ∧
    apply_all (prefix ++ rest) fresh = Done (reps1 ++ reps2, mkRsmSrv srv (Some h) (incs (prefix ++ rest))) ∧
    ∀ i, (prefix ++ rest) !! i = Some Inc →
      (reps1 ++ reps2) !! i = Some (IncRep (incs (take (S i) (prefix ++ rest)))).
Proof.
  intros Hgob Hok Hlen fresh. pose proof Hok as [Hok1 Hok2]%Forall_app. rewrite length_app in Hlen.
  pose proof (incs_bound prefix). pose proof (incs_bound rest).
  destruct (apply_all_spec prefix fresh Hok1) as (reps1 & Hrun1 & Hl1 & _); [simpl; lia..|].
  destruct (apply_all_spec rest (mkRsmSrv srv (Some h) (incs prefix)) Hok2) as (reps2 & Hrun2 & Hl2 & _);
    [simpl; lia..|].
  destruct (apply_all_spec (prefix ++ rest) fresh Hok) as (reps & Hrun & Hl & Hreps);
    [simpl; lia|rewrite length_app; simpl; lia|].
  destruct (snapshot_types st) as (st1 & Henc & Hp1 & He1), (restore_types st1) as (st2 & Hdec & Hp2 & He2).
  change (apply_all prefix fresh = Done (reps1, mkRsmSrv srv (Some h) (incs prefix))) in Hrun1.
  assert (reps = reps1 ++ reps2) as ->.
  { rewrite apply_all_app, Hrun1 in Hrun. cbn [mbind outcome_bind] in Hrun.
    rewrite Hrun2 in Hrun. by injection Hrun as <-. }
  exists reps1, (mkRsmSrv srv (Some h) (incs prefix)), (gob (incs prefix)), st1, (mkRsmSrv srv (Some h) (incs prefix)), st2, reps2.
  split_and!.
  - exact Hrun1.
  - unfold Snapshot, Encode, checkValue. by rewrite Henc.
  - unfold Restore, Decode, checkValue. rewrite Hdec. cbn. rewrite Hgob by lia. done.
  - congruence.
  - rewrite Hrun2. cbn [me rsm counter]. by rewrite incs_app.
  - rewrite Hrun. cbn [me rsm counter]. done.
  - intros i Hi. rewrite (Hreps i Inc Hi). unfold reply_after. simpl. by rewrite (take_S_r _ _ _ Hi).
Qed.
End Replicas.

(** gob, for one number. *)
Definition one_number (c : Z) : list Z := [c].
Definition of_number (data : list Z) : option Z := head data.

Lemma restart_from_snapshot_witness :
  ∃ rs' st2 reps2, Restore (λ _, true) of_number [2] (mkRsmSrv 0 (Some 7%nat) 0) (mkLab 0 {[1%positive]} []) = Done (rs', st2) ∧
    counter rs' = 2 ∧ apply_all [Null; Inc] rs' = Done (reps2, mkRsmSrv 0 (Some 7%nat) 3).
Proof.
  destruct (restart_from_snapshot (λ _, true) one_number of_number 0 7 [Inc; Null; Inc] [Null; Inc] (mkLab 0 ∅ []))
    as (reps1 & rs & data & st1 & rs' & st2 & reps2 & Hrun1 & Hsnap & Hres & _ & Hrun2 & _ & _).
  - done.
  - repeat constructor; (left; reflexivity) || (right; reflexivity).
  - vm_compute. reflexivity.
  - exists rs', st2, reps2. vm_compute in Hrun1. injection Hrun1 as <- <-. vm_compute in Hsnap. injection Hsnap as <- <-.
    split; [exact Hres|]. vm_compute in Hres. injection Hres as <- <-. split; [reflexivity|exact Hrun2].
Defined.

(** The reply is read after the lock is released: were two requests executed at
    once, both could be answered with the second number. *)
Lemma DoOp_replies_can_repeat rs :
  let rs1 := DoOp_count rs in                    (* the first request counts *)
  let rs2 := DoOp_count rs1 in                   (* the second one counts *)
  DoOp_reply rs2 = DoOp_reply rs2 ∧              (* both read *)
  DoOp_reply rs2 = IncRep (int64 (counter rs + 2)).
Proof. cbv zeta. split; [done|]. unfold DoOp_reply, DoOp_count. simpl. rewrite int64_add_wrap. do 2 f_equal. lia. Qed.

(** ** Requests *)
Section Requests.
Context {E : Type} (IsConnected : Z → E → outcome bool) (Submit : Z → Req → E → string * option Rep * E) (Sleep : E → E).

Abbreviation try_servers := (try_servers IsConnected Submit).
Abbreviation onePartition := (onePartition IsConnected Submit Sleep).

(** Everything the tests index is there. *)
Record test_ok (ts : Test) : Prop := {
  t_started : Forall is_Some (srvs ts);
  t_leader : 0 <= leader ts < Z.of_nat (length (srvs ts));
  t_connected : ∀ i e, 0 <= i < Z.of_nat (length (srvs ts)) → ∃ b, IsConnected i e = Done b
}.

(** A request is sent to this server if it is its turn. *)
Definition eligible (p : option (list Z)) (ts : Test) (l : Z) (e : E) : Prop :=
  IsConnected l e = Done true ∧ inPartition l p = true ∧
  ∃ s, srv_at l ts = Done s ∧ is_Some (rsm s).

Lemma srv_at_ok ts i : test_ok ts → 0 <= i < Z.of_nat (length (srvs ts)) → ∃ s, srv_at i ts = Done s.
Proof.
  intros Hok Hi. unfold srv_at. destruct (slice_get_lt (srvs ts) i Hi) as (o & -> & Ho). cbn [mbind outcome_bind].
  destruct (Forall_lookup_1 _ _ _ _ (t_started _ Hok) Ho) as [s ->]. by exists s.
Qed.

Lemma next_in_range n i : 0 <= i < Z.of_nat n → 0 <= Z.rem (i + 1) (Z.of_nat n) < Z.of_nat n.
Proof. intros Hi. apply Z.rem_bound_pos; lia. Qed.

(** One turn, of a server in range. *)
Lemma try_turn n i p req ts e :
  test_ok ts → 0 <= i < Z.of_nat (length (srvs ts)) →
  let next := Z.rem (i + 1) (Z.of_nat (length (srvs ts))) in
  (¬ eligible p ts i e ∧ try_servers (S n) i p req ts e = try_servers n next p req ts e) ∨
  (eligible p ts i e ∧ ∃ err rep e', Submit i req e = (err, rep, e') ∧
    try_servers (S n) i p req ts e =
      if decide (err = OK) then Done (Some (rep, i), e') else try_servers n next p req ts e').
Proof.
  intros Hok Hi next. destruct (t_connected _ Hok i e Hi) as [b Hb], (srv_at_ok ts i Hok Hi) as [s Hs].
  cbn [RsmTest.try_servers]. fold next. rewrite Hb. cbn [mbind outcome_bind]. unfold eligible.
  destruct b; [rewrite Hs; cbn [mbind outcome_bind]|left; split; [by intros [Hc _]; rewrite Hb in Hc|done]].
  destruct (bool_decide (is_Some (rsm s))) eqn:Hr; [|left; split; [|done]].
  2: { intros (_ & _ & s' & Hs' & Hr'). apply bool_decide_eq_false in Hr. by injection Hs' as <-. }
  apply bool_decide_eq_true in Hr. cbn [andb].
  destruct (inPartition i p) eqn:Hp; [right|left; split; [|done]; by intros (_ & ? & _)].
  split; [split_and!; [done..|by exists s]|].
  destruct (Submit i req e) as [[err rep] e'] eqn:HS. by exists err, rep, e'.
Qed.

(** What comes back is the answer of a server that was asked. *)
Lemma try_servers_answer n : ∀ i p req ts e r e',
  test_ok ts → 0 <= i < Z.of_nat (length (srvs ts)) →
  try_servers n i p req ts e = Done (Some r, e') →
  0 <= r.2 < Z.of_nat (length (srvs ts)) ∧
  ∃ e1, eligible p ts r.2 e1 ∧ Submit r.2 req e1 = (OK, r.1, e').
Proof.
  induction n as [|n IH]; intros i p req ts e r e' Hok Hi Hrun; [done|].
  pose proof (next_in_range _ _ Hi) as Hnext.
  destruct (try_turn n i p req ts e Hok Hi) as [[_ E1]|(Hel & err & rep & e1 & HS & E1)]; rewrite E1 in Hrun.
  - by eapply IH.
  - case_decide as Herr; [|by eapply IH]. injection Hrun as <- <-. subst err. split; [done|]. by exists e.
Qed.

(** It always comes back. *)
Lemma try_servers_total n : ∀ i p req ts e,
  test_ok ts → 0 <= i < Z.of_nat (length (srvs ts)) → ∃ r e', try_servers n i p req ts e = Done (r, e').
Proof.
  induction n as [|n IH]; intros i p req ts e Hok Hi; [by eexists _, _|].
  pose proof (next_in_range _ _ Hi) as Hnext.
  destruct (try_turn n i p req ts e Hok Hi) as [[_ ->]|(_ & err & rep & e1 & _ & ->)]; [by apply IH|].
  case_decide; [by eexists _, _|by apply IH].
Qed.

(** A server that is [d] turns away and would accept ends the round. *)
Lemma try_servers_reaches l p req ts : test_ok ts →
  (∀ e, eligible p ts l e ∧ ∃ rep e', Submit l req e = (OK, rep, e')) →
  ∀ d n i e, 0 <= i < Z.of_nat (length (srvs ts)) → (d < n)%nat →
  l = (i + Z.of_nat d) `mod` Z.of_nat (length (srvs ts)) →
  ∃ r e', try_servers n i p req ts e = Done (Some r, e').
Proof.
  intros Hok Hl. induction d as [|d IH]; intros [|n] i e Hi Hd El; try lia;
    (destruct (try_turn n i p req ts e Hok Hi) as [[Hne E1]|(_ & err & rep & e1 & HS & E1)]).
  - rewrite Z.add_0_r, Z.mod_small in El by lia. subst l. by destruct (Hl e).
  - rewrite Z.add_0_r, Z.mod_small in El by lia. subst l. destruct (Hl e) as (_ & rep' & e' & HS').
    rewrite HS in HS'. injection HS' as -> -> ->. rewrite E1, decide_True by done. by eexists _, _.
  - rewrite E1. apply IH; [by apply next_in_range|lia|]. rewrite El, Z.rem_mod_nonneg by lia.
    rewrite Zplus_mod_idemp_l. f_equal. lia.
  - rewrite E1. case_decide; [by eexists _, _|]. apply IH; [by apply next_in_range|lia|].
    rewrite El, Z.rem_mod_nonneg by lia. rewrite Zplus_mod_idemp_l. f_equal. lia.
Qed.

(** What [onePartition] returns. *)
Lemma onePartition_spec rounds : ∀ p req ts e,
  test_ok ts →
  ∃ rep ts' e', onePartition rounds p req ts e = Done (rep, ts', e') ∧ srvs ts' = srvs ts ∧ test_ok ts' ∧
    ((rep = None ∧ ts' = ts) ∨
     ∃ e1, eligible p ts (leader ts') e1 ∧ Submit (leader ts') req e1 = (OK, rep, e')).
Proof.
  induction rounds as [|rounds IH]; intros p req ts e Hok.
  { exists None, ts, e. split_and!; [done..|by left]. }
  cbn [RsmTest.onePartition].
  destruct (try_servers_total (length (srvs ts)) (leader ts) p req ts e Hok (t_leader _ Hok)) as (r & e' & Hrun).
  rewrite Hrun. cbn [mbind outcome_bind]. destruct r as [[rep index]|]; [|by apply IH].
  destruct (try_servers_answer _ _ _ _ _ _ _ _ Hok (t_leader _ Hok) Hrun) as (Hi & e1 & Hel & HS).
  exists rep, (mkTest (srvs ts) index), e'. split_and!; [done|done| |right; by exists e1].
  destruct Hok as [H1 H2 H3]. by split.
Qed.

(** (C36) A request finds its way to the leader: [onePartition] returns, only with
    the answer of a connected server of the partition, which the test then takes for
    the leader; and if some such server accepts requests, it is asked within the first
    round, wherever the search begins. *)
Theorem onePartition_finds_leader rounds p req ts e :
  test_ok ts →
  ∃ rep ts' e', onePartition rounds p req ts e = Done (rep, ts', e') ∧ srvs ts' = srvs ts ∧
    (rep = None ∨ ∃ e1, eligible p ts (leader ts') e1 ∧ Submit (leader ts') req e1 = (OK, rep, e')) ∧
    ∀ l, (0 < rounds)%nat → 0 <= l < Z.of_nat (length (srvs ts)) →
      (∀ e, eligible p ts l e ∧ ∃ rep e', Submit l req e = (OK, Some rep, e')) →
      (∀ l e err e', Submit l req e = (err, None, e') → err ≠ OK) → is_Some rep.
Proof.
  intros Hok. destruct (onePartition_spec rounds p req ts e Hok) as (rep & ts' & e' & Hrun & Hs & _ & Hcase).
  exists rep, ts', e'. split_and!; [done|done|destruct Hcase as [[-> _]|Hcase]; auto|].
  intros l Hr Hl Hacc Hnil. destruct rounds as [|rounds]; [lia|]. cbn [RsmTest.onePartition] in Hrun.
  pose proof (t_leader _ Hok) as Hi.
  destruct (try_servers_reaches l p req ts Hok) with (d := Z.to_nat ((l - leader ts) `mod` Z.of_nat (length (srvs ts))))
    (n := length (srvs ts)) (i := leader ts) (e := e) as (r & e2 & E2).
  - intros e0. destruct (Hacc e0) as (? & rep0 & e1 & ?). split; [done|by exists (Some rep0), e1].
  - done.
  - pose proof (Z.mod_pos_bound (l - leader ts) (Z.of_nat (length (srvs ts)))). lia.
  - rewrite Z2Nat.id by (apply Z.mod_pos_bound; lia). rewrite Zplus_mod_idemp_r.
    replace (leader ts + (l - leader ts)) with l by lia. by rewrite Z.mod_small.
  - destruct (try_servers_answer _ _ _ _ _ _ _ _ Hok Hi E2) as (_ & e1 & _ & HS).
    rewrite E2 in Hrun. cbn [mbind outcome_bind] in Hrun. destruct r as [rep0 index]. injection Hrun as <- <- <-.
    destruct rep0; [by eexists|]. by destruct (Hnil _ _ _ _ HS).
Qed.

(** (C37) The type assertions of the tests cannot fail: if what the state
    machines answer comes from [DoOp] of the service, [oneInc] and [oneNull] return. *)
Theorem one_typed rounds ts e :
  test_ok ts →
  (∀ l req e rep e', Submit l req e = (OK, Some rep, e') → ∃ rs rs', DoOp req rs = Done (rep, rs')) →
  is_done (oneInc IsConnected Submit Sleep rounds ts e) = true ∧
  is_done (oneNull IsConnected Submit Sleep rounds ts e) = true.
Proof.
  intros Hok HS. unfold oneInc, oneNull. split.
  - destruct (onePartition_spec rounds None Inc ts e Hok) as (rep & ts' & e' & -> & _ & _ & Hcase).
    cbn [mbind outcome_bind]. destruct rep as [rep|]; [|done]. destruct Hcase as [[? _]|(e1 & _ & HSub)]; [done|].
    apply HS in HSub as (rs & rs' & [= <- _]). done.
  - destruct (onePartition_spec rounds None Null ts e Hok) as (rep & ts' & e' & -> & _ & _ & Hcase).
    cbn [mbind outcome_bind]. destruct rep as [rep|]; [|done]. destruct Hcase as [[? _]|(e1 & _ & HSub)]; [done|].
    apply HS in HSub as (rs & rs' & [= <- _]). done.
Qed.
End Requests.

(** ** The check of the counters *)
Definition having (v : Z) (ts : Test) : list (option rsmSrv) := filter (λ o, counter <$> o = Some v) (srvs ts).

Lemma countValue_having v ts : Forall is_Some (srvs ts) → countValue v ts = Done (Z.of_nat (length (having v ts))).
Proof.
  intros Hall. unfold countValue, having.
  assert (∀ l n, Forall is_Some l → for_each l (λ (o : option rsmSrv) (i : Z),
    match o with None => Panic "nil pointer dereference" | Some s => Done (if counter s =? v then i + 1 else i) end) n =
    Done (n + Z.of_nat (length (filter (λ o, counter <$> o = Some v) l)))) as Hloop; [|by rewrite Hloop].
  clear. intros l. induction l as [|o l IH]; intros n Hall; [simpl; f_equal; lia|].
  apply Forall_cons in Hall as [[s ->] Hall]. cbn [for_each mbind outcome_bind]. rewrite IH by done.
  rewrite filter_cons. simpl. destruct (Z.eqb_spec (counter s) v) as [E|E].
  - rewrite decide_True by congruence. simpl. f_equal. lia.
  - by rewrite decide_False by congruence.
Qed.

(** How long a check has slept at its [i]-th look, in milliseconds. *)
Fixpoint slept_at (i : nat) (to slept : Z) : Z :=
  match i with O => slept | S i => slept_at i (next_to to) (slept + to) end.

Lemma slept_mono i : ∀ j to slept, 0 <= to → (i <= j)%nat → slept_at i to slept <= slept_at j to slept.
Proof.
  assert (∀ j to slept, 0 <= to → slept <= slept_at j to slept) as Hge.
  { induction j as [|j IH]; intros to slept Hto; simpl; [lia|]. etrans; [|apply IH]; [lia|].
    unfold next_to. case_match; lia. }
  induction i as [|i IH]; intros [|j] to slept Hto Hij; try lia; simpl; [|apply IH].
  - apply (Hge (S j) to slept Hto).
  - unfold next_to. case_match; lia.
  - lia.
Qed.

Lemma counter_rounds_spec iters : ∀ i looks v nsrv to slept,
  (∀ j, Forall is_Some (srvs (looks j))) →
  let enough j := nsrv <= Z.of_nat (length (having v (looks j))) in
  (∃ k, (k < iters)%nat ∧ enough (i + k)%nat ∧ (∀ j, (j < k)%nat → ¬ enough (i + j)%nat) ∧
     counter_rounds iters i looks v nsrv to slept = Done (slept_at k to slept)) ∨
  ((∀ j, (j < iters)%nat → ¬ enough (i + j)%nat) ∧
   counter_rounds iters i looks v nsrv to slept = Fatal "checkCounter").
Proof.
  induction iters as [|iters IH]; intros i looks v nsrv to slept Hall enough.
  { right. split; [lia|done]. }
  cbn [counter_rounds]. rewrite (countValue_having v (looks i) (Hall i)). cbn [mbind outcome_bind].
  destruct (Z.leb_spec nsrv (Z.of_nat (length (having v (looks i))))) as [Hi|Hi].
  { left. exists 0%nat. unfold enough. rewrite Nat.add_0_r. split_and!; [lia|done|lia|done]. }
  assert (∀ j, ¬ enough (S i + j)%nat → ¬ enough (i + S j)%nat) as Hsh.
  { intros j. by rewrite Nat.add_succ_r. }
  destruct (IH (S i) looks v nsrv (next_to to) (slept + to) Hall) as [(k & Hk & Hen & Hno & E)|[Hno E]].
  - left. exists (S k). split_and!; [lia|by rewrite Nat.add_succ_r| |done].
    intros [|j] Hj; [unfold enough; rewrite Nat.add_0_r; lia|]. apply Hsh, Hno. lia.
  - right. split; [|done]. intros [|j] Hj; [unfold enough; rewrite Nat.add_0_r; lia|]. apply Hsh, Hno. lia.
Qed.

(** The check of the counters looks at all servers up to thirty times: it
    passes at the first look that shows the value on enough of them, having slept
    less than half a minute, and fails the test when none does. *)
Theorem checkCounter_first_look looks v nsrv :
  (∀ j, Forall is_Some (srvs (looks j))) →
  let enough j := nsrv <= Z.of_nat (length (having v (looks j))) in
  (∃ k t, (k < 30)%nat ∧ enough k ∧ (∀ j, (j < k)%nat → ¬ enough j) ∧
     checkCounter looks v nsrv = Done t ∧ 0 <= t <= 29430) ∨
  ((∀ j, (j < 30)%nat → ¬ enough j) ∧ checkCounter looks v nsrv = Fatal "checkCounter").
Proof.
  intros Hall enough. unfold checkCounter.
  destruct (counter_rounds_spec 30 0 looks v nsrv 10 0 Hall) as [(k & Hk & Hen & Hno & E)|[Hno E]]; [left|by right].
  exists k, (slept_at k 10 0). split_and!; [done..| |].
  - apply (slept_mono 0 k 10 0); lia.
  - change 29430 with (slept_at 29 10 0). apply slept_mono; lia.
Qed.

(** ** Witnesses *)
Definition three_servers (c : Z) : Test :=
  mkTest [Some (mkRsmSrv 0 (Some 0%nat) c); Some (mkRsmSrv 1 None c); Some (mkRsmSrv 2 (Some 2%nat) c)] 0.

(** The first server is cut off, the second killed, the third leads and counts. *)
Definition demo_connected (i : Z) (n : Z) : outcome bool := Done (negb (i =? 0)).
Definition demo_submit (i : Z) (req : Req) (n : Z) : string * option Rep * Z :=
  if i =? 2 then
    match DoOp req (mkRsmSrv 2 (Some 2%nat) n) with
    | Done (rep, rs) => (OK, Some rep, counter rs)
    | _ => ("ErrWrongLeader"%string, None, n)
    end
  else ("ErrWrongLeader"%string, None, n).

Lemma three_ok c : test_ok demo_connected (three_servers c).
Proof. split; [repeat constructor; by eexists|simpl; lia|by eexists]. Qed.

Lemma demo_submit_DoOp l req e rep e' :
  demo_submit l req e = (OK, rep, e') → ∃ r rs, rep = Some r ∧ l = 2 ∧ DoOp req (mkRsmSrv 2 (Some 2%nat) e) = Done (r, rs).
Proof.
  unfold demo_submit. destruct (Z.eqb_spec l 2) as [->|]; [|done].
  destruct (DoOp _ _) as [[r rs]| | |]; [|done..]. intros [= <- _]. by exists r, rs.
Qed.

Lemma onePartition_finds_leader_witness :
  ∃ rep ts' e', onePartition demo_connected demo_submit id 1 (Some [2; 0]) Inc (three_servers 0) 6 = Done (rep, ts', e') ∧
    is_Some rep ∧ leader ts' = 2 ∧ e' = 7.
Proof.
  destruct (onePartition_finds_leader demo_connected demo_submit id 1 (Some [2; 0]) Inc (three_servers 0) 6 (three_ok 0))
    as (rep & ts' & e' & Hrun & _ & _ & Hfound).
  exists rep, ts', e'. split; [done|]. split.
  - apply (Hfound 2); [lia|simpl; lia| |].
    + intros e. split; [split; [done|split; [done|by eexists]]|]. by eexists _, _.
    + intros l e err e0 HS ->. apply demo_submit_DoOp in HS as (? & ? & ? & _). done.
  - vm_compute in Hrun. by injection Hrun as _ <- <-.
Defined.

Lemma one_typed_witness :
  is_done (oneInc demo_connected demo_submit id 2 (three_servers 0) 6) = true ∧
  is_done (oneNull demo_connected demo_submit id 2 (three_servers 0) 6) = true.
Proof.
  apply (one_typed demo_connected demo_submit id 2 (three_servers 0) 6 (three_ok 0)).
  intros l req e rep e' (r & rs & [= ->] & _ & HD)%demo_submit_DoOp. by exists (mkRsmSrv 2 (Some 2%nat) e), rs.
Defined.

Lemma checkCounter_first_look_witness :
  checkCounter (λ i, three_servers (Z.of_nat i)) 4 3 = Done 150.
Proof.
  destruct (checkCounter_first_look (λ i, three_servers (Z.of_nat i)) 4 3) as [(k & t & _ & _ & _ & E & _)|[Hno _]].
  - intros j. repeat constructor; by eexists.
  - rewrite E. vm_compute in E. by injection E as <-.
  - destruct (Hno 4%nat); [lia|]. vm_compute. done.
Defined.
