(* ===== verification/ShardKVTest.v ===== *)
(** * ShardKVTest: groups that join and leave (src/src/shardkv1/test.go)

    The helpers of the sharded store's tests start groups of servers, let the
    controller add them to the configuration, and take them out again. They are built
    on [Config] for the servers and on [ShardCfg] for the configurations. The
    controller (shardctrler.go) is unwritten: it is the interface [ShardCtrler],
    with what its comments promise as laws. The test that runs controllers
    concurrently is in [ShardCtrlers]. *)

From S2P Require Import Prelude Persister Labrpc Group Clnts Config ShardCfg RsmTest.

Local Open Scope Z_scope.

(** ** The controller *)
Class ShardCtrler (Ctl : Type) := {
  InitConfig : ShardConfig → Ctl → outcome Ctl;
  ChangeConfigTo : ShardConfig → Ctl → outcome Ctl;
  Query : Ctl → outcome (option ShardConfig * Ctl)
}.

(** A field or a method of what [Query] returns, a pointer. *)
Definition cfg_at (p : option ShardConfig) : outcome ShardConfig :=
  match p with Some c => Done c | None => Panic "nil pointer dereference" end.

(** The configuration that a controller's state stands for. *)
Class CtrlerState (Ctl : Type) := current : Ctl → option ShardConfig.

(** "InitConfig: called once by the tester to supply the first configuration";
    "Query: return the current configuration"; "ChangeConfigTo: change the
    configuration from the current one to new", if no other controller
    supersedes it. *)
Class ShardCtrlerLaws (Ctl : Type) `{ShardCtrler Ctl} `{CtrlerState Ctl} := {
  InitConfig_law : ∀ c s, current s = None → ∃ s', InitConfig c s = Done s' ∧ current s' = Some c;
  ChangeConfigTo_law : ∀ c old s, current s = Some old → Num c = Num old + 1 →
    ∃ s', ChangeConfigTo c s = Done s' ∧ current s' = Some c;
  Query_law : ∀ c s, current s = Some c → ∃ s', Query s = Done (Some c, s') ∧ current s' = Some c
}.

Definition ShardNSRV : nat := 3.

Section Test.
Context {Typ Val A Svc Ctl : Type} {SC : ShardCtrler Ctl}.
Variable StartServerShardGrp : list string → Z → Z → nat → Store → A → outcome (list (option Svc) * Store * A).
Variable Kill_ : Svc → Store → A → outcome (Store * A).
Variable service_of : Svc → @Service Val A.

(** The random names of the ends of a new group, and of the ends its servers
    draw when they start. *)
Variable draw : Network → (nat → nat → string) * (nat → nat → string).

Abbreviation Config := (@Config Typ Val A Svc).

Record ShardTest := mkShardTest { cfg : Config; ctl : Ctl; ngid : Z }.

Definition with_cfg (c : Config) (ts : ShardTest) : ShardTest := mkShardTest c (ctl ts) (ngid ts).
Definition with_ctl (c : Ctl) (ts : ShardTest) : ShardTest := mkShardTest (cfg ts) c (ngid ts).

(** The configuration of a test: one server of the controller's group, then the
    test begins. [now1] and [now2] are times. *)
Definition MakeTestMaxRaft
    (StartKVServer : list string → Z → Z → nat → Store → A → outcome (list (option Svc) * Store * A))
    (rand1 rand2 : nat → nat → string) (part : string) (rel : bool) (now1 now2 : Z) (sck : Ctl) (T : @Tester Typ Val A) :
    outcome ShardTest :=
  cfg ← MakeConfig StartKVServer service_of rand1 rand2 1 rel now1 T;
  Done (mkShardTest (Begin part now2 cfg).2 sck (Gid1 + 1)).

Definition newGid (ts : ShardTest) : Z * ShardTest := (ngid ts, mkShardTest (cfg ts) (ctl ts) (int64 (ngid ts + 1))).

Fixpoint new_groups (n : nat) (ts : ShardTest) : list Z * ShardTest :=
  match n with
  | O => ([], ts)
  | S n => let '(g, ts) := newGid ts in let '(gs, ts) := new_groups n ts in (g :: gs, ts)
  end.

(** [MakeGroupStart] with the names that are drawn. *)
Definition start_group (gid : Z) (ts : ShardTest) : outcome ShardTest :=
  let '(rand1, rand2) := draw (tnet (tester (cfg ts))) in
  c ← Config_MakeGroupStart StartServerShardGrp service_of rand1 rand2 gid ShardNSRV (cfg ts);
  Done (with_cfg c ts).

(** [ts.Group(gid).SrvNames()] *)
Definition names_of (gid : Z) (ts : ShardTest) : outcome (list string) :=
  sg ← Config_Group gid (cfg ts); Done (SrvNames sg).

(** [makeShardCtrler], as far as the configuration sees it: a new client. *)
Definition makeShardCtrler (ts : ShardTest) : outcome (nat * ShardTest) :=
  '(p, cs) ← MakeClient (clnts_of (cfg ts)); Done (p, with_cfg (with_clnts cs (cfg ts)) ts).

(** A clerk has a client of its own and one for its controller. *)
Definition MakeClerk (ts : ShardTest) : outcome (nat * ShardTest) :=
  '(p, cs) ← MakeClient (clnts_of (cfg ts));
  '(_, ts) ← makeShardCtrler (with_cfg (with_clnts cs (cfg ts)) ts);
  Done (p, ts).

Definition DeleteClerk (p : nat) (ts : ShardTest) : outcome ShardTest :=
  cs ← DeleteClient p (clnts_of (cfg ts)); Done (with_cfg (with_clnts cs (cfg ts)) ts).

(** What [JoinBalance] answers is not looked at. *)
Definition setupKVService (ts : ShardTest) : outcome (Z * ShardTest) :=
  '(_, ts) ← makeShardCtrler ts;
  let scfg := MakeShardConfig in
  ts ← start_group Gid1 ts;
  srvs ← names_of Gid1 ts;
  '(_, scfg) ← JoinBalance [(Gid1, srvs)] scfg;
  s ← InitConfig scfg (ctl ts);
  Done (Gid1, with_ctl s ts).

Definition checkMember (gid : Z) (ts : ShardTest) : outcome (bool * ShardTest) :=
  '(p, s) ← Query (ctl ts); c ← cfg_at p; Done (IsMember gid c, with_ctl s ts).

Definition join (gid : Z) (srvs : list string) (ts : ShardTest) : outcome ShardTest :=
  '(p, s) ← Query (ctl ts);
  c ← cfg_at p;
  let newcfg := Copy c in
  '(ok, newcfg) ← JoinBalance [(gid, srvs)] newcfg;
  if negb ok then Fatal "join: group is already present"
  else s ← ChangeConfigTo newcfg s; Done (with_ctl s ts).

Fixpoint joinGroups (gids : list Z) (ts : ShardTest) : outcome (bool * ShardTest) :=
  match gids with
  | [] => Done (true, ts)
  | gid :: gids =>
      ts ← start_group gid ts;
      srvs ← names_of gid ts;
      ts ← join gid srvs ts;
      '(ok, ts) ← checkMember gid ts;
      if negb ok then Done (false, ts) else joinGroups gids ts
  end.

Definition leave (gid : Z) (ts : ShardTest) : outcome ShardTest :=
  '(p, s) ← Query (ctl ts);
  c ← cfg_at p;
  let newcfg := Copy c in
  '(ok, newcfg) ← LeaveBalance [gid] newcfg;
  if negb ok then Fatal "leave: group is already not present"
  else s ← ChangeConfigTo newcfg s; Done (with_ctl s ts).

Fixpoint leaveGroups (gids : list Z) (ts : ShardTest) : outcome (bool * ShardTest) :=
  match gids with
  | [] => Done (true, ts)
  | gid :: gids =>
      ts ← leave gid ts;
      '(ok, ts) ← checkMember gid ts;
      if (ok : bool) then Done (false, ts)
      else
        c ← Config_ExitGroup Kill_ gid (cfg ts);
        leaveGroups gids (with_cfg c ts)
  end.

(** ** Leaders and shutdowns *)
Definition disconnectClntFromLeader (GetState : Svc → option (Z * bool)) (gid : Z) (ts : ShardTest) :
    outcome (Z * ShardTest) :=
  sg ← Config_Group gid (cfg ts);
  let '(ok, l) := Leader GetState sg in
  if negb ok then Fatal "Leader failed"
  else
    '(sg, T) ← ShutdownServer Kill_ l sg (tester (cfg ts));
    Done (l, with_cfg (with_groups (<[gid := sg]> (groups (cfg ts)), T) (cfg ts)) ts).

(** What the loop of [checkShutdownSharding] receives: the value that the [i]-th
    [Get] returned, or the timeout. *)
Inductive completion := Completed (i : Z) (v : string) | TimedOut.

(** The loop goes on until the timeout, even after the last completion. *)
Fixpoint completions (va : list string) (evs : list completion) (ndone : Z) : outcome Z :=
  match evs with
  | [] => Diverge
  | TimedOut :: _ => Done ndone
  | Completed i v :: evs =>
      w ← slice_get va i;
      if decide (v = w) then completions va evs (int64 (ndone + 1)) else Fatal "Get: expected another value"
  end.

(** [ts.Group(gid).Shutdown()] and [ts.Group(gid).StartServers()] *)
Definition group_Shutdown (gid : Z) (ts : ShardTest) : outcome ShardTest :=
  sg ← Config_Group gid (cfg ts);
  '(sg, T) ← Shutdown Kill_ sg (tester (cfg ts));
  Done (with_cfg (with_groups (<[gid := sg]> (groups (cfg ts)), T) (cfg ts)) ts).

Definition group_StartServers (gid : Z) (ts : ShardTest) : outcome ShardTest :=
  sg ← Config_Group gid (cfg ts);
  let T := tester (cfg ts) in
  '(sg, T) ← StartServers StartServerShardGrp service_of (draw (tnet T)).2 sg T;
  Done (with_cfg (with_groups (<[gid := sg]> (groups (cfg ts)), T) (cfg ts)) ts).

Definition checkShutdownSharding (down : Z) (ka va : list string) (evs : list completion) (ts : ShardTest) :
    outcome ShardTest :=
  ts ← group_Shutdown down ts;
  ts ← for_each ka (λ _ ts, '(_, ts) ← MakeClerk ts; Done ts) ts;
  ndone ← completions va evs 0;
  if Z.of_nat (length ka) <=? ndone then Fatal "expected less completions" else group_StartServers down ts.
End Test.
Arguments ShardTest : clear implicits.
