(* ===== verification/ShardKVTestProps.v ===== *)
(** * ShardKVTestProps: what joins and leaves do to the cluster

    The tests' helpers keep the servers and the configuration in step: the
    groups of the configuration are the groups that run, under their servers'
    names. The test of membership looks at the shards, which bounds the number of
    groups that can join. *)

From S2P Require Import Prelude Persister Labrpc Group GroupProps GroupStart Clnts Config ConfigProps ShardCfg ShardCfgBalance ShardCfgJoin.
From S2P Require Import ShardKVTest.

Local Open Scope Z_scope.

(** ** Who has shards *)
Lemma sum_count_eq gs l : NoDup gs → (∀ x, x ∈ l → x ∈ gs) → sum_list_with (λ g, count g l) gs = length l.
Proof.
  intros Hnd. induction l as [|x l IH]; intros Hl.
  { clear. induction gs as [|g gs IH]; simpl; [done|]. exact IH. }
  simpl. rewrite <- IH by (intros y Hy; apply Hl; by right). clear IH.
  assert (x ∈ gs) as Hx by (apply Hl; by left). clear Hl.
  induction Hnd as [|g gs Hg Hnd IH]; [by apply elem_of_nil in Hx|]. simpl. rewrite count_cons.
  apply elem_of_cons in Hx as [->|Hx].
  - rewrite decide_True by done. cbn [Nat.add]. f_equal. f_equal. apply sum_list_with_ext. intros y Hy.
    rewrite count_cons, decide_False by (intros ->; done). done.
  - rewrite decide_False by (intros ->; done). rewrite IH by done. lia.
Qed.

Definition gids (c : ShardConfig) : list Z := elements (dom (Groups c)).

Lemma elem_of_gids c g : g ∈ gids c ↔ is_Some (Groups c !! g).
Proof. unfold gids. by rewrite elem_of_elements, elem_of_dom. Qed.

Lemma NoDup_gids c : NoDup (gids c).
Proof. unfold gids. apply NoDup_elements. Qed.

Lemma length_gids c : length (gids c) = size (Groups c).
Proof. unfold gids. change (size (dom (Groups c)) = size (Groups c)). apply size_dom. Qed.

Lemma sum_shards c : has_shards c → assigned c → sum_list_with (λ g, count g (Shards c)) (gids c) = 12%nat.
Proof.
  intros Hs Ha. rewrite sum_count_eq.
  - unfold has_shards, NShards in Hs. lia.
  - apply NoDup_gids.
  - intros g Hg. apply elem_of_gids. by apply Ha.
Qed.

Lemma sum_at_most (f : Z → nat) k gs : (∀ g, g ∈ gs → (f g <= k)%nat) → (sum_list_with f gs <= k * length gs)%nat.
Proof.
  induction gs as [|g gs IH]; intros H; simpl; [lia|]. pose proof (H g ltac:(by left)).
  pose proof (IH ltac:(intros; apply H; by right)). lia.
Qed.

Lemma sum_remove (f : Z → nat) g gs : NoDup gs → g ∈ gs →
  (sum_list_with f gs = f g + sum_list_with f (filter (λ x, x ≠ g) gs))%nat ∧
  length gs = S (length (filter (λ x, x ≠ g) gs)).
Proof.
  intros Hnd. induction Hnd as [|x gs Hx Hnd IH]; intros Hg; [by apply elem_of_nil in Hg|].
  apply elem_of_cons in Hg as [->|Hg]; rewrite filter_cons.
  - rewrite decide_False by (intros H; by apply H). rewrite filter_all; [done|].
    apply Forall_forall. intros y Hy ->. done.
  - rewrite decide_True by (intros ->; done). simpl. destruct (IH Hg) as [E1 E2]. lia.
Qed.

Lemma IsMember_count g c : IsMember g c = true ↔ (0 < count g (Shards c))%nat.
Proof.
  rewrite count_pos. unfold IsMember. rewrite existsb_exists. setoid_rewrite Z.eqb_eq.
  rewrite list_elem_of_In. naive_solver.
Qed.

(** Up to twelve groups all have a shard. *)
Lemma few_groups_members c g :
  has_shards c → assigned c → balanced c → (size (Groups c) <= 12)%nat → is_Some (Groups c !! g) → IsMember g c = true.
Proof.
  intros Hs Ha Hb Hsize Hg. apply IsMember_count.
  destruct (decide (count g (Shards c) = 0)%nat) as [E|]; [exfalso|lia].
  pose proof (sum_shards c Hs Ha) as Hsum.
  destruct (sum_remove (λ g, count g (Shards c)) g (gids c)) as [E1 E2]; [apply NoDup_gids|by apply elem_of_gids|].
  pose proof (length_gids c) as Hlen.
  pose proof (sum_at_most (λ g, count g (Shards c)) 1 (filter (λ x, x ≠ g) (gids c))) as Hle. simpl in Hle, E1.
  assert (∀ x, x ∈ filter (λ x, x ≠ g) (gids c) → (count x (Shards c) <= 1)%nat) as H1.
  { intros x [_ Hx]%list_elem_of_filter. pose proof (Hb x g (proj1 (elem_of_gids c x) Hx) Hg). lia. }
  specialize (Hle H1). lia.
Qed.

(** Twelve groups have one shard each. *)
Lemma twelve_groups_one_each c g :
  has_shards c → assigned c → balanced c → size (Groups c) = 12%nat → is_Some (Groups c !! g) →
  count g (Shards c) = 1%nat.
Proof.
  intros Hs Ha Hb Hsize Hg. pose proof (sum_shards c Hs Ha) as Hsum.
  assert (∀ x, is_Some (Groups c !! x) → (1 <= count x (Shards c))%nat) as Hpos.
  { intros x Hx. pose proof (few_groups_members c x Hs Ha Hb ltac:(lia) Hx) as H. apply IsMember_count in H. lia. }
  destruct (sum_remove (λ g, count g (Shards c)) g (gids c)) as [E1 E2]; [apply NoDup_gids|by apply elem_of_gids|].
  pose proof (length_gids c) as Hlen.
  assert (∀ gs, (∀ x, x ∈ gs → (1 <= count x (Shards c))%nat) → (length gs <= sum_list_with (λ g, count g (Shards c)) gs)%nat) as Hge.
  { induction gs as [|x gs IH]; intros H; simpl; [lia|]. pose proof (H x ltac:(by left)).
    pose proof (IH ltac:(intros; apply H; by right)). lia. }
  pose proof (Hge (filter (λ x, x ≠ g) (gids c))) as H1. simpl in E1.
  assert (∀ x, x ∈ filter (λ x, x ≠ g) (gids c) → (1 <= count x (Shards c))%nat) as H2.
  { intros x [_ Hx]%list_elem_of_filter. by apply Hpos, elem_of_gids. }
  specialize (H1 H2). pose proof (Hpos g Hg). lia.
Qed.

(** ** The invariant of a test *)
Section Cluster.
Context {Typ Val A Svc Ctl : Type} {SC : ShardCtrler Ctl} {CS : CtrlerState Ctl} {SL : ShardCtrlerLaws Ctl}.
Context (mks : list string → Z → Z → nat → Store → A → outcome (list (option Svc) * Store * A)).
Context (Kill_ : Svc → Store → A → outcome (Store * A)) (service_of : Svc → @Service Val A).
Context (made : Z → list string → Z → nat → list Svc → A → Prop).
Context (draw : Network → (nat → nat → string) * (nat → nat → string)).
Abbreviation ShardTest := (ShardTest Typ Val A Svc Ctl).

Definition group_servers (g : Z) : list string := ServerName g <$> indices 3.

(** The controller's configuration is [c], and its groups are those that run. *)
Record kv_ok (c : ShardConfig) (ts : ShardTest) : Prop := {
  kv_current : current (ctl ts) = Some c;
  kv_wf : well_formed c;
  kv_num : 0 <= Num c;
  kv_groups : ∀ g srvs, Groups c !! g = Some srvs → 0 < g ∧ srvs = group_servers g;
  kv_cluster : cluster service_of made (groups (cfg ts)) (tester (cfg ts));
  kv_same : ∀ g, 0 < g → is_Some (Groups c !! g) ↔ is_Some (groups (cfg ts) !! g);
  kv_names : ∀ g sg, 0 < g → groups (cfg ts) !! g = Some sg → SrvNames sg = group_servers g
}.

(** Draws are always new. *)
Definition draws_new : Prop := ∀ rn, fresh_draws 3 (draw rn).1 (draw rn).2 rn.

(** A key is routed to a group that runs, under the names of its servers. *)
Definition served (c : ShardConfig) (ts : ShardTest) (key : string) : Prop :=
  ∃ g sg, GidServers (Key2Shard key) c = Done (g, SrvNames sg, true) ∧ groups (cfg ts) !! g = Some sg ∧
    running service_of made g (length (Group.srvs sg)) sg (tester (cfg ts)).

Lemma routed_served c ts key :
  well_formed c → has_group c → cluster service_of made (groups (cfg ts)) (tester (cfg ts)) →
  (∀ g srvs, Groups c !! g = Some srvs → ∃ sg, groups (cfg ts) !! g = Some sg ∧ SrvNames sg = srvs) → served c ts key.
Proof.
  intros [Hs Ha _ _] Hhas Hcl Hrun. pose proof (Key2Shard_range key) as Hk. unfold has_shards in Hs.
  destruct (slice_get_lt (Shards c) (Key2Shard key)) as (g & Hget & Hg); [lia|].
  destruct (Ha Hhas g) as [l Hl]; [apply list_elem_of_lookup; by eexists|].
  destruct (Hrun g l Hl) as (sg & Hsg & <-). exists g, sg. unfold GidServers. rewrite Hget. cbn [mbind outcome_bind]. rewrite Hl.
  split_and!; [done|done|by apply Hcl].
Qed.

Lemma kv_running c ts g srvs : kv_ok c ts → Groups c !! g = Some srvs → ∃ sg, groups (cfg ts) !! g = Some sg ∧ SrvNames sg = srvs.
Proof.
  intros [_ _ _ Hgr _ Hsame Hnm] Hl. destruct (Hgr g srvs Hl) as [Hpos ->].
  destruct (proj1 (Hsame g Hpos) (ex_intro _ _ Hl)) as [sg Hsg]. exists sg. by rewrite (Hnm g sg).
Qed.

Lemma kv_served c ts key : kv_ok c ts → has_group c → served c ts key.
Proof.
  intros Hok Hhas. apply routed_served; [apply Hok|done|apply Hok|]. intros g srvs. by apply kv_running.
Qed.

Lemma start_group_runs g (ts : ShardTest) :
  starts mks made → draws_new → groups (cfg ts) !! g = None →
  ∃ sg T', let ts' := with_cfg (Config.with_groups (<[g := sg]> (groups (cfg ts)), T') (cfg ts)) ts in
    start_group mks service_of draw g ts = Done ts' ∧ running service_of made g 3 sg T' ∧
    kept made (λ _, False) (group_names g 3) (tester (cfg ts)) T' ∧
    (∀ e, link_names sg e → e ∉ ends (tnet (tester (cfg ts)))) ∧
    names_of g ts' = Done (group_servers g) ∧ SrvNames sg = group_servers g.
Proof.
  intros Hmks Hdraw Hg. pose proof (Hdraw (tnet (tester (cfg ts)))) as Hfresh. unfold start_group.
  destruct (draw (tnet (tester (cfg ts)))) as [rand1 rand2]. unfold Config_MakeGroupStart, ShardNSRV.
  destruct (MakeGroupStart_ok mks service_of made rand1 rand2 g 3 (groups (cfg ts)) (tester (cfg ts)) (Hmks _) Hfresh)
    as (sg & T' & -> & Hr & K & Hnew).
  assert (SrvNames sg = group_servers g) as Hn by apply (run_names _ _ _ _ _ _ Hr).
  exists sg, T'. split_and!; [done|exact Hr|exact K| | |exact Hn].
  - intros e He. by apply Hnew.
  - unfold names_of, Config_Group, lookupGroup. simpl. rewrite lookup_insert_eq. simpl. by rewrite Hn.
Qed.

Lemma start_group_ok g (ts : ShardTest) :
  starts mks made → draws_new → cluster service_of made (groups (cfg ts)) (tester (cfg ts)) → groups (cfg ts) !! g = None →
  ∃ sg T', let ts' := with_cfg (Config.with_groups (<[g := sg]> (groups (cfg ts)), T') (cfg ts)) ts in
    start_group mks service_of draw g ts = Done ts' ∧ cluster service_of made (<[g := sg]> (groups (cfg ts))) T' ∧
    names_of g ts' = Done (group_servers g) ∧ SrvNames sg = group_servers g.
Proof.
  intros Hmks Hdraw Hcl Hg. destruct (start_group_runs g ts Hmks Hdraw Hg) as (sg & T' & Hst & Hr & K & Hnew & Hn).
  exists sg, T'. split_and!; [exact Hst| |apply Hn|apply Hn]. by eapply cluster_insert.
Qed.

Lemma group_servers_disjoint (m : gmap Z (list string)) :
  (∀ g srvs, m !! g = Some srvs → srvs = group_servers g) → disjoint_servers m.
Proof.
  intros Hm g1 g2 l1 l2 s Hne H1 H2 Hs1 Hs2. apply Hm in H1 as ->. apply Hm in H2 as ->.
  apply list_elem_of_fmap in Hs1 as (i & -> & Hi%elem_of_indices), Hs2 as (j & E & Hj%elem_of_indices).
  apply ServerName_inj in E; lia.
Qed.

(** The configuration after a group has joined. *)
Lemma join_config g c :
  well_formed c → 0 <= Num c < max_int64 → (∀ g srvs, Groups c !! g = Some srvs → 0 < g ∧ srvs = group_servers g) →
  Groups c !! g = None → 0 < g →
  ∃ c', JoinBalance [(g, group_servers g)] c = Done (true, c') ∧
    Rebalance (incr_Num (ShardCfgJoin.with_groups (<[g := group_servers g]> (Groups c)) c)) = Done c' ∧
    Num c' = Num c + 1 ∧ Groups c' = <[g := group_servers g]> (Groups c) ∧ well_formed c' ∧ has_group c' ∧
    (∀ g0 srvs, Groups c' !! g0 = Some srvs → 0 < g0 ∧ srvs = group_servers g0).
Proof.
  intros Hwf Hnum Hgr Hg Hpos.
  assert (∀ g0 srvs, <[g := group_servers g]> (Groups c) !! g0 = Some srvs → 0 < g0 ∧ srvs = group_servers g0) as Hgr'.
  { intros g0 srvs [[<- <-]|[_ H0]]%lookup_insert_Some; [done|by apply Hgr]. }
  destruct (JoinBalance_ok [(g, group_servers g)] {[g := group_servers g]} c) as (c' & HJ & HR & HN & HG & Hwf' & Hhas).
  - by rewrite map_to_list_singleton.
  - apply insert_non_empty.
  - by apply map_disjoint_singleton_l_2.
  - rewrite <- insert_union_singleton_l. apply group_servers_disjoint. intros g0 srvs H0. by apply Hgr' in H0 as [_ ->].
  - apply Hwf.
  - lia.
  - rewrite <- insert_union_singleton_l in HR, HG. exists c'. split_and!; try done. rewrite HG. exact Hgr'.
Qed.

(** One turn of [joinGroups], up to the test of membership. *)
Lemma join_turn g c (ts : ShardTest) :
  starts mks made → draws_new → kv_ok c ts → 0 < g → Groups c !! g = None → Num c < max_int64 →
  ∃ c' ts', kv_ok c' ts' ∧ Num c' = Num c + 1 ∧ Groups c' = <[g := group_servers g]> (Groups c) ∧ has_group c' ∧
    Rebalance (incr_Num (ShardCfgJoin.with_groups (<[g := group_servers g]> (Groups c)) c)) = Done c' ∧
    ∀ B (k : ShardTest → outcome B),
      (ts1 ← start_group mks service_of draw g ts; srvs ← names_of g ts1; ts1 ← join g srvs ts1; k ts1) = k ts'.
Proof.
  intros Hmks Hdraw [Hcur Hwf Hn Hgr Hcl Hsame Hnm] Hpos Hg Hnum.
  assert (groups (cfg ts) !! g = None) as Hg'.
  { destruct (groups (cfg ts) !! g) eqn:E; [|done]. destruct (proj2 (Hsame g Hpos)) as [x Hx]; [by rewrite E|].
    by rewrite Hg in Hx. }
  destruct (start_group_ok g ts Hmks Hdraw Hcl Hg') as (sg & T' & Hst & Hcl' & Hnames & Hsg).
  destruct (join_config g c Hwf (conj Hn Hnum) Hgr Hg Hpos) as (c' & HJ & HR & HN & HG & Hwf' & Hhas & Hgr').
  set (ts1 := with_cfg _ _) in *.
  destruct (Query_law c (ctl ts1) Hcur) as (s1 & HQ & Hs1).
  destruct (ChangeConfigTo_law c' c s1 Hs1 HN) as (s2 & HC & Hs2).
  exists c', (with_ctl s2 ts1). split_and!; try done.
  - split; try done; [lia| |].
    + intros g0 Hg0. simpl. rewrite HG. destruct (decide (g0 = g)) as [->|Hne].
      * rewrite !lookup_insert_eq. split; by eexists.
      * rewrite !lookup_insert_ne by done. by apply Hsame.
    + intros g0 sg0 Hg0. simpl. intros [[<- <-]|[_ H0]]%lookup_insert_Some; [exact Hsg|by apply Hnm].
  - intros B k. rewrite Hst. cbn [mbind outcome_bind]. rewrite Hnames. cbn [mbind outcome_bind]. unfold join.
    rewrite HQ. cbn [mbind outcome_bind cfg_at]. rewrite Copy_eq, HJ. cbn [mbind outcome_bind negb]. rewrite HC. done.
Qed.

Lemma checkMember_ok g c (ts : ShardTest) :
  kv_ok c ts → ∃ ts', checkMember g ts = Done (IsMember g c, ts') ∧ kv_ok c ts' ∧ cfg ts' = cfg ts.
Proof.
  intros [Hcur Hwf Hn Hgr Hcl Hsame Hnm]. destruct (Query_law c (ctl ts) Hcur) as (s & HQ & Hs).
  exists (with_ctl s ts). unfold checkMember. rewrite HQ. split_and!; [done| |done]. by split.
Qed.

(** Whether a group that has joined passes the test of membership. *)
Lemma joined_member g c c' :
  well_formed c → has_group c' → well_formed c' → Groups c !! g = None → (size (Groups c) <= 12)%nat →
  Groups c' = <[g := group_servers g]> (Groups c) →
  Rebalance (incr_Num (ShardCfgJoin.with_groups (<[g := group_servers g]> (Groups c)) c)) = Done c' →
  IsMember g c' = bool_decide (size (Groups c) < 12)%nat.
Proof.
  intros Hwf Hhas Hwf' Hg Hsize HG HR. case_bool_decide as Hlt.
  - apply few_groups_members; [apply Hwf'|by apply Hwf'|apply Hwf'| |].
    + rewrite HG, map_size_insert_None by done. lia.
    + rewrite HG, lookup_insert_eq. by eexists.
  - assert (size (Groups c) = 12%nat) as H12 by lia. destruct Hwf as [Hs Ha Hb _].
    assert (has_group c) as Hc. { apply has_group_size. rewrite H12. done. }
    specialize (Ha Hc). assert (g ∉ Shards c) as Hno.
    { intros Hin. destruct (Ha g Hin) as [x Hx]. by rewrite Hg in Hx. }
    assert (count g (Shards c) = 0%nat) as H0.
    { destruct (decide (count g (Shards c) = 0%nat)); [done|]. exfalso. apply Hno, count_pos. lia. }
    rewrite Rebalance_stable in HR.
    + injection HR as <-. apply not_true_is_false. intros Hm%IsMember_count. simpl in Hm. lia.
    + exact Hs.
    + exists g. simpl. rewrite lookup_insert_eq. by eexists.
    + intros x Hx. simpl in *. destruct (decide (x = g)) as [->|]; [done|]. rewrite lookup_insert_ne by done. by apply Ha.
    + intros g1 g2. simpl. intros H1 H2.
      assert (∀ x, is_Some (<[g := group_servers g]> (Groups c) !! x) → (count x (Shards c) <= 1)%nat) as Hle.
      { intros x Hx. destruct (decide (x = g)) as [->|Hne]; [lia|]. rewrite lookup_insert_ne in Hx by done.
        by rewrite (twelve_groups_one_each c x Hs Ha Hb H12 Hx). }
      pose proof (Hle g1 H1). lia.
Qed.
(** ** Joining *)
Lemma joined_is_Some {V} g (l : V) (m : gmap Z V) x : is_Some (<[g := l]> m !! x) ↔ x = g ∨ is_Some (m !! x).
Proof.
  destruct (decide (x = g)) as [->|Hne].
  - rewrite lookup_insert_eq. split; [by left|by eexists].
  - rewrite lookup_insert_ne by done. split; [by right|by intros [?|?]].
Qed.

Lemma joinGroups_spec gs : ∀ c (ts : ShardTest),
  starts mks made → draws_new → kv_ok c ts → NoDup gs → (∀ g, g ∈ gs → 0 < g ∧ Groups c !! g = None) →
  Num c + Z.of_nat (length gs) < max_int64 → (size (Groups c) <= 12)%nat →
  let room := (12 - size (Groups c))%nat in
  ∃ c' ts', joinGroups mks service_of draw gs ts = Done (bool_decide (length gs <= room)%nat, ts') ∧ kv_ok c' ts' ∧
    Num c' = Num c + Z.of_nat (length (take (S room) gs)) ∧
    ∀ g, is_Some (Groups c' !! g) ↔ is_Some (Groups c !! g) ∨ g ∈ take (S room) gs.
Proof.
  induction gs as [|g gs IH]; intros c ts Hmks Hdraw Hok Hnd Hgs Hnum Hsize room.
  { exists c, ts. rewrite take_nil, bool_decide_eq_true_2 by (simpl; lia). split_and!; [done|done|simpl; lia|].
    intros g. rewrite elem_of_nil. tauto. }
  apply NoDup_cons in Hnd as [Hg Hnd]. destruct (Hgs g) as [Hpos Hnone]; [by left|]. rewrite length_cons in Hnum.
  pose proof (kv_num _ _ Hok).
  destruct (join_turn g c ts Hmks Hdraw Hok Hpos Hnone) as (c1 & ts1 & Hok1 & HN & HG & Hhas & HR & Hturn); [lia|].
  cbn [joinGroups]. rewrite Hturn.
  destruct (checkMember_ok g c1 ts1 Hok1) as (ts2 & -> & Hok2 & _). cbn [mbind outcome_bind].
  rewrite (joined_member g c c1 (kv_wf _ _ Hok) Hhas (kv_wf _ _ Hok1) Hnone Hsize HG HR).
  assert (size (Groups c1) = S (size (Groups c))) as Hs1 by (rewrite HG; by apply map_size_insert_None).
  case_bool_decide as Hlt; cbn [negb].
  - destruct (IH c1 ts2 Hmks Hdraw Hok2 Hnd) as (c' & ts' & Hrun & Hok' & HN' & HG').
    + intros g' Hg'. rewrite HG, lookup_insert_ne by (intros ->; done). apply Hgs. by right.
    + lia.
    + lia.
    + exists c', ts'. rewrite Hrun, Hs1. unfold room in *.
      replace (12 - size (Groups c))%nat with (S (12 - S (size (Groups c)))) by lia.
      rewrite Hs1 in HN', HG'. split_and!; [|done| |].
      * f_equal. f_equal. apply bool_decide_ext. simpl. lia.
      * rewrite HN', HN. cbn [take length]. lia.
      * intros x. rewrite HG', HG. cbn [take]. rewrite elem_of_cons, joined_is_Some. tauto.
  - exists c1, ts2. unfold room. replace (12 - size (Groups c))%nat with 0%nat by lia. cbn [take]. rewrite take_0.
    rewrite bool_decide_eq_false_2 by (simpl; lia). split_and!; [done|done|simpl; lia|].
    intros x. rewrite HG, joined_is_Some, list_elem_of_singleton. tauto.
Qed.

(** (C25) Joining works for as long as there is a shard for everybody: every
    group is started and added, the configuration stays well-formed and lists exactly
    the groups that run, every key is routed to a running group, and the number grows
    by one each time. The first group
    beyond the twelfth is still started and added, but gets no shard, so that the
    test takes it for one that is not a member, and stops. *)
Theorem joinGroups_limit gs c (ts : ShardTest) :
  starts mks made → draws_new → kv_ok c ts → has_group c → NoDup gs → (∀ g, g ∈ gs → 0 < g ∧ Groups c !! g = None) →
  Num c + Z.of_nat (length gs) < max_int64 → (size (Groups c) <= 12)%nat →
  let room := (12 - size (Groups c))%nat in
  ∃ c' ts', joinGroups mks service_of draw gs ts = Done (bool_decide (length gs <= room)%nat, ts') ∧ kv_ok c' ts' ∧
    Num c' = Num c + Z.of_nat (length (take (S room) gs)) ∧
    (∀ g, is_Some (Groups c' !! g) ↔ is_Some (Groups c !! g) ∨ g ∈ take (S room) gs) ∧
    ∀ key, served c' ts' key.
Proof.
  intros Hmks Hdraw Hok [g0 Hg0] Hnd Hgs Hnum Hsize room.
  destruct (joinGroups_spec gs c ts Hmks Hdraw Hok Hnd Hgs Hnum Hsize) as (c' & ts' & Hrun & Hok' & HN & HG).
  exists c', ts'. split_and!; [exact Hrun|exact Hok'|exact HN|exact HG|].
  intros key. apply kv_served; [exact Hok'|]. exists g0. apply HG. by left.
Qed.

(** ** Leaving *)
Lemma left_member g c : well_formed c → 0 < g → Groups c !! g = None → IsMember g c = false.
Proof.
  intros [Hs Ha _ Hu] Hpos Hg. apply not_true_is_false. intros Hm%IsMember_count.
  apply count_pos in Hm. destruct (decide (Groups c = ∅)) as [E|E].
  - specialize (Hu E g Hm). lia.
  - apply map_choose in E as (g' & srvs & Hg'). destruct (Ha (ex_intro _ g' (ex_intro _ srvs Hg')) g Hm) as [x Hx].
    by rewrite Hg in Hx.
Qed.

Lemma leave_turn g c (ts : ShardTest) :
  stops Kill_ made → kv_ok c ts → is_Some (Groups c !! g) → Num c < max_int64 →
  ∃ c' ts', kv_ok c' ts' ∧ Num c' = Num c + 1 ∧ Groups c' = delete g (Groups c) ∧
    ∀ gs, leaveGroups Kill_ (g :: gs) ts = leaveGroups Kill_ gs ts'.
Proof.
  intros Hstops Hok Hg Hnum. pose proof Hok as [Hcur Hwf Hn Hgr Hcl Hsame Hnm].
  destruct Hg as [srvs Hg]. destruct (Hgr g srvs Hg) as [Hpos _].
  destruct (LeaveBalance_ok [g] c) as (c' & HL & HN & HG & Hwf').
  { apply NoDup_singleton. } { done. } { intros x ->%list_elem_of_singleton. by exists srvs. } { apply Hwf. } { lia. }
  assert (Groups c' = delete g (Groups c)) as HG'.
  { apply map_eq. intros x. rewrite HG. destruct (decide (x = g)) as [->|].
    - rewrite decide_True by (by left). by rewrite lookup_delete_eq.
    - rewrite decide_False by (by intros ->%list_elem_of_singleton). by rewrite lookup_delete_ne. }
  destruct (Query_law c (ctl ts) Hcur) as (s1 & HQ & Hs1).
  destruct (ChangeConfigTo_law c' c s1 Hs1 HN) as (s2 & HC & Hs2).
  destruct (Query_law c' s2 Hs2) as (s3 & HQ' & Hs3).
  destruct (proj1 (Hsame g Hpos) (ex_intro _ srvs Hg)) as [sg Hsg].
  destruct (ExitGroup_ok Kill_ service_of made g _ (groups (cfg ts)) sg (tester (cfg ts)) Hstops Hsg (cl_running _ _ _ _ Hcl g sg Hsg))
    as (T' & Hexit & _ & K).
  exists c', (with_cfg (Config.with_groups (delete g (groups (cfg ts)), T') (cfg ts)) (with_ctl s3 ts)).
  split_and!; [|done|done|].
  - split; [done|done|lia| | | |].
    + intros x l. rewrite HG'. intros [_ H]%lookup_delete_Some. by apply Hgr.
    + simpl. by eapply cluster_delete.
    + intros x Hx. simpl. rewrite HG'. destruct (decide (x = g)) as [->|].
      * rewrite !lookup_delete_eq. split; by intros [? ?].
      * rewrite !lookup_delete_ne by done. by apply Hsame.
    + intros x sg' Hx. simpl. intros [_ H]%lookup_delete_Some. by apply Hnm.
  - intros gs. cbn [leaveGroups]. unfold leave, checkMember. rewrite HQ. cbn [mbind outcome_bind cfg_at].
    rewrite Copy_eq, HL. cbn [mbind outcome_bind negb]. rewrite HC. cbn [mbind outcome_bind].
    change (ctl (with_ctl s2 ts)) with s2. rewrite HQ'. cbn [mbind outcome_bind cfg_at].
    rewrite left_member; [|done|done|by rewrite HG', lookup_delete_eq].
    unfold Config_ExitGroup. change (cfg (with_ctl s3 (with_ctl s2 ts))) with (cfg ts). rewrite Hexit. done.
Qed.

Lemma leaveGroups_spec gs : ∀ c (ts : ShardTest),
  stops Kill_ made → kv_ok c ts → NoDup gs → (∀ g, g ∈ gs → is_Some (Groups c !! g)) →
  Num c + Z.of_nat (length gs) < max_int64 →
  ∃ c' ts', leaveGroups Kill_ gs ts = Done (true, ts') ∧ kv_ok c' ts' ∧ Num c' = Num c + Z.of_nat (length gs) ∧
    ∀ g, Groups c' !! g = if decide (g ∈ gs) then None else Groups c !! g.
Proof.
  induction gs as [|g gs IH]; intros c ts Hstops Hok Hnd Hgs Hnum.
  { exists c, ts. split_and!; [done|done|simpl; lia|]. intros g. by rewrite decide_False by apply not_elem_of_nil. }
  apply NoDup_cons in Hnd as [Hg Hnd]. rewrite length_cons in Hnum.
  destruct (leave_turn g c ts Hstops Hok) as (c1 & ts1 & Hok1 & HN & HG & Hturn); [apply Hgs; by left|lia|].
  rewrite Hturn. destruct (IH c1 ts1 Hstops Hok1 Hnd) as (c' & ts' & Hrun & Hok' & HN' & HG').
  - intros x Hx. rewrite HG, lookup_delete_ne by (intros ->; done). apply Hgs. by right.
  - lia.
  - exists c', ts'. split_and!; [done|done|rewrite HN', HN, length_cons; lia|].
    intros x. rewrite HG', HG. destruct (decide (x = g)) as [->|Hne].
    + rewrite decide_False, decide_True by (done || by left). by rewrite lookup_delete_eq.
    + rewrite lookup_delete_ne by done. apply (decide_ext (x ∈ gs)). rewrite elem_of_cons. tauto.
Qed.

(** Groups that are members leave: each is taken out of the configuration,
    passes for no member any more whatever shards it had, and exits; the
    configuration stays well-formed and lists exactly the groups that still
    run, to which every key is routed if there is one. *)
Theorem leaveGroups_exit gs c (ts : ShardTest) :
  stops Kill_ made → kv_ok c ts → NoDup gs → (∀ g, g ∈ gs → is_Some (Groups c !! g)) →
  Num c + Z.of_nat (length gs) < max_int64 →
  ∃ c' ts', leaveGroups Kill_ gs ts = Done (true, ts') ∧ kv_ok c' ts' ∧ Num c' = Num c + Z.of_nat (length gs) ∧
    (∀ g, Groups c' !! g = if decide (g ∈ gs) then None else Groups c !! g) ∧
    (∀ g, g ∈ gs → IsMember g c' = false ∧ groups (cfg ts') !! g = None) ∧
    (has_group c' → ∀ key, served c' ts' key).
Proof.
  intros Hstops Hok Hnd Hgs Hnum.
  destruct (leaveGroups_spec gs c ts Hstops Hok Hnd Hgs Hnum) as (c' & ts' & Hrun & Hok' & HN & HG).
  exists c', ts'. split_and!; [exact Hrun|exact Hok'|exact HN|exact HG| |].
  - intros g Hg. destruct (Hgs g Hg) as [l Hl]. destruct (kv_groups _ _ Hok g l Hl) as [Hpos _].
    assert (Groups c' !! g = None) as Hnone by (by rewrite HG, decide_True).
    split; [apply left_member; [apply Hok'|done|done]|].
    destruct (groups (cfg ts') !! g) as [sg|] eqn:E; [|done].
    destruct (proj2 (kv_same _ _ Hok' g Hpos)) as [x Hx]; [by eexists|]. by rewrite Hnone in Hx.
  - intros Hhas key. by apply kv_served.
Qed.

(** ** The set-up *)

(** Before the set-up: whatever groups run, none has a positive number. *)
Record ready (ts : ShardTest) : Prop := {
  r_fresh : current (ctl ts) = None;
  r_cluster : cluster service_of made (groups (cfg ts)) (tester (cfg ts));
  r_none : ∀ g, 0 < g → groups (cfg ts) !! g = None;
  r_clerks : is_Some (clnts (cfg ts)).2
}.

(** Clients only: the groups, the testers and the controller stay. *)
Definition same_cluster (ts ts' : ShardTest) : Prop :=
  groups (cfg ts') = groups (cfg ts) ∧ tester (cfg ts') = tester (cfg ts) ∧ ctl ts' = ctl ts ∧ ngid ts' = ngid ts.

Lemma makeShardCtrler_clients (ts : ShardTest) : is_Some (clnts (cfg ts)).2 →
  ∃ p ts', makeShardCtrler ts = Done (p, ts') ∧ is_Some (clnts (cfg ts')).2 ∧ same_cluster ts ts'.
Proof.
  intros [ks Hks]. assert (clerks (clnts_of (cfg ts)) = Some ks) as Hc by exact Hks.
  unfold makeShardCtrler, MakeClient, MakeClientTo. rewrite Hc. cbn [mbind outcome_bind]. eexists _, _.
  split; [reflexivity|]. split; [by eexists|]. split_and!; [done|apply with_same_net|done..].
Qed.

Lemma MakeClerk_ok (ts : ShardTest) : is_Some (clnts (cfg ts)).2 →
  ∃ p ts', MakeClerk ts = Done (p, ts') ∧ is_Some (clnts (cfg ts')).2 ∧ same_cluster ts ts'.
Proof.
  intros Hks. destruct (makeShardCtrler_clients ts Hks) as (p & ts1 & E1 & Hks1 & H1 & H2 & H3 & H4).
  destruct (makeShardCtrler_clients ts1 Hks1) as (q & ts2 & E2 & Hks2 & H5 & H6 & H7 & H8). exists p, ts2.
  unfold makeShardCtrler in E1. destruct (MakeClient _) as [[p' cs]| | |] eqn:E; try done. injection E1 as -> <-.
  unfold MakeClerk. rewrite E. cbn [mbind outcome_bind]. rewrite E2. split_and!; [done..|]. split_and!; congruence.
Qed.

Lemma MakeClerks_ok (ka : list string) : ∀ ts : ShardTest, is_Some (clnts (cfg ts)).2 →
  ∃ ts', for_each ka (λ _ ts, '(_, ts) ← MakeClerk ts; Done ts) ts = Done ts' ∧ same_cluster ts ts'.
Proof.
  induction ka as [|key ka IH]; intros ts Hks; [by exists ts|]. cbn [for_each].
  destruct (MakeClerk_ok ts Hks) as (p & ts1 & Hmk & Hks1 & Eg1 & Et1 & Es1 & En1). rewrite Hmk. cbn [mbind outcome_bind].
  destruct (IH ts1 Hks1) as (ts' & Hrun & Eg & Et & Es & En). exists ts'. split; [done|]. split_and!; congruence.
Qed.

(** The set-up, up to the controller's [InitConfig]. *)
Lemma setup_start (ts : ShardTest) :
  starts mks made → draws_new → cluster service_of made (groups (cfg ts)) (tester (cfg ts)) →
  groups (cfg ts) !! Gid1 = None → is_Some (clnts (cfg ts)).2 →
  ∃ c sg ts1, setupKVService mks service_of draw ts = (s ← InitConfig c (ctl ts1); Done (Gid1, with_ctl s ts1)) ∧
    ctl ts1 = ctl ts ∧ ngid ts1 = ngid ts ∧ groups (cfg ts1) = <[Gid1 := sg]> (groups (cfg ts)) ∧
    cluster service_of made (groups (cfg ts1)) (tester (cfg ts1)) ∧ SrvNames sg = group_servers Gid1 ∧
    well_formed c ∧ Num c = NumFirst ∧ Groups c = {[Gid1 := group_servers Gid1]} ∧ is_Some (clnts (cfg ts1)).2.
Proof.
  intros Hmks Hdraw Hcl Hnone Hks. destruct (makeShardCtrler_clients ts Hks) as (p & ts1 & E1 & Hks1 & Eg & Et & Es & En).
  unfold setupKVService. rewrite E1. cbn [mbind outcome_bind].
  destruct (start_group_ok Gid1 ts1 Hmks Hdraw) as (sg & T' & Hst & Hcl' & Hnames & Hsg).
  { by rewrite Eg, Et. } { by rewrite Eg. }
  rewrite Hst. cbn [mbind outcome_bind]. rewrite Hnames. cbn [mbind outcome_bind].
  destruct (JoinBalance_ok [(Gid1, group_servers Gid1)] {[Gid1 := group_servers Gid1]} MakeShardConfig)
    as (c & HJ & _ & HN & HG & Hwf & _).
  { by rewrite map_to_list_singleton. } { apply insert_non_empty. } { apply map_disjoint_empty_r. }
  { change (Groups MakeShardConfig) with (∅ : gmap Z (list string)). rewrite (right_id_L ∅ (∪)).
    apply group_servers_disjoint. by intros g srvs [<- <-]%lookup_singleton_Some. }
  { done. } { vm_compute. split; congruence. }
  change (Groups MakeShardConfig) with (∅ : gmap Z (list string)) in HG. rewrite (right_id_L ∅ (∪)) in HG.
  change (Num MakeShardConfig) with 0 in HN.
  rewrite HJ. cbn [mbind outcome_bind]. eexists c, sg, _. split; [reflexivity|].
  split_and!; [exact Es|exact En|change (<[Gid1:=sg]> (groups (cfg ts1)) = <[Gid1:=sg]> (groups (cfg ts))); by rewrite Eg|
    exact Hcl'|exact Hsg|exact Hwf|by rewrite HN|exact HG|exact Hks1].
Qed.

Lemma setup_ok (ts : ShardTest) :
  starts mks made → draws_new → ready ts →
  ∃ c ts', setupKVService mks service_of draw ts = Done (Gid1, ts') ∧ kv_ok c ts' ∧ Num c = NumFirst ∧
    Groups c = {[Gid1 := group_servers Gid1]} ∧ ngid ts' = ngid ts ∧ is_Some (clnts (cfg ts')).2.
Proof.
  intros Hmks Hdraw [Hcur Hcl Hnone Hks].
  destruct (setup_start ts Hmks Hdraw Hcl) as (c & sg & ts1 & -> & Ec & En & Eg & Hcl1 & Hsg & Hwf & HN & HG & Hk1);
    [by apply Hnone|done|].
  rewrite Ec. destruct (InitConfig_law c (ctl ts) Hcur) as (s & -> & Hs). cbn [mbind outcome_bind].
  exists c, (with_ctl s ts1). split_and!; [reflexivity| |done|done|done|done].
  split; [exact Hs|exact Hwf|rewrite HN; unfold NumFirst; lia| |exact Hcl1| |].
  - intros g srvs. rewrite HG. intros [<- <-]%lookup_singleton_Some. split; [unfold Gid1; lia|reflexivity].
  - intros g Hg. change (groups (cfg (with_ctl s ts1))) with (groups (cfg ts1)).
    rewrite Eg, HG, <- insert_empty, !joined_is_Some, lookup_empty, (Hnone g Hg).
    split; (intros [->|[? [=]]]; by left).
  - intros g sg' Hg. change (groups (cfg (with_ctl s ts1))) with (groups (cfg ts1)). rewrite Eg.
    intros [[<- <-]|[_ H]]%lookup_insert_Some; [exact Hsg|]. rewrite (Hnone g Hg) in H. discriminate.
Qed.

Lemma MakeTestMaxRaft_start StartKVServer rand1 rand2 part rel now1 now2 sck (T : @Tester Typ Val A) :
  starts StartKVServer made → fresh_draws 1 rand1 rand2 (tnet T) →
  ∃ ts : ShardTest, MakeTestMaxRaft service_of StartKVServer rand1 rand2 part rel now1 now2 sck T = Done ts ∧ ctl ts = sck ∧
    cluster service_of made (groups (cfg ts)) (tester (cfg ts)) ∧ (∀ g, 0 < g → groups (cfg ts) !! g = None) ∧
    is_Some (clnts (cfg ts)).2 ∧ ngid ts = 2.
Proof.
  intros Hmks Hfresh. unfold MakeTestMaxRaft, MakeConfig, GRP0.
  destruct (MakeGroupStart_ok StartKVServer service_of made rand1 rand2 0 1 ∅ T (Hmks _) Hfresh) as (sg & T' & -> & Hr & K & Hnew).
  cbn [mbind outcome_bind]. eexists. split_and!; [reflexivity|reflexivity| | |by eexists|reflexivity].
  - eapply (cluster_kept _ _ _ T').
    + eapply (cluster_insert _ _ _ _ ∅); [apply cluster_empty|done|exact Hr|exact K|]. intros e He. by apply Hnew.
    + split; [by split|done|by intros q|by intros g n i p sv|done].
  - intros g Hg. apply lookup_insert_None. split; [apply lookup_empty|lia].
Qed.

Lemma MakeTestMaxRaft_ok StartKVServer rand1 rand2 part rel now1 now2 sck (T : @Tester Typ Val A) :
  starts StartKVServer made → fresh_draws 1 rand1 rand2 (tnet T) → current sck = None →
  ∃ ts, MakeTestMaxRaft service_of StartKVServer rand1 rand2 part rel now1 now2 sck T = Done ts ∧ ready ts ∧ ngid ts = 2.
Proof.
  intros Hmks Hfresh Hsck.
  destruct (MakeTestMaxRaft_start StartKVServer rand1 rand2 part rel now1 now2 sck T Hmks Hfresh)
    as (ts & -> & Hs & Hcl & Hnone & Hks & Hn).
  exists ts. split_and!; [done| |done]. by split; [rewrite Hs|..].
Qed.

Lemma new_groups_ok k : ∀ (ts : ShardTest), 0 <= ngid ts → ngid ts + Z.of_nat k < max_int64 →
  ∃ ts', new_groups k ts = ((λ i, ngid ts + Z.of_nat i) <$> seq 0 k, ts') ∧ cfg ts' = cfg ts ∧ ctl ts' = ctl ts.
Proof.
  induction k as [|k IH]; intros ts H0 Hk; [by exists ts|].
  cbn [new_groups newGid]. set (ts1 := mkShardTest _ _ _).
  assert (ngid ts1 = ngid ts + 1) as E1 by (apply int64_id; unfold max_int64 in *; lia).
  destruct (IH ts1) as (ts' & -> & Hc & Hs); [lia|lia|]. exists ts'. split_and!; [|done|done].
  f_equal. cbn [seq fmap list_fmap]. f_equal; [lia|]. rewrite <- fmap_S_seq, <- list_fmap_compose.
  apply list_fmap_ext. intros i x _. rewrite E1. simpl. lia.
Qed.

Lemma kv_ok_same c (ts ts' : ShardTest) : kv_ok c ts → cfg ts' = cfg ts → ctl ts' = ctl ts → kv_ok c ts'.
Proof. intros [Hcur Hwf Hn Hgr Hcl Hsame Hnm] Ec Es. split; rewrite ?Ec, ?Es; done. Qed.

(** A group that is alone serves every key. *)
Lemma only_group_serves c g l key : well_formed c → Groups c = {[g := l]} → GidServers (Key2Shard key) c = Done (g, l, true).
Proof.
  intros [Hs Ha _ _] HG. pose proof (Key2Shard_range key) as Hk. unfold has_shards in Hs.
  destruct (slice_get_lt (Shards c) (Key2Shard key)) as (g' & Hget & Hg); [lia|].
  assert (has_group c) as Hhas by (exists g; rewrite HG, lookup_singleton_eq; by eexists).
  destruct (Ha Hhas g') as [x Hx].
  { apply list_elem_of_lookup. by eexists. }
  rewrite HG in Hx. apply lookup_singleton_Some in Hx as [<- _].
  unfold GidServers. rewrite Hget. cbn [mbind outcome_bind]. by rewrite HG, lookup_singleton_eq.
Qed.

(** (C24) A test from beginning to end: it makes its configuration and sets the
    service up with one group; then as many new groups join as there are shards
    left, and leave again. Every helper succeeds, the number has grown by one for
    each change, the first group is the only one of the configuration, serves every key,
    and still runs. *)
Theorem joins_then_leaves StartKVServer rand1 rand2 part rel now1 now2 sck (T : @Tester Typ Val A) k :
  starts StartKVServer made → starts mks made → stops Kill_ made → draws_new → fresh_draws 1 rand1 rand2 (tnet T) →
  current sck = None → (k <= 11)%nat →
  ∃ c ts3, (
    ts ← MakeTestMaxRaft service_of StartKVServer rand1 rand2 part rel now1 now2 sck T;
    '(g, ts) ← setupKVService mks service_of draw ts;
    let '(gs, ts) := new_groups k ts in
    '(joined, ts) ← joinGroups mks service_of draw gs ts;
    '(gone, ts) ← leaveGroups Kill_ gs ts;
    Done (g, joined, gone, ts)) = Done (Gid1, true, true, ts3) ∧
    kv_ok c ts3 ∧ Num c = NumFirst + 2 * Z.of_nat k ∧
    (∀ key, GidServers (Key2Shard key) c = Done (Gid1, group_servers Gid1, true)) ∧ ∀ key, served c ts3 key.
Proof.
  intros Hkv Hmks Hstops Hdraw Hfresh Hsck Hk.
  destruct (MakeTestMaxRaft_ok StartKVServer rand1 rand2 part rel now1 now2 sck T Hkv Hfresh Hsck) as (ts0 & -> & Hr & Hn0).
  cbn [mbind outcome_bind].
  destruct (setup_ok ts0 Hmks Hdraw Hr) as (c1 & ts1 & -> & Hok1 & HN1 & HG1 & Hn1 & _). cbn [mbind outcome_bind].
  unfold NumFirst in *. assert (max_int64 = 9223372036854775807) as Hmax by reflexivity.
  destruct (new_groups_ok k ts1) as (ts1' & -> & Ec & Es); [lia|lia|]. rewrite Hn1, Hn0.
  set (gs := _ <$> seq 0 k). assert (length gs = k) as Hlen by (unfold gs; by rewrite length_fmap, length_seq).
  assert (NoDup gs) as Hnd by (apply NoDup_fmap; [intros i j; lia|apply NoDup_seq]).
  assert (∀ g, g ∈ gs → 2 <= g) as Hgs by (intros g (i & -> & _)%list_elem_of_fmap; lia).
  assert (∀ g, Gid1 < g → Groups c1 !! g = None) as Hnone.
  { intros g Hg. rewrite HG1. apply lookup_singleton_None. lia. }
  assert (size (Groups c1) = 1%nat) as Hsize by (rewrite HG1; apply map_size_singleton).
  destruct (joinGroups_spec gs c1 ts1' Hmks Hdraw (kv_ok_same _ _ _ Hok1 Ec Es) Hnd) as (c2 & ts2 & -> & Hok2 & HN2 & HG2).
  { intros g Hg%Hgs. split; [lia|]. apply Hnone. unfold Gid1. lia. } { lia. } { lia. }
  rewrite Hsize in *. rewrite bool_decide_eq_true_2 by lia. cbn [mbind outcome_bind].
  rewrite take_ge in HN2, HG2 by lia.
  destruct (leaveGroups_spec gs c2 ts2 Hstops Hok2 Hnd) as (c3 & ts3 & -> & Hok3 & HN3 & HG3).
  { intros g Hg. apply HG2. by right. } { lia. }
  cbn [mbind outcome_bind].
  assert (Groups c3 = {[Gid1 := group_servers Gid1]}) as HGid1.
  { apply map_eq. intros g. rewrite HG3. case_decide as Hg.
    - apply Hgs in Hg. symmetry. apply lookup_singleton_None. unfold Gid1. lia.
    - destruct (decide (g = Gid1)) as [->|Hne].
      + rewrite lookup_singleton_eq. destruct (proj2 (HG2 Gid1)) as [l Hl].
        { left. rewrite HG1, lookup_singleton_eq. by eexists. }
        rewrite Hl. f_equal. by apply (kv_groups _ _ Hok2 _ _ Hl).
      + rewrite lookup_singleton_ne by done. apply eq_None_not_Some. intros [H|H]%HG2; [|done].
        rewrite HG1, lookup_singleton_ne in H by done. by destruct H. }
  exists c3, ts3. split_and!; [done|done|lia| |].
  - intros key. apply only_group_serves; [apply Hok3|done].
  - intros key. apply kv_served; [done|]. exists Gid1. rewrite HGid1, lookup_singleton_eq. by eexists.
Qed.
(** ** A group that goes down and comes back *)

Lemma kv_length c (ts : ShardTest) g sg : kv_ok c ts → 0 < g → groups (cfg ts) !! g = Some sg → length (Group.srvs sg) = 3%nat.
Proof.
  intros Hok Hg Hsg. pose proof (run_names _ _ _ _ _ _ (cl_running _ _ _ _ (kv_cluster _ _ Hok) g sg Hsg)) as Hn.
  pose proof (kv_names _ _ Hok g sg Hg Hsg) as Hn'. unfold SrvNames in Hn'. rewrite Hn' in Hn.
  apply (f_equal length) in Hn. unfold group_servers, indices in Hn. by rewrite !length_fmap, !length_seq in Hn.
Qed.

(** The test that shuts a group down, makes sure that not every [Get] completes
    then, and starts the group again: the verdict is that of the completions alone, and a test that goes on finds
    the cluster as it was. Every server of the group that was down is registered
    again with new services, on new ends that all work; the other groups were not
    disturbed, and every key is served. *)
Theorem checkShutdownSharding_restores down ka va evs c (ts : ShardTest) :
  starts mks made → stops Kill_ made → draws_new → kv_ok c ts → is_Some (Groups c !! down) → is_Some (clnts (cfg ts)).2 →
  ∃ ts', checkShutdownSharding mks Kill_ service_of draw down ka va evs ts =
      (ndone ← completions va evs 0; if Z.of_nat (length ka) <=? ndone then Fatal "expected less completions" else Done ts') ∧
    kv_ok c ts' ∧ (∀ g, g ≠ down → groups (cfg ts') !! g = groups (cfg ts) !! g) ∧ ∀ key, served c ts' key.
Proof.
  intros Hmks Hstops Hdraw Hok Hdown Hk. destruct Hdown as [l Hl]. destruct (kv_groups _ _ Hok down l Hl) as [Hpos _].
  destruct (proj1 (kv_same _ _ Hok down Hpos)) as [sg Hsg]; [by exists l|].
  pose proof (cl_running _ _ _ _ (kv_cluster _ _ Hok) down sg Hsg) as Hr. rewrite (kv_length c ts down sg Hok Hpos Hsg) in Hr.
  destruct (Shutdown_stops Kill_ service_of made down 3 sg (tester (cfg ts)) Hstops Hr) as (sg1 & T1 & Hsd & Hstop & _ & K1).
  pose proof (cluster_delete _ _ _ _ _ _ _ _ (kv_cluster _ _ Hok) Hsg K1) as Hcl1.
  set (ts1 := with_cfg (Config.with_groups (<[down := sg1]> (groups (cfg ts)), T1) (cfg ts)) ts).
  destruct (MakeClerks_ok ka ts1 Hk) as (ts2 & Hmk & Eg2 & Et2 & Es2 & _). simpl in Eg2, Et2, Es2.
  destruct (StartServers_restarts mks service_of made (draw (tnet T1)).2 down 3 sg1 T1 (Hmks _) Hstop) as (sg3 & T3 & Hst & Hr3 & K3 & Hnew);
    [apply Hdraw|].
  set (ts3 := with_cfg (Config.with_groups (<[down := sg3]> (groups (cfg ts2)), T3) (cfg ts2)) ts2).
  assert (kv_ok c ts3) as Hok3.
  { destruct Hok as [Hcur Hwf Hn Hgr Hcl Hsame Hnm]. split; simpl; try done; rewrite ?Eg2, ?insert_insert_eq.
    - by rewrite Es2.
    - rewrite <- insert_delete_eq. eapply cluster_insert; [exact Hcl1|apply lookup_delete_eq|exact Hr3|exact K3|exact Hnew].
    - intros g Hg. rewrite joined_is_Some, (Hsame g Hg). split; [by right|]. intros [->|?]; [by eexists|done].
    - intros g sg' Hg [[<- <-]|[_ H]]%lookup_insert_Some; [exact (run_names _ _ _ _ _ _ Hr3)|by apply Hnm]. }
  exists ts3. split_and!.
  - unfold checkShutdownSharding, group_Shutdown, Config_Group, lookupGroup. rewrite Hsg. cbn [mbind outcome_bind]. rewrite Hsd.
    cbn [mbind outcome_bind]. fold ts1. rewrite Hmk. cbn [mbind outcome_bind].
    destruct (completions va evs 0) as [ndone| | |]; cbn [mbind outcome_bind]; [|done..]. case_match; [done|].
    unfold group_StartServers, Config_Group, lookupGroup. rewrite Eg2, lookup_insert_eq. cbn [mbind outcome_bind].
    rewrite Et2, Hst. cbn [mbind outcome_bind]. unfold ts3. by rewrite Eg2.
  - exact Hok3.
  - intros g Hg. simpl. by rewrite Eg2, !lookup_insert_ne.
  - intros key. apply kv_served; [exact Hok3|]. exists down. by exists l.
Qed.
End Cluster.

(** ** Witnesses: a controller that remembers its configuration *)
#[local] Instance plain_ctrler : ShardCtrler (option ShardConfig) := {|
  InitConfig c _ := Done (Some c);
  ChangeConfigTo c _ := Done (Some c);
  Query s := Done (s, s)
|}.

#[local] Instance plain_state : CtrlerState (option ShardConfig) := id.

#[local] Instance plain_laws : ShardCtrlerLaws (option ShardConfig).
Proof.
  split.
  - intros c s _. by exists (Some c).
  - intros c old s _ _. by exists (Some c).
  - intros c s Hs. exists (Some c). unfold current, plain_state in Hs. simpl in Hs. by rewrite Hs.
Defined.

Lemma plain_none : current (None : option ShardConfig) = None.
Proof. reflexivity. Qed.

Definition plain_draw (rn : Network) : (nat → nat → string) * (nat → nat → string) :=
  (new_names 3 rn 0, new_names 3 rn 1).

Lemma plain_draws : draws_new plain_draw.
Proof. intros rn. apply new_names_fresh. Qed.

Definition empty_test : ShardTest unit Z unit Z (option ShardConfig) :=
  mkShardTest (mkConfig ([], Some ∅) ∅ boot_tester false 0 0 0 0) None 2.

Lemma empty_ready : ready no_methods any_services empty_test.
Proof. split; [done|apply cluster_empty|done|by eexists]. Qed.

Lemma joins_then_leaves_witness :
  ∃ c ts, (
    ts ← MakeTestMaxRaft no_methods no_services (new_names 1 MakeNetwork 0) (new_names 1 MakeNetwork 1) "Test" false 0 0
      None boot_tester;
    '(g, ts) ← setupKVService no_services no_methods plain_draw ts;
    let '(gs, ts) := new_groups 11 ts in
    '(joined, ts) ← joinGroups no_services no_methods plain_draw gs ts;
    '(gone, ts) ← leaveGroups no_kill gs ts;
    Done (g, joined, gone, ts)) = Done (1, true, true, ts) ∧
    Num c = 23 ∧ GidServers (Key2Shard "some key") c = Done (1, ["server-1-0"; "server-1-1"; "server-1-2"]%string, true) ∧
    served no_methods any_services c ts "some key".
Proof.
  destruct (joins_then_leaves no_services no_kill no_methods any_services plain_draw no_services (new_names 1 MakeNetwork 0)
    (new_names 1 MakeNetwork 1) "Test" false 0 0 None boot_tester 11 no_services_starts no_services_starts no_kill_stops
    plain_draws (new_names_fresh 1 MakeNetwork) plain_none) as (c & ts & Hrun & _ & HN & Hserve & Hserved); [lia|].
  exists c, ts. split_and!; [exact Hrun|rewrite HN; reflexivity| |apply Hserved]. rewrite Hserve. vm_compute. reflexivity.
Defined.

Lemma checkShutdownSharding_restores_witness :
  ∃ c (ts ts' : ShardTest unit Z unit Z (option ShardConfig)),
    checkShutdownSharding no_services no_kill no_methods plain_draw 1 ["a"; "b"]%string ["0"; "1"]%string [Completed 1 "1"; TimedOut] ts = Done ts' ∧
    kv_ok no_methods any_services c ts' ∧ served no_methods any_services c ts' "a".
Proof.
  destruct (setup_ok no_services no_methods any_services plain_draw empty_test no_services_starts plain_draws empty_ready)
    as (c & ts & _ & Hok & HN & HG & _ & Hk).
  destruct (checkShutdownSharding_restores no_services no_kill no_methods any_services plain_draw 1 ["a"; "b"]%string ["0"; "1"]%string
    [Completed 1 "1"; TimedOut] c ts no_services_starts no_kill_stops plain_draws Hok) as (ts' & Hrun & Hok' & _ & Hs).
  - rewrite HG. by eexists.
  - exact Hk.
  - exists c, ts, ts'. split_and!; [rewrite Hrun; reflexivity|exact Hok'|apply Hs].
Defined.

Lemma joinGroups_limit_witness :
  ∃ c (ts : ShardTest unit Z unit Z (option ShardConfig)) c' ts', kv_ok no_methods any_services c ts ∧
    joinGroups no_services no_methods plain_draw [2; 3; 4; 5; 6; 7; 8; 9; 10; 11; 12; 13; 14] ts = Done (false, ts') ∧
    kv_ok no_methods any_services c' ts' ∧ is_Some (Groups c' !! 13) ∧ Num c' = 13 ∧ served no_methods any_services c' ts' "some key".
Proof.
  destruct (setup_ok no_services no_methods any_services plain_draw empty_test no_services_starts plain_draws empty_ready)
    as (c & ts & _ & Hok & HN & HG & _).
  assert (size (Groups c) = 1%nat) as Hsize by (rewrite HG; apply map_size_singleton).
  destruct (joinGroups_limit no_services no_methods any_services plain_draw [2; 3; 4; 5; 6; 7; 8; 9; 10; 11; 12; 13; 14] c ts
    no_services_starts plain_draws Hok) as (c' & ts' & Hrun & Hok' & HN' & HG' & Hserved).
  - exists 1. rewrite HG, lookup_singleton_eq. by eexists.
  - apply (bool_decide_eq_true_1 _). vm_compute. reflexivity.
  - intros g Hg. assert (g ≠ 1 ∧ 0 < g) as [Hne Hpos].
    { repeat (apply elem_of_cons in Hg as [->|Hg]; [lia|]). by apply elem_of_nil in Hg. }
    split; [done|]. rewrite HG, lookup_singleton_ne by (intros <-; by apply Hne). done.
  - rewrite HN. vm_compute. reflexivity.
  - lia.
  - rewrite Hsize in *. exists c, ts, c', ts'. split_and!; [exact Hok|exact Hrun|exact Hok'| |rewrite HN', HN; reflexivity|apply Hserved].
    apply HG'. right. apply (bool_decide_eq_true_1 _). vm_compute. reflexivity.
Defined.

Lemma leaveGroups_exit_witness :
  ∃ c (ts : ShardTest unit Z unit Z (option ShardConfig)) c' ts', kv_ok no_methods any_services c ts ∧ leaveGroups no_kill [1] ts = Done (true, ts') ∧
    kv_ok no_methods any_services c' ts' ∧ Groups c' !! 1 = None.
Proof.
  destruct (setup_ok no_services no_methods any_services plain_draw empty_test no_services_starts plain_draws empty_ready)
    as (c & ts & _ & Hok & HN & HG & _).
  destruct (leaveGroups_exit no_kill no_methods any_services [1] c ts no_kill_stops Hok) as (c' & ts' & Hrun & Hok' & _ & HG' & _).
  - apply NoDup_singleton.
  - intros g ->%list_elem_of_singleton. rewrite HG, lookup_singleton_eq. by eexists.
  - rewrite HN. vm_compute. reflexivity.
  - exists c, ts, c', ts'. split_and!; [exact Hok|exact Hrun|exact Hok'|]. rewrite HG'. by rewrite decide_True by (by left).
Defined.
