(* ===== verification/ShardCtrlers.v ===== *)
(** * ShardCtrlers: controllers that run at once (src/src/shardkv1/test.go)

    [concurCtrler] starts goroutines that make controllers, each of which lets a
    new group join and leave again, until the test sends them a token. A goroutine
    takes its steps between those of the others: a step is one call of a
    controller or of the tester, with the local computation before it. The calls of
    one controller may be superseded by another's. *)

From S2P Require Import Prelude Persister Labrpc Group Clnts Config ShardCfg ShardKVTest.

Local Open Scope Z_scope.

(** ** Several controllers

    They share a state; [sck_of] has the methods of the controller that the client
    [p] was given to. *)
Class Controllers (Ctl : Type) := {
  sck_of : nat → ShardCtrler Ctl;
  InitController : nat → Ctl → outcome Ctl
}.

(** Every controller keeps the promises of one, and "while the controller changes the
    configuration it may be superseded by another controller": a change to a configuration that is
    not new any more does nothing. Without an unfinished change there is nothing to
    recover. *)
Class ControllersLaws (Ctl : Type) `{Controllers Ctl} `{CtrlerState Ctl} := {
  sck_laws : ∀ p, @ShardCtrlerLaws Ctl (sck_of p) _;
  superseded_law : ∀ p c old s, current s = Some old → Num c ≤ Num old →
    ∃ s', @ChangeConfigTo Ctl (sck_of p) c s = Done s' ∧ current s' = Some old;
  InitController_law : ∀ p c s, current s = Some c → ∃ s', InitController p s = Done s' ∧ current s' = Some c
}.

(** Where a goroutine is: [p] is its controller's client, [g] its group. *)
Inductive ctrler_pc :=
| Looking                                  (* at the [select] *)
| Making (g : Z)                           (* [makeShardCtrler] *)
| Initing (p : nat) (g : Z)                (* [InitController] *)
| Starting (p : nat) (g : Z)               (* [MakeGroupStart] in [joinGroups] *)
| Joining (p : nat) (g : Z)                (* [Query] in [join] *)
| Changing (p : nat) (g : Z) (joins : bool) (newcfg : ShardConfig)
| JoinCheck (p : nat) (g : Z)              (* [checkMember] in [joinGroups] *)
| MemberCheck (p : nat) (g : Z)
| Leaving (p : nat) (g : Z)                (* [Query] in [leave] *)
| LeaveCheck (p : nat) (g : Z)             (* [checkMember] in [leaveGroups] *)
| Exiting (p : nat) (g : Z)                (* [ExitGroup] *)
| Ended.

(** What the test itself does: it sleeps, then it sends token after token. *)
Inductive main_pc :=
| Sleeping
| Sending (k : nat)                        (* about to send token [k] *)
| Blocked (k : nat)                        (* in the send *)
| Checking.                                (* the loop of [CheckGet] *)

Section Test.
Context {Typ Val A Svc Ctl : Type} {CT : Controllers Ctl}.
Variable StartServerShardGrp : list string → Z → Z → nat → Store → A → outcome (list (option Svc) * Store * A).
Variable Kill_ : Svc → Store → A → outcome (Store * A).
Variable service_of : Svc → @Service Val A.
Variable draw : Network → (nat → nat → string) * (nat → nat → string).

Abbreviation ShardTest := (ShardTest Typ Val A Svc Ctl).

(** ** One goroutine *)

(** The body of its loop in the [default] case, as the source has it. *)
Definition electCtrler (ts : ShardTest) : outcome ShardTest :=
  let '(ngid, ts) := newGid ts in
  '(p, ts) ← makeShardCtrler ts;
  s ← InitController p (ctl ts);
  '(_, ts) ← joinGroups (SC := sck_of p) StartServerShardGrp service_of draw [ngid] (with_ctl s ts);
  '(ok, ts) ← checkMember (SC := sck_of p) ngid ts;
  if (ok : bool) then '(_, ts) ← leaveGroups (SC := sck_of p) Kill_ [ngid] ts; Done ts else Done ts.

(** The same in steps; [ctrlers_alone] in [ShardCtrlersProps] says so. *)
Definition ctrler_step (pc : ctrler_pc) (ts : ShardTest) : outcome (ctrler_pc * ShardTest) :=
  match pc with
  | Looking => let '(g, ts) := newGid ts in Done (Making g, ts)
  | Making g => '(p, ts) ← makeShardCtrler ts; Done (Initing p g, ts)
  | Initing p g => s ← InitController p (ctl ts); Done (Starting p g, with_ctl s ts)
  | Starting p g => ts ← start_group StartServerShardGrp service_of draw g ts; Done (Joining p g, ts)
  | Joining p g =>
      srvs ← names_of g ts;
      '(q, s) ← @Query _ (sck_of p) (ctl ts);
      c ← cfg_at q;
      '(ok, newcfg) ← JoinBalance [(g, srvs)] (Copy c);
      if negb ok then Fatal "join: group is already present" else Done (Changing p g true newcfg, with_ctl s ts)
  | Changing p g joins newcfg =>
      s ← @ChangeConfigTo _ (sck_of p) newcfg (ctl ts);
      Done (if joins then JoinCheck p g else LeaveCheck p g, with_ctl s ts)
  | JoinCheck p g => '(_, ts) ← checkMember (SC := sck_of p) g ts; Done (MemberCheck p g, ts)
  | MemberCheck p g =>
      '(ok, ts) ← checkMember (SC := sck_of p) g ts; Done (if (ok : bool) then Leaving p g else Looking, ts)
  | Leaving p g =>
      '(q, s) ← @Query _ (sck_of p) (ctl ts);
      c ← cfg_at q;
      '(ok, newcfg) ← LeaveBalance [g] (Copy c);
      if negb ok then Fatal "leave: group is already not present" else Done (Changing p g false newcfg, with_ctl s ts)
  | LeaveCheck p g =>
      '(ok, ts) ← checkMember (SC := sck_of p) g ts; Done (if (ok : bool) then Looking else Exiting p g, ts)
  | Exiting p g => c ← Config_ExitGroup Kill_ g (cfg ts); Done (Looking, with_cfg c ts)
  | Ended => Done (Ended, ts)
  end.

(** The steps of a goroutine that nobody interrupts, until it looks for a token. *)
Fixpoint undisturbed (fuel : nat) (pc : ctrler_pc) (ts : ShardTest) : outcome ShardTest :=
  match fuel, pc with
  | _, (Looking | Ended) => Done ts
  | O, _ => Diverge
  | S fuel, _ => '(pc, ts) ← ctrler_step pc ts; undisturbed fuel pc ts
  end.

(** ** All of them *)
Record Race := mkRace { goroutines : list ctrler_pc; main : main_pc; test : ShardTest }.

Definition send_next (k n : nat) : main_pc := if decide (k < n)%nat then Sending k else Checking.

Inductive event :=
| Wake
| Enter
| Turn (i : nat).

(** A [select] finds a token when the test is in the send. *)
Definition exec_event (e : event) (r : Race) : outcome Race :=
  let n := length (goroutines r) in
  match e with
  | Wake => Done (match main r with Sleeping => mkRace (goroutines r) (send_next 0 n) (test r) | _ => r end)
  | Enter => Done (match main r with Sending k => mkRace (goroutines r) (Blocked k) (test r) | _ => r end)
  | Turn i =>
      match goroutines r !! i, main r with
      | Some Looking, Blocked k => Done (mkRace (<[i := Ended]> (goroutines r)) (send_next (S k) n) (test r))
      | Some pc, _ =>
          '(pc, ts) ← ctrler_step pc (test r); Done (mkRace (<[i := pc]> (goroutines r)) (main r) ts)
      | None, _ => Done r
      end
  end.

Definition run_events (es : list event) (r : Race) : outcome Race := for_each es exec_event r.

Definition concur_N : nat := 4.

Definition concurCtrler (ts : ShardTest) : Race := mkRace (replicate concur_N Looking) Sleeping ts.
End Test.
Arguments Race : clear implicits.
