(* ===== verification/ShardCtrlersProps.v ===== *)
(** * ShardCtrlersProps: what controllers that run at once leave behind

    In every interleaving of the goroutines of [concurCtrler] the configuration
    stays well-formed and its groups run, so that every key is served; the tokens
    end the goroutines; a group whose leave was superseded stays. *)

From S2P Require Import Prelude Persister Labrpc Group GroupProps GroupStart Clnts Config ConfigProps ShardCfg ShardCfgBalance ShardCfgJoin.
From S2P Require Import ShardKVTest ShardKVTestProps ShardCtrlers.

Local Open Scope Z_scope.

(** ** Changes of the configuration *)
Lemma leave_loop_groups gs : ∀ b c c1 b1, leave_loop gs b c = inr (c1, b1) → c1 = ShardCfgJoin.with_groups (Groups c1) c.
Proof.
  induction gs as [|g gs IH]; intros b c c1 b1; cbn [leave_loop].
  - intros [= <- _]. by destruct c.
  - destruct (Groups c !! g); [|discriminate]. intros H%IH. exact H.
Qed.

Lemma LeaveBalance_Rebalance gs c c' :
  LeaveBalance gs c = Done (true, c') → ∃ G, Rebalance (incr_Num (ShardCfgJoin.with_groups G c)) = Done c'.
Proof.
  unfold LeaveBalance, Leave. destruct (leave_loop gs false c) as [c1|[c1 changed]] eqn:El; [discriminate|].
  apply leave_loop_groups in El.
  destruct changed; [|discriminate]. cbn [negb mbind outcome_bind]. intros H.
  destruct (Rebalance (incr_Num c1)) as [c2| | |] eqn:E; try discriminate. cbn in H. injection H as <-.
  exists (Groups c1). by rewrite <- El.
Qed.

Section Race.
Context {Typ Val A Svc Ctl : Type} {CT : Controllers Ctl} {CS : CtrlerState Ctl} {CL : ControllersLaws Ctl}.
Context (mks : list string → Z → Z → nat → Store → A → outcome (list (option Svc) * Store * A)).
Context (Kill_ : Svc → Store → A → outcome (Store * A)) (service_of : Svc → @Service Val A).
Context (made : Z → list string → Z → nat → list Svc → A → Prop).
Context (draw : Network → (nat → nat → string) * (nat → nat → string)).
Abbreviation ShardTest := (ShardTest Typ Val A Svc Ctl).
Abbreviation Race := (Race Typ Val A Svc Ctl).
Abbreviation step := (ctrler_step mks Kill_ service_of draw).

Definition at_select (pc : ctrler_pc) : bool := match pc with Looking | Ended => true | _ => false end.

Lemma undisturbed_S n pc (ts : ShardTest) : at_select pc = false →
  undisturbed mks Kill_ service_of draw (S n) pc ts =
    ('(pc, ts) ← step pc ts; undisturbed mks Kill_ service_of draw n pc ts).
Proof. by destruct pc. Qed.

Lemma undisturbed_end n pc (ts : ShardTest) : at_select pc = true → undisturbed mks Kill_ service_of draw n pc ts = Done ts.
Proof. by destruct n, pc. Qed.

(** The next step of a goroutine, and a call by how it ends. *)
Ltac advance := (rewrite undisturbed_S by reflexivity); cbn [ctrler_step].
Ltac follow t p := destruct t as p; cbn [mbind outcome_bind negb ctl cfg with_ctl with_cfg]; [|reflexivity..].

(** A goroutine that is not interrupted does what its loop's body says. *)
Theorem ctrlers_alone (ts : ShardTest) :
  ('(pc, ts) ← step Looking ts; undisturbed mks Kill_ service_of draw 11 pc ts) = electCtrler mks Kill_ service_of draw ts.
Proof.
  unfold electCtrler. cbn [ctrler_step]. destruct (newGid ts) as [g ts1]. cbn [mbind outcome_bind]. advance.
  follow (makeShardCtrler ts1) ipattern:([[p ts2]| | |]). advance.
  follow (InitController p (ctl ts2)) ipattern:([s| | |]). advance.
  cbn [joinGroups]. follow (start_group mks service_of draw g (with_ctl s ts2)) ipattern:([ts3| | |]). advance.
  unfold join. follow (names_of g ts3) ipattern:([srvs| | |]).
  follow (@Query _ (sck_of p) (ctl ts3)) ipattern:([[q s3]| | |]).
  follow (cfg_at q) ipattern:([c| | |]).
  destruct (JoinBalance _ _) as [[[] nc]| | |]; cbn [mbind outcome_bind negb ctl with_ctl]; [|reflexivity..]. advance.
  cbn [ctl with_ctl]. follow (@ChangeConfigTo _ (sck_of p) nc s3) ipattern:([s4| | |]). advance.
  set (ts4 := with_ctl s4 ts3). change (with_ctl s4 (with_ctl s3 ts3)) with ts4.
  follow (checkMember (SC := sck_of p) g ts4) ipattern:([[ok ts5]| | |]).
  assert (∀ B (k : bool * ShardTest → outcome B), (∀ b, k (b, ts5) = k (true, ts5)) →
    (if negb ok then Done (false, ts5) else Done (true, ts5)) ≫= k = k (true, ts5)) as Hany.
  { intros B k Hk. destruct ok; [done|apply Hk]. }
  rewrite Hany by done. clear Hany. advance.
  follow (checkMember (SC := sck_of p) g ts5) ipattern:([[mem ts6]| | |]).
  destruct mem; [|by apply undisturbed_end]. advance. cbn [leaveGroups]. unfold leave.
  follow (@Query _ (sck_of p) (ctl ts6)) ipattern:([[q6 s6]| | |]).
  follow (cfg_at q6) ipattern:([c6| | |]).
  destruct (LeaveBalance _ _) as [[[] nc6]| | |]; cbn [mbind outcome_bind negb ctl with_ctl]; [|reflexivity..]. advance.
  cbn [ctl with_ctl]. follow (@ChangeConfigTo _ (sck_of p) nc6 s6) ipattern:([s7| | |]). advance.
  set (ts7 := with_ctl s7 ts6). change (with_ctl s7 (with_ctl s6 ts6)) with ts7.
  follow (checkMember (SC := sck_of p) g ts7) ipattern:([[ok7 ts8]| | |]).
  destruct ok7; [by apply undisturbed_end|]. advance.
  follow (Config_ExitGroup Kill_ g (cfg ts8)) ipattern:([c8| | |]). by apply undisturbed_end.
Qed.
(** ** The invariant *)

(** The groups that run, when [d] is shut down for a while. *)
Definition up (d : option Z) (gs : gmap Z (@ServerGrp Svc)) : gmap Z (@ServerGrp Svc) :=
  match d with Some g => delete g gs | None => gs end.

Lemma up_lookup d gs g : (∀ x, d = Some x → x ≠ g) → up d gs !! g = gs !! g.
Proof. destruct d as [x|]; [|done]. intros H. simpl. by rewrite lookup_delete_ne by (by apply H). Qed.

Lemma up_None d gs g : gs !! g = None → up d gs !! g = None.
Proof. destruct d as [x|]; [|done]. intros H. apply lookup_delete_None. by right. Qed.

Lemma up_insert d gs g sg : (∀ x, d = Some x → x ≠ g) → up d (<[g := sg]> gs) = <[g := sg]> (up d gs).
Proof. destruct d as [x|]; [|done]. intros H. simpl. by rewrite delete_insert_ne by (by apply H). Qed.

Lemma up_delete d gs g : up d (delete g gs) = delete g (up d gs).
Proof. destruct d as [x|]; [|done]. simpl. apply delete_delete. Qed.

Section Down.
Context (d : option Z).

(** The controllers' configuration is [c], and its groups run. There may be others. *)
Record tracks (c : ShardConfig) (ts : ShardTest) : Prop := {
  t_current : current (ctl ts) = Some c;
  t_wf : well_formed c;
  t_num : 0 <= Num c;
  t_groups : ∀ g srvs, Groups c !! g = Some srvs → 0 < g ∧ srvs = group_servers g;
  t_cluster : cluster service_of made (up d (groups (cfg ts))) (tester (cfg ts));
  t_down : ∀ g, d = Some g → is_Some (Groups c !! g) ∧ ∃ sg, groups (cfg ts) !! g = Some sg ∧ stopped g 3 sg (tester (cfg ts));
  t_runs : ∀ g, is_Some (Groups c !! g) → is_Some (groups (cfg ts) !! g);
  t_names : ∀ g sg, 0 < g → groups (cfg ts) !! g = Some sg → SrvNames sg = group_servers g;
  t_first : is_Some (Groups c !! Gid1);
  t_clerks : is_Some (clnts (cfg ts)).2;
  t_ngid : 2 <= ngid ts;
  t_new : ∀ g, ngid ts <= g → groups (cfg ts) !! g = None
}.

Lemma tracks_has_group c ts : tracks c ts → has_group c.
Proof. intros T. exists Gid1. exact (t_first _ _ T). Qed.

(** [nc] is [c] with [g] added or taken out; who has shards goes on having some. *)
Record adopts (joins : bool) (g : Z) (c nc : ShardConfig) : Prop := {
  a_wf : well_formed nc;
  a_groups : Groups nc = if joins then <[g := group_servers g]> (Groups c) else delete g (Groups c);
  a_members : ∀ x, x ≠ g → is_Some (Groups c !! x) → x ∈ Shards c → x ∈ Shards nc
}.

(** A change to [nc] is out of date, or one of [c]. *)
Definition proposed (joins : bool) (g : Z) (c nc : ShardConfig) : Prop :=
  Num nc <= Num c + 1 ∧ (Num nc = Num c + 1 → adopts joins g c nc).

(** What holds where a goroutine is, about its group. *)
Definition pc_ok (c : ShardConfig) (gs : gmap Z (@ServerGrp Svc)) (pc : ctrler_pc) : Prop :=
  match pc with
  | Looking | JoinCheck _ _ | MemberCheck _ _ | Ended => True
  | Making g | Initing _ g | Starting _ g => gs !! g = None
  | Joining _ g | Exiting _ g => is_Some (gs !! g) ∧ Groups c !! g = None
  | Changing _ g true nc => is_Some (gs !! g) ∧ Groups c !! g = None ∧ proposed true g c nc
  | Leaving _ g => is_Some (gs !! g) ∧ g ∈ Shards c
  | Changing _ g false nc => is_Some (gs !! g) ∧ g ∈ Shards c ∧ proposed false g c nc
  | LeaveCheck _ g => is_Some (gs !! g) ∧ (g ∈ Shards c ∨ Groups c !! g = None)
  end.

Definition pc_gid (pc : ctrler_pc) : option Z :=
  match pc with
  | Looking | Ended => None
  | Making g | Initing _ g | Starting _ g | Joining _ g | Changing _ g _ _ | JoinCheck _ g | MemberCheck _ g
  | Leaving _ g | LeaveCheck _ g | Exiting _ g => Some g
  end.

(** What a step about [g] leaves as it was. *)
Record frame (g : Z) (c : ShardConfig) (ts : ShardTest) (c' : ShardConfig) (ts' : ShardTest) : Prop := {
  f_ngid : ngid ts <= ngid ts' <= ngid ts + 1;
  f_num : Num c <= Num c' <= Num c + 1;
  f_same : Num c' = Num c → c' = c;
  f_group : ∀ x, x ≠ g → Groups c' !! x = Groups c !! x;
  f_member : ∀ x, x ≠ g → is_Some (Groups c !! x) → x ∈ Shards c → x ∈ Shards c';
  f_runs : ∀ x, x ≠ g → groups (cfg ts') !! x = groups (cfg ts) !! x
}.

Lemma frame_pc g c ts c' ts' pc :
  tracks c ts → frame g c ts c' ts' → pc_gid pc ≠ Some g → pc_ok c (groups (cfg ts)) pc → pc_ok c' (groups (cfg ts')) pc.
Proof.
  intros T [_ Hn Hsame Hg Hm Hr] Hne. assert (∀ x, pc_gid pc = Some x → x ≠ g) as Hx by congruence.
  assert (∀ x, x ∈ Shards c → is_Some (Groups c !! x)) as Ha.
  { apply (wf_assigned _ (t_wf _ _ T)). by eapply tracks_has_group. }
  assert (∀ j x nc, proposed j x c nc → proposed j x c' nc) as Hprop.
  { intros j x nc [Hle Hadopt]. split; [lia|]. intros E. assert (Num c' = Num c) as E' by lia. rewrite (Hsame E').
    apply Hadopt. lia. }
  destruct pc; simpl in Hx |- *; try done; specialize (Hx _ eq_refl); rewrite ?Hr, ?Hg by done; try done.
  - destruct joins; rewrite ?Hg by done; intros (H1 & H2 & H3); split_and!; auto.
  - intros [H1 H2]. auto.
  - intros [H1 [H2|H2]]; auto.
Qed.

Lemma frame_refl g c ts ts' :
  ngid ts' = ngid ts → groups (cfg ts') = groups (cfg ts) → frame g c ts c ts'.
Proof. intros En Eg. split; rewrite ?En, ?Eg; done || lia. Qed.

Lemma tracks_same c ts ts' :
  tracks c ts → current (ctl ts') = Some c → groups (cfg ts') = groups (cfg ts) → tester (cfg ts') = tester (cfg ts) →
  is_Some (clnts (cfg ts')).2 → ngid ts <= ngid ts' → tracks c ts'.
Proof.
  intros [? ? ? ? ? ? ? ? ? ? ? Hnew] Ec Eg Et Hk Hn. split; rewrite ?Eg, ?Et; try done; [lia|].
  intros g Hg. apply Hnew. lia.
Qed.
(** ** The steps *)
Definition rank (pc : ctrler_pc) : nat :=
  match pc with
  | Looking | Ended => 0
  | Exiting _ _ => 1
  | LeaveCheck _ _ => 2
  | Changing _ _ false _ => 3
  | Leaving _ _ => 4
  | MemberCheck _ _ => 5
  | JoinCheck _ _ => 6
  | Changing _ _ true _ => 7
  | Joining _ _ => 8
  | Starting _ _ => 9
  | Initing _ _ => 10
  | Making _ => 11
  end.

(** A step from [pc] succeeds, with an effect on its own group only. *)
Record stepped (c : ShardConfig) (pc : ctrler_pc) (ts : ShardTest) (c' : ShardConfig) (pc' : ctrler_pc) (ts' : ShardTest) : Prop := {
  st_tracks : tracks c' ts';
  st_pc : pc_ok c' (groups (cfg ts')) pc';
  st_frame : frame (default (ngid ts) (pc_gid pc)) c ts c' ts';
  st_gid : ∀ g, pc_gid pc' = Some g → pc_gid pc = Some g ∨ (pc_gid pc = None ∧ g = ngid ts ∧ ngid ts < ngid ts');
  st_rank : at_select pc = false → (rank pc' < rank pc)%nat
}.

Lemma Query_ok p c (s : Ctl) : current s = Some c → ∃ s', @Query _ (sck_of p) s = Done (Some c, s') ∧ current s' = Some c.
Proof. apply (@Query_law _ _ _ (sck_laws p)). Qed.

Lemma tracks_ctl c (ts : ShardTest) s : tracks c ts → current s = Some c → tracks c (with_ctl s ts).
Proof. intros T Hs. apply (tracks_same c ts); try done. apply T. Qed.

Lemma member_ok p g c (ts : ShardTest) :
  tracks c ts → ∃ s, checkMember (SC := sck_of p) g ts = Done (IsMember g c, with_ctl s ts) ∧ current s = Some c.
Proof.
  intros T. destruct (Query_ok p c (ctl ts) (t_current _ _ T)) as (s & HQ & Hs). exists s. split; [|done].
  unfold checkMember. by rewrite HQ.
Qed.

(** A step that only a controller takes part in. *)
Lemma stepped_ctl c (ts : ShardTest) pc pc' s :
  tracks c ts → current s = Some c → pc_ok c (groups (cfg ts)) pc' → pc_gid pc' = None ∨ pc_gid pc' = pc_gid pc →
  (at_select pc = false → (rank pc' < rank pc)%nat) → stepped c pc ts c pc' (with_ctl s ts).
Proof.
  intros T Hs Hpc Hg Hr. split; [by apply tracks_ctl|done|by apply frame_refl| |done].
  intros g E. left. destruct Hg as [Hg|Hg]; congruence.
Qed.

Lemma tracks_assigned c (ts : ShardTest) : tracks c ts → assigned c.
Proof. intros T. apply (wf_assigned _ (t_wf _ _ T)). by eapply tracks_has_group. Qed.

(** A configuration that takes the place of [c]. *)
Lemma adopts_tracks joins g c nc (ts : ShardTest) s :
  tracks c ts → adopts joins g c nc → Num nc = Num c + 1 → 1 < g → d ≠ Some g → is_Some (groups (cfg ts) !! g) → current s = Some nc →
  tracks nc (with_ctl s ts) ∧ frame g c ts nc (with_ctl s ts).
Proof.
  intros [Hcur Hwf Hn Hgr Hcl Hdown Hruns Hnm Hfirst Hk Hng Hnew] [Hwf' HG Hmem] HN Hg Hd Hrun Hs.
  assert (∀ x, x ≠ g → Groups nc !! x = Groups c !! x) as Hother.
  { intros x Hx. rewrite HG. destruct joins; [by apply lookup_insert_ne|by apply lookup_delete_ne]. }
  split; split; try done; try lia.
  - intros x srvs H. destruct (decide (x = g)) as [->|Hne]; [|rewrite Hother in H by done; by apply Hgr].
    rewrite HG in H. destruct joins; [|by rewrite lookup_delete_eq in H].
    rewrite lookup_insert_eq in H. injection H as <-. split; [lia|done].
  - intros x E. rewrite Hother by congruence. by apply Hdown.
  - intros x H. destruct (decide (x = g)) as [->|Hne]; [exact Hrun|]. apply Hruns. by rewrite <- Hother.
  - rewrite Hother by (unfold Gid1; lia). exact Hfirst.
  - simpl. lia.
Qed.

(** Asking for the change. *)
Lemma join_proposes g c (ts : ShardTest) :
  tracks c ts → 1 < g → Groups c !! g = None → Num c < max_int64 →
  ∃ nc, JoinBalance [(g, group_servers g)] c = Done (true, nc) ∧ Num nc = Num c + 1 ∧ proposed true g c nc.
Proof.
  intros T Hg Hnone Hnum.
  destruct (join_config g c (t_wf _ _ T) (conj (t_num _ _ T) Hnum) (t_groups _ _ T) Hnone) as (nc & HJ & HR & HN & HG & Hwf & _); [lia|].
  exists nc. split; [done|]. split; [done|]. split; [lia|]. intros _. split; [done|done|]. intros x Hx Hs Hin.
  eapply Rebalance_keeps; [| | |exact HR]; [apply T| |done]. simpl. by rewrite lookup_insert_ne.
Qed.

Lemma leave_proposes g c (ts : ShardTest) :
  tracks c ts → g ∈ Shards c → Num c < max_int64 →
  ∃ nc, LeaveBalance [g] c = Done (true, nc) ∧ Num nc = Num c + 1 ∧ proposed false g c nc.
Proof.
  intros T Hin Hnum. pose proof (tracks_assigned _ _ T g Hin) as Hg. pose proof (t_num _ _ T) as H0.
  destruct (LeaveBalance_ok [g] c) as (nc & HL & HN & HG & Hwf).
  { apply NoDup_singleton. } { done. } { by intros x ->%list_elem_of_singleton. } { apply T. } { lia. }
  assert (Groups nc = delete g (Groups c)) as HG'.
  { apply map_eq. intros x. rewrite HG. destruct (decide (x = g)) as [->|].
    - rewrite decide_True by (by left). by rewrite lookup_delete_eq.
    - rewrite decide_False by (by intros ->%list_elem_of_singleton). by rewrite lookup_delete_ne. }
  exists nc. split; [done|]. split; [done|]. split; [lia|]. intros _. split; [done|done|]. intros x Hx Hs Hx'.
  destruct (LeaveBalance_Rebalance _ _ _ HL) as [G HR]. eapply Rebalance_keeps; [| | |exact HR]; [apply T| |done]. simpl.
  destruct (Rebalance_ends (incr_Num (ShardCfgJoin.with_groups G c))) as (nc' & HR' & (_ & HG2 & _) & _); [apply T|].
  rewrite HR in HR'. injection HR' as <-. simpl in HG2. by rewrite <- HG2, HG', lookup_delete_ne.
Qed.
Lemma changing_step p g joins nc c (ts : ShardTest) :
  tracks c ts → pc_ok c (groups (cfg ts)) (Changing p g joins nc) → 1 < g → d ≠ Some g →
  ∃ c' pc' ts', step (Changing p g joins nc) ts = Done (pc', ts') ∧ stepped c (Changing p g joins nc) ts c' pc' ts'.
Proof.
  intros T Hpc Hg Hd. cbn [ctrler_step]. pose proof (t_current _ _ T) as Hcur.
  assert (is_Some (groups (cfg ts) !! g) ∧ proposed joins g c nc) as [Hrun [Hle Hadopt]] by (destruct joins; simpl in Hpc; tauto).
  destruct (decide (Num nc = Num c + 1)) as [E|E].
  - specialize (Hadopt E). destruct (@ChangeConfigTo_law _ _ _ (sck_laws p) nc c (ctl ts) Hcur E) as (s & -> & Hs).
    cbn [mbind outcome_bind]. destruct (adopts_tracks joins g c nc ts s T Hadopt E Hg Hd Hrun Hs) as [T' F].
    eexists nc, _, _. split; [reflexivity|]. split; [done| |exact F| |].
    + destruct joins; [done|]. split; [done|right]. by rewrite (a_groups _ _ _ _ Hadopt), lookup_delete_eq.
    + intros x. destruct joins; auto.
    + intros _. destruct joins; simpl; lia.
  - destruct (superseded_law p nc c (ctl ts) Hcur) as (s & -> & Hs); [lia|]. cbn [mbind outcome_bind].
    eexists c, _, _. split; [reflexivity|]. apply stepped_ctl; try done.
    + destruct joins; simpl in Hpc |- *; tauto.
    + destruct joins; by right.
    + intros _. destruct joins; simpl; lia.
Qed.

Lemma starting_step p g c (ts : ShardTest) :
  starts mks made → draws_new draw → tracks c ts → groups (cfg ts) !! g = None → 1 < g → g < ngid ts →
  ∃ ts', step (Starting p g) ts = Done (Joining p g, ts') ∧ stepped c (Starting p g) ts c (Joining p g) ts'.
Proof.
  intros Hmks Hdraw [Hcur Hwf Hn Hgr Hcl Hdown Hruns Hnm Hfirst Hk Hng Hnew] Hnone Hg Hlt.
  destruct (start_group_runs mks service_of made draw g ts Hmks Hdraw Hnone) as (sg & T' & Hst & Hr & K & Hnewl & _ & Hsg).
  assert (∀ x, d = Some x → x ≠ g) as Hgd.
  { intros x E ->. destruct (Hdown g E) as (_ & sg' & H & _). congruence. }
  cbn [ctrler_step]. rewrite Hst. cbn [mbind outcome_bind]. eexists. split; [reflexivity|]. split; simpl.
  - split; simpl; try done.
    + rewrite up_insert by done. eapply cluster_insert; [exact Hcl| |exact Hr|exact K|exact Hnewl]. by apply up_None.
    + intros x E. destruct (Hdown x E) as (Hx & sg' & Hsg' & Hstop). split; [done|]. exists sg'.
      rewrite lookup_insert_ne by (apply not_eq_sym, Hgd, E). split; [done|]. by eapply stopped_kept.
    + intros x Hx. apply joined_is_Some. right. by apply Hruns.
    + intros x sg' Hx [[<- <-]|[_ H]]%lookup_insert_Some; [exact Hsg|by apply Hnm].
    + intros x Hx. rewrite lookup_insert_ne by lia. by apply Hnew.
  - split; [apply joined_is_Some; by left|]. apply eq_None_not_Some. intros H%Hruns. rewrite Hnone in H. by destruct H.
  - split; try done; simpl; try lia. intros x Hx. by apply lookup_insert_ne.
  - auto.
  - intros _. lia.
Qed.

Lemma exiting_step p g c (ts : ShardTest) :
  stops Kill_ made → tracks c ts → is_Some (groups (cfg ts) !! g) → Groups c !! g = None →
  ∃ ts', step (Exiting p g) ts = Done (Looking, ts') ∧ stepped c (Exiting p g) ts c Looking ts'.
Proof.
  intros Hstops [Hcur Hwf Hn Hgr Hcl Hdown Hruns Hnm Hfirst Hk Hng Hnew] [sg Hsg] Hnone.
  assert (∀ x, d = Some x → x ≠ g) as Hgd.
  { intros x E ->. destruct (Hdown g E) as (H & _). rewrite Hnone in H. by destruct H. }
  assert (up d (groups (cfg ts)) !! g = Some sg) as Hsg' by (by rewrite up_lookup).
  destruct (ExitGroup_ok Kill_ service_of made g _ (groups (cfg ts)) sg (tester (cfg ts)) Hstops Hsg (cl_running _ _ _ _ Hcl g sg Hsg'))
    as (T' & Hexit & _ & K).
  cbn [ctrler_step]. unfold Config_ExitGroup. rewrite Hexit. cbn [mbind outcome_bind]. eexists. split; [reflexivity|].
  split; simpl.
  - split; simpl; try done.
    + rewrite up_delete. by eapply cluster_delete.
    + intros x E. destruct (Hdown x E) as (Hx & sg' & Hx' & Hstop). split; [done|]. exists sg'.
      rewrite lookup_delete_ne by (apply not_eq_sym, Hgd, E). split; [done|]. by eapply stopped_kept.
    + intros x Hx. rewrite lookup_delete_ne; [by apply Hruns|]. intros <-. rewrite Hnone in Hx. by destruct Hx.
    + intros x sg' Hx [_ H]%lookup_delete_Some. by apply Hnm.
    + intros x Hx. apply lookup_delete_None. right. by apply Hnew.
  - done.
  - split; try done; simpl; try lia. intros x Hx. by apply lookup_delete_ne.
  - discriminate.
  - intros _. lia.
Qed.

Lemma makeShardCtrler_ok c (ts : ShardTest) :
  tracks c ts → ∃ ts', makeShardCtrler ts = Done (length (clnts (cfg ts)).1, ts') ∧ tracks c ts' ∧
    (clnts (cfg ts')).1 = (clnts (cfg ts)).1 ++ [mkClnt ∅ None] ∧ groups (cfg ts') = groups (cfg ts) ∧
    ctl ts' = ctl ts ∧ ngid ts' = ngid ts.
Proof.
  intros T. destruct (t_clerks _ _ T) as [ks Ek].
  unfold makeShardCtrler, MakeClient, MakeClientTo, clnts_of at 1. cbn [clerks]. rewrite Ek. cbn [mbind outcome_bind].
  eexists. split_and!; [reflexivity| |done..]. apply (tracks_same c ts); try done; [apply T|apply with_same_net].
Qed.

(** Every step of a goroutine succeeds. *)
Lemma step_ok pc c (ts : ShardTest) :
  starts mks made → stops Kill_ made → draws_new draw → tracks c ts → pc_ok c (groups (cfg ts)) pc →
  (∀ g, pc_gid pc = Some g → 1 < g < ngid ts ∧ d ≠ Some g) → Num c < max_int64 → ngid ts < max_int64 →
  ∃ c' pc' ts', step pc ts = Done (pc', ts') ∧ stepped c pc ts c' pc' ts'.
Proof.
  intros Hmks Hstops Hdraw T Hpc Hgid Hnum Hng. pose proof T as [Hcur Hwf Hn Hgr Hcl Hdown Hruns Hnm Hfirst Hk H2 Hnew].
  destruct pc as [|g|p g|p g|p g|p g joins nc|p g|p g|p g|p g|p g|]; try specialize (Hgid g eq_refl).
  - cbn [ctrler_step newGid]. eexists c, _, _. split; [reflexivity|].
    assert (int64 (ngid ts + 1) = ngid ts + 1) as E by (apply int64_id; unfold max_int64 in *; lia). rewrite E.
    split; simpl; [|by apply Hnew| |intros g [= <-]; right; split_and!; [done..|lia]|done].
    + apply (tracks_same c ts); try done. simpl. lia.
    + split; simpl; try done; lia.
  - cbn [ctrler_step]. destruct (makeShardCtrler_ok c ts T) as (ts' & -> & T' & _ & Eg & _ & En).
    eexists c, _, _. split; [reflexivity|]. split; simpl; [done|by rewrite Eg|by apply frame_refl|auto|lia].
  - cbn [ctrler_step]. destruct (InitController_law p c (ctl ts) Hcur) as (s & -> & Hs). eexists c, _, _. split; [reflexivity|].
    apply stepped_ctl; auto.
  - destruct (starting_step p g c ts) as (ts' & H); [done..|lia|lia|]. by exists c, (Joining p g), ts'.
  - destruct Hpc as [[sg Hsg] Hnone]. cbn [ctrler_step]. unfold names_of, Config_Group, lookupGroup. rewrite Hsg.
    cbn [mbind outcome_bind]. rewrite (Hnm g sg) by (done || lia).
    destruct (Query_ok p c (ctl ts) Hcur) as (s & -> & Hs). cbn [mbind outcome_bind cfg_at]. rewrite Copy_eq.
    destruct (join_proposes g c ts T) as (nc & -> & _ & Hp); [lia|done|done|]. eexists c, _, _. split; [reflexivity|].
    apply stepped_ctl; auto. split_and!; [by eexists|done|done].
  - apply changing_step; [done..|lia|tauto].
  - cbn [ctrler_step]. destruct (member_ok p g c ts T) as (s & -> & Hs). eexists c, _, _. split; [reflexivity|].
    apply stepped_ctl; auto.
  - cbn [ctrler_step]. destruct (member_ok p g c ts T) as (s & -> & Hs). eexists c, _, _. split; [reflexivity|].
    destruct (IsMember g c) eqn:Em; apply stepped_ctl; simpl; auto with lia.
    assert (g ∈ Shards c) as Hin by (by apply count_pos, IsMember_count). split; [|done].
    apply Hruns. by apply (tracks_assigned c ts T).
  - destruct Hpc as [Hrun Hin]. cbn [ctrler_step]. destruct (Query_ok p c (ctl ts) Hcur) as (s & -> & Hs).
    cbn [mbind outcome_bind cfg_at]. rewrite Copy_eq. destruct (leave_proposes g c ts T Hin Hnum) as (nc & -> & _ & Hp).
    eexists c, _, _. split; [reflexivity|]. apply stepped_ctl; auto. split; [done|by split].
  - destruct Hpc as [Hrun Hor]. cbn [ctrler_step]. destruct (member_ok p g c ts T) as (s & -> & Hs). eexists c, _, _.
    split; [reflexivity|]. destruct (IsMember g c) eqn:Em; apply stepped_ctl; simpl; auto with lia. split; [done|].
    destruct Hor as [Hin|]; [|done]. apply count_pos, IsMember_count in Hin. congruence.
  - destruct Hpc as [Hrun Hnone]. destruct (exiting_step p g c ts) as (ts' & H); [done..|]. by exists c, Looking, ts'.
  - exists c, Ended, ts. split; [done|]. split; [done|done|by apply frame_refl|discriminate|discriminate].
Qed.
End Down.

Lemma tracks_served c ts key : tracks None c ts → served service_of made c ts key.
Proof.
  intros T. apply routed_served; [apply T|by eapply (tracks_has_group None)|apply T|].
  intros g srvs Hg. destruct (t_runs _ _ _ T g) as [sg Hsg]; [by exists srvs|]. exists sg. split; [done|].
  destruct (t_groups _ _ _ T g srvs Hg) as [Hpos ->]. by apply (t_names _ _ _ T).
Qed.

(** ** All of them *)
Definition is_ended (pc : ctrler_pc) : bool := match pc with Ended => true | _ => false end.
Definition ended (pcs : list ctrler_pc) : nat := length (filter (λ pc, is_ended pc = true) pcs).

(** The tokens that were taken. *)
Definition tokens (r : Race) : nat :=
  match main r with Sleeping => 0 | Sending k | Blocked k => k | Checking => length (goroutines r) end.

Record race_ok (c : ShardConfig) (r : Race) : Prop := {
  r_tracks : tracks None c (test r);
  r_pc : ∀ i pc, goroutines r !! i = Some pc → pc_ok c (groups (cfg (test r))) pc;
  r_gid : ∀ i pc g, goroutines r !! i = Some pc → pc_gid pc = Some g → 1 < g < ngid (test r);
  r_apart : ∀ i j pci pcj g, goroutines r !! i = Some pci → goroutines r !! j = Some pcj →
    pc_gid pci = Some g → pc_gid pcj = Some g → i = j;
  r_ended : ended (goroutines r) = tokens r;
  r_sending : ∀ k, main r = Sending k ∨ main r = Blocked k → (k < length (goroutines r))%nat
}.

(** Nobody works on the group [g]. *)
Definition unowned (g : Z) (r : Race) : Prop := ∀ i pc, goroutines r !! i = Some pc → pc_gid pc ≠ Some g.

(** What an event leaves: numbers grow by one at most, and groups that nobody works on stay. *)
Record moved (n : Z) (c : ShardConfig) (r : Race) (c' : ShardConfig) (r' : Race) : Prop := {
  m_num : Num c <= Num c' <= Num c + n;
  m_ngid : ngid (test r) <= ngid (test r') <= ngid (test r) + n;
  m_length : length (goroutines r') = length (goroutines r);
  m_unowned : ∀ g, unowned g r → is_Some (Groups c !! g) →
    unowned g r' ∧ Groups c' !! g = Groups c !! g ∧ (g ∈ Shards c → g ∈ Shards c')
}.

Lemma moved_same c r pcs k :
  length pcs = length (goroutines r) → (∀ g, unowned g r → unowned g (mkRace pcs k (test r))) →
  moved 1 c r c (mkRace pcs k (test r)).
Proof. intros Hl Hu. split; simpl; try lia. auto. Qed.

Lemma moved_trans n1 n2 c1 r1 c2 r2 c3 r3 : moved n1 c1 r1 c2 r2 → moved n2 c2 r2 c3 r3 → moved (n1 + n2) c1 r1 c3 r3.
Proof.
  intros [N1 G1 L1 U1] [N2 G2 L2 U2]. split; [lia|lia|by rewrite L2|]. intros g Hu Hg.
  destruct (U1 g Hu Hg) as (Hu2 & E2 & M2). destruct (U2 g Hu2) as (Hu3 & E3 & M3); [by rewrite E2|].
  split_and!; [done|by rewrite E3|auto].
Qed.

Lemma moved_weaken n n' c r c' r' : n <= n' → moved n c r c' r' → moved n' c r c' r'.
Proof. intros Hle [N G L U]. split; [lia|lia|done|done]. Qed.

(** A goroutine's step, in the race. *)
Lemma turn_ok i pc c c' pc' ts' (r : Race) :
  race_ok c r → goroutines r !! i = Some pc → stepped None c pc (test r) c' pc' ts' → is_ended pc' = is_ended pc →
  race_ok c' (mkRace (<[i := pc']> (goroutines r)) (main r) ts') ∧
  moved 1 c r c' (mkRace (<[i := pc']> (goroutines r)) (main r) ts').
Proof.
  intros [T Hpc Hgid Hapart Hend Hsend] Hi [T' Hpc' F Hg' _] He. pose proof (lookup_lt_Some _ _ _ Hi) as Hlt.
  set (own := default (ngid (test r)) (pc_gid pc)) in *.
  assert (∀ j pcj, j ≠ i → goroutines r !! j = Some pcj → pc_gid pcj ≠ Some own) as Hother.
  { intros j pcj Hne Hj E. unfold own in E. destruct (pc_gid pc) as [g|] eqn:Eg; simpl in E.
    - apply Hne. by eapply Hapart.
    - pose proof (Hgid _ _ _ Hj E). lia. }
  assert (∀ g, pc_gid pc' = Some g → 1 < g < ngid ts' ∧ ∀ j pcj, j ≠ i → goroutines r !! j = Some pcj → pc_gid pcj ≠ Some g) as Hnew.
  { intros g Eg. destruct (Hg' g Eg) as [E|(E & -> & Hlt')].
    - assert (own = g) as Eo by (unfold own; by rewrite E). split; [|intros j pcj; rewrite <- Eo; apply Hother].
      pose proof (Hgid _ _ _ Hi E). pose proof (f_ngid _ _ _ _ _ F). lia.
    - assert (own = ngid (test r)) as Eo by (unfold own; by rewrite E). split; [|intros j pcj; rewrite <- Eo; apply Hother].
      pose proof (t_ngid _ _ _ T). lia. }
  split; [split; simpl|split; simpl].
  - exact T'.
  - intros j pcj Hj. destruct (decide (j = i)) as [->|Hne].
    + rewrite list_lookup_insert_eq in Hj by done. by injection Hj as <-.
    + rewrite list_lookup_insert_ne in Hj by done. apply (frame_pc None own c (test r)); eauto.
  - intros j pcj g Hj Eg. destruct (decide (j = i)) as [->|Hne].
    + rewrite list_lookup_insert_eq in Hj by done. injection Hj as <-. by apply Hnew.
    + rewrite list_lookup_insert_ne in Hj by done. pose proof (Hgid _ _ _ Hj Eg). pose proof (f_ngid _ _ _ _ _ F). lia.
  - intros j k pcj pck g Hj Hk Ej Ek. destruct (decide (j = i)) as [->|Hj'], (decide (k = i)) as [->|Hk']; [done|..].
    + rewrite list_lookup_insert_eq in Hj by done. injection Hj as <-. rewrite list_lookup_insert_ne in Hk by done.
      exfalso. by eapply (proj2 (Hnew g Ej)).
    + rewrite list_lookup_insert_eq in Hk by done. injection Hk as <-. rewrite list_lookup_insert_ne in Hj by done.
      exfalso. by eapply (proj2 (Hnew g Ek)).
    + rewrite list_lookup_insert_ne in Hj, Hk by done. by eapply Hapart.
  - pose proof (length_filter_insert (λ pc, is_ended pc = true) (goroutines r) i pc pc' Hi) as Hl. unfold ended, tokens in *. simpl.
    rewrite length_insert, <- Hend. rewrite He in Hl. lia.
  - intros k Hk. rewrite length_insert. by apply Hsend.
  - apply (f_num _ _ _ _ _ F).
  - apply (f_ngid _ _ _ _ _ F).
  - apply length_insert.
  - intros g Hu Hg.
    assert (g ≠ own) as Hne.
    { unfold own. destruct (pc_gid pc) as [x|] eqn:E; simpl; [intros ->; by apply (Hu i pc Hi)|intros ->].
      pose proof (t_runs _ _ _ T _ Hg) as Hr. rewrite (t_new _ _ _ T) in Hr by lia. by destruct Hr. }
    split_and!; [|by apply (f_group _ _ _ _ _ F)|by apply (f_member _ _ _ _ _ F)].
    intros j pcj Hj Ej. simpl in Hj. destruct (decide (j = i)) as [->|Hji].
    + rewrite list_lookup_insert_eq in Hj by done. injection Hj as <-.
      destruct (Hg' g Ej) as [E|(E & -> & _)]; [by apply (Hu i pc Hi)|]. apply Hne. unfold own. by rewrite E.
    + rewrite list_lookup_insert_ne in Hj by done. by apply (Hu j pcj Hj).
Qed.
Lemma step_ended pc (ts : ShardTest) pc' ts' : step pc ts = Done (pc', ts') → is_ended pc' = is_ended pc.
Proof.
  destruct pc; cbn [ctrler_step newGid]; intros E;
    repeat match goal with
      | E : mbind _ _ = Done _ |- _ => apply bind_Done in E as (? & _ & E)
      | E : match ?x with (_, _) => _ end = Done _ |- _ => destruct x
      | E : (if ?b then _ else _) = Done _ |- _ => destruct b; [discriminate E|]
      end; apply Done_inj in E; injection E as <- _; try done; by case_match.
Qed.

(** A step of the test itself, or a goroutine that is told. *)
Lemma told_ok c r pcs k :
  race_ok c r → length pcs = length (goroutines r) →
  (∀ j pc, pcs !! j = Some pc → pc = Ended ∨ goroutines r !! j = Some pc) →
  ended pcs = tokens (mkRace pcs k (test r)) →
  (∀ t, k = Sending t ∨ k = Blocked t → (t < length pcs)%nat) →
  race_ok c (mkRace pcs k (test r)) ∧ moved 1 c r c (mkRace pcs k (test r)).
Proof.
  intros [T Hpc Hgid Hapart Hend Hsend] Hl Hin He Hk. split; [split; simpl; try done|].
  - intros j pc Hj. destruct (Hin j pc Hj) as [->|H]; [done|by eapply Hpc].
  - intros j pc g Hj Eg. destruct (Hin j pc Hj) as [->|H]; [done|by eapply Hgid].
  - intros j1 j2 pc1 pc2 g H1 H2 E1 E2. destruct (Hin _ _ H1) as [->|H1'], (Hin _ _ H2) as [->|H2']; try done.
    by eapply Hapart.
  - apply moved_same; [done|]. intros g Hu j pc Hj. simpl in Hj. destruct (Hin j pc Hj) as [->|H]; [done|by apply (Hu j)].
Qed.

Lemma ctrler_tokens k pcs ts :
  (k <= length pcs)%nat → tokens (mkRace pcs (send_next k (length pcs)) ts) = k ∧
  ∀ t, send_next k (length pcs) = Sending t ∨ send_next k (length pcs) = Blocked t → (t < length pcs)%nat.
Proof.
  intros Hk. unfold send_next, tokens. simpl. case_decide; split; try done; try lia; intros t [|]; simplify_eq; done.
Qed.

Abbreviation exec_event := (exec_event mks Kill_ service_of draw).
Abbreviation run_events := (run_events mks Kill_ service_of draw).
Abbreviation concurCtrler := (@concurCtrler Typ Val A Svc Ctl).

(** What the steps rely on. *)
Record environment : Prop := { env_starts : starts mks made; env_stops : stops Kill_ made; env_draws : draws_new draw }.

Lemma exec_event_ok e c r :
  environment → race_ok c r → Num c < max_int64 → ngid (test r) < max_int64 →
  ∃ c' r', exec_event e r = Done r' ∧ race_ok c' r' ∧ moved 1 c r c' r'.
Proof.
  intros [Hmks Hstops Hdraw] R Hnum Hng. pose proof R as [T Hpc Hgid Hapart Hend Hsend].
  assert (∃ c' r', Done r = Done r' ∧ race_ok c' r' ∧ moved 1 c r c' r') as Hidle.
  { exists c, r. split_and!; [done|done|]. destruct r. by apply moved_same. }
  assert (∀ i pc, goroutines r !! i = Some pc → (is_ended pc = true → pc = Ended)) as Hended by (by intros i []).
  destruct e as [| |i]; unfold ShardCtrlers.exec_event.
  - destruct (main r) eqn:Em; [|exact Hidle..]. eexists c, _. split; [reflexivity|].
    destruct (ctrler_tokens 0 (goroutines r) (test r)) as [Et Hs]; [lia|]. apply told_ok; auto.
    unfold tokens in Hend. rewrite Em in Hend. by rewrite Et.
  - destruct (main r) as [|k|k|] eqn:Em; [exact Hidle| |exact Hidle..]. eexists c, _. split; [reflexivity|]. apply told_ok; auto.
    + unfold tokens in Hend. by rewrite Em in Hend.
    + intros t [H|H]; [discriminate H|injection H as <-]. apply Hsend. by left.
  - destruct (goroutines r !! i) as [pc|] eqn:Ei; [|exact Hidle].
    destruct (step_ok None pc c (test r) Hmks Hstops Hdraw T (Hpc i pc Ei) (λ g E, conj (Hgid i pc g Ei E) (None_ne_Some g)) Hnum Hng) as (c' & pc' & ts' & Hstep & Hst).
    assert (∃ c' r', ('(pc, ts) ← step pc (test r); Done (mkRace (<[i := pc]> (goroutines r)) (main r) ts)) = Done r' ∧
      race_ok c' r' ∧ moved 1 c r c' r') as Hrun.
    { rewrite Hstep. eexists c', _. split; [reflexivity|]. apply (turn_ok i pc c c' pc' ts' r); [done..|].
      by eapply step_ended. }
    destruct pc; try exact Hrun. destruct (main r) as [|k|k|] eqn:Em; try exact Hrun.
    eexists c, _. split; [reflexivity|]. pose proof (Hsend k (or_intror eq_refl)) as Hk.
    pose proof (lookup_lt_Some _ _ _ Ei) as Hlt.
    destruct (ctrler_tokens (S k) (<[i := Ended]> (goroutines r)) (test r)) as [Et Hs]; [by rewrite length_insert|].
    rewrite length_insert in Et, Hs. apply told_ok; auto.
    + apply length_insert.
    + intros j pc Hj. destruct (decide (j = i)) as [->|Hne].
      * rewrite list_lookup_insert_eq in Hj by done. left. congruence.
      * rewrite list_lookup_insert_ne in Hj by done. by right.
    + rewrite Et. pose proof (length_filter_insert (λ pc, is_ended pc = true) (goroutines r) i Looking Ended Ei) as Hl.
      unfold tokens in Hend. rewrite Em in Hend. unfold ended in *. simpl in Hl. lia.
    + intros t Ht. rewrite length_insert. by apply Hs.
Qed.

Lemma run_events_ok es : ∀ c r,
  environment → race_ok c r → Num c + Z.of_nat (length es) <= max_int64 → ngid (test r) + Z.of_nat (length es) <= max_int64 →
  ∃ c' r', run_events es r = Done r' ∧ race_ok c' r' ∧ moved (Z.of_nat (length es)) c r c' r'.
Proof.
  induction es as [|e es IH]; intros c r Henv R Hnum Hng.
  - exists c, r. split_and!; [done|done|]. split; simpl; try lia. auto.
  - rewrite length_cons in *. destruct (exec_event_ok e c r Henv R) as (c1 & r1 & E & R1 & M1); [lia..|].
    pose proof (m_num _ _ _ _ _ M1). pose proof (m_ngid _ _ _ _ _ M1).
    destruct (IH c1 r1 Henv R1) as (c2 & r2 & E2 & R2 & M2); [lia..|]. exists c2, r2. split_and!; [|done|].
    + unfold ShardCtrlers.run_events in *. cbn [for_each]. rewrite E. exact E2.
    + eapply moved_weaken; [|by eapply moved_trans]. lia.
Qed.

Lemma start_looking (ts : ShardTest) i pc : goroutines (concurCtrler ts) !! i = Some pc → pc = Looking.
Proof. intros H. by apply (lookup_replicate concur_N) in H as [-> _]. Qed.

Lemma concur_start c (ts : ShardTest) : tracks None c ts → race_ok c (concurCtrler ts).
Proof.
  intros T. split; try done.
  - by intros i pc ->%start_looking.
  - by intros i pc g ->%start_looking.
  - by intros i j pci pcj g ->%start_looking ->%start_looking.
  - by intros k [|].
Qed.
(** When no token is left, everybody has taken one. *)
Lemma all_ended c r : race_ok c r → main r = Checking → Forall (eq Ended) (goroutines r).
Proof.
  intros [_ _ _ _ Hend _]. intros Em. unfold tokens in Hend. rewrite Em in Hend. apply Forall_forall. intros pc Hpc.
    destruct (is_ended pc) eqn:E; [by destruct pc|]. exfalso.
    assert (length (filter (λ pc, is_ended pc = true) (goroutines r)) < length (goroutines r))%nat; [|unfold ended in Hend; lia].
    apply (length_filter_lt _ _ pc Hpc). by rewrite E.
Qed.

(** (C26) Controllers that run at once do no harm. However the steps of the
    goroutines interleave, with each other and with the test that sends tokens, nobody
    fails and nothing is fatal; the configuration stays well-formed,
    however many groups it gets; the groups that were there before keep their
    place, and every key is routed to a running group. When the test goes on to check
    the keys, every goroutine has ended. *)
Theorem concurCtrler_safe c (ts : ShardTest) es :
  environment → tracks None c ts → Num c + Z.of_nat (length es) <= max_int64 → ngid ts + Z.of_nat (length es) <= max_int64 →
  ∃ c' r, run_events es (concurCtrler ts) = Done r ∧ current (ctl (test r)) = Some c' ∧ well_formed c' ∧ Num c <= Num c' ∧
    (∀ g srvs, Groups c !! g = Some srvs → Groups c' !! g = Some srvs ∧ (IsMember g c = true → IsMember g c' = true)) ∧
    (∀ key, served service_of made c' (test r) key) ∧
    (main r = Checking → Forall (eq Ended) (goroutines r)).
Proof.
  intros Henv T Hnum Hng. destruct (run_events_ok es c (concurCtrler ts) Henv (concur_start c ts T) Hnum Hng)
    as (c' & r & Hrun & R & [HN _ _ HU]). pose proof (r_tracks _ _ R) as T'.
  exists c', r. split_and!; [done|apply T'|apply T'|lia| | |].
  - intros g srvs Hg. destruct (HU g) as (_ & E & Hm).
    + by intros i pc ->%start_looking.
    + by exists srvs.
    + split; [by rewrite E|]. by rewrite !IsMember_count, !count_pos.
  - intros key. by apply tracks_served.
  - by eapply all_ended.
Qed.

(** ** The tokens end the goroutines *)
Lemma exec_turn i pc (r : Race) : goroutines r !! i = Some pc → (at_select pc = false ∨ ∀ k, main r ≠ Blocked k) →
  exec_event (Turn i) r = ('(pc, ts) ← step pc (test r); Done (mkRace (<[i := pc]> (goroutines r)) (main r) ts)).
Proof.
  intros Hi Hor. unfold ShardCtrlers.exec_event. rewrite Hi. destruct pc; try done. destruct (main r) eqn:Em; try done.
  destruct Hor as [|H]; [done|]. by destruct (H k).
Qed.

Lemma to_select i m : ∀ c r pc,
  environment → race_ok c r → goroutines r !! i = Some pc → is_ended pc = false → (rank pc <= m)%nat →
  Num c + Z.of_nat m <= max_int64 → ngid (test r) + Z.of_nat m <= max_int64 →
  ∃ k c' r', (k <= m)%nat ∧ run_events (replicate k (Turn i)) r = Done r' ∧ race_ok c' r' ∧ moved (Z.of_nat m) c r c' r' ∧
    goroutines r' !! i = Some Looking ∧ main r' = main r.
Proof.
  induction m as [|m IH]; intros c r pc Henv R Hi He Hr Hnum Hng.
  { exists 0%nat, c, r. split_and!; [lia|done|done| | |done]; [split; simpl; try lia; auto|].
    destruct pc; simpl in *; try lia; [done|]. by case_match; lia. }
  destruct (at_select pc) eqn:Ea.
  { exists 0%nat, c, r. split_and!; [lia|done|done| | |done]; [split; simpl; try lia; auto|]. by destruct pc. }
  pose proof Henv as [Hmks Hstops Hdraw].
  destruct (step_ok None pc c (test r) Hmks Hstops Hdraw (r_tracks _ _ R) (r_pc _ _ R i pc Hi) (λ g E, conj (r_gid _ _ R i pc g Hi E) (None_ne_Some g)))
    as (c1 & pc1 & ts1 & Hstep & Hst); [lia..|].
  destruct (turn_ok i pc c c1 pc1 ts1 r R Hi Hst (step_ended _ _ _ _ Hstep)) as [R1 M1].
  pose proof (m_num _ _ _ _ _ M1). pose proof (m_ngid _ _ _ _ _ M1). pose proof (st_rank _ _ _ _ _ _ _ Hst Ea).
  destruct (IH c1 _ pc1 Henv R1) as (k & c' & r' & Hk & Hrun & R' & M' & Hl & Em).
  - simpl. apply list_lookup_insert_eq. by eapply lookup_lt_Some.
  - by rewrite (step_ended _ _ _ _ Hstep).
  - lia.
  - lia.
  - lia.
  - exists (S k), c', r'. split_and!; [lia| |done| |done|by rewrite Em].
    + unfold ShardCtrlers.run_events in *. cbn [replicate for_each]. rewrite (exec_turn i pc r) by auto. rewrite Hstep. exact Hrun.
    + eapply moved_weaken; [|by eapply moved_trans]. lia.
Qed.
Lemma run_events_app es1 es2 (r : Race) : run_events (es1 ++ es2) r = (r ← run_events es1 r; run_events es2 r).
Proof. apply for_each_app. Qed.

Lemma run_events_cons e es (r : Race) : run_events (e :: es) r = (r ← exec_event e r; run_events es r).
Proof. done. Qed.

Lemma someone_left (pcs : list ctrler_pc) : (ended pcs < length pcs)%nat → ∃ i pc, pcs !! i = Some pc ∧ is_ended pc = false.
Proof.
  unfold ended. induction pcs as [|pc pcs IH]; simpl; intros H; [lia|]. destruct (is_ended pc) eqn:E.
  - rewrite filter_cons_True in H by done. simpl in H. destruct IH as (i & pc' & Hi & He); [lia|]. by exists (S i), pc'.
  - by exists 0%nat, pc.
Qed.

(** From a send, one token is received: the goroutine that takes it first goes on to its [select]. *)
Lemma one_token k c r :
  environment → race_ok c r → main r = Sending k ∨ main r = Blocked k → Num c + 13 <= max_int64 → ngid (test r) + 13 <= max_int64 →
  ∃ es c' r', (length es <= 13)%nat ∧ run_events es r = Done r' ∧ race_ok c' r' ∧ moved 13 c r c' r' ∧
    main r' = send_next (S k) (length (goroutines r)).
Proof.
  intros Henv R Em Hnum Hng.
  destruct (exec_event_ok Enter c r Henv R) as (c1 & r1 & E1 & R1 & M1); [lia..|].
  assert (r1 = mkRace (goroutines r) (Blocked k) (test r)) as ->.
  { unfold ShardCtrlers.exec_event in E1. destruct Em as [Em|Em]; rewrite Em in E1; apply Done_inj in E1 as <-; [done|].
    destruct r. simpl in Em. by rewrite Em. }
  pose proof (m_num _ _ _ _ _ M1). pose proof (m_ngid _ _ _ _ _ M1).
  destruct (someone_left (goroutines r)) as (i & pc & Hi & He).
  { change (ended (goroutines r)) with (ended (goroutines (mkRace (goroutines r) (Blocked k) (test r)))). rewrite (r_ended _ _ R1). apply (r_sending _ _ R1). by right. }
  destruct (to_select i 11 c1 _ pc Henv R1 Hi He) as (m & c2 & r2 & Hm & E2 & R2 & M2 & Hl & Em2); [|simpl in *; lia..|].
  { destruct pc; simpl; try lia. case_match; lia. }
  pose proof (m_num _ _ _ _ _ M2). pose proof (m_ngid _ _ _ _ _ M2). cbn [test main goroutines] in *.
  destruct (exec_event_ok (Turn i) c2 r2 Henv R2) as (c3 & r3 & E3 & R3 & M3); [lia..|].
  exists (Enter :: replicate m (Turn i) ++ [Turn i]), c3, r3. split_and!; [|idtac|done| |].
  - rewrite length_cons, length_app, length_replicate. simpl. lia.
  - rewrite run_events_cons, E1. cbn [mbind outcome_bind]. rewrite run_events_app, E2. cbn [mbind outcome_bind].
    by rewrite run_events_cons, E3.
  - change 13 with (1 + Z.of_nat 11 + 1). eapply moved_trans; [eapply moved_trans; [exact M1|exact M2]|exact M3].
  - unfold ShardCtrlers.exec_event in E3. rewrite Hl, Em2 in E3. apply Done_inj in E3 as <-. simpl.
    by rewrite (m_length _ _ _ _ _ M2).
Qed.

(** All tokens that are left, [m] of them. *)
Lemma drain m : ∀ k c r,
  environment → race_ok c r →
  main r = send_next k (length (goroutines r)) ∨ main r = Blocked k ∧ (0 < m)%nat → (k + m = length (goroutines r))%nat →
  Num c + 13 * Z.of_nat m <= max_int64 → ngid (test r) + 13 * Z.of_nat m <= max_int64 →
  ∃ es c' r', (length es <= 13 * m)%nat ∧ run_events es r = Done r' ∧ race_ok c' r' ∧ main r' = Checking.
Proof.
  induction m as [|m IH]; intros k c r Henv R Em Hk Hnum Hng; unfold send_next in Em.
  { destruct Em as [Em|[_ Em]]; [|lia]. rewrite decide_False in Em by lia. by exists [], c, r. }
  rewrite decide_True in Em by lia. assert (main r = Sending k ∨ main r = Blocked k) as Em' by tauto.
  destruct (one_token k c r Henv R Em') as (es1 & c1 & r1 & L1 & E1 & R1 & M1 & Em1); [lia..|].
  pose proof (m_num _ _ _ _ _ M1). pose proof (m_ngid _ _ _ _ _ M1). pose proof (m_length _ _ _ _ _ M1) as Hl.
  destruct (IH (S k) c1 r1 Henv R1) as (es2 & c2 & r2 & L2 & E2 & R2 & Em2); [left; by rewrite Hl|lia..|].
  exists (es1 ++ es2), c2, r2. split_and!; [rewrite length_app; lia| |done|done]. by rewrite run_events_app, E1.
Qed.

(** The tokens end the test's goroutines: from wherever the goroutines and
    the test are, there is a way for the test to get rid of all its tokens, in at most
    thirteen steps a token. *)
Theorem tokens_end_ctrlers c (ts : ShardTest) es r :
  environment → tracks None c ts → run_events es (concurCtrler ts) = Done r →
  Num c + Z.of_nat (length es) + 53 <= max_int64 → ngid ts + Z.of_nat (length es) + 53 <= max_int64 →
  ∃ es' r', (length es' <= 53)%nat ∧ run_events (es ++ es') (concurCtrler ts) = Done r' ∧ main r' = Checking ∧
    Forall (eq Ended) (goroutines r').
Proof.
  intros Henv T Hrun Hnum Hng.
  destruct (run_events_ok es c (concurCtrler ts) Henv (concur_start c ts T)) as (c1 & r1 & Hrun1 & R1 & M1); [simpl; lia..|].
  rewrite Hrun in Hrun1. apply Done_inj in Hrun1 as <-.
  assert (length (goroutines r) = 4%nat) as Hl by apply (m_length _ _ _ _ _ M1).
  pose proof (m_num _ _ _ _ _ M1). pose proof (m_ngid _ _ _ _ _ M1) as Hn. simpl in Hn.
  assert (∃ es' c' r', (length es' <= 53)%nat ∧ run_events es' r = Done r' ∧ race_ok c' r' ∧ main r' = Checking)
    as (es' & c' & r' & Hlen & Hrun' & R' & Em').
  { destruct (main r) as [|k|k|] eqn:Em.
    - destruct (exec_event_ok Wake c1 r Henv R1) as (c2 & r2 & E2 & R2 & M2); [lia..|].
      pose proof (m_num _ _ _ _ _ M2). pose proof (m_ngid _ _ _ _ _ M2). pose proof (m_length _ _ _ _ _ M2) as Hl2.
      assert (main r2 = send_next 0 (length (goroutines r2))) as Em2.
      { unfold ShardCtrlers.exec_event in E2. rewrite Em in E2. by apply Done_inj in E2 as <-. }
      destruct (drain 4 0 c2 r2 Henv R2 (or_introl Em2)) as (es' & c' & r' & L & E & R' & Em'); [lia..|].
      exists (Wake :: es'), c', r'. split_and!; [simpl; lia|by rewrite run_events_cons, E2|done|done].
    - pose proof (r_sending _ _ R1 k (or_introl Em)) as Hk.
      destruct (drain (4 - k) k c1 r Henv R1) as (es' & c' & r' & L & E & R' & Em'); [|lia..|].
      { left. unfold send_next. by rewrite decide_True. }
      exists es', c', r'. split_and!; [lia|done..].
    - pose proof (r_sending _ _ R1 k (or_intror Em)) as Hk.
      destruct (drain (4 - k) k c1 r Henv R1) as (es' & c' & r' & L & E & R' & Em'); [right; split; [done|lia]|lia..|].
      exists es', c', r'. split_and!; [lia|done..].
    - exists [], c1, r. split_and!; [simpl; lia|done..]. }
  exists es', r'. split_and!; [done| |done|by eapply all_ended]. by rewrite run_events_app, Hrun.
Qed.
(** A leave that is superseded is not repeated. When another controller has
    changed the configuration since the goroutine asked for it, the change to a
    configuration without its group does nothing, the group is found to be still a
    member, and the goroutine goes on without it: whatever happens later, the
    group stays in the configuration with shards of its own, and its servers
    run. *)
Theorem superseded_leave_stays c (ts : ShardTest) es r c1 i p g nc es' :
  environment → tracks None c ts → run_events es (concurCtrler ts) = Done r → current (ctl (test r)) = Some c1 →
  goroutines r !! i = Some (Changing p g false nc) → Num nc <= Num c1 →
  Num c + Z.of_nat (length es) + 2 + Z.of_nat (length es') <= max_int64 →
  ngid ts + Z.of_nat (length es) + 2 + Z.of_nat (length es') <= max_int64 →
  ∃ r1 c2 r2, run_events [Turn i; Turn i] r = Done r1 ∧ goroutines r1 !! i = Some Looking ∧
    run_events es' r1 = Done r2 ∧ current (ctl (test r2)) = Some c2 ∧ is_Some (Groups c2 !! g) ∧ IsMember g c2 = true ∧
    ∃ sg, groups (cfg (test r2)) !! g = Some sg ∧ running service_of made g (length (Group.srvs sg)) sg (tester (cfg (test r2))).
Proof.
  intros Henv T Hrun Hc1 Hi Hold Hnum Hng.
  destruct (run_events_ok es c (concurCtrler ts) Henv (concur_start c ts T)) as (c1' & r' & Hrun' & R & M); [simpl; lia..|].
  rewrite Hrun in Hrun'. apply Done_inj in Hrun' as <-. rewrite (t_current _ _ _ (r_tracks _ _ R)) in Hc1. injection Hc1 as ->.
  pose proof (m_num _ _ _ _ _ M). pose proof (m_ngid _ _ _ _ _ M) as Hn. cbn [test ShardCtrlers.concurCtrler] in Hn.
  pose proof (r_pc _ _ R i _ Hi) as (Hsg & Hin & _). pose proof (lookup_lt_Some _ _ _ Hi) as Hlt.
  pose proof (t_current _ _ _ (r_tracks _ _ R)) as Hcur.
  destruct (superseded_law p nc c1 _ Hcur Hold) as (s1 & HC & Hs1).
  destruct (member_ok None p g c1 (with_ctl s1 (test r)) (tracks_ctl None _ _ _ (r_tracks _ _ R) Hs1)) as (s2 & HQ & Hs2).
  assert (IsMember g c1 = true) as Hmem by (by apply IsMember_count, count_pos).
  destruct (run_events_ok [Turn i; Turn i] c1 r Henv R) as (c1' & r1 & Hrun1 & R1 & M1); [simpl; lia..|].
  assert (goroutines r1 = <[i := Looking]> (goroutines r) ∧ current (ctl (test r1)) = Some c1) as [Hl1 Hc1].
  { rewrite run_events_cons, (exec_turn i _ r Hi) in Hrun1 by by left. cbn [ctrler_step] in Hrun1. rewrite HC in Hrun1.
    cbn [mbind outcome_bind] in Hrun1. rewrite run_events_cons in Hrun1.
    rewrite (exec_turn i (LeaveCheck p g)) in Hrun1; [|simpl; by apply list_lookup_insert_eq|by left].
    cbn [ctrler_step test] in Hrun1. rewrite HQ, Hmem in Hrun1. apply Done_inj in Hrun1 as <-. split; [|done].
    apply list_insert_insert_eq. }
  rewrite (t_current _ _ _ (r_tracks _ _ R1)) in Hc1. injection Hc1 as ->.
  pose proof (m_num _ _ _ _ _ M1). pose proof (m_ngid _ _ _ _ _ M1). cbn [length] in *.
  assert (unowned g r1) as Hu.
  { intros j pc Hj. rewrite Hl1 in Hj. destruct (decide (j = i)) as [->|Hne].
    - rewrite list_lookup_insert_eq in Hj by done. by injection Hj as <-.
    - rewrite list_lookup_insert_ne in Hj by done. intros Eg. apply Hne. by apply (r_apart _ _ R j i pc _ g Hj Hi). }
  destruct (run_events_ok es' c1 r1 Henv R1) as (c2 & r2 & Hrun2 & R2 & M2); [lia..|].
  pose proof (tracks_assigned None _ _ (r_tracks _ _ R1) g Hin) as Hg.
  destruct (m_unowned _ _ _ _ _ M2 g Hu Hg) as (_ & E2 & Hin2).
  assert (is_Some (Groups c2 !! g)) as Hg2 by (by rewrite E2).
  destruct (t_runs _ _ _ (r_tracks _ _ R2) g Hg2) as [sg Hrun3].
  exists r1, c2, r2. split_and!; [done| |done|apply R2|done| |].
  - rewrite Hl1. by apply list_lookup_insert_eq.
  - apply IsMember_count, count_pos. auto.
  - exists sg. split; [done|]. by apply (t_cluster _ _ _ (r_tracks _ _ R2)).
Qed.
(** ** The set-up *)
Lemma setup_tracks q (ts : ShardTest) :
  environment → ready service_of made ts → ngid ts = 2 →
  ∃ c ts', setupKVService (SC := sck_of q) mks service_of draw ts = Done (Gid1, ts') ∧ tracks None c ts' ∧ Num c = NumFirst ∧
    Groups c = {[Gid1 := group_servers Gid1]}.
Proof.
  intros [Hmks _ Hdraw] Hr Hng0.
  destruct (setup_ok (SC := sck_of q) (SL := sck_laws q) mks service_of made draw ts Hmks Hdraw Hr) as (c & ts' & Hrun & Hok & HN & HG & Hng & Hk).
  exists c, ts'. split_and!; [exact Hrun| |done|done]. pose proof Hok as [Hcur Hwf Hn Hgr Hcl Hsame Hnm].
  assert (∀ g, is_Some (Groups c !! g) ↔ g = Gid1) as Hgid.
  { intros g. rewrite HG, lookup_singleton_is_Some. by split. }
  split; try done.
  - intros g Hg. pose proof (proj1 (Hgid g) Hg) as ->. by apply Hsame.
  - by apply Hgid.
  - by rewrite Hng, Hng0.
  - intros g Hg. rewrite Hng, Hng0 in Hg. apply eq_None_not_Some. intros Hr'.
    apply Hsame, Hgid in Hr'; unfold Gid1 in *; lia.
Qed.
End Race.

(** ** Witnesses: controllers that share what the last successful change left *)
#[local] Existing Instance plain_state.

(** A test before the set-up, with a controller that has no configuration. *)
Definition mk_empty {Ctl} (s : Ctl) : ShardTest unit Z unit Z Ctl :=
  mkShardTest (mkConfig ([], Some ∅) ∅ boot_tester false 0 0 0 0) s 2.

Lemma mk_empty_ready {Ctl} {CS : CtrlerState Ctl} (s : Ctl) : current s = None → ready no_methods any_services (mk_empty s).
Proof. intros Hs. split; [done|apply cluster_empty|done|by eexists]. Qed.

#[local] Instance plain_controllers : Controllers (option ShardConfig) := {|
  sck_of _ := {|
    InitConfig c _ := Done (Some c);
    ChangeConfigTo c s := Done (match s with Some old => if Num c <=? Num old then s else Some c | None => Some c end);
    Query s := Done (s, s)
  |};
  InitController _ s := Done s
|}.

#[local] Instance plain_controllers_laws : ControllersLaws (option ShardConfig).
Proof.
  split.
  - intros p. split; unfold current, plain_state; simpl.
    + intros c s _. by exists (Some c).
    + intros c old s -> HN. exists (Some c). rewrite (proj2 (Z.leb_gt _ _)) by lia. done.
    + intros c s ->. by exists (Some c).
  - unfold current, plain_state. simpl. intros p c old s -> HN. exists (Some old). by rewrite (proj2 (Z.leb_le _ _)).
  - intros p c s Hs. by exists s.
Defined.

Definition set_up_test : ShardTest unit Z unit Z (option ShardConfig) :=
  (result (setupKVService (SC := sck_of 0) no_services no_methods plain_draw (mk_empty None)) (Gid1, mk_empty None)).2.

Lemma no_environment : environment no_services no_kill any_services plain_draw.
Proof. split; [apply no_services_starts|apply no_kill_stops|apply plain_draws]. Qed.

Lemma set_up_tracks : ∃ c, tracks no_methods any_services None c set_up_test ∧ Num c = 1.
Proof.
  destruct (setup_tracks no_services no_kill no_methods any_services plain_draw 0 (mk_empty None) no_environment)
    as (c & ts & Hrun & T & HN & _); [apply mk_empty_ready; reflexivity|reflexivity|].
  exists c. unfold set_up_test. rewrite Hrun. split; [exact T|rewrite HN; reflexivity].
Qed.

Definition turns (n i : nat) : list event := replicate n (Turn i).

Abbreviation race es := (run_events no_services no_kill no_methods plain_draw es (concurCtrler set_up_test)).

(** Two goroutines; the second changes the configuration while the first is about to. *)
Definition overtaken : list event := turns 9 0 ++ turns 9 1.

(** Then everybody is told. *)
Definition told : list event :=
  Wake :: turns 2 0 ++ turns 3 1 ++ flat_map (λ i, [Enter; Turn i]) [0; 1; 2; 3]%nat.

Lemma concurCtrler_safe_witness :
  ∃ c' r, race (overtaken ++ told) = Done r ∧ well_formed c' ∧ (∀ key, served no_methods any_services c' (test r) key) ∧
    Forall (eq Ended) (goroutines r).
Proof.
  destruct set_up_tracks as (c & T & HN).
  destruct (concurCtrler_safe no_services no_kill no_methods any_services plain_draw c set_up_test (overtaken ++ told)
    no_environment T) as (c' & r & Hrun & _ & Hwf & _ & _ & Hs & Hend).
  - rewrite HN. by vm_compute.
  - by vm_compute.
  - exists c', r. split_and!; [exact Hrun|exact Hwf|exact Hs|]. apply Hend.
    assert (main (result (race (overtaken ++ told)) (concurCtrler set_up_test)) = Checking) as E by (by vm_compute).
    by rewrite Hrun in E.
Defined.

Definition overtaken_end := result (race overtaken) (concurCtrler set_up_test).

Lemma overtaken_run : race overtaken = Done overtaken_end.
Proof. apply result_Done. by vm_compute. Qed.

Lemma tokens_end_ctrlers_witness :
  ∃ es' r', (length es' <= 53)%nat ∧ race (overtaken ++ es') = Done r' ∧ Forall (eq Ended) (goroutines r').
Proof.
  destruct set_up_tracks as (c & T & HN).
  destruct (tokens_end_ctrlers no_services no_kill no_methods any_services plain_draw c set_up_test overtaken overtaken_end
    no_environment T overtaken_run) as (es' & r' & Hl & Hrun & _ & Hend).
  - rewrite HN. by vm_compute.
  - by vm_compute.
  - exists es', r'. split_and!; [exact Hl|exact Hrun|exact Hend].
Defined.

Definition overtaken_cfg : ShardConfig := default MakeShardConfig (ctl (test overtaken_end)).

Definition stale_cfg : ShardConfig :=
  match goroutines overtaken_end !! 0%nat with Some (Changing _ _ _ nc) => nc | _ => MakeShardConfig end.

Lemma superseded_leave_stays_witness :
  Num overtaken_cfg = 3 ∧ Num stale_cfg = 3 ∧
  ∃ r1 c2 r2, run_events no_services no_kill no_methods plain_draw [Turn 0; Turn 0] overtaken_end = Done r1 ∧
    run_events no_services no_kill no_methods plain_draw told r1 = Done r2 ∧ ctl (test r2) = Some c2 ∧ IsMember 2 c2 = true.
Proof.
  split; [by vm_compute|]. split; [by vm_compute|]. destruct set_up_tracks as (c & T & HN).
  destruct (superseded_leave_stays no_services no_kill no_methods any_services plain_draw c set_up_test overtaken overtaken_end
    overtaken_cfg 0 1 2 stale_cfg told no_environment T overtaken_run) as (r1 & c2 & r2 & H1 & _ & H2 & Hc & _ & Hm & _).
  - by vm_compute.
  - by vm_compute.
  - by vm_compute.
  - rewrite HN. by vm_compute.
  - by vm_compute.
  - exists r1, c2, r2. split_and!; [exact H1|exact H2|exact Hc|exact Hm].
Defined.
