(* ===== verification/Spawn.v ===== *)
(** * Spawn: clients that run until they are told (src/src/kvtest1/kvtest.go)

    [SpawnClientsAndWait] starts a goroutine per client, sleeps, sends as many
    tokens on the channel [done] as there are clients, and receives what each
    client returned, in order. Both channels are unbuffered. What a client does
    between two looks at [done] is the class [Goroutines]; the clients of
    [KVServer] are an instance. A clerk is the number of its client's pointer. *)

From S2P Require Import Prelude Models KVTest KVServer KVLogic.

Local Open Scope Z_scope.

(** [IClerkMaker]. *)
Class IClerkMaker (T : Type) := {
  MakeClerk : T → outcome (nat * T);
  DeleteClerk : nat → T → outcome T
}.

(** What a maker promises, in the states its invariant describes: a clerk is new,
    and the clerks that exist can be deleted, once. *)
Class ClerkMakerLaws (T : Type) `{IClerkMaker T} := {
  maker_ok : T → Prop;
  clerks : T → gset nat;
  MakeClerk_law : ∀ t, maker_ok t →
    ∃ p t', MakeClerk t = Done (p, t') ∧ (p ∉ clerks t) ∧ clerks t' = {[p]} ∪ clerks t ∧ maker_ok t';
  DeleteClerk_law : ∀ p t, maker_ok t → p ∈ clerks t →
    ∃ t', DeleteClerk p t = Done t' ∧ clerks t' = clerks t ∖ {[p]} ∧ maker_ok t'
}.

(** The functions [fn] that the clients run, between looks at [done]. An action
    belongs to a client or, like the passing of time, to nobody; [poll] is a
    [select] on [done] with what it finds; [value] is what a client's function
    returned. *)
Class Goroutines (W : Type) := {
  Act : Type;
  who : Act → option nat;
  inner : Act → W → W;
  poll : nat → bool → W → option W;
  value : nat → W → option ClntRes
}.

(** A client that has returned stays returned. *)
Class GoroutinesLaws (W : Type) `{Goroutines W} := {
  value_inner : ∀ a c v w, value c w = Some v → value c (inner a w) = Some v;
  value_poll : ∀ c c' b v w w', value c w = Some v → poll c' b w = Some w' → value c w' = Some v
}.

(** ** [runClient] and [SpawnClientsAndWait] *)
Inductive thread :=
| Started
| Running (ck : nat)       (* in [fn], or sending what it returned *)
| Deleting (ck : nat)
| Finished.

Inductive Caller :=
| Sleeping
| Sending (i : nat)        (* about to send token [i] *)
| Blocked (i : nat)        (* in the send *)
| Collecting (rs : list ClntRes)
| Returned (rs : list ClntRes).

Section SpawnClientsAndWait.
Context {W T : Type} `{Goroutines W} `{IClerkMaker T}.

Record Run := mkRun { world : W; threads : list thread; caller : Caller; maker : T }.

Definition set_world (w : W) (r : Run) : Run := mkRun w (threads r) (caller r) (maker r).
Definition set_caller (k : Caller) (r : Run) : Run := mkRun (world r) (threads r) k (maker r).
Definition set_thread (c : nat) (t : thread) (r : Run) : Run :=
  mkRun (world r) (<[c := t]> (threads r)) (caller r) (maker r).
Definition set_maker (m : T) (r : Run) : Run := mkRun (world r) (threads r) (caller r) m.

(** The heads of the two loops. *)
Definition collect_next (rs : list ClntRes) (n : nat) : Caller :=
  if decide (length rs < n)%nat then Collecting rs else Returned rs.
Definition send_next (i n : nat) : Caller :=
  if decide (i < n)%nat then Sending i else collect_next [] n.

Definition is_running (c : nat) (r : Run) : bool :=
  match threads r !! c with Some (Running _) => true | _ => false end.

Inductive event :=
| Wake
| Enter
| Make (c : nat)
| Inner (a : Act)
| Poll (c : nat)
| Collect (c : nat)
| Delete (c : nat).

(** A step that is not enabled changes nothing. A [select] finds a token when
    the caller is in the send. *)
Definition exec_event (e : event) (r : Run) : outcome Run :=
  let n := length (threads r) in
  match e with
  | Wake => Done (match caller r with Sleeping => set_caller (send_next 0 n) r | _ => r end)
  | Enter => Done (match caller r with Sending i => set_caller (Blocked i) r | _ => r end)
  | Make c =>
      match threads r !! c with
      | Some Started => '(ck, m) ← MakeClerk (maker r); Done (set_thread c (Running ck) (set_maker m r))
      | _ => Done r
      end
  | Inner a =>
      Done (match who a with
            | Some c => if is_running c r then set_world (inner a (world r)) r else r
            | None => set_world (inner a (world r)) r
            end)
  | Poll c =>
      Done (if is_running c r then
              match caller r with
              | Blocked i =>
                  match poll c true (world r) with
                  | Some w => set_caller (send_next (S i) n) (set_world w r)
                  | None => r
                  end
              | _ => match poll c false (world r) with Some w => set_world w r | None => r end
              end
            else r)
  | Collect c =>
      Done (match threads r !! c, value c (world r), caller r with
            | Some (Running ck), Some v, Collecting rs =>
                if decide (length rs = c)
                then set_caller (collect_next (rs ++ [v]) n) (set_thread c (Deleting ck) r) else r
            | _, _, _ => r
            end)
  | Delete c =>
      match threads r !! c with
      | Some (Deleting ck) => m ← DeleteClerk ck (maker r); Done (set_thread c Finished (set_maker m r))
      | _ => Done r
      end
  end.

Definition run_events (es : list event) (r : Run) : outcome Run := for_each es exec_event r.

Definition SpawnClientsAndWait (nclnt : nat) (w : W) (m : T) : Run :=
  mkRun w (replicate nclnt Started) Sleeping m.
End SpawnClientsAndWait.
Arguments Run : clear implicits.

(** ** The clients of [KVServer] *)
Section World.
Context {SV : Service}.

#[global] Instance world_goroutines : Goroutines (World ClntRes) := {|
  Act := action;
  who a := match a with
           | Tick _ => None
           | Begin c | Effect c _ | End c | Chosen c _ | Drawn c _ => Some c
           end;
  inner a w := match a with Chosen _ _ => w | _ => exec a w end;
  poll c b w :=
    match clients w !! c with
    | Some (mkClient (Select _) Idle) => Some (exec (Chosen c b) w)
    | _ => None
    end;
  value c w :=
    match clients w !! c with
    | Some (mkClient (Ends (Done v)) Idle) => Some v
    | _ => None
    end
|}.

Lemma exec_other a (w : World ClntRes) c v :
  clients w !! c = Some (mkClient (Ends (Done v)) Idle) →
  clients (exec a w) !! c = Some (mkClient (Ends (Done v)) Idle).
Proof.
  intros Hc.
  assert (∀ c' p ph, (∃ cl, clients w !! c' = Some cl ∧ ∀ m, code cl ≠ Ends m) →
    <[c' := mkClient p ph]> (clients w) !! c = Some (mkClient (Ends (Done v)) Idle)) as Hset.
  { intros c' p ph (cl & Hcl & Hne). destruct (decide (c' = c)) as [->|]; [|by rewrite list_lookup_insert_ne].
    rewrite Hc in Hcl. injection Hcl as <-. by destruct (Hne (Done v)). }
  destruct a as [d|c'|c' lost|c'|c' b|c' r]; simpl; [done|..];
    destruct (clients w !! c') as [[[m|lg key cli k|lg key value ver cli k|k|k] [|t|i]]|] eqn:Hc'; try done;
    try (destruct (hist w !! i); [|done]); try (destruct (0 <=? r); [|done]);
    (apply Hset; eexists; split; [done|discriminate]).
Qed.

Lemma value_world c (w : World ClntRes) v :
  value c w = Some v ↔ clients w !! c = Some (mkClient (Ends (Done v)) Idle).
Proof.
  simpl. destruct (clients w !! c) as [[[[]| | | |] [| |]]|]; (split; [intros E|intros E]); try discriminate; congruence.
Qed.

#[global] Instance world_laws : GoroutinesLaws (World ClntRes).
Proof.
  split.
  - intros a c v w Hv%value_world. apply value_world.
    assert (inner a w = w ∨ inner a w = exec a w) as [->| ->] by (destruct a; auto); [done|by apply exec_other].
  - intros c c' b v w w' Hv%value_world Hp. apply value_world. unfold poll, world_goroutines in Hp.
    assert (w' = exec (Chosen c' b) w) as -> by (destruct (clients w !! c') as [[[] []]|]; congruence).
    by apply exec_other.
Qed.
End World.
