(* ===== verification/Clerks.v ===== *)
(** * Clerks: the clerks, the lock and the controller that the program has, and
    the tests that make them (src/src/kvsrv1/client.go, lock/lock.go and test.go,
    src/src/kvraft1/client.go and test.go, src/src/shardkv1/client.go,
    shardctrler/shardctrler.go and shardgrp/client.go, src/src/kvtest1/kvtest.go)

    These parts of the program are unwritten: their methods return constants,
    without a call. They are modelled as they are, as instances of the
    interfaces the rest of the development is written against: clerks
    ([IKVClerk]) that programs of [KVTest] run on, also as the clients of [Spawn],
    makers of clerks ([IClerkMaker]), and a controller ([ShardCtrler]). *)

From stdpp Require Import pretty.
From S2P Require Import Prelude Persister Labrpc Group Clnts Config Models ShardCfg KVTest ShardKVTest Services Spawn.

Local Open Scope Z_scope.

(** ** Clerks *)
Class IKVClerk (C : Type) := {
  ck_Get : C → string → string * Z * string;
  ck_Put : C → string → string → Z → string
}.

(** Clerks hold a client, a pointer. *)
Record KvsrvClerk := mkKvsrvClerk { kvsrv_clnt : nat; server : string }.
Record KvraftClerk := mkKvraftClerk { kvraft_clnt : nat; servers : list string }.

Definition kvsrv_MakeClerk (clnt : nat) (server : string) : KvsrvClerk := mkKvsrvClerk clnt server.
Definition kvraft_MakeClerk (clnt : nat) (servers : list string) : KvraftClerk := mkKvraftClerk clnt servers.

Definition kvsrv_Get (ck : KvsrvClerk) (key : string) : string * Z * string := (""%string, 0, ErrNoKey).
Definition kvsrv_Put (ck : KvsrvClerk) (key value : string) (version : Z) : string := ErrNoKey.

Definition kvraft_Get (ck : KvraftClerk) (key : string) : string * Z * string := (""%string, 0, ""%string).
Definition kvraft_Put (ck : KvraftClerk) (key value : string) (version : Z) : string := "".

#[export] Instance kvsrv_clerk : IKVClerk KvsrvClerk := {| ck_Get := kvsrv_Get; ck_Put := kvsrv_Put |}.
#[export] Instance kvraft_clerk : IKVClerk KvraftClerk := {| ck_Get := kvraft_Get; ck_Put := kvraft_Put |}.

(** The controller holds a client and embeds a clerk of the first server of group 0. *)
Record ShardCtrlerState := mkShardCtrler { sck_clnt : nat; sck_clerk : KvsrvClerk; sck_killed : Z }.

Definition MakeShardCtrler (clnt : nat) : ShardCtrlerState :=
  mkShardCtrler clnt (kvsrv_MakeClerk clnt (ServerName GRP0 0)) 0.

Definition InitController (sck : ShardCtrlerState) : outcome ShardCtrlerState := Done sck.
Definition sck_InitConfig (cfg : ShardConfig) (sck : ShardCtrlerState) : outcome ShardCtrlerState := Done sck.
Definition sck_ChangeConfigTo (new : ShardConfig) (sck : ShardCtrlerState) : outcome ShardCtrlerState := Done sck.
Definition sck_Query (sck : ShardCtrlerState) : outcome (option ShardConfig * ShardCtrlerState) := Done (None, sck).

#[export] Instance sck_controller : ShardCtrler ShardCtrlerState := {|
  InitConfig := sck_InitConfig; ChangeConfigTo := sck_ChangeConfigTo; Query := sck_Query
|}.

(** Getting and putting through a controller is doing so through its clerk. *)
#[export] Instance sck_kv_clerk : IKVClerk ShardCtrlerState := {|
  ck_Get sck := ck_Get (sck_clerk sck); ck_Put sck := ck_Put (sck_clerk sck)
|}.

Record ShardkvClerk := mkShardkvClerk { shardkv_clnt : nat; sck : ShardCtrlerState }.

Definition shardkv_MakeClerk (clnt : nat) (sck : ShardCtrlerState) : ShardkvClerk := mkShardkvClerk clnt sck.
Definition shardkv_Get (ck : ShardkvClerk) (key : string) : string * Z * string := (""%string, 0, ""%string).
Definition shardkv_Put (ck : ShardkvClerk) (key value : string) (version : Z) : string := "".

#[export] Instance shardkv_clerk : IKVClerk ShardkvClerk := {| ck_Get := shardkv_Get; ck_Put := shardkv_Put |}.

Record ShardgrpClerk := mkShardgrpClerk { shardgrp_clnt : nat; shardgrp_servers : list string }.

Definition shardgrp_MakeClerk (clnt : nat) (servers : list string) : ShardgrpClerk := mkShardgrpClerk clnt servers.
Definition shardgrp_Get (ck : ShardgrpClerk) (key : string) : string * Z * string := (""%string, 0, ""%string).
Definition shardgrp_Put (ck : ShardgrpClerk) (key value : string) (version : Z) : string := "".
Definition shardgrp_FreezeShard (ck : ShardgrpClerk) (s num : Z) : list Z * string := ([], ""%string).
Definition shardgrp_InstallShard (ck : ShardgrpClerk) (s : Z) (state : list Z) (num : Z) : string := "".
Definition shardgrp_DeleteShard (ck : ShardgrpClerk) (s num : Z) : string := "".

#[export] Instance shardgrp_clerk : IKVClerk ShardgrpClerk := {| ck_Get := shardgrp_Get; ck_Put := shardgrp_Put |}.

(** ** The lock *)
Record Lock (C : Type) := mkLock { lk_ck : C }.
Arguments mkLock {C} lk_ck.
Arguments lk_ck {C}.

Definition MakeLock {C} (ck : C) (l : string) : Lock C := mkLock ck.
Definition Acquire {C} (lk : Lock C) : prog () := mret ().
Definition Release {C} (lk : Lock C) : prog () := mret ().

(** ** Programs on a clerk *)
Section OnClerk.
Context {C : Type} `{IKVClerk C}.
Variable ck : C.

(** A program on its own: [os] are what it draws and what its selects find, [now]
    the readings of the clock, two for each operation. The operations that are
    logged come with the result. *)
Fixpoint on_clerk {A} (p : prog A) (os now : list Z) : outcome A * list Operation :=
  let o := default 0 (head os) in
  let t1 := default 0 (head now) in
  let t2 := default 0 (head (tail now)) in
  match p with
  | Ends m => (m, [])
  | CkGet lg key cli k =>
      let '(val, ver, err) := ck_Get ck key in
      let '(m, l) := on_clerk (k (val, ver, err)) os (tail (tail now)) in
      (m, (if lg then [get_operation key cli t1 (mkKvOutput val ver err) t2] else []) ++ l)
  | CkPut lg key value ver cli k =>
      let err := ck_Put ck key value ver in
      let '(m, l) := on_clerk (k err) os (tail (tail now)) in
      (m, (if lg then [put_operation key value ver cli t1 (mkKvOutput "" 0 err) t2] else []) ++ l)
  | Select k => on_clerk (k (negb (o =? 0))) (tail os) now
  | Rand k => on_clerk (k o) (tail os) now
  end.
End OnClerk.

(** Clients on clerks, as the clients of [Spawn]: an action is a client's next operation,
    with the number it draws if it draws one. *)
Record OnClerks (C : Type) := mkOnClerks { a_clerk : C; progs : list (prog ClntRes) }.
Arguments mkOnClerks {C}.
Arguments a_clerk {C}.
Arguments progs {C}.

#[export] Instance clerk_goroutines (C : Type) `{IKVClerk C} : Goroutines (OnClerks C) := {|
  Act := nat * Z;
  who a := Some a.1;
  inner '(c, x) w :=
    match progs w !! c with
    | Some (CkGet _ key _ k) => mkOnClerks (a_clerk w) (<[c := k (ck_Get (a_clerk w) key)]> (progs w))
    | Some (CkPut _ key value ver _ k) => mkOnClerks (a_clerk w) (<[c := k (ck_Put (a_clerk w) key value ver)]> (progs w))
    | Some (Rand k) => if 0 <=? x then mkOnClerks (a_clerk w) (<[c := k x]> (progs w)) else w
    | _ => w
    end;
  poll c b w :=
    match progs w !! c with
    | Some (Select k) => Some (mkOnClerks (a_clerk w) (<[c := k b]> (progs w)))
    | _ => None
    end;
  value c w :=
    match progs w !! c with
    | Some (Ends (Done v)) => Some v
    | _ => None
    end
|}.

(** ** Tests and their clerks

    [kvtest.Test] adds to the configuration a log, whether keys are random, and a maker of
    clerks, which is the test that embeds it. *)
Section Tests.
Context {Typ Val A Svc : Type}.
Variable Kill_ : Svc → Store → A → outcome (Store * A).

Abbreviation Config := (@Config Typ Val A Svc).

Record Test := mkTest { Config_ : Config; oplog : list Operation; randomkeys : bool }.

Definition MakeTest (cfg : Config) (randomkeys : bool) : Test := mkTest cfg [] randomkeys.

Definition with_config (cfg : Config) (ts : Test) : Test := mkTest cfg (oplog ts) (randomkeys ts).

Definition Cleanup (now1 now2 : Z) (clerk_order : list nat) (grp_order : list Z) (VIS_ENABLE : string)
    (an_order : list (string * Annotation.Continuous)) (t now : Z) (ts : Test) (an : Annotation.Annotation) :
    outcome (option Stats * option (list Annotation.Ann) * Test * Annotation.Annotation) :=
  st ← Config_End now1 now2 (Config_ ts);
  '(drawn, cfg, an) ← Config_Cleanup Kill_ clerk_order grp_order VIS_ENABLE an_order t now (Config_ ts) an;
  Done (st, drawn, with_config cfg ts, an).

(** The clients are pointers; [orders] are the orders in which their ends are visited. *)
Definition ConnectClnts (clnts : list (nat * list (string * string))) (ts : Test) : outcome Test :=
  cs ← for_each clnts (λ '(p, order) cs, with_clnt p cs (λ c rn, Done (ConnectAll order c rn))) (clnts_of (Config_ ts));
  Done (with_config (with_clnts cs (Config_ ts)) ts).

(** A client of the configuration. *)
Definition make_client (l : option (list string)) (ts : Test) : outcome (nat * Test) :=
  '(p, cs) ← MakeClientTo l (clnts_of (Config_ ts)); Done (p, with_config (with_clnts cs (Config_ ts)) ts).

Definition delete_client (p : nat) (ts : Test) : outcome Test :=
  cs ← DeleteClient p (clnts_of (Config_ ts)); Done (with_config (with_clnts cs (Config_ ts)) ts).

(** kvsrv1/test.go *)
Record TestKV := mkTestKV { kv_test : Test; reliable : bool }.

Definition TestKV_MakeClerk (ts : TestKV) : outcome (KvsrvClerk * TestKV) :=
  '(p, t) ← make_client None (kv_test ts);
  Done (kvsrv_MakeClerk p (ServerName GRP0 0), mkTestKV t (reliable ts)).

Definition TestKV_DeleteClerk (p : nat) (ts : TestKV) : outcome TestKV :=
  t ← delete_client p (kv_test ts); Done (mkTestKV t (reliable ts)).

#[export] Instance TestKV_maker : IClerkMaker TestKV := {|
  MakeClerk ts := '(ck, ts) ← TestKV_MakeClerk ts; Done (kvsrv_clnt ck, ts);
  DeleteClerk := TestKV_DeleteClerk
|}.

(** kvraft1/test.go *)
Record TestRaft := mkTestRaft {
  raft_test : Test;
  part : string;
  nclients : Z;
  nservers : nat;
  crash : bool;
  partitions : bool;
  maxraftstate : Z;
  rkeys : bool
}.

Definition with_raft_test (t : Test) (ts : TestRaft) : TestRaft :=
  mkTestRaft t (part ts) (nclients ts) (nservers ts) (crash ts) (partitions ts) (maxraftstate ts) (rkeys ts).

Definition makeTitle (ts : TestRaft) : string :=
  let title := "Test: "%string in
  let title := if crash ts then title +:+ "restarts, " else title in
  let title := if partitions ts then title +:+ "partitions, " else title in
  let title := if negb (maxraftstate ts =? -1) then title +:+ "snapshots, " else title in
  let title := if rkeys ts then title +:+ "random keys, " else title in
  let title := if 1 <? nclients ts then title +:+ "many clients" else title +:+ "one client" in
  title +:+ " (" +:+ part ts +:+ ")".

Definition TestRaft_MakeClerk (ts : TestRaft) : outcome (KvraftClerk * TestRaft) :=
  '(p, t) ← make_client None (raft_test ts);
  sg ← Config_Group GRP0 (Config_ t);
  Done (kvraft_MakeClerk p (SrvNames sg), with_raft_test t ts).

Definition TestRaft_DeleteClerk (p : nat) (ts : TestRaft) : outcome TestRaft :=
  t ← delete_client p (raft_test ts); Done (with_raft_test t ts).

Definition MakeClerkTo (to : list Z) (ts : TestRaft) : outcome (KvraftClerk * TestRaft) :=
  sg ← Config_Group GRP0 (Config_ (raft_test ts));
  ns ← SrvNamesTo sg to;
  '(p, t) ← make_client (Some ns) (raft_test ts);
  Done (kvraft_MakeClerk p (SrvNames sg), with_raft_test t ts).

#[export] Instance TestRaft_maker : IClerkMaker TestRaft := {|
  MakeClerk ts := '(ck, ts) ← TestRaft_MakeClerk ts; Done (kvraft_clnt ck, ts);
  DeleteClerk := TestRaft_DeleteClerk
|}.

(** shardkv1/test.go: a clerk is its client. *)
#[export] Instance ShardTest_maker {Ctl} : IClerkMaker (ShardTest Typ Val A Svc Ctl) := {|
  MakeClerk := ShardKVTest.MakeClerk; DeleteClerk := ShardKVTest.DeleteClerk
|}.
End Tests.
Arguments Test : clear implicits.
Arguments TestKV : clear implicits.
Arguments TestRaft : clear implicits.

(** ** Making the tests, with the servers of [Services] *)
Section Make.
Context {Typ : Type}.
Variable IsUpper : Z → bool.

Definition MakeTestKV (rand1 rand2 : nat → nat → string) (now : Z) (rel : bool) (T : @Tester Typ Services.Val App) :
    outcome (TestKV Typ Services.Val App Svc) :=
  cfg ← MakeConfig kvsrv_StartKVServer service_of rand1 rand2 1 rel now T;
  Done (mkTestKV (MakeTest cfg false) rel).

(** The line that [Begin] prints is returned. *)
Definition MakeTestRaft (rand1 rand2 : nat → nat → string) (now1 now2 : Z) (part : string) (nclients : Z) (nservers : nat)
    (rel crash partitions : bool) (maxraftstate : Z) (randomkeys : bool) (T : @Tester Typ Services.Val App) :
    outcome (string * TestRaft Typ Services.Val App Svc) :=
  cfg ← MakeConfig (kvraft_StartKVServer IsUpper false maxraftstate) service_of rand1 rand2 nservers rel now1 T;
  let ts := mkTestRaft (MakeTest cfg randomkeys) part nclients nservers crash partitions maxraftstate randomkeys in
  let '(line, cfg) := Begin (makeTitle ts) now2 cfg in
  Done (line, with_raft_test (with_config cfg (raft_test ts)) ts).
End Make.
