(* ===== verification/Makers.v ===== *)
(** * Makers: the tests make clerks as [SpawnClientsAndWait] expects

    [IClerkMaker] is implemented by the three tests of the program. Two keep the
    promise of [ClerkMakerLaws]; the third, of the sharded store, leaves the
    client of the clerk's controller behind. *)

From S2P Require Import Prelude Persister Labrpc Group Clnts ClntsProps Config ConfigProps Labgob ShardKVTest Services Spawn Clerks.

Local Open Scope Z_scope.

(** ** Clients *)
Definition clnts_ok (cs : Clnts) : Prop := is_Some (Clnts.clerks cs) ∧ Inv (live cs) cs.

Lemma makeClnts_ok rn : clnts_ok (makeClnts rn) ∧ live (makeClnts rn) = ∅.
Proof. split; [split; [by eexists|]|done]. by apply (clients_run_Inv [] rn). Qed.

Lemma MakeClientTo_ok l cs :
  clnts_ok cs → ∃ cs', MakeClientTo l cs = Done (length (clients cs), cs') ∧ clnts_ok cs' ∧
    (length (clients cs) ∉ live cs) ∧ live cs' = {[length (clients cs)]} ∪ live cs.
Proof.
  intros [[ks Hks] HI].
  assert (∃ cs', MakeClientTo l cs = Done (length (clients cs), cs') ∧ Clnts.clerks cs' = Some ({[length (clients cs)]} ∪ ks))
    as (cs' & E & Hks') by (unfold MakeClientTo; rewrite Hks; by eexists).
  exists cs'. split; [done|].
  assert (exec (op_make l) cs = Done cs') as Hx by (simpl; by rewrite E).
  split_and!; [split; [by eexists|]|..].
  - exact (clients_exec_Inv _ _ _ HI Hx).
  - intros Hin. pose proof (inv_ptr _ _ HI _ Hin). lia.
  - unfold live. by rewrite Hks, Hks'.
Qed.

Lemma DeleteClient_ok p cs :
  clnts_ok cs → p ∈ live cs → ∃ cs', DeleteClient p cs = Done cs' ∧ clnts_ok cs' ∧ live cs' = live cs ∖ {[p]}.
Proof.
  intros [[ks Hks] HI] Hp.
  assert (∃ cs', DeleteClient p cs = Done cs' ∧ Clnts.clerks cs' = Some (ks ∖ {[p]})) as (cs' & E & Hks').
  { destruct (remove_client (live cs) p cs HI Hp) as (rn & Hrn & _). unfold live in Hp. rewrite Hks in Hp.
    unfold DeleteClient. rewrite Hks, decide_True by done. rewrite Hrn. by eexists. }
  exists cs'. split; [done|]. split; [split; [by eexists|]|].
  - exact (clients_exec_Inv (op_delete p) _ _ HI E).
  - unfold live. by rewrite Hks, Hks'.
Qed.

Section Tests.
Context {Typ Val A Svc : Type}.

Abbreviation Config := (@Config Typ Val A Svc).

Definition config_ok (cfg : Config) : Prop := clnts_ok (clnts_of cfg).
Definition config_live (cfg : Config) : gset nat := live (clnts_of cfg).

Lemma make_client_ok l (ts : Test Typ Val A Svc) :
  config_ok (Config_ ts) → ∃ p ts', make_client l ts = Done (p, ts') ∧ config_ok (Config_ ts') ∧
    (p ∉ config_live (Config_ ts)) ∧ config_live (Config_ ts') = {[p]} ∪ config_live (Config_ ts) ∧
    groups (Config_ ts') = groups (Config_ ts).
Proof.
  intros Hok. destruct (MakeClientTo_ok l _ Hok) as (cs & E & Hcs & Hnew & Hlive). unfold make_client. rewrite E.
  do 2 eexists. split; [reflexivity|]. unfold config_ok, config_live. cbn [Config_ with_config].
  rewrite !clnts_of_with. done.
Qed.

Lemma delete_client_ok p (ts : Test Typ Val A Svc) :
  config_ok (Config_ ts) → p ∈ config_live (Config_ ts) →
  ∃ ts', delete_client p ts = Done ts' ∧ config_ok (Config_ ts') ∧
    config_live (Config_ ts') = config_live (Config_ ts) ∖ {[p]} ∧ groups (Config_ ts') = groups (Config_ ts).
Proof.
  intros Hok Hp. destruct (DeleteClient_ok p _ Hok Hp) as (cs & E & Hcs & Hlive). unfold delete_client. rewrite E.
  eexists. split; [reflexivity|]. unfold config_ok, config_live. cbn [Config_ with_config].
  rewrite !clnts_of_with. done.
Qed.

#[export] Program Instance TestKV_laws : ClerkMakerLaws (TestKV Typ Val A Svc) := {|
  maker_ok ts := config_ok (Config_ (kv_test ts));
  clerks ts := config_live (Config_ (kv_test ts))
|}.
Next Obligation.
  intros ts Hok. destruct (make_client_ok None _ Hok) as (p & t & E & ?). simpl.
  unfold TestKV_MakeClerk. rewrite E. do 2 eexists. split; [reflexivity|]. simpl. tauto.
Qed.
Next Obligation.
  intros p ts Hok Hp. destruct (delete_client_ok p _ Hok Hp) as (t & E & ?). simpl.
  unfold TestKV_DeleteClerk. rewrite E. eexists. split; [reflexivity|]. simpl. tauto.
Qed.

#[export] Program Instance TestRaft_laws : ClerkMakerLaws (TestRaft Typ Val A Svc) := {|
  maker_ok ts := config_ok (Config_ (raft_test ts)) ∧ is_Some (groups (Config_ (raft_test ts)) !! GRP0);
  clerks ts := config_live (Config_ (raft_test ts))
|}.
Next Obligation.
  intros ts [Hok [sg Hsg]]. destruct (make_client_ok None _ Hok) as (p & t & E & H1 & H2 & H3 & Hg). simpl.
  unfold TestRaft_MakeClerk. rewrite E. cbn [mbind outcome_bind]. unfold Config_Group, lookupGroup. rewrite Hg, Hsg.
  do 2 eexists. split; [reflexivity|]. simpl. rewrite Hg. split_and!; done.
Qed.
Next Obligation.
  intros p ts [Hok Hs] Hp. destruct (delete_client_ok p _ Hok Hp) as (t & E & H1 & H2 & Hg). simpl.
  unfold TestRaft_DeleteClerk. rewrite E. eexists. split; [reflexivity|]. simpl. rewrite Hg. tauto.
Qed.

(** The configuration a test starts with. *)
Lemma MakeConfig_ok mks service_of rand1 rand2 n rel now (T : @Tester Typ Val A) (cfg : Config) :
  MakeConfig mks service_of rand1 rand2 n rel now T = Done cfg →
  config_ok cfg ∧ config_live cfg = ∅ ∧ start cfg = now ∧ ops cfg = 0.
Proof.
  unfold MakeConfig. intros ([gs T'] & _ & [= <-])%bind_Done. unfold config_ok, config_live.
  destruct (makeClnts_ok (Reliable rel (tnet T'))) as [H1 H2]. done.
Qed.

(** ** The sharded store leaks clients *)
Context {Ctl : Type}.
Implicit Types ts : ShardTest Typ Val A Svc Ctl.

Definition clerk_cycle ts : outcome (ShardTest Typ Val A Svc Ctl) :=
  '(ck, ts) ← MakeClerk ts; DeleteClerk ck ts.

Lemma clerk_cycle_leaks ts :
  config_ok (cfg ts) → ∃ ts' p, clerk_cycle ts = Done ts' ∧ config_ok (cfg ts') ∧
    (p ∉ config_live (cfg ts)) ∧ config_live (cfg ts') = {[p]} ∪ config_live (cfg ts).
Proof.
  intros Hok. destruct (MakeClientTo_ok None _ Hok) as (cs1 & E1 & H1 & Hn1 & L1).
  destruct (MakeClientTo_ok None cs1 H1) as (cs2 & E2 & H2 & Hn2 & L2).
  set (p := length (clients (clnts_of (cfg ts)))) in *. set (q := length (clients cs1)) in *.
  destruct (DeleteClient_ok p cs2 H2) as (cs3 & E3 & H3 & L3); [rewrite L2, L1; set_solver|].
  exists (with_cfg (with_clnts cs3 (with_clnts cs2 (with_clnts cs1 (cfg ts)))) ts), q. split_and!.
  - unfold clerk_cycle. cbn [MakeClerk DeleteClerk ShardTest_maker]. unfold ShardKVTest.MakeClerk, MakeClient. rewrite E1.
    cbn [mbind outcome_bind]. unfold makeShardCtrler, MakeClient. cbn [cfg with_cfg]. rewrite clnts_of_with, E2.
    cbn [mbind outcome_bind]. unfold ShardKVTest.DeleteClerk. cbn [cfg with_cfg]. rewrite clnts_of_with, E3. done.
  - unfold config_ok. cbn [cfg with_cfg]. by rewrite clnts_of_with.
  - unfold config_live. intros Hq. apply Hn2. rewrite L1. set_solver.
  - unfold config_live. cbn [cfg with_cfg]. rewrite clnts_of_with, L3, L2, L1.
    assert (q ≠ p) by (intros E; apply Hn2; rewrite E, L1; set_solver). set_solver.
Qed.

(** Making and deleting a clerk of the sharded store leaves a client
    behind, the one its controller was made with: after [n] clerks there are [n]
    more clients of the configuration, until the clean-up. *)
Theorem shard_clerks_leak n ts :
  config_ok (cfg ts) →
  ∃ ts', for_each (replicate n ()) (λ _, clerk_cycle) ts = Done ts' ∧
    config_ok (cfg ts') ∧ size (config_live (cfg ts')) = (size (config_live (cfg ts)) + n)%nat.
Proof.
  revert ts. induction n as [|n IH]; intros ts Hok; [exists ts; split_and!; [done|done|lia]|].
  destruct (clerk_cycle_leaks ts Hok) as (ts1 & p & E & Hok1 & Hp & Hlive).
  destruct (IH ts1 Hok1) as (ts2 & E2 & Hok2 & Hsize). exists ts2. split_and!.
  - cbn [replicate for_each]. by rewrite E.
  - done.
  - rewrite Hsize, Hlive, size_union, size_singleton by set_solver. lia.
Qed.
End Tests.

(** ** Witnesses *)
Definition bare_config : @Config unit Services.Val App Svc :=
  mkConfig ([], Some ∅) ∅ (mkTester (mkWorld MakeNetwork [] (mkApp (mkLab 0 ∅ []) [] [] [] [] ∅ 0) [] []) (mkStore ∅ ∅))
    false 0 0 0 0.

Lemma bare_ok : config_ok bare_config.
Proof. exact (proj1 (makeClnts_ok MakeNetwork)). Qed.

Definition bare_shard_test : ShardTest unit Services.Val App Svc ShardCtrlerState :=
  mkShardTest bare_config (MakeShardCtrler 0) 2.

Lemma shard_clerks_leak_witness :
  ∃ ts', for_each (replicate 3 ()) (λ _, clerk_cycle) bare_shard_test = Done ts' ∧ config_ok (cfg ts') ∧
    size (config_live (cfg ts')) = 3%nat.
Proof. exact (shard_clerks_leak 3 bare_shard_test bare_ok). Defined.

(** The test of the single server, ready to make clerks. *)
Definition bare_test : TestKV unit Services.Val App Svc := mkTestKV (MakeTest bare_config false) true.

Lemma bare_test_ok : maker_ok bare_test.
Proof. exact bare_ok. Qed.
