(* ===== verification/SpawnProps.v ===== *)
(** * SpawnProps: what [SpawnClientsAndWait] does with its clients

    It returns what the clients returned, in their order; the clerks it made
    are deleted; it waits for ever if a client fails; and what is proved of runs of
    clients in [KVTestProps] and [KVAppend] holds of its runs. *)

From S2P Require Import Prelude Models KVTest KVServer KVLogic KVTestProps KVAppend Clerks Makers Spawn.

Local Open Scope Z_scope.

Lemma insert_cases {A} (l : list A) c x c' y :
  <[c := x]> l !! c' = Some y → c' = c ∧ y = x ∨ c' ≠ c ∧ l !! c' = Some y.
Proof. intros [(-> & <- & _)|[? ?]]%list_lookup_insert_Some; auto. Qed.

Section Runs.
Context {W T : Type} {GW : Goroutines W} {GWL : GoroutinesLaws W} {CM : IClerkMaker T} {CML : ClerkMakerLaws T}.
Variables (n : nat) (w0 : W) (m0 : T).

Abbreviation Run := (Run W T).
Implicit Types (r : Run) (e : event) (c : nat).

(** A step at a time: all that a step can do to the parts of the state. *)
Inductive steps r : Run → Prop :=
| s_none : steps r r
| s_wake : caller r = Sleeping → steps r (set_caller (send_next 0 (length (threads r))) r)
| s_enter i : caller r = Sending i → steps r (set_caller (Blocked i) r)
| s_make c ck m : threads r !! c = Some Started → MakeClerk (maker r) = Done (ck, m) →
    steps r (set_thread c (Running ck) (set_maker m r))
| s_inner a : (∀ c, who a = Some c → is_running c r = true) → steps r (set_world (inner a (world r)) r)
| s_token c i w : is_running c r = true → caller r = Blocked i → poll c true (world r) = Some w →
    steps r (set_caller (send_next (S i) (length (threads r))) (set_world w r))
| s_default c w : is_running c r = true → poll c false (world r) = Some w → steps r (set_world w r)
| s_collect c ck v rs : threads r !! c = Some (Running ck) → value c (world r) = Some v →
    caller r = Collecting rs → length rs = c →
    steps r (set_caller (collect_next (rs ++ [v]) (length (threads r))) (set_thread c (Deleting ck) r))
| s_delete c ck m : threads r !! c = Some (Deleting ck) → DeleteClerk ck (maker r) = Done m →
    steps r (set_thread c Finished (set_maker m r)).

Lemma exec_event_steps e r r' : exec_event e r = Done r' → steps r r'.
Proof.
  unfold exec_event. destruct e as [| |c|a|c|c|c]; intros Hx.
  - injection Hx as <-. destruct (caller r) eqn:E; by constructor.
  - injection Hx as <-. destruct (caller r) eqn:E; by constructor.
  - destruct (threads r !! c) as [[]|] eqn:E; [|injection Hx as <-; constructor..].
    apply bind_Done in Hx as ([ck m] & Hm & [= <-]). by apply s_make.
  - injection Hx as <-. destruct (who a) as [c|] eqn:Ea; [|apply s_inner; congruence].
    destruct (is_running c r) eqn:E; [|constructor]. apply s_inner. congruence.
  - injection Hx as <-. destruct (is_running c r) eqn:E; [|constructor].
    destruct (caller r) eqn:Ek; destruct (poll c _ (world r)) eqn:Ep; try constructor; eauto using steps.
  - injection Hx as <-. destruct (threads r !! c) as [[|ck|ck|]|] eqn:E; try constructor.
    destruct (value c (world r)) eqn:Ev; [|constructor]. destruct (caller r) eqn:Ek; try constructor.
    case_decide; [by eapply s_collect|constructor].
  - destruct (threads r !! c) as [[]|] eqn:E; try (injection Hx as <-; constructor).
    apply bind_Done in Hx as (m & Hm & [= <-]). by eapply s_delete.
Qed.

(** Induction over a run. *)
Lemma run_events_ind (P : Run → Prop) es r r' :
  (∀ r1 r2, P r1 → steps r1 r2 → P r2) → P r → run_events es r = Done r' → P r'.
Proof.
  intros Hstep HP Hrun. eapply (for_each_ind P); [exact HP| |exact Hrun].
  intros e r1 r2 _ HP1 Hx. eapply Hstep; [exact HP1|]. by eapply exec_event_steps.
Qed.

(** ** What is collected *)
Definition past (c : nat) r : Prop := ∃ t, threads r !! c = Some t ∧ (t = Finished ∨ ∃ ck, t = Deleting ck).

Definition collected r : list ClntRes :=
  match caller r with Collecting rs | Returned rs => rs | _ => [] end.

Record values_ok r : Prop := {
  v_len : length (threads r) = n;
  v_col : ∀ rs, caller r = Collecting rs → (length rs < n)%nat;
  v_ret : ∀ rs, caller r = Returned rs → length rs = n;
  v_val : ∀ c v, collected r !! c = Some v → value c (world r) = Some v;
  v_past : ∀ c, past c r ↔ (c < length (collected r))%nat
}.

Lemma collect_next_collected rs k r : collected (set_caller (collect_next rs k) r) = rs.
Proof. unfold collected, collect_next. simpl. by case_decide. Qed.

Lemma send_next_collected i k r : collected (set_caller (send_next i k) r) = [].
Proof. unfold send_next. case_decide; [done|apply collect_next_collected]. Qed.

Lemma send_next_col i k rs : send_next i k = Collecting rs → rs = [] ∧ (0 < k)%nat.
Proof. unfold send_next, collect_next. intros. repeat case_decide; simplify_eq. simpl in *. auto. Qed.

Lemma send_next_ret i k rs : send_next i k = Returned rs → rs = [] ∧ k = 0%nat.
Proof. unfold send_next, collect_next. intros. repeat case_decide; simplify_eq. simpl in *. split; [done|lia]. Qed.

(** A step of the world that keeps what was returned. *)
Lemma values_ok_world r w :
  (∀ c v, value c (world r) = Some v → value c w = Some v) → values_ok r → values_ok (set_world w r).
Proof. intros Hw [H1 H2 H3 H4 H5]. split; try done. intros c v Hc. by apply Hw, H4. Qed.

Lemma values_ok_sent i k r :
  collected r = [] → length (threads r) = k → values_ok r → values_ok (set_caller (send_next i k) r).
Proof.
  intros Hcol Hlen [H1 H2 H3 H4 H5]. assert (k = n) as -> by lia. split; simpl.
  - done.
  - by intros rs [-> ?]%send_next_col.
  - by intros rs [-> ->]%send_next_ret.
  - intros c v. by rewrite send_next_collected.
  - intros c. rewrite send_next_collected. rewrite <- Hcol. exact (H5 c).
Qed.

Lemma past_set c t r c' :
  (c < length (threads r))%nat →
  past c' (set_thread c t r) ↔ if decide (c' = c) then t = Finished ∨ (∃ ck, t = Deleting ck) else past c' r.
Proof.
  intros Hlt. unfold past. simpl. case_decide as E.
  - subst. rewrite list_lookup_insert_eq by done. naive_solver.
  - by rewrite list_lookup_insert_ne by done.
Qed.

Lemma steps_values r r' : values_ok r → steps r r' → values_ok r'.
Proof.
  intros Hok Hs. pose proof Hok as [H1 H2 H3 H4 H5]. unfold collected in *.
  destruct Hs as [|Hk|i Hk|c ck m Hc Hm|a Ha|c i w Hrun Hk Hp|c w Hrun Hp|c ck v rs Hc Hv Hk Hl|c ck m Hc Hm].
  - done.
  - apply values_ok_sent; [unfold collected; by rewrite Hk|done|done].
  - rewrite Hk in *. split; try done.
  - pose proof (lookup_lt_Some _ _ _ Hc) as Hlt. split; simpl; try done.
    + by rewrite length_insert.
    + intros c'. rewrite past_set by done. case_decide as E; [subst|exact (H5 c')].
      split; [by intros [?|[? ?]]|]. intros (t & Ht & Hor)%H5. rewrite Hc in Ht. injection Ht as <-.
      by destruct Hor as [?|[? ?]].
  - apply values_ok_world; [|done]. intros c v. apply value_inner.
  - apply (values_ok_sent (S i) (length (threads r)) (set_world w r)).
    + unfold collected. simpl. by rewrite Hk.
    + done.
    + apply values_ok_world; [|done]. intros c' v Hv. by eapply value_poll.
  - apply values_ok_world; [|done]. intros c' v Hv. by eapply value_poll.
  - pose proof (lookup_lt_Some _ _ _ Hc) as Hlt. rewrite Hk in H4, H5. specialize (H2 rs Hk). subst c.
    split; simpl.
    + by rewrite length_insert.
    + intros rs'. unfold collect_next. rewrite length_app. simpl. case_decide; [|done]. intros [= <-].
      rewrite length_app. simpl. lia.
    + intros rs'. unfold collect_next. rewrite length_app. simpl. case_decide; [done|]. intros [= <-].
      rewrite length_app. simpl. lia.
    + intros c v'. rewrite collect_next_collected. intros [Hc'|[-> <-]]%lookup_snoc_Some; [|done].
      apply H4, Hc'.
    + intros c. rewrite collect_next_collected, length_app. simpl.
      change (past c (set_thread (length rs) (Deleting ck) r) ↔ (c < length rs + 1)%nat).
      rewrite past_set by done. case_decide as E; [split; [lia|eauto]|]. rewrite (H5 c). lia.
  - pose proof (lookup_lt_Some _ _ _ Hc) as Hlt. split; simpl; try done.
    + by rewrite length_insert.
    + intros c'. rewrite past_set by done. case_decide as E; [subst|exact (H5 c')].
      split; [|auto]. intros _. apply H5. exists (Deleting ck). eauto.
Qed.

Lemma start_values : values_ok (SpawnClientsAndWait n w0 m0).
Proof.
  split; simpl; try done.
  - apply length_replicate.
  - intros c. split; [|simpl; lia]. intros (t & [-> _]%lookup_replicate & [?|[? ?]]); discriminate.
Qed.

Lemma run_values es r : run_events es (SpawnClientsAndWait n w0 m0) = Done r → values_ok r.
Proof. apply run_events_ind; [exact steps_values|exact start_values]. Qed.

(** ** Clerks *)
Definition holds (c p : nat) r : Prop := threads r !! c = Some (Running p) ∨ threads r !! c = Some (Deleting p).

(** The clerks that exist are those of the maker and one for each client that has
    begun and not yet deleted it. *)
Record clerks_ok r : Prop := {
  k_ok : maker_ok (maker r);
  k_old : clerks m0 ⊆ clerks (maker r);
  k_held : ∀ c p, holds c p r → p ∈ clerks (maker r) ∧ p ∉ clerks m0;
  k_inj : ∀ c c' p, holds c p r → holds c' p r → c = c';
  k_only : ∀ p, p ∈ clerks (maker r) → p ∈ clerks m0 ∨ ∃ c, holds c p r
}.

Lemma holds_set c t r c' p :
  (c < length (threads r))%nat →
  holds c' p (set_thread c t r) ↔ if decide (c' = c) then t = Running p ∨ t = Deleting p else holds c' p r.
Proof.
  intros Hlt. unfold holds. simpl. case_decide as E.
  - subst. rewrite list_lookup_insert_eq by done. naive_solver.
  - by rewrite list_lookup_insert_ne by done.
Qed.

Lemma clerks_ok_make c ck m r :
  threads r !! c = Some Started → MakeClerk (maker r) = Done (ck, m) → clerks_ok r →
  clerks_ok (set_thread c (Running ck) (set_maker m r)).
Proof.
  intros Hc Hm [H1 H2 H3 H4 H5]. pose proof (lookup_lt_Some _ _ _ Hc) as Hlt.
  destruct (MakeClerk_law (maker r) H1) as (p & m' & E & Hnew & Hcl & Hok). rewrite Hm in E. injection E as <- <-.
  assert (∀ c' p, holds c' p (set_thread c (Running ck) (set_maker m r)) ↔
    if decide (c' = c) then p = ck else holds c' p r) as Hh.
  { intros c' p. rewrite holds_set by done. case_decide; [|done]. naive_solver. }
  assert (∀ p, ¬ holds c p r) as Hno by (intros p; unfold holds; rewrite Hc; naive_solver).
  split; simpl; rewrite ?Hcl.
  - done.
  - set_solver.
  - intros c' p. rewrite Hh. case_decide as E; [intros ->; set_solver|]. intros Hp%H3. set_solver.
  - intros c1 c2 p. rewrite !Hh. repeat case_decide; intros Ha Hb; subst; try done.
    + by apply H3 in Hb as [? _].
    + by apply H3 in Ha as [? _].
    + by eapply H4.
  - intros p [->%elem_of_singleton|[Hp|[c' Hp]]%H5]%elem_of_union; [right; exists c; apply Hh; by rewrite decide_True|by left|].
    right. exists c'. apply Hh. rewrite decide_False; [done|]. intros ->. by apply (Hno p).
Qed.

(** A client that goes on, or deletes its clerk. *)
Lemma clerks_ok_collect c ck r :
  threads r !! c = Some (Running ck) → clerks_ok r → clerks_ok (set_thread c (Deleting ck) r).
Proof.
  intros Hc [H1 H2 H3 H4 H5]. pose proof (lookup_lt_Some _ _ _ Hc) as Hlt.
  assert (∀ c' p, holds c' p (set_thread c (Deleting ck) r) ↔ holds c' p r) as Hh.
  { intros c' p. rewrite holds_set by done. case_decide as E; [subst|done]. unfold holds. rewrite Hc. naive_solver. }
  split; simpl; try done.
  - intros c' p ?%Hh. by eapply H3.
  - intros c1 c2 p ?%Hh ?%Hh. by eapply H4.
  - intros p [?|[c' ?]]%H5; [by left|right; exists c'; by apply Hh].
Qed.

Lemma clerks_ok_delete c ck m r :
  threads r !! c = Some (Deleting ck) → DeleteClerk ck (maker r) = Done m → clerks_ok r →
  clerks_ok (set_thread c Finished (set_maker m r)).
Proof.
  intros Hc Hm [H1 H2 H3 H4 H5]. pose proof (lookup_lt_Some _ _ _ Hc) as Hlt.
  assert (holds c ck r) as Hck by by right.
  destruct (DeleteClerk_law ck (maker r) H1) as (m' & E & Hcl & Hok); [by eapply H3|]. rewrite Hm in E. injection E as <-.
  assert (∀ c' p, holds c' p (set_thread c Finished (set_maker m r)) ↔ c' ≠ c ∧ holds c' p r) as Hh.
  { intros c' p. rewrite holds_set by done. case_decide; naive_solver. }
  split; simpl; rewrite ?Hcl.
  - done.
  - intros p Hp. apply elem_of_difference. split; [by apply H2|]. intros ->%elem_of_singleton. by apply H3 in Hck as [_ ?].
  - intros c' p [Hne Hp]%Hh. destruct (H3 c' p Hp). split; [|done]. apply elem_of_difference. split; [done|].
    intros ->%elem_of_singleton. by apply Hne, (H4 c' c ck).
  - intros c1 c2 p [_ ?]%Hh [_ ?]%Hh. by eapply H4.
  - intros p [[?|[c' Hp]]%H5 Hne]%elem_of_difference; [by left|]. right. exists c'. apply Hh. split; [|done].
    intros ->. apply Hne, elem_of_singleton. unfold holds in *. rewrite Hc in Hp. naive_solver.
Qed.

Lemma steps_clerks r r' : clerks_ok r → steps r r' → clerks_ok r'.
Proof.
  intros Hok Hs. destruct Hs as [| | | | | | |c ck v rs Hc Hv Hk Hl|]; try done; try (by destruct Hok).
  - by apply clerks_ok_make.
  - by pose proof (clerks_ok_collect c ck r Hc Hok) as [].
  - by eapply clerks_ok_delete.
Qed.

Lemma start_clerks : maker_ok m0 → clerks_ok (SpawnClientsAndWait n w0 m0).
Proof.
  assert (∀ c p, ¬ holds c p (SpawnClientsAndWait n w0 m0)) as Hno.
  { intros c p. unfold holds. simpl. intros [[? _]%lookup_replicate|[? _]%lookup_replicate]; discriminate. }
  split; simpl; try done; [|intros p|]; [intros c p Hh|intros c' p' Hh|auto]; by destruct (Hno _ _ Hh).
Qed.

Lemma run_clerks es r : maker_ok m0 → run_events es (SpawnClientsAndWait n w0 m0) = Done r → clerks_ok r.
Proof. intros Hm. apply run_events_ind; [exact steps_clerks|by apply start_clerks]. Qed.

(** No step fails: a clerk can be made whenever one is, and deleted. *)
Lemma exec_event_total e r : clerks_ok r → is_Some (match exec_event e r with Done r' => Some r' | _ => None end).
Proof.
  intros [H1 H2 H3 H4 H5]. unfold exec_event. destruct e as [| |c| |c|c|c]; try (by eexists).
  - destruct (threads r !! c) as [[]|]; try (by eexists).
    destruct (MakeClerk_law (maker r) H1) as (p & m & -> & _). by eexists.
  - destruct (threads r !! c) as [[| |ck|]|] eqn:Hc; try (by eexists).
    destruct (DeleteClerk_law ck (maker r) H1) as (m & -> & _); [apply (H3 c); by right|by eexists].
Qed.

Lemma run_events_total es : ∀ r, clerks_ok r → ∃ r', run_events es r = Done r'.
Proof.
  induction es as [|e es IH]; intros r Hr; [by eexists|]. unfold run_events. cbn [for_each].
  destruct (exec_event_total e r Hr) as [r1 H1]. destruct (exec_event e r) as [r2| | |] eqn:E; try done.
  apply IH. eapply steps_clerks; [exact Hr|by eapply exec_event_steps].
Qed.

(** (C22) However the goroutines are scheduled, no step of a run fails; when
    [SpawnClientsAndWait] returns, it has the values of all clients, in the order
    of the clients; and once the clients are done too, the clerks they made
    are deleted and all others are there. *)
Theorem SpawnClientsAndWait_spec es :
  maker_ok m0 →
  ∃ r, run_events es (SpawnClientsAndWait n w0 m0) = Done r ∧
    (∀ rs, caller r = Returned rs →
       length rs = n ∧ (∀ c v, rs !! c = Some v → value c (world r) = Some v) ∧ ∀ c, (c < n)%nat → past c r) ∧
    (Forall (eq Finished) (threads r) → clerks (maker r) = clerks m0).
Proof.
  intros Hm. destruct (run_events_total es _ (start_clerks Hm)) as [r Hr]. exists r. split; [done|].
  pose proof (run_values es r Hr) as [H1 _ H3 H4 H5]. pose proof (run_clerks es r Hm Hr) as [_ K2 _ _ K5].
  unfold collected in *. split.
  - intros rs Hk. rewrite Hk in H4, H5. specialize (H3 rs Hk). split_and!; [done|done|].
    intros c Hc. apply H5. lia.
  - intros Hall. apply set_eq. intros p. split; [|apply K2].
    intros [?|[c [Hc|Hc]]]%K5; [done| |]; pose proof (Forall_lookup_1 _ _ _ _ Hall Hc); done.
Qed.

(** A client that has not returned, and never will, is waited for. *)
Lemma lost_client_hangs (F : W → Prop) c es es' r r' :
  (∀ w, F w → value c w = None) → (∀ a w, F w → F (inner a w)) →
  (∀ c' b w w', F w → poll c' b w = Some w' → F w') → (c < n)%nat →
  run_events es (SpawnClientsAndWait n w0 m0) = Done r → F (world r) →
  run_events es' r = Done r' → ∀ rs, caller r' ≠ Returned rs.
Proof.
  intros HF Hin Hpoll Hc Hr HFr Hr' rs Hk.
  assert (values_ok r') as [_ _ H3 H4 _] by (eapply run_events_ind; [exact steps_values|by eapply run_values|exact Hr']).
  assert (F (world r')) as HF'.
  { eapply (run_events_ind (λ r, F (world r))); [|exact HFr|exact Hr'].
    intros r1 r2 HF1 Hs. destruct Hs; simpl; eauto. }
  unfold collected in H4. rewrite Hk in H4. specialize (H3 rs Hk).
  destruct (lookup_lt_is_Some_2 rs c) as [v Hv]; [lia|]. specialize (HF _ HF'). by rewrite (H4 c v Hv) in HF.
Qed.

(** ** Tokens

    Clients that return when they are told, and only then. *)
Class Obedient (J : W → Prop) := {
  ob_inner : ∀ a w, J w → J (inner a w) ∧ ∀ c, value c (inner a w) = value c w;
  ob_poll : ∀ c b w w', J w → poll c b w = Some w' →
    J w' ∧ (∀ c', c' ≠ c → value c' w' = value c' w) ∧ value c w = None ∧ (is_Some (value c w') ↔ b = true)
}.

Definition told (w : W) : nat := length (filter (λ c, is_Some (value c w)) (seq 0 n)).

(** How many tokens have been taken. *)
Definition tokens r : nat := match caller r with Sleeping => 0 | Sending i | Blocked i => i | _ => n end.

Lemma told_same w w' : (∀ c, value c w' = value c w) → told w' = told w.
Proof.
  intros Hv. unfold told. f_equal. apply list_filter_iff. intros c. by rewrite Hv.
Qed.

Lemma filter_seq_flip (P Q : nat → Prop) `{∀ x, Decision (P x)} `{∀ x, Decision (Q x)} c k : ∀ j,
  ¬ P c → Q c → (∀ x, x ≠ c → (P x ↔ Q x)) →
  length (filter Q (seq j k)) = (length (filter P (seq j k)) + if decide (j <= c < j + k)%nat then 1 else 0)%nat.
Proof.
  induction k as [|k IH]; intros j HP HQ Hne; [simpl; by rewrite decide_False by lia|].
  cbn [seq]. rewrite !filter_cons. specialize (IH (S j) HP HQ Hne).
  destruct (decide (j = c)) as [->|Hj].
  - rewrite decide_True, decide_False by done. simpl. rewrite IH, decide_False, decide_True by lia. lia.
  - destruct (decide (P j)) as [Hp|Hp].
    + rewrite (decide_True (P := Q j)) by by apply Hne. simpl. rewrite IH. repeat case_decide; lia.
    + rewrite (decide_False (P := Q j)) by (rewrite <- Hne by done; done). rewrite IH. repeat case_decide; lia.
Qed.

Record told_ok (J : W → Prop) r : Prop := {
  t_j : J (world r);
  t_told : told (world r) = tokens r;
  t_more : ∀ i, caller r = Sending i ∨ caller r = Blocked i → (i < n)%nat;
  t_run : ∀ c, is_Some (value c (world r)) → threads r !! c ≠ Some Started
}.

Lemma send_next_tokens i r : (i <= n)%nat → tokens (set_caller (send_next i n) r) = i.
Proof. intros Hi. unfold tokens, send_next, collect_next. simpl. repeat case_decide; lia. Qed.

Lemma is_running_thread c r : is_running c r = true → (c < length (threads r))%nat ∧ threads r !! c ≠ Some Started.
Proof.
  unfold is_running. destruct (threads r !! c) as [[]|] eqn:E; try done. intros _. split; [by eapply lookup_lt_Some|done].
Qed.

Lemma steps_told J `{!Obedient J} r r' : values_ok r → told_ok J r → steps r r' → told_ok J r'.
Proof.
  intros Hval [H1 H2 H3 H4] Hs. pose proof (v_len _ Hval) as Hn.
  assert (∀ i w, told w = i → (i <= n)%nat → J w →
    (∀ c, is_Some (value c w) → threads r !! c ≠ Some Started) →
    told_ok J (set_caller (send_next i n) (set_world w r))) as Hsend.
  { intros i w Ht Hi HJ Hrun. split; [done|rewrite send_next_tokens by done; exact Ht| |exact Hrun].
    intros j. simpl. unfold send_next, collect_next. repeat case_decide; naive_solver. }
  destruct Hs as [|Hk|i Hk|c ck m Hc Hm|a Ha|c i w Hrun Hk Hp|c w Hrun Hp|c ck v rs Hc Hv Hk Hl|c ck m Hc Hm].
  - done.
  - rewrite Hn. apply (Hsend 0%nat (world r)); [|lia|done|done]. unfold tokens in H2. by rewrite Hk in H2.
  - split; simpl; [done| | |done]; unfold tokens in *; rewrite Hk in H2; [exact H2|].
    intros j [|[= <-]]; [done|]. apply H3. by left.
  - split; [done|exact H2|exact H3|]. simpl. intros c' Hs [(_ & E & _)|[_ E]]%list_lookup_insert_Some; [done|].
    by apply (H4 c').
  - destruct (ob_inner a (world r) H1) as [HJ Hsame]. split; [done|simpl; by rewrite (told_same _ _ Hsame)|exact H3|].
    simpl. intros c. rewrite Hsame. apply H4.
  - destruct (ob_poll c true (world r) w H1 Hp) as (HJ & Hother & Hnone & [_ Hsome]).
    apply is_running_thread in Hrun as [Hlt Hst]. rewrite Hn in *.
    assert (told (world r) = i) as Hi by (unfold tokens in H2; by rewrite Hk in H2).
    assert ((i < n)%nat) as Hin by (apply H3; by right).
    apply Hsend; [|lia|done|].
    + unfold told in *. rewrite (filter_seq_flip (λ c, is_Some (value c (world r))) _ c); [rewrite Hi, decide_True by lia; lia| | |].
      * rewrite Hnone. by intros [? ?].
      * by apply Hsome.
      * intros x Hx. by rewrite Hother.
    + intros c' Hc'. destruct (decide (c' = c)) as [->|Hx]; [done|]. apply H4. by rewrite <- Hother.
  - destruct (ob_poll c false (world r) w H1 Hp) as (HJ & Hother & Hnone & [Hno _]).
    assert (∀ c', value c' w = value c' (world r)) as Hsame.
    { intros c'. destruct (decide (c' = c)) as [->|?]; [|by apply Hother]. rewrite Hnone.
      destruct (value c w) eqn:E; [|done]. by specialize (Hno ltac:(by eexists)). }
    split; [done|simpl; by rewrite (told_same _ _ Hsame)|exact H3|]. simpl. intros c'. rewrite Hsame. apply H4.
  - unfold tokens in H2. rewrite Hk in H2. split; simpl; [done| | |].
    + unfold tokens, collect_next. simpl. by case_decide.
    + intros j. unfold collect_next. case_decide; naive_solver.
    + intros c' Hs [(_ & E & _)|[_ E]]%list_lookup_insert_Some; [done|]. by apply (H4 c').
  - split; [done|exact H2|exact H3|]. simpl. intros c' Hs [(_ & E & _)|[_ E]]%list_lookup_insert_Some; [done|].
    by apply (H4 c').
Qed.

Lemma start_told J : J w0 → (∀ c, value c w0 = None) → told_ok J (SpawnClientsAndWait n w0 m0).
Proof.
  intros HJ Hnone. split; simpl; [done| |by intros i [?|?]|by intros c; rewrite Hnone; intros [? ?]].
  unfold told, tokens. simpl. rewrite filter_none; [done|]. intros c _. rewrite Hnone. by intros [? ?].
Qed.

Lemma run_told J `{!Obedient J} es r :
  J w0 → (∀ c, value c w0 = None) → run_events es (SpawnClientsAndWait n w0 m0) = Done r → told_ok J r.
Proof.
  intros HJ Hnone Hr.
  assert (values_ok r ∧ told_ok J r) as [_ ?]; [|done].
  eapply (run_events_ind (λ r, values_ok r ∧ told_ok J r)); [|split; [exact start_values|by apply start_told]|exact Hr].
  intros r1 r2 [Hv Ht] Hs. split; [by eapply steps_values|by eapply steps_told].
Qed.

(** All are told: the values are there for the taking. *)
Lemma collect_all k : ∀ r rs,
  values_ok r → caller r = Collecting rs → (length rs + k = n)%nat → (0 < k)%nat →
  (∀ c, (c < n)%nat → is_Some (value c (world r)) ∧ threads r !! c ≠ Some Started) →
  ∃ r' rs', run_events (Collect <$> seq (length rs) k) r = Done r' ∧ caller r' = Returned rs'.
Proof.
  induction k as [|k IH]; intros r rs Hval Hk Hlen Hpos Hall; [lia|].
  pose proof Hval as [H1 _ _ _ H5]. unfold collected in H5. rewrite Hk in H5.
  destruct (Hall (length rs)) as [[v Hv] Hst]; [lia|].
  destruct (threads r !! length rs) as [[|ck|ck|]|] eqn:Hc; try done.
  2: { exfalso. apply (Nat.lt_irrefl (length rs)), H5. exists (Deleting ck). eauto. }
  2: { exfalso. apply (Nat.lt_irrefl (length rs)), H5. exists Finished. eauto. }
  2: { exfalso. apply lookup_ge_None in Hc. lia. }
  set (r1 := set_caller (collect_next (rs ++ [v]) (length (threads r))) (set_thread (length rs) (Deleting ck) r)).
  assert (exec_event (Collect (length rs)) r = Done r1) as E1.
  { simpl. rewrite Hc, Hv, Hk. by rewrite decide_True. }
  cbn [seq fmap list_fmap]. unfold run_events. cbn [for_each]. rewrite E1. cbn [mbind outcome_bind].
  destruct (decide (k = 0%nat)) as [->|Hk0].
  - exists r1, (rs ++ [v]). split; [done|]. simpl. unfold collect_next. rewrite decide_False; [done|].
    rewrite length_app. simpl. lia.
  - assert (caller r1 = Collecting (rs ++ [v])) as Hk1.
    { simpl. unfold collect_next. rewrite decide_True; [done|]. rewrite length_app. simpl. lia. }
    destruct (IH r1 (rs ++ [v])) as (r' & rs' & Hr' & Hret); [|done|rewrite length_app; simpl; lia|lia| |].
    + eapply steps_values; [exact Hval|by eapply exec_event_steps].
    + intros c Hc'. simpl. split; [by apply Hall|].
      intros [(_ & E & _)|[_ E]]%list_lookup_insert_Some; [done|]. by destruct (Hall c Hc') as [_ ?].
    + exists r', rs'. split; [|done]. rewrite length_app in Hr'. simpl in Hr'. by rewrite Nat.add_1_r in Hr'.
Qed.

(** The tokens are as many as are needed, for clients that return when they
    are told and only then: while [SpawnClientsAndWait] sends, some client has
    not been told, so that the send has a receiver to wait for; and once it has
    sent them all, every client has a value to give, and it returns by taking them
    one after the other. *)
Theorem tokens_suffice J `{!Obedient J} es r :
  J w0 → (∀ c, value c w0 = None) → run_events es (SpawnClientsAndWait n w0 m0) = Done r →
  (∀ i, caller r = Sending i ∨ caller r = Blocked i → ∃ c, (c < n)%nat ∧ value c (world r) = None) ∧
  (∀ rs, caller r = Collecting rs → ∃ es' r' rs', run_events es' r = Done r' ∧ caller r' = Returned rs').
Proof.
  intros HJ Hnone Hr. pose proof (run_values es r Hr) as Hval. destruct (run_told J es r HJ Hnone Hr) as [T1 T2 T3 T4].
  split.
  - intros i Hk. pose proof (T3 i Hk) as Hi.
    destruct (decide (Exists (λ c, value c (world r) = None) (seq 0 n))) as [Hex|Hall].
    + apply Exists_exists in Hex as (c & Hc%elem_of_seq & Hv). exists c. split; [lia|done].
    + exfalso. assert (told (world r) = n) as E.
      { unfold told. rewrite filter_all; [apply length_seq|]. apply Forall_forall. intros c Hc.
        destruct (value c (world r)) eqn:Ev; [by eexists|]. exfalso. apply Hall, Exists_exists. by exists c. }
      unfold tokens in T2. destruct Hk as [Hk|Hk]; rewrite Hk in T2; lia.
  - intros rs Hk. unfold tokens in T2. rewrite Hk in T2. pose proof (v_col _ Hval rs Hk) as Hlt.
    destruct (collect_all (n - length rs) r rs) as (r' & rs' & Hr' & Hret); [done|done|lia|lia| |by eauto 10].
    intros c Hc. assert (is_Some (value c (world r))) as Hv; [|split; [done|by apply T4]].
    destruct (value c (world r)) eqn:Ev; [by eexists|]. exfalso.
    assert (told (world r) < n)%nat; [|lia].
    unfold told. rewrite <- (length_seq n 0) at 2. apply (length_filter_lt _ (seq 0 n) c); [apply elem_of_seq; lia|].
    rewrite Ev. by intros [? ?].
Qed.
End Runs.

(** ** Runs of clients of the documented service *)
Section World.
Context {SV : Service} {T : Type} {CM : IClerkMaker T} {CML : ClerkMakerLaws T}.
Implicit Types (w : World ClntRes).

(** The actions of the clients that a schedule makes. *)
Definition keeps (e : @event (World ClntRes) _) : Prop :=
  match e with Inner a => keeps_replies a | _ => True end.

Lemma inner_world a w : ∃ acts, inner a w = run acts w ∧ (keeps_replies a → Forall keeps_replies acts).
Proof.
  destruct a as [d|c|c lost|c|c b|c x];
    [exists [Tick d]|exists [Begin c]|exists [Effect c lost]|exists [End c]|by exists []|exists [Drawn c x]];
    (split; [done|]); intros Hk; by constructor.
Qed.

Lemma poll_world c b w w' : poll c b w = Some w' → w' = exec (Chosen c b) w.
Proof. unfold poll, world_goroutines. simpl. by destruct (clients w !! c) as [[[] []]|]; intros [= <-]. Qed.

Lemma exec_event_world e (r r' : Run (World ClntRes) T) :
  exec_event e r = Done r' → ∃ acts, world r' = run acts (world r) ∧ (keeps e → Forall keeps_replies acts).
Proof.
  assert (∀ r1 : Run (World ClntRes) T, world r = world r1 →
    ∃ acts, world r1 = run acts (world r) ∧ (keeps e → Forall keeps_replies acts)) as Hsame.
  { intros r1 <-. by exists []. }
  assert (∀ c b w', poll c b (world r) = Some w' → ∃ acts, w' = run acts (world r) ∧ (keeps e → Forall keeps_replies acts))
    as Hpoll.
  { intros c b w' ->%poll_world. exists [Chosen c b]. split; [done|]. by repeat constructor. }
  unfold exec_event. destruct e as [| |c|a|c|c|c]; intros Hx.
  - apply Hsame. injection Hx as <-. by destruct (caller r).
  - apply Hsame. injection Hx as <-. by destruct (caller r).
  - apply Hsame. destruct (threads r !! c) as [[]|]; try by injection Hx as <-.
    by apply bind_Done in Hx as ([ck m] & _ & [= <-]).
  - apply Done_inj in Hx as <-. destruct (who a) as [c|]; [destruct (is_running c r); [|by apply Hsame]|]; apply inner_world.
  - apply Done_inj in Hx as <-. destruct (is_running c r); [|by apply Hsame].
    destruct (caller r); (match goal with |- context [poll ?c ?b ?w] => destruct (poll c b w) eqn:Ep end;
      [by eapply Hpoll|by apply Hsame]).
  - apply Hsame. apply Done_inj in Hx as <-. destruct (threads r !! c) as [[]|]; try done.
    destruct (value c (world r)); [|done]. destruct (caller r); try done. by case_decide.
  - apply Hsame. destruct (threads r !! c) as [[]|]; try by injection Hx as <-.
    by apply bind_Done in Hx as (m & _ & [= <-]).
Qed.

Lemma run_events_world es : ∀ (r r' : Run (World ClntRes) T),
  run_events es r = Done r' → ∃ acts, world r' = run acts (world r) ∧ (Forall keeps es → Forall keeps_replies acts).
Proof.
  induction es as [|e es IH]; intros r r' Hrun; [injection Hrun as <-; by exists []|].
  unfold run_events in Hrun. cbn [for_each] in Hrun. apply bind_Done in Hrun as (r1 & H1 & Hrun).
  destruct (exec_event_world e r r1 H1) as (acts1 & E1 & K1). destruct (IH r1 r' Hrun) as (acts2 & E2 & K2).
  exists (acts1 ++ acts2). split.
  - rewrite E2, E1. unfold run. by rewrite foldl_app.
  - intros [? ?]%Forall_cons. apply Forall_app. auto.
Qed.

(** A run of [SpawnClientsAndWait] is a run of its clients, and what it
    returns is what they returned. *)
Lemma spawned_run H0 fns (m : T) es r :
  run_events es (SpawnClientsAndWait (length fns) (spawn H0 fns) m) = Done r →
  ∃ acts, world r = run acts (spawn H0 fns) ∧ (Forall keeps es → Forall keeps_replies acts) ∧
    ∀ rs, caller r = Returned rs → results (world r) = Some rs.
Proof.
  intros Hr. destruct (run_events_world es _ _ Hr) as (acts & E & K). exists acts. split_and!; [exact E|exact K|].
  intros rs Hk. pose proof (run_values (length fns) (spawn H0 fns) m es r Hr) as [_ _ H3 H4 _].
  unfold collected in H4. rewrite Hk in H4. specialize (H3 rs Hk).
  assert (length (clients (world r)) = length rs) as Hlen.
  { rewrite E, run_clients, H3. simpl. by rewrite length_fmap. }
  unfold results. apply mapM_Some. apply Forall2_lookup. intros c.
  destruct (rs !! c) as [v|] eqn:Hv.
  - apply H4, value_world in Hv. rewrite Hv. by constructor.
  - apply lookup_ge_None in Hv. rewrite (proj2 (lookup_ge_None _ _)) by lia. constructor.
Qed.

(** ** Clients that fail *)
Definition gone (c : nat) w : Prop := ∃ m ph, clients w !! c = Some (mkClient (Ends m) ph) ∧ is_done m = false.

Lemma exec_gone a c w : gone c w → gone c (exec a w).
Proof.
  intros (m & ph & Hc & Hm). exists m, ph. split; [|done].
  assert (∀ c' p ph', (∃ cl, clients w !! c' = Some cl ∧ ∀ m, code cl ≠ Ends m) →
    <[c' := mkClient p ph']> (clients w) !! c = Some (mkClient (Ends m) ph)) as Hset.
  { intros c' p ph' (cl & Hcl & Hne). destruct (decide (c' = c)) as [->|]; [|by rewrite list_lookup_insert_ne].
    rewrite Hc in Hcl. injection Hcl as <-. by destruct (Hne m). }
  destruct a as [d|c'|c' lost|c'|c' b|c' r]; simpl; [done|..];
    destruct (clients w !! c') as [[[m'|lg key cli k|lg key value ver cli k|k|k] [|t|i]]|] eqn:Hc'; try done;
    try (destruct (hist w !! i); [|done]); try (destruct (0 <=? r); [|done]);
    (apply Hset; eexists; split; [done|discriminate]).
Qed.

(** (C23) A client that fails is waited for for ever: [Fatalf] ends its goroutine, not
    the test, and nobody takes its token or its place on its channel. Once
    a client has failed, or has panicked, [SpawnClientsAndWait] does not return, whatever
    is scheduled. *)
Theorem failed_client_hangs n w0 (m : T) c es es' (r r' : Run (World ClntRes) T) :
  (c < n)%nat → run_events es (SpawnClientsAndWait n w0 m) = Done r → gone c (world r) →
  run_events es' r = Done r' → ∀ rs, caller r' ≠ Returned rs.
Proof.
  intros Hc Hr Hgone Hr'. apply (lost_client_hangs n w0 m (gone c) c es es' r r'); try done.
  - intros w ([]& [] & Hw & Hm); try done; simpl; by rewrite Hw.
  - intros a w Hw. destruct a; try (by apply exec_gone). exact Hw.
  - intros c' b w w' Hw ->%poll_world. by apply exec_gone.
Qed.

(** ** Obedient clients *)
Fixpoint quiet {A} (p : prog A) : Prop :=
  match p with
  | Ends _ => True
  | CkGet _ _ _ k => ∀ r, quiet (k r)
  | CkPut _ _ _ _ _ k => ∀ r, quiet (k r)
  | Select _ => False
  | Rand k => ∀ r, quiet (k r)
  end.

(** It returns when it finds a token, and only then. *)
Fixpoint obeys (p : prog ClntRes) : Prop :=
  match p with
  | Ends m => is_done m = false
  | CkGet _ _ _ k => ∀ r, obeys (k r)
  | CkPut _ _ _ _ _ k => ∀ r, obeys (k r)
  | Select k => (∃ v, k true = Ends (Done v)) ∧ obeys (k false)
  | Rand k => ∀ r, obeys (k r)
  end.

Lemma obeys_bind {A} (p : prog A) (f : A → prog ClntRes) : quiet p → (∀ a, obeys (f a)) → obeys (p ≫= f).
Proof. induction p as [[a| | |]| | | |]; simpl; intros; auto; done. Qed.

Lemma quiet_bind {A B} (p : prog A) (f : A → prog B) : quiet p → (∀ a, quiet (f a)) → quiet (p ≫= f).
Proof. induction p as [[a| | |]| | | |]; simpl; intros; auto; done. Qed.

Definition all_obey w : Prop :=
  ∀ c cl, clients w !! c = Some cl → obeys (code cl) ∨ ∃ v, cl = mkClient (Ends (Done v)) Idle.

Lemma value_obeys c w p ph : clients w !! c = Some (mkClient p ph) → obeys p → value c w = None.
Proof. intros Hc Hp. simpl. rewrite Hc. by destruct p as [[]| | | |], ph. Qed.

Lemma set_client_obeys c p p' ph ph' w :
  all_obey w → clients w !! c = Some (mkClient p ph) → (∀ m, p ≠ Ends m) → obeys p' →
  all_obey (set_client c p' ph' w) ∧ ∀ c', value c' (set_client c p' ph' w) = value c' w.
Proof.
  intros Hw Hc Hne Hp'. split.
  - intros c' cl. simpl. intros [(-> & <- & _)|[_ Hcl]]%list_lookup_insert_Some; [by left|by apply (Hw c')].
  - intros c'. destruct (decide (c = c')) as [<-|Hx].
    + rewrite (value_obeys c (set_client c p' ph' w) p' ph'); [| |done].
      * symmetry. eapply value_obeys; [exact Hc|]. destruct (Hw c _ Hc) as [?|[v E]]; [done|]. injection E as -> _.
        by destruct (Hne (Done v)).
      * simpl. apply list_lookup_insert_eq. by eapply lookup_lt_Some.
    + simpl. by rewrite list_lookup_insert_ne.
Qed.

#[export] Instance all_obey_obedient : Obedient all_obey.
Proof.
  split.
  - intros a w Hw.
    assert (∀ c cl, clients w !! c = Some cl → (∀ v, cl ≠ mkClient (Ends (Done v)) Idle) → obeys (code cl)) as Hob.
    { intros c cl Hcl Hne. destruct (Hw c cl Hcl) as [?|[v ->]]; [done|]. by destruct (Hne v). }
    destruct a as [d|c|c lost|c|c b|c x]; [by split|..|by split|];
      simpl inner; unfold exec;
      (destruct (clients w !! c) as [[[m|lg key cli k|lg key value ver cli k|k|k] [|t|i]]|] eqn:Hc; try by split);
      try (destruct (hist w !! i); [|by split]); try (destruct (0 <=? x); [|by split]);
      specialize (Hob c _ Hc ltac:(discriminate)); simpl in Hob.
    all: eapply set_client_obeys; [done|exact Hc|discriminate|exact Hob || apply Hob].
  - intros c b w w' Hw Hp. unfold poll, world_goroutines in Hp. simpl in Hp.
    destruct (clients w !! c) as [[[m|lg key cli k|lg key value ver cli k|k|k] [|t|i]]|] eqn:Hc; try done.
    injection Hp as <-. destruct (Hw c _ Hc) as [[[v Hv] Hf]|[v E]]; [|done]. simpl in Hv, Hf.
    assert (value c w = None) as Hnone by (by simpl; rewrite Hc).
    destruct b.
    + rewrite Hv. split_and!; [| |done|].
      * intros c' cl. simpl. intros [(-> & <- & _)|[_ Hcl]]%list_lookup_insert_Some; [right; by eexists|by apply (Hw c')].
      * intros c' Hx. simpl. by rewrite list_lookup_insert_ne.
      * split; [done|]. intros _. exists v. apply value_world. simpl. apply list_lookup_insert_eq. by eapply lookup_lt_Some.
    + destruct (set_client_obeys c _ (k false) _ Idle w Hw Hc ltac:(discriminate) Hf) as [Hw' Hsame].
      split_and!; [done|auto|done|]. rewrite Hsame, Hnone. split; [by intros [? ?]|done].
Qed.

Lemma spawn_obeys H0 fns :
  Forall obeys fns → all_obey (spawn H0 fns) ∧ ∀ c, value c (spawn H0 fns) = None.
Proof.
  intros Hall.
  assert (∀ c cl, clients (spawn H0 fns) !! c = Some cl → at_phase cl = Idle ∧ obeys (code cl)) as Hcl.
  { intros c cl. simpl. rewrite list_lookup_fmap. destruct (fns !! c) as [p|] eqn:Hp; [|done]. intros [= <-].
    by pose proof (Forall_lookup_1 _ _ _ _ Hall Hp). }
  split.
  - intros c cl Hc. left. by apply (Hcl c cl Hc).
  - intros c. destruct (clients (spawn H0 fns) !! c) as [[p ph]|] eqn:Hc; [|by unfold value, world_goroutines; rewrite Hc].
    apply (value_obeys c _ p ph); [done|]. by apply (Hcl c _ Hc).
Qed.
End World.

(** ** The clients of the harness *)
Section Harness.
Context {SV : Service} {SVD : Documented SV} {JV : Json EntryV} {JVL : JsonLaws EntryV} {JE : Json (list entry)} {JEL : JsonLaws (list entry)}.

Lemma quiet_Get key cli : quiet (Get key cli).
Proof. done. Qed.

Lemma quiet_PutJson {V} `{Json V} key (v : V) ver me : quiet (PutJson key v ver me).
Proof. unfold PutJson. by destruct (Marshal v). Qed.

Lemma quiet_GetJson {V} `{Json V} key me : quiet (GetJson (V := V) key me).
Proof.
  apply quiet_bind; [apply quiet_Get|]. intros [[val ver] err]. case_decide; [|done]. by destruct (Unmarshal val).
Qed.

Lemma quiet_OnePut fuel me key : ∀ ver, quiet (OnePut fuel me key ver).
Proof.
  induction fuel as [|fuel IH]; intros ver; [done|]. cbn [OnePut]. apply quiet_bind; [apply quiet_PutJson|]. intros err.
  case_match; [done|]. apply quiet_bind; [apply quiet_GetJson|]. intros [e ver0]. repeat case_match; done || apply IH.
Qed.

Lemma quiet_pick_key randomkeys ka : quiet (pick_key randomkeys ka).
Proof. unfold pick_key. destruct (slice_get ka 0); [|done..]. by destruct randomkeys. Qed.

Lemma obeys_OneClientPut randomkeys fuel cli ka : obeys (OneClientPut randomkeys fuel cli ka).
Proof.
  unfold OneClientPut. generalize (mkClntRes 0 0), (list_to_map ((λ k, (k, 0)) <$> ka) : gmap string Z).
  induction fuel as [|fuel IH]; intros res verm; [done|]. cbn [one_client_put obeys]. split; [by exists res|].
  apply obeys_bind; [apply quiet_pick_key|]. intros k. apply obeys_bind; [apply quiet_OnePut|]. intros [v ok]. apply IH.
Qed.

Lemma quiet_append_one fuel me i : quiet (append_one fuel me i).
Proof.
  induction fuel as [|fuel IH]; [done|]. cbn [append_one]. apply quiet_bind; [apply quiet_GetJson|]. intros [es ver].
  apply quiet_bind; [apply quiet_PutJson|]. intros err. repeat case_decide; done || apply IH.
Qed.

Lemma obeys_OneClientAppend fuel me : obeys (OneClientAppend fuel me).
Proof.
  unfold OneClientAppend. assert (∀ i nok nmay, obeys (one_client_append fuel me i nok nmay)) as Hall; [|apply Hall].
  induction fuel as [|fuel IH]; intros i nok nmay; [done|]. cbn [one_client_append obeys]. split; [by eexists|].
  apply obeys_bind; [apply quiet_append_one|]. intros ok. destruct ok; apply IH.
Qed.

Lemma put_clients_obey randomkeys fuel n ka : Forall obeys (put_clients randomkeys fuel n ka).
Proof. apply Forall_fmap, Forall_true. intros c. apply obeys_OneClientPut. Qed.

Lemma length_put_clients randomkeys fuel n ka : length (put_clients randomkeys fuel n ka) = n.
Proof. unfold put_clients. by rewrite length_fmap, length_seq. Qed.

Context {T : Type} {CM : IClerkMaker T} {CML : ClerkMakerLaws T}.
Variable lossy : bool.

(** Clients that put concurrently, as the tests run them: however the goroutines
    of [SpawnClientsAndWait] and the operations of the service interleave, and
    whatever replies are lost, what it returns passes the check of the number
    of puts against the service's version of the key, and the sums can be
    carried to another round. *)
Theorem spawned_puts_check key randomkeys fuel n H0 (m : T) es r rs res0 os :
  run_events es (SpawnClientsAndWait n (spawn H0 (put_clients randomkeys fuel n [key])) m) = Done r →
  caller r = Returned rs → (lossy = false → Forall keeps es) →
  entries_stored [key] H0 → counted lossy key H0 res0 →
  let H := hist (world r) in
  bounded H → is_Some (store_of H !! key) →
  ∃ res, alone (CheckPutConcurrent key rs res0 (negb lossy)) os H = Done (res, H ++ [get_event 0 true key (-1) 0 0 H]) ∧
    counted lossy key H res.
Proof.
  intros Hr Hk Hl HI Hc H Hb Hs. pose proof (length_put_clients randomkeys fuel n [key]) as Hn.
  rewrite <- Hn in Hr at 1. destruct (spawned_run H0 _ m es r Hr) as (acts & E & K & Hres).
  specialize (Hres rs Hk). subst H. rewrite E in *. eapply puts_check_passes; eauto.
Qed.

(** (C20) The same for clients that append concurrently: the list they leave in
    the service passes [CheckAppends] with what [SpawnClientsAndWait] returned. *)
Theorem spawned_appends_check n fuel H0 (m : T) es r rs order :
  run_events es (SpawnClientsAndWait n (spawn H0 (append_clients n fuel)) m) = Done r →
  caller r = Returned rs → (lossy = false → Forall keeps es) →
  list_stored H0 → stored_entries H0 = [] → (∀ m, order m ≡ₚ elements (dom m)) →
  let H := hist (world r) in
  bounded H →
  ∃ H', alone ('(es, ver) ← GetJson "k" (-1); Ends (CheckAppends order es n rs ver)) [] H = Done ((), H').
Proof.
  intros Hr Hk Hl HI He Ho H Hb.
  assert (length (append_clients n fuel) = n) as Hn by (unfold append_clients; by rewrite length_fmap, length_seq).
  rewrite <- Hn in Hr at 1. destruct (spawned_run H0 _ m es r Hr) as (acts & E & K & Hres).
  specialize (Hres rs Hk). subst H. rewrite E in *. eapply (appends_check_passes lossy); eauto.
Qed.
End Harness.

(** ** Witnesses *)
#[local] Existing Instances json_EntryV json_EntryV_laws json_entries json_entries_laws kv_service kv_documented.

(** A run of clients as a schedule: the looks at [done] before the tokens find
    nothing. *)
Definition as_event (a : action) : @event (World ClntRes) world_goroutines :=
  match a with Chosen c _ => Poll c | a => @Inner (World ClntRes) world_goroutines a end.

(** Two clients are made, take the steps [acts], are told, and are done. *)
Definition two_spawned (acts : list action) : list (@event (World ClntRes) world_goroutines) :=
  [Make 0; Make 1] ++ (as_event <$> acts) ++
  [Wake; Enter; Poll 1; Enter; Poll 0; Collect 0; Collect 1; Delete 1; Delete 0].

Definition untold (acts : list action) : list action := take (length acts - 2) acts.

Definition spawned_race := SpawnClientsAndWait 2 (spawn [] (put_clients false 9 2 ["k"%string])) bare_test.

Definition race_end := result (run_events (two_spawned (untold race)) spawned_race) spawned_race.

Lemma race_end_run : run_events (two_spawned (untold race)) spawned_race = Done race_end.
Proof. apply result_Done. vm_compute. reflexivity. Qed.

Lemma race_end_returned : caller race_end = Returned [mkClntRes 1 0; mkClntRes 1 1].
Proof. vm_compute. reflexivity. Qed.

Lemma SpawnClientsAndWait_spec_witness :
  ∃ r, run_events (two_spawned (untold race)) spawned_race = Done r ∧
    ∃ rs, caller r = Returned rs ∧ length rs = 2%nat ∧ clerks (maker r) = ∅.
Proof.
  destruct (SpawnClientsAndWait_spec 2 (spawn [] (put_clients false 9 2 ["k"%string])) bare_test (two_spawned (untold race))
    bare_test_ok) as (r & Hr & Hret & Hclerks).
  exists r. split; [exact Hr|]. assert (r = race_end) as -> by (apply Done_inj; rewrite <- Hr; exact race_end_run).
  exists [mkClntRes 1 0; mkClntRes 1 1]. split_and!; [exact race_end_returned|reflexivity|].
  rewrite Hclerks; [reflexivity|]. vm_compute. repeat constructor.
Defined.

(** The second client takes its token at once; the first goes on. *)
Definition early : list (@event (World ClntRes) world_goroutines) := [Make 0; Make 1; Wake; Enter; Poll 1; Enter].
Definition early_end := result (run_events early spawned_race) spawned_race.

Lemma tokens_suffice_witness :
  caller early_end = Blocked 1 ∧ ∃ c, (c < 2)%nat ∧ value c (world early_end) = None.
Proof.
  assert (caller early_end = Blocked 1) as Hk by (vm_compute; reflexivity). split; [exact Hk|].
  destruct (spawn_obeys [] _ (put_clients_obey false 9 2 ["k"%string])) as [Hob Hnone].
  destruct (tokens_suffice 2 (spawn [] (put_clients false 9 2 ["k"%string])) bare_test all_obey early early_end Hob Hnone)
    as [H _]; [apply result_Done; vm_compute; reflexivity|].
  apply (H 1%nat). right. exact Hk.
Defined.

(** A client that fails at once, and one that waits to be told. *)
Definition failing : list (prog ClntRes) := [Fatalf "Wrong error"; Select (λ _, mret (mkClntRes 0 0))].
Definition failing_start := SpawnClientsAndWait 2 (spawn [] failing) bare_test.
Definition all_told : list (@event (World ClntRes) world_goroutines) :=
  [Make 0; Make 1; Wake; Enter; Poll 0; Poll 1; Enter; Poll 0; Poll 1; Collect 0; Collect 1].

Lemma failed_client_hangs_witness :
  let r := result (run_events all_told failing_start) failing_start in
  caller r = Blocked 1 ∧ ∀ rs, caller r ≠ Returned rs.
Proof.
  split; [vm_compute; reflexivity|].
  apply (failed_client_hangs 2 (spawn [] failing) bare_test 0 [] all_told failing_start); [lia|reflexivity| |].
  - exists (Fatal "Wrong error"), Idle. split; reflexivity.
  - apply result_Done. vm_compute. reflexivity.
Defined.

Lemma spawned_puts_check_witness :
  ∃ res, alone (CheckPutConcurrent "k" [mkClntRes 1 0; mkClntRes 1 1] (mkClntRes 0 0) false) [] (hist (world race_end)) =
      Done (res, hist (world race_end) ++ [get_event 0 true "k" (-1) 0 0 (hist (world race_end))]) ∧
    counted true "k" (hist (world race_end)) res.
Proof.
  apply (spawned_puts_check true "k" false 9 2 [] bare_test (two_spawned (untold race)) race_end).
  - exact race_end_run.
  - exact race_end_returned.
  - intros Hl. discriminate Hl.
  - apply entries_stored_nil.
  - unfold counted. vm_compute. split_and!; done || discriminate.
  - unfold bounded. replace (length (hist _)) with 10%nat by (vm_compute; reflexivity). lia.
  - vm_compute. eexists. reflexivity.
Defined.

Definition spawned_appends := SpawnClientsAndWait 2 (spawn empty_list (append_clients 2 9)) bare_test.
Definition appends_end := result (run_events (two_spawned (untold append_race)) spawned_appends) spawned_appends.

Lemma spawned_appends_check_witness :
  ∃ rs, caller appends_end = Returned rs ∧
    ∃ H', alone ('(es, ver) ← GetJson "k" (-1); Ends (CheckAppends any_order es 2 rs ver)) [] (hist (world appends_end)) =
      Done ((), H').
Proof.
  assert (∃ rs, caller appends_end = Returned rs) as [rs Hrs] by (vm_compute; eexists; reflexivity).
  exists rs. split; [exact Hrs|].
  apply (spawned_appends_check true 2 9 empty_list bare_test (two_spawned (untold append_race)) appends_end rs any_order).
  - apply result_Done. vm_compute. reflexivity.
  - exact Hrs.
  - intros Hl. discriminate Hl.
  - exists (mkKvState (default ""%string (Marshal (V := list entry) [])) 1), [].
    split_and!; vm_compute; reflexivity.
  - vm_compute. reflexivity.
  - intros m. reflexivity.
  - unfold bounded. replace (length (hist _)) with 7%nat by (vm_compute; reflexivity). lia.
Defined.
