(* ===== verification/ClerksProps.v ===== *)
(** * ClerksProps: what the tests find when the program's clerks and controller
    are unwritten

    No test of the harness passes on clerks that answer with constants: the
    clients either fail or have done nothing, the check of their puts fails, and a put
    that is logged makes the log not linearizable. The controller that does nothing
    breaks every promise of its comments, and the tests that use it panic. *)

From S2P Require Import Prelude Labrpc Group Config Models ShardCfg KVTest KVServer KVTestProps KVLinear Porcupine GroupProps GroupStart ShardKVTest ShardKVTestProps Services ServicesProps Spawn Clerks Makers SpawnProps.

Local Open Scope Z_scope.

(** The answers of the clerks that are not written: a get of nothing, that is not OK,
    and a put that is none of the errors the harness knows. *)
Class Unwritten (C : Type) `{IKVClerk C} := {
  get_unwritten : ∀ ck key, ∃ err, ck_Get ck key = (""%string, 0, err) ∧ err ≠ OK;
  put_unwritten : ∀ ck key value ver, ck_Put ck key value ver ∉ [OK; ErrVersion; ErrMaybe]
}.

Ltac unwritten :=
  split; [intros ??; eexists; split; [reflexivity|discriminate]|
    intros ????; rewrite !not_elem_of_cons; split_and!; try discriminate; apply not_elem_of_nil].

#[export] Instance kvsrv_unwritten : Unwritten KvsrvClerk.
Proof. unwritten. Qed.
#[export] Instance kvraft_unwritten : Unwritten KvraftClerk.
Proof. unwritten. Qed.
#[export] Instance sck_unwritten : Unwritten ShardCtrlerState.
Proof. unwritten. Qed.
#[export] Instance shardkv_unwritten : Unwritten ShardkvClerk.
Proof. unwritten. Qed.
#[export] Instance shardgrp_unwritten : Unwritten ShardgrpClerk.
Proof. unwritten. Qed.

Section Unwritten.
Context {C : Type} {IC : IKVClerk C} {UC : Unwritten C}.
Variable ck : C.

Lemma on_clerk_GetJson {V A} {JV : Json V} (f : V * Z → prog A) key me os now :
  (on_clerk ck (GetJson key me ≫= f) os now).1 = Fatal "Get err".
Proof.
  destruct (get_unwritten ck key) as (err & E & Herr). unfold GetJson, Get. cbn.
  rewrite E. cbn. rewrite decide_False by done. reflexivity.
Qed.

(** ** What clients return *)

(** On its clerk the program returns [v], if it returns. *)
Fixpoint only {A} (v : A) (p : prog A) : Prop :=
  match p with
  | Ends (Done a) => a = v
  | Ends _ => True
  | CkGet _ key _ k => only v (k (ck_Get ck key))
  | CkPut _ key value ver _ k => only v (k (ck_Put ck key value ver))
  | Select k => ∀ b, only v (k b)
  | Rand k => ∀ x, only v (k x)
  end.

Lemma only_bind {A B} (v : B) (p : prog A) (f : A → prog B) : (∀ a, only v (f a)) → only v (p ≫= f).
Proof. intros Hf. induction p as [[a| | |]| | | |]; simpl; auto. Qed.

(** A put that is written as JSON fails the client. *)
Lemma only_OnePut {JV : Json EntryV} {A} (v : A) (f : Z * bool → prog A) fuel me key ver :
  only v (OnePut fuel me key ver ≫= f).
Proof.
  destruct fuel as [|fuel]; [done|]. cbn [OnePut]. unfold PutJson. destruct (Marshal _) as [b|]; [|done].
  cbn. pose proof (put_unwritten ck key b ver) as Hput. rewrite !not_elem_of_cons in Hput.
  destruct Hput as (H1 & H2 & H3 & _). by rewrite !bool_decide_eq_false_2 by done.
Qed.

Lemma only_OneClientPut {JV : Json EntryV} randomkeys fuel cli ka :
  only (mkClntRes 0 0) (OneClientPut randomkeys fuel cli ka).
Proof.
  unfold OneClientPut. destruct fuel as [|fuel]; [done|]. cbn [one_client_put only]. intros []; [done|].
  apply only_bind. intros k. apply only_OnePut.
Qed.

(** Every client of a run returns what its program can. *)
Definition all_only (w : OnClerks C) : Prop :=
  a_clerk w = ck ∧ ∀ c p, progs w !! c = Some p → only (mkClntRes 0 0) p.

Lemma all_only_set c p w :
  all_only w → only (mkClntRes 0 0) p → all_only (mkOnClerks (a_clerk w) (<[c := p]> (progs w))).
Proof.
  intros [Hck Hw] Hp. split; [done|]. intros c' p'. simpl.
  intros [(_ & <- & _)|[_ H]]%list_lookup_insert_Some; [done|by apply (Hw c')].
Qed.

Lemma inner_only (a : @Act (OnClerks C) _) w : all_only w → all_only (inner a w).
Proof.
  intros Hw. pose proof Hw as [Hck Hp]. destruct a as [c x]. simpl inner.
  destruct (progs w !! c) as [p|] eqn:Hc; [|done]. specialize (Hp c p Hc).
  destruct p as [m|lg key cli k|lg key value ver cli k|k|k]; simpl in Hp; try done;
    [..|destruct (0 <=? x); [|done]]; apply all_only_set; rewrite ?Hck; auto.
Qed.

Lemma poll_only c b w w' : all_only w → poll c b w = Some w' → all_only w'.
Proof.
  intros Hw Hp. pose proof Hw as [_ Ho]. simpl in Hp. destruct (progs w !! c) as [[| | |k|]|] eqn:Hc; try done.
  injection Hp as <-. apply all_only_set; [done|]. by apply (Ho c _ Hc).
Qed.

(** A client that has returned does nothing more. *)
#[export] Instance on_clerks_laws : GoroutinesLaws (OnClerks C).
Proof.
  assert (∀ c v w, value c w = Some v → progs w !! c = Some (Ends (Done v))) as Hval.
  { intros c v w. simpl. destruct (progs w !! c) as [[[]| | | |]|]; intros H; congruence. }
  assert (∀ c v w c' p p', value c w = Some v → progs w !! c' = Some p → (∀ m, p ≠ Ends m) →
    value c (mkOnClerks (a_clerk w) (<[c' := p']> (progs w))) = Some v) as Hset.
  { intros c v w c' p p' Hv%Hval Hc' Hne. simpl. rewrite list_lookup_insert_ne; [by rewrite Hv|].
    intros ->. rewrite Hv in Hc'. injection Hc' as <-. by destruct (Hne (Done v)). }
  split.
  - intros [c' x] c v w Hv. unfold inner, clerk_goroutines. destruct (progs w !! c') as [p|] eqn:Hc; [|done].
    destruct p; try done; [..|destruct (0 <=? x); [|done]]; eapply Hset; done.
  - intros c c' b v w w' Hv Hp. unfold poll, clerk_goroutines in Hp.
    destruct (progs w !! c') as [[]|] eqn:Hc; try done. injection Hp as <-. by eapply Hset.
Qed.

Context {T : Type} {CM : IClerkMaker T} {CML : ClerkMakerLaws T}.

(** On a clerk that is not written no test of concurrent puts passes: if
    [SpawnClientsAndWait] returns at all, because all clients were told before they
    put anything, none of them has done anything, and the check of the puts
    then fails the test on its first get. *)
Theorem unwritten_puts_fail {JV : Json EntryV} randomkeys fuel n ka (m : T) es r rs :
  run_events es (SpawnClientsAndWait n (mkOnClerks ck (put_clients randomkeys fuel n ka)) m) = Done r →
  caller r = Returned rs →
  rs = replicate n (mkClntRes 0 0) ∧
  ∀ key res reliable os now, (on_clerk ck (CheckPutConcurrent key rs res reliable) os now).1 = Fatal "Get err".
Proof.
  intros Hr Hk. pose proof (run_values n _ m es r Hr) as [_ _ H3 H4 _]. unfold collected in H4. rewrite Hk in H4.
  specialize (H3 rs Hk).
  assert (all_only (world r)) as [_ Ho].
  { eapply (run_events_ind (λ r, all_only (world r))); [| |exact Hr].
    - intros r1 r2 H1 Hs. destruct Hs; cbn [world set_world set_caller set_thread set_maker]; eauto using inner_only, poll_only.
    - split; [done|]. intros c p. simpl. intros [-> _]%fmap_seq_lookup. apply only_OneClientPut. }
  split.
  - apply list_eq_same_length with n; [by rewrite length_replicate|by rewrite H3|].
    intros c a b _ Ha [-> _]%lookup_replicate. specialize (H4 c a Ha). simpl in H4.
    destruct (progs (world r) !! c) as [p|] eqn:Hc; [|done]. specialize (Ho c p Hc).
    destruct p as [[v| | |]| | | |]; try done. simpl in Ho. congruence.
  - intros key res reliable os now. unfold CheckPutConcurrent. apply on_clerk_GetJson.
Qed.

(** ** The log *)

(** A put of such a clerk, as it is logged. *)
Definition bad_put (o : Operation) : Prop := Models.Op (Input o) = 1 ∧ o_Err (Output o) ∉ [OK; ErrVersion; ErrMaybe].

Lemma accepts_no_bad_put ops : ∀ st st', accepts st ops = Some st' →
  ∀ inp out, (inp, out) ∈ ops → Models.Op inp = 1 → o_Err out ∈ [OK; ErrVersion; ErrMaybe].
Proof.
  induction ops as [|[inp out] ops IH]; intros st st' Hacc inp' out' Hin Hop; [by apply elem_of_nil in Hin|].
  cbn [accepts] in Hacc. destruct (Step st inp out) as [[[] st1]| | |] eqn:Hst; try done.
  apply elem_of_cons in Hin as [[= -> ->]|Hin]; [|by eapply IH].
  destruct st as [s|]; [|done]. rewrite !elem_of_cons.
  destruct (Step_cases _ _ _ _ _ Hst) as [(Hop' & _)|[(_ & _ & _ & H)|[(_ & _ & _ & H)|[? _]]]]; [lia| | |done].
  - destruct (H eq_refl); auto.
  - destruct (H eq_refl); auto.
Qed.

Lemma bad_put_not_linearizable o ops : o ∈ ops → bad_put o → ¬ linearizable ops.
Proof.
  intros Hin [Hop Herr] (l & HP & _ & [st Hst]). apply Herr.
  apply (accepts_no_bad_put _ _ _ Hst (Input o) (Output o)); [|done].
  apply list_elem_of_fmap. exists o. split; [done|]. by rewrite HP.
Qed.

Lemma on_clerk_log {A} (p : prog A) : ∀ os now o,
  o ∈ (on_clerk ck p os now).2 → Models.Op (Input o) = 1 → bad_put o.
Proof.
  induction p as [m|lg key cli k IH|lg key value ver cli k IH|k IH|k IH]; intros os now o; cbn [on_clerk].
  - intros Hin%elem_of_nil. done.
  - destruct (ck_Get ck key) as [[val ver] err]. specialize (IH (val, ver, err) os (tail (tail now)) o).
    destruct (on_clerk _ _ _ _) as [m l]. simpl in *. intros [Hin|Hin]%elem_of_app; [|auto].
    destruct lg; [|by apply elem_of_nil in Hin]. apply list_elem_of_singleton in Hin as ->. done.
  - specialize (IH (ck_Put ck key value ver) os (tail (tail now)) o).
    destruct (on_clerk _ _ _ _) as [m l]. simpl in *. intros [Hin|Hin]%elem_of_app; [|auto].
    destruct lg; [|by apply elem_of_nil in Hin]. apply list_elem_of_singleton in Hin as ->. intros _. split; [done|].
    apply put_unwritten.
  - apply IH.
  - apply IH.
Qed.

(** No log with a put on a clerk that is not written is linearizable, whatever
    program made it and however its operations overlapped: a sound
    checker does not accept it, and the check of the log fails the test unless
    the checker runs out of time. *)
Theorem unwritten_log_rejected {A} (p : prog A) os now check env order t g :
  let log := (on_clerk ck p os now).2 in
  Exists (λ o, Models.Op (Input o) = 1) log → sound_checker check →
  ¬ Forall linearizable (Partition log) ∧
  ((checkPorcupine check env order t log g).1.1 = true ∨ check log = Unknown).
Proof.
  intros log (o & Hin & Hop)%Exists_exists [_ Hok].
  assert (¬ Forall linearizable (Partition log)) as Hnot.
  { destruct (history_partition_spec log) as (keys & _ & _ & Hkeys & ->). intros Hall.
    apply (bad_put_not_linearizable o (filter (λ v, Key (Input v) = Key (Input o)) log)).
    - by apply list_elem_of_filter.
    - by eapply on_clerk_log.
    - rewrite Forall_fmap, Forall_forall in Hall. apply (Hall (Key (Input o))). apply Hkeys. by exists o. }
  split; [done|]. rewrite checkPorcupine_fails, bool_decide_eq_true.
  destruct (check log) eqn:E; [|by left|by right]. by destruct (Hnot (Hok log E)).
Qed.

(** [PutAtLeastOnce] on such a clerk: at version 0 it retries for ever, since
    every error that is not a known one counts as a lost put there; at any
    other version it fails the test. *)
Theorem unwritten_PutAtLeastOnce fuel key value ver me os now :
  (on_clerk ck (PutAtLeastOnce fuel key value ver me) os now).1 =
    match fuel with O => Diverge | S _ => if ver =? 0 then Diverge else Fatal "Put" end.
Proof.
  revert now. induction fuel as [|fuel IH]; intros now; [done|]. cbn [PutAtLeastOnce].
  pose proof (put_unwritten ck key value ver) as Hput. rewrite !not_elem_of_cons in Hput.
  destruct Hput as (H1 & H2 & H3 & _). unfold Test_Put. cbn.
  rewrite (decide_False (P := ck_Put ck key value ver = OK)) by done.
  rewrite decide_False by naive_solver. destruct (Z.eqb_spec ver 0) as [->|Hv]; cbn; [|done].
  assert ((on_clerk ck (PutAtLeastOnce fuel key value 0 me) os (tail (tail now))).1 = Diverge) as E
    by (rewrite IH; by destruct fuel).
  destruct (on_clerk ck _ os (tail (tail now))) as [m l]. exact E.
Qed.
End Unwritten.

(** ** The controller *)

(** The controller that is not written keeps none of what its comments
    promise, and no test that changes the configuration survives it. With the
    program's own servers the test makes its configuration and sets the service up;
    the first group that joins is started, and then the configuration that [Query]
    returned, nil, is copied: the program panics. So does a leave, and the
    check of a member. *)
Theorem unwritten_controller {Typ : Type} IsUpper draw maxr rand1 rand2 part rel now1 now2 sck
    (T : @Tester Typ Services.Val App) k :
  (∀ c, 65 <= c <= 90 → IsUpper c = true) → draws_new draw → fresh_draws 1 rand1 rand2 (tnet T) → (k < 1000)%nat →
  (∀ CS : CtrlerState ShardCtrlerState, ShardCtrlerLaws ShardCtrlerState → False) ∧
  (ts ← MakeTestMaxRaft service_of kvsrv_StartKVServer rand1 rand2 part rel now1 now2 sck T;
   '(g, ts) ← setupKVService (StartServerShardGrp IsUpper false maxr) service_of draw ts;
   let '(gs, ts) := new_groups (S k) ts in
   joinGroups (StartServerShardGrp IsUpper false maxr) service_of draw gs ts) = Panic "nil pointer dereference" ∧
  (∀ gid gids (ts : ShardTest Typ Services.Val App Svc ShardCtrlerState),
     leaveGroups Svc_Kill (gid :: gids) ts = Panic "nil pointer dereference") ∧
  ∀ gid (ts : ShardTest Typ Services.Val App Svc ShardCtrlerState), checkMember gid ts = Panic "nil pointer dereference".
Proof.
  intros Hup Hdraw Hfresh Hk. split_and!; [| |done|done].
  - intros CS L. set (s := MakeShardCtrler 0). destruct (current s) as [c|] eqn:E.
    + destruct (Query_law c s E) as (s' & H & _). discriminate H.
    + destruct (InitConfig_law MakeShardConfig s E) as (s' & H & Hs'). injection H as <-. by rewrite E in Hs'.
  - destruct (MakeTestMaxRaft_start service_of any_server kvsrv_StartKVServer rand1 rand2 part rel now1 now2 sck T
      kvsrv_starts Hfresh) as (ts & -> & _ & Hcl & Hnone & Hks & Hn).
    cbn [mbind outcome_bind].
    pose proof (starts_any _ (shardgrp_starts IsUpper Hup maxr)) as Hst.
    destruct (setup_start _ service_of any_server draw ts Hst Hdraw Hcl) as (c & sg & ts1 & -> & _ & Hn1 & Hg1 & Hcl1 & _);
      [by apply Hnone|done|].
    cbn [InitConfig sck_controller]. unfold sck_InitConfig. cbn [mbind outcome_bind].
    destruct (new_groups_ok (S k) (with_ctl (ctl ts1) ts1)) as (ts2 & -> & Hc2 & _);
      [change (0 <= ngid ts1); lia|change (ngid ts1 + Z.of_nat (S k) < max_int64); unfold max_int64; lia|].
    change (ngid (with_ctl (ctl ts1) ts1)) with (ngid ts1). rewrite Hn1, Hn.
    cbn [seq fmap list_fmap joinGroups].
    destruct (start_group_ok _ service_of any_server draw (2 + Z.of_nat 0) ts2 Hst Hdraw) as (sg2 & T2 & Hrun & _ & Hnames & _).
    { by rewrite Hc2. }
    { rewrite Hc2. change (groups (cfg ts1) !! (2 + Z.of_nat 0) = None). rewrite Hg1, lookup_insert_ne by done.
      by apply Hnone. }
    rewrite Hrun. cbn [mbind outcome_bind]. by rewrite Hnames.
Qed.

(** ** Witnesses *)
#[local] Existing Instances json_EntryV.

Definition stub_ck : KvsrvClerk := kvsrv_MakeClerk 0 (ServerName GRP0 0).

(** Both clients are told at their first look. *)
Definition told_first : list (@Spawn.event (OnClerks KvsrvClerk) _) :=
  [Make 0; Make 1; Wake; Enter; Poll 0; Enter; Poll 1; Collect 0; Collect 1].
Definition stub_start := SpawnClientsAndWait 2 (mkOnClerks stub_ck (put_clients false 9 2 ["k"%string])) bare_test.
Definition stub_end := result (run_events told_first stub_start) stub_start.

Lemma unwritten_puts_fail_witness :
  caller stub_end = Returned [mkClntRes 0 0; mkClntRes 0 0] ∧
  (on_clerk stub_ck (CheckPutConcurrent "k" [mkClntRes 0 0; mkClntRes 0 0] (mkClntRes 0 0) true) [] []).1 = Fatal "Get err".
Proof.
  assert (caller stub_end = Returned [mkClntRes 0 0; mkClntRes 0 0]) as Hk by (vm_compute; reflexivity).
  split; [exact Hk|].
  apply (unwritten_puts_fail stub_ck false 9 2 ["k"%string] bare_test told_first stub_end [mkClntRes 0 0; mkClntRes 0 0]);
    [apply result_Done; vm_compute; reflexivity|exact Hk].
Defined.

Lemma unwritten_log_rejected_witness :
  (checkPorcupine exhaustive vis_env [] 7 (on_clerk stub_ck (Put "x" "a" 0 0) [] [1; 2]).2 Annotation.boot).1.1 = true.
Proof.
  destruct (unwritten_log_rejected stub_ck (Put "x" "a" 0 0) [] [1; 2] exhaustive vis_env [] 7 Annotation.boot) as [_ [H|H]].
  - apply Exists_exists. eexists. split; [left|reflexivity].
  - exact exhaustive_sound.
  - exact H.
  - vm_compute in H. discriminate H.
Defined.

Lemma unwritten_PutAtLeastOnce_witness :
  (on_clerk stub_ck (PutAtLeastOnce 100 "x" "a" 0 0) [] []).1 = Diverge ∧
  (on_clerk stub_ck (PutAtLeastOnce 100 "x" "a" 1 0) [] []).1 = Fatal "Put".
Proof. split; [exact (unwritten_PutAtLeastOnce stub_ck 100 "x" "a" 0 0 [] [])|exact (unwritten_PutAtLeastOnce stub_ck 100 "x" "a" 1 0 [] [])]. Defined.

Lemma unwritten_controller_witness :
  (ts ← MakeTestMaxRaft service_of kvsrv_StartKVServer (new_names 1 MakeNetwork 0) (new_names 1 MakeNetwork 1) "Test" true 0 0
     (MakeShardCtrler 0) app_tester;
   '(g, ts) ← setupKVService (StartServerShardGrp ascii_capital false (-1)) service_of plain_draw ts;
   let '(gs, ts) := new_groups 1 ts in
   joinGroups (StartServerShardGrp ascii_capital false (-1)) service_of plain_draw gs ts) = Panic "nil pointer dereference".
Proof.
  destruct (unwritten_controller ascii_capital plain_draw (-1) (new_names 1 MakeNetwork 0) (new_names 1 MakeNetwork 1) "Test"
    true 0 0 (MakeShardCtrler 0) app_tester 0 ascii_capitals plain_draws (new_names_fresh 1 MakeNetwork)) as (_ & H & _);
    [lia|exact H].
Defined.
