(* ===== verification/MRApps.v ===== *)
(** * MRApps: the applications that test MapReduce (src/src/mrapps), and the
    coordinator and worker as they are (src/src/mr, src/src/main/mrcoordinator.go
    and mrworker.go)

    These applications look at the world: they draw random numbers, exit, write files
    in the current directory and look for other processes. What they draw, the time and
    the order in which a directory is listed are arguments; the directory is a set of names.
    [Fatal] is also [os.Exit]. The coordinator and the worker are unwritten;
    net/rpc is an argument. *)

From stdpp Require Import pretty.
From S2P Require Import Prelude MapReduce.

Local Open Scope Z_scope.

(** ** crash.go and nocrash.go *)

(** [rr] is below 1000 and [ms] below 10000; how long it slept, in milliseconds. *)
Definition maybeCrash (rr ms : Z) : outcome Z :=
  if rr <? 330 then Fatal "exit status 1" else if rr <? 660 then Done ms else Done 0.

Definition nocrash_maybeCrash (rr : Z) : outcome Z :=
  if false && (rr <? 500) then Fatal "exit status 1" else Done 0.

(** What both map a file to, and reduce values to. *)
Definition crash_kva (filename contents : string) : list KeyValue :=
  [mkKeyValue "a" filename; mkKeyValue "b" (pretty (Z.of_nat (String.length filename)));
   mkKeyValue "c" (pretty (Z.of_nat (String.length contents))); mkKeyValue "d" "xyzzy"].

Definition sorted_values (values : list string) : string := Join (sort_strings values) " ".

Definition crash_Map (rr ms : Z) (filename contents : string) : outcome (list KeyValue) :=
  maybeCrash rr ms ;; Done (crash_kva filename contents).
Definition crash_Reduce (rr ms : Z) (key : string) (values : list string) : outcome string :=
  maybeCrash rr ms ;; Done (sorted_values values).

Definition nocrash_Map (rr : Z) (filename contents : string) : outcome (list KeyValue) :=
  nocrash_maybeCrash rr ;; Done (crash_kva filename contents).
Definition nocrash_Reduce (rr : Z) (key : string) (values : list string) : outcome string :=
  nocrash_maybeCrash rr ;; Done (sorted_values values).

(** ** early_exit.go *)
Definition Contains (s substr : string) : bool :=
  match String.index 0 substr s with Some _ => true | None => false end.

(** How long the reduction of a key sleeps, in seconds. *)
Definition early_exit_sleep (key : string) : Z :=
  if Contains key "sherlock" || Contains key "tom" then 3 else 0.

Definition early_exit : Plugin := {|
  mapf filename contents := [mkKeyValue filename "1"];
  reducef key values := pretty (Z.of_nat (length values))
|}.

(** ** jobcount.go *)

(** [count] is the variable of the process; [writes] whether the file can be written. *)
Definition jobcount_file (me count : Z) : string := "mr-worker-jobcount-" +:+ pretty me +:+ "-" +:+ pretty count.

Definition jobcount_Map (writes : bool) (me : Z) (st : Z * gset string) : outcome (list KeyValue * (Z * gset string)) :=
  let '(count, dir) := st in
  let f := jobcount_file me count in
  let count := int64 (count + 1) in
  if writes then Done ([mkKeyValue "a" "x"], (count, {[f]} ∪ dir)) else Panic "WriteFile".

Definition HasPrefix (s prefix : string) : bool := String.prefix prefix s.

(** [order] lists the directory, if it can be read. *)
Definition jobcount_Reduce (order : option (list string)) : outcome string :=
  match order with
  | None => Panic "ReadDir"
  | Some files =>
      let invocations := foldl (λ n f, if HasPrefix f "mr-worker-jobcount" then int64 (n + 1) else n) 0 files in
      Done (pretty invocations)
  end.

(** ** [fmt.Sscanf] of a name with a pattern that ends in %d *)

(** fmt's table of white space. *)
Definition isSpace (r : Z) : bool :=
  ((9 <=? r) && (r <=? 13)) || existsb (Z.eqb r) [32; 133; 160; 5760; 8232; 8233; 8239; 8287; 12288] ||
  ((8192 <=? r) && (r <=? 8202)).

(** A new line is an error. *)
Fixpoint SkipSpace (rs : list Z) : option (list Z) :=
  match rs with
  | [] => Some []
  | r :: rs' => if r =? 10 then None else if isSpace r then SkipSpace rs' else Some rs
  end.

Definition is_digit (r : Z) : bool := (48 <=? r) && (r <=? 57).

Fixpoint scan_digits (rs : list Z) : list Z :=
  match rs with
  | r :: rs => if is_digit r then (r - 48) :: scan_digits rs else []
  | [] => []
  end.

Definition number (ds : list Z) : Z := foldl (λ n d, n * 10 + d) 0 ds.

(** The verb %d into an int: what follows the number does not matter. *)
Definition scan_int (rs : list Z) : option Z :=
  rs ← SkipSpace rs;
  let '(neg, rs) :=
    match rs with
    | r :: rs' => if r =? 45 then (true, rs') else if r =? 43 then (false, rs') else (false, rs)
    | [] => (false, rs)
    end in
  match scan_digits rs with
  | [] => None
  | ds => let z := if (neg : bool) then - number ds else number ds in
          if (- 2 ^ 63 <=? z) && (z <=? max_int64) then Some z else None
  end.

(** The name after [prefix], as runes. *)
Definition Sscanf (name prefix : string) : option Z :=
  if HasPrefix name prefix then
    let rest := drop (String.length prefix) (String.list_ascii_of_string name) in
    scan_int (runes (length rest) rest).*1
  else None.

(** ** [nparallel], in mtiming.go and rtiming.go *)
Definition worker_prefix (phase : string) : string := "mr-worker-" +:+ phase +:+ "-".
Definition myfilename (phase : string) (pid : Z) : string := worker_prefix phase +:+ pretty pid.

(** Where a process is in [nparallel]: in its loop, the names still to look at and what it has counted. *)
Inductive stage := Outside | Wrote | Scanning (names : list string) (ret : Z).

#[export] Instance stage_eq_dec : EqDecision stage.
Proof. solve_decision. Defined.

(** The processes that live, by their pid, and the directory they share. *)
Record Workers := mkWorkers { dir : gset string; procs : gmap Z stage }.

Inductive wstep :=
| WriteFile (pid : Z)
| Readdirnames (pid : Z) (order : list string)     (* the directory, as it is listed *)
| Signal (pid : Z)                                 (* a turn of the loop, with its [syscall.Kill] *)
| Remove (pid : Z)
| Die (pid : Z).

(** Whether a signal can be sent to a process. *)
Definition alive (w : Workers) (pid : Z) : bool := bool_decide (is_Some (procs w !! pid)).

(** [Readdirnames(1000000)] *)
Definition max_names : nat := Z.to_nat 1000000.

(** The body of the loop. *)
Definition count_name (phase : string) (w : Workers) (name : string) (ret : Z) : Z :=
  match Sscanf name (worker_prefix phase) with
  | Some xpid => if alive w xpid then int64 (ret + 1) else ret
  | None => ret
  end.

(** A step that is not enabled changes nothing. *)
Definition exec_worker (phase : string) (s : wstep) (w : Workers) : outcome Workers :=
  match s with
  | WriteFile pid =>
      Done (match procs w !! pid with
            | Some Outside => mkWorkers ({[myfilename phase pid]} ∪ dir w) (<[pid := Wrote]> (procs w))
            | _ => w
            end)
  | Readdirnames pid order =>
      match procs w !! pid with
      | Some Wrote =>
          let names := take max_names order in
          if decide (names = []) then Panic "EOF"
          else Done (mkWorkers (dir w) (<[pid := Scanning names 0]> (procs w)))
      | _ => Done w
      end
  | Signal pid =>
      Done (match procs w !! pid with
            | Some (Scanning (name :: names) ret) =>
                mkWorkers (dir w) (<[pid := Scanning names (count_name phase w name ret)]> (procs w))
            | _ => w
            end)
  | Remove pid =>
      match procs w !! pid with
      | Some (Scanning [] _) =>
          if decide (myfilename phase pid ∈ dir w)
          then Done (mkWorkers (dir w ∖ {[myfilename phase pid]}) (<[pid := Outside]> (procs w)))
          else Panic "remove: no such file or directory"
      | _ => Done w
      end
  | Die pid => Done (mkWorkers (dir w) (delete pid (procs w)))
  end.

(** The two files have the same [nparallel], called with their phase. *)
Definition mtiming_nparallel : wstep → Workers → outcome Workers := exec_worker "map".
Definition rtiming_nparallel : wstep → Workers → outcome Workers := exec_worker "reduce".

(** mtiming.go: [ts] is the time in seconds, printed with one decimal, [n] what
    [nparallel("map")] returned. *)
Definition mtiming_Map (pid : Z) (ts : string) (n : Z) (filename contents : string) : list KeyValue :=
  [mkKeyValue ("times-" +:+ pretty pid) ts; mkKeyValue ("parallel-" +:+ pretty pid) (pretty n)].
Definition mtiming_Reduce (key : string) (values : list string) : string := sorted_values values.

(** rtiming.go: [n] is what [nparallel("reduce")] returned. *)
Definition rtiming_Map (filename contents : string) : list KeyValue :=
  (λ k, mkKeyValue k "1") <$> ["a"; "b"; "c"; "d"; "e"; "f"; "g"; "h"; "i"; "j"]%string.
Definition rtiming_Reduce (n : Z) (key : string) (values : list string) : string := pretty n.

(** ** mr/coordinator.go, mr/worker.go and mr/rpc.go *)
Record ExampleArgs := mkExampleArgs { X : Z }.
Record ExampleReply := mkExampleReply { Y : Z }.

(** The handler always returns a nil error. *)
Definition Example_ (args : ExampleArgs) (reply : ExampleReply) : ExampleReply := mkExampleReply (int64 (X args + 1)).

Definition Coordinator_Done : bool := false.

Definition coordinatorSock (uid : Z) : string := "/var/tmp/5840-mr-" +:+ pretty uid.

(** What a call through net/rpc gives: the reply, or an error that is printed; [None] when the socket
    cannot be dialed. *)
Definition call (DialHTTP : string → option (string → ExampleArgs → option ExampleReply)) (uid : Z) (rpcname : string)
    (args : ExampleArgs) (reply : ExampleReply) : outcome (bool * ExampleReply) :=
  match DialHTTP (coordinatorSock uid) with
  | None => Fatal "dialing"
  | Some Call =>
      match Call rpcname args with
      | Some reply => Done (true, reply)
      | None => Done (false, reply)
      end
  end.

(** The line that is printed. *)
Definition CallExample DialHTTP (uid : Z) : outcome string :=
  '(ok, reply) ← call DialHTTP uid "Coordinator.Example" (mkExampleArgs 99) (mkExampleReply 0);
  Done (if (ok : bool) then "reply.Y " +:+ pretty (Y reply) else "call failed!"%string).

(** [server] registers the coordinator and listens: the connection it serves. *)
Definition server (listens : bool) : outcome (string → ExampleArgs → option ExampleReply) :=
  if listens then
    Done (λ rpcname args,
      if bool_decide (rpcname = "Coordinator.Example"%string) then Some (Example_ args (mkExampleReply 0)) else None)
  else Fatal "listen error".

Definition MakeCoordinator (listens : bool) (files : list string) (nReduce : Z) :=
  server listens.

(** [main] of mrcoordinator.go: a turn of the loop sleeps for a second. *)
Fixpoint wait_done (fuel : nat) : outcome () :=
  match fuel with
  | O => Diverge
  | S fuel => if Coordinator_Done then Done () else wait_done fuel
  end.

Definition mrcoordinator_main (fuel : nat) (listens : bool) (args : list string) : outcome () :=
  if decide (length args < 2)%nat then Fatal "Usage"
  else MakeCoordinator listens (drop 1 args) 10 ;; wait_done fuel.

(** The worker does nothing with its functions. *)
Definition Worker (plugin : Plugin) : outcome () := Done ().

Definition mrworker_main (Open : string → option (string → option Symbol)) (args : list string) : outcome () :=
  if decide (length args ≠ 2)%nat then Fatal "Usage"
  else filename ← slice_get args 1; plugin ← loadPlugin Open filename; Worker plugin.
