(* ===== verification/MRAppsProps.v ===== *)
(** * MRAppsProps: what the applications that test MapReduce observe

    [nparallel] counts the workers that are in it, [jobcount] the map tasks that
    were run; a crashing application that does not crash is the one that never
    does. *)

From stdpp Require Import pretty.
From S2P Require Import Prelude MapReduce MapReduceProps GroupProps MRApps.

Local Open Scope Z_scope.

(** ** Numbers in names *)
Lemma prefix_app s t : HasPrefix (s +:+ t) s = true.
Proof. unfold HasPrefix. induction s as [|c s IH]; [by destruct t|]. simpl. by rewrite Ascii.eqb_refl || destruct (Ascii.ascii_dec c c). Qed.

Lemma drop_prefix s t : drop (String.length s) (String.list_ascii_of_string (s +:+ t)) = String.list_ascii_of_string t.
Proof. induction s as [|c s IH]; [done|]. exact IH. Qed.

Lemma number_snoc ds d : number (ds ++ [d]) = number ds * 10 + d.
Proof. unfold number. by rewrite foldl_snoc. Qed.

Definition digits (ds : list Z) : Prop := Forall (λ d, 0 <= d < 10) ds.

Lemma pretty_digit (d : N) : (d < 10)%N → byte_of (pretty_N_char d) = 48 + Z.of_N d.
Proof.
  intros Hd. assert (∃ n : nat, d = N.of_nat n ∧ (n < 10)%nat) as (n & -> & Hn) by (exists (N.to_nat d); lia).
  do 10 (destruct n as [|n]; [vm_compute; reflexivity|]). lia.
Qed.

Lemma pretty_go (x : N) : ∀ s, ∃ ds, digits ds ∧ number ds = Z.of_N x ∧
  byte_of <$> String.list_ascii_of_string (pretty_N_go x s) = (Z.add 48 <$> ds) ++ (byte_of <$> String.list_ascii_of_string s).
Proof.
  induction (N.lt_wf_0 x) as [x _ IH]. intros s.
  destruct (decide (x = 0%N)) as [->|Hx]; [exists []; split_and!; [constructor|done|by rewrite pretty_N_go_0]|].
  rewrite pretty_N_go_step by lia.
  destruct (IH (x `div` 10)%N) with (s := String.String (pretty_N_char (x `mod` 10)) s) as (ds & Hds & Hn & E);
    [apply N.div_lt; lia|].
  pose proof (N.mod_lt x 10 ltac:(lia)) as Hm. exists (ds ++ [Z.of_N (x `mod` 10)]). split_and!.
  - apply Forall_app. split; [done|]. apply Forall_singleton. cbv beta. split; [apply N2Z.is_nonneg|exact (proj1 (N2Z.inj_lt _ 10) Hm)].
  - rewrite number_snoc, Hn. pose proof (N.div_mod x 10 ltac:(lia)). lia.
  - rewrite E. cbn [String.list_ascii_of_string fmap list_fmap]. rewrite pretty_digit by done.
    by rewrite fmap_app, <- app_assoc.
Qed.

(** A number that is printed is its decimal digits, at least one. *)
Lemma pretty_digits (z : Z) : 0 <= z →
  ∃ ds, digits ds ∧ ds ≠ [] ∧ number ds = z ∧ byte_of <$> String.list_ascii_of_string (pretty z) = Z.add 48 <$> ds.
Proof.
  intros Hz. destruct z as [|p|p]; [|..|lia].
  - exists [0]. split_and!; [apply Forall_singleton; cbv beta; lia|done|done|done].
  - destruct (pretty_go (N.pos p) "") as (ds & Hds & Hn & E). exists ds. split_and!; [done| |done|].
    + intros ->. done.
    + rewrite app_nil_r in E. exact E.
Qed.

Lemma runes_ascii fuel : ∀ l, (length l <= fuel)%nat → Forall (λ c, byte_of c < 128) l → (runes fuel l).*1 = byte_of <$> l.
Proof.
  induction fuel as [|fuel IH]; intros l Hlen Hl; destruct l as [|c l]; try done; [simpl in Hlen; lia|].
  apply Forall_cons in Hl as [Hc Hl]. cbn [runes]. unfold decode_rune.
  rewrite (proj2 (Z.ltb_lt _ _) Hc). cbn [take drop fmap list_fmap fst]. f_equal. apply IH; [simpl in Hlen; lia|done].
Qed.

Lemma scan_digits_all ds : digits ds → scan_digits (Z.add 48 <$> ds) = ds.
Proof.
  induction 1 as [|d ds Hd _ IH]; [done|]. cbn [fmap list_fmap scan_digits]. unfold is_digit.
  rewrite (proj2 (Z.leb_le _ _)), (proj2 (Z.leb_le _ _)) by lia. cbn [andb]. rewrite IH. f_equal. lia.
Qed.

Lemma scan_number ds : digits ds → ds ≠ [] → 0 <= number ds <= max_int64 → scan_int (Z.add 48 <$> ds) = Some (number ds).
Proof.
  intros Hds Hne Hr. destruct ds as [|d ds]; [done|]. pose proof Hds as [Hd _]%Forall_cons. unfold scan_int.
  assert (SkipSpace (Z.add 48 <$> d :: ds) = Some (Z.add 48 <$> d :: ds)) as ->.
  { cbn [fmap list_fmap SkipSpace]. rewrite (proj2 (Z.eqb_neq _ _)) by lia.
    assert (isSpace (48 + d) = false) as ->; [|done].
    assert (∃ n : nat, d = Z.of_nat n ∧ (n < 10)%nat) as (n & -> & Hn) by (exists (Z.to_nat d); lia).
    do 10 (destruct n as [|n]; [vm_compute; reflexivity|]). lia. }
  cbn [mbind option_bind fmap list_fmap]. rewrite (proj2 (Z.eqb_neq (48 + d) 45)), (proj2 (Z.eqb_neq (48 + d) 43)) by lia.
  assert (scan_digits (48 + d :: (Z.add 48 <$> ds)) = d :: ds) as -> by exact (scan_digits_all (d :: ds) Hds).
  by rewrite (proj2 (Z.leb_le _ _)), (proj2 (Z.leb_le _ _)) by lia.
Qed.

Lemma Sscanf_myfilename phase pid : 0 <= pid <= max_int64 → Sscanf (myfilename phase pid) (worker_prefix phase) = Some pid.
Proof.
  intros Hp. unfold Sscanf, myfilename. rewrite prefix_app, drop_prefix.
  destruct (pretty_digits pid) as (ds & Hds & Hne & Hn & E); [lia|].
  rewrite runes_ascii; [rewrite E, scan_number by (rewrite ?Hn; done); by rewrite Hn|done|].
  apply Forall_forall. intros c Hc.
  assert (byte_of c ∈ Z.add 48 <$> ds) as (d & Hcd & Hd)%list_elem_of_fmap.
  { rewrite <- E. apply list_elem_of_fmap. by exists c. }
  pose proof (proj1 (Forall_forall _ _) Hds d Hd) as Hd10. cbv beta in *. rewrite Hcd. lia.
Qed.

(** ** [nparallel] counts the workers that are in it *)
Section Parallel.
Context (phase : string).
Implicit Types (w : Workers) (pid : Z).

(** The live processes that are between writing their file and removing it. *)
Definition inside w : gmap Z stage := filter (λ x, x.2 ≠ Outside) (procs w).

(** The files: each process inside has its own, and no other file names a process
    that lives. *)
Record files_ok w : Prop := {
  f_pid : ∀ pid s, procs w !! pid = Some s → 0 <= pid <= max_int64;
  f_own : ∀ pid, myfilename phase pid ∈ dir w → alive w pid = true → is_Some (inside w !! pid);
  f_in : ∀ pid, is_Some (inside w !! pid) → myfilename phase pid ∈ dir w;
  f_other : ∀ name xpid, name ∈ dir w → Sscanf name (worker_prefix phase) = Some xpid → alive w xpid = true →
    name = myfilename phase xpid
}.

(** Workers before they have started, in a directory without their files. *)
Record not_started w : Prop := {
  n_pid : ∀ pid s, procs w !! pid = Some s → 0 <= pid <= max_int64 ∧ s = Outside;
  n_dir : ∀ name, name ∈ dir w → Sscanf name (worker_prefix phase) = None
}.

Lemma inside_Some w pid s : inside w !! pid = Some s ↔ procs w !! pid = Some s ∧ s ≠ Outside.
Proof. unfold inside. apply map_lookup_filter_Some. Qed.

Lemma alive_Some w pid : alive w pid = true ↔ is_Some (procs w !! pid).
Proof. unfold alive. apply bool_decide_eq_true. Qed.

Lemma myfilename_inj w pid pid' : 0 <= pid <= max_int64 → 0 <= pid' <= max_int64 →
  myfilename phase pid = myfilename phase pid' → pid = pid'.
Proof. intros H H' E. pose proof (Sscanf_myfilename phase pid H) as E1. rewrite E, Sscanf_myfilename in E1 by done. congruence. Qed.

Lemma not_started_files w : not_started w → files_ok w.
Proof.
  intros [Hp Hd]. split.
  - intros pid s Hs. by apply (Hp pid s).
  - intros pid Hin [s Hs]%alive_Some. specialize (Hd _ Hin). rewrite Sscanf_myfilename in Hd; [done|]. by apply (Hp pid s).
  - intros pid [s [Hs Hne]%inside_Some]. by destruct (Hp pid s Hs).
  - intros name xpid Hin Hx. by rewrite (Hd name Hin) in Hx.
Qed.

(** A process that changes its stage, with what happens to its file. *)
Lemma files_ok_move w pid s s' D :
  files_ok w → procs w !! pid = Some s →
  (∀ name, name ≠ myfilename phase pid → name ∈ D ↔ name ∈ dir w) → (myfilename phase pid ∈ D ↔ s' ≠ Outside) →
  files_ok (mkWorkers D (<[pid := s']> (procs w))).
Proof.
  intros [H1 H2 H3 H4] Hs Hother Hown. pose proof (H1 pid s Hs) as Hpid. set (w' := mkWorkers _ _).
  assert (∀ q x, procs w' !! q = Some x → 0 <= q <= max_int64) as H1'.
  { intros q x. simpl. intros [[-> _]|[_ Hx]]%lookup_insert_Some; [done|by eapply H1]. }
  assert (∀ q, alive w' q = true → alive w q = true) as Hal.
  { intros q [x Hx]%alive_Some. apply alive_Some. simpl in Hx.
    apply lookup_insert_Some in Hx as [[<- _]|[_ Hx]]; by eexists. }
  assert (∀ q, alive w' q = true → q ≠ pid → myfilename phase q ≠ myfilename phase pid) as Hne.
  { intros q [x Hx]%alive_Some Hq E. apply Hq. by apply (myfilename_inj w); [eapply H1'|..]. }
  assert (∀ q, q ≠ pid → inside w' !! q = inside w !! q) as Hin.
  { intros q Hq. apply option_eq. intros x. rewrite !inside_Some. simpl. by rewrite lookup_insert_ne. }
  assert (is_Some (inside w' !! pid) ↔ s' ≠ Outside) as Hpin.
  { split; [intros [x [Hx Hx']%inside_Some]|intros Hs'; exists s'; apply inside_Some]; simpl in *;
      rewrite lookup_insert_eq in *; [congruence|done]. }
  split; simpl.
  - done.
  - intros q Hq Ha. destruct (decide (q = pid)) as [->|Hx]; [by apply Hpin, Hown|].
    rewrite Hin by done. apply H2; [|by apply Hal]. apply Hother; [by apply Hne|done].
  - intros q Hq. destruct (decide (q = pid)) as [->|Hx]; [by apply Hown, Hpin|]. rewrite Hin in Hq by done.
    apply Hother; [|by apply H3]. apply Hne; [|done]. destruct Hq as [x [Hq _]%inside_Some]. apply alive_Some. simpl.
    rewrite lookup_insert_ne by done. by eexists.
  - intros name q Hname Hq Ha. destruct (decide (name = myfilename phase pid)) as [->|Hx].
    + rewrite Sscanf_myfilename in Hq by done. by injection Hq as <-.
    + apply H4; [by apply Hother|done|by apply Hal].
Qed.

Lemma exec_files_ok st w w' : files_ok w → exec_worker phase st w = Done w' → files_ok w'.
Proof.
  intros Hok. pose proof Hok as [H1 H2 H3 H4].
  destruct st as [pid|pid order|pid|pid|pid]; cbn [exec_worker]; intros Hx.
  - apply Done_inj in Hx as <-. destruct (procs w !! pid) as [[| |ns r]|] eqn:Hs; try done.
    apply (files_ok_move w pid Outside); [done|done|set_solver|]. split; [done|set_solver].
  - destruct (procs w !! pid) as [[| |ns r]|] eqn:Hs; try (by apply Done_inj in Hx as <-).
    destruct (decide _); [done|]. apply Done_inj in Hx as <-.
    apply (files_ok_move w pid Wrote); [done|done|done|]. split; [done|]. intros _. apply H3. exists Wrote. by apply inside_Some.
  - apply Done_inj in Hx as <-. destruct (procs w !! pid) as [[| |[|name ns] r]|] eqn:Hs; try done.
    apply (files_ok_move w pid (Scanning (name :: ns) r)); [done|done|done|]. split; [done|]. intros _. apply H3.
    eexists. by apply inside_Some.
  - destruct (procs w !! pid) as [[| |[|name ns] r]|] eqn:Hs; try (by apply Done_inj in Hx as <-).
    destruct (decide _); [|done]. apply Done_inj in Hx as <-.
    apply (files_ok_move w pid (Scanning [] r)); [done|done|set_solver|]. set_solver.
  - apply Done_inj in Hx as <-. set (w' := mkWorkers _ _).
    assert (∀ q, alive w' q = true → q ≠ pid ∧ alive w q = true) as Hal.
    { intros q [x Hx]%alive_Some. simpl in Hx. apply lookup_delete_Some in Hx as [Hq Hx]. split; [done|]. apply alive_Some.
      by eexists. }
    assert (∀ q x, inside w' !! q = Some x ↔ q ≠ pid ∧ inside w !! q = Some x) as Hin.
    { intros q x. rewrite !inside_Some. simpl. rewrite lookup_delete_Some. naive_solver. }
    split; simpl.
    + intros q x [_ Hx]%lookup_delete_Some. by eapply H1.
    + intros q Hq [Hne Ha]%Hal. destruct (H2 q Hq Ha) as [x Hx]. exists x. by apply Hin.
    + intros q [x [_ Hx]%Hin]. apply H3. by eexists.
    + intros name q Hname Hq [_ Ha]%Hal. by apply H4.
Qed.

(** A name that the loop counts. *)
Definition is_worker w (name : string) : Prop :=
  match Sscanf name (worker_prefix phase) with Some xpid => alive w xpid = true | None => False end.

#[local] Instance is_worker_dec w name : Decision (is_worker w name).
Proof. unfold is_worker. destruct (Sscanf _ _); apply _. Defined.

Lemma count_name_spec w name (ret : nat) : Z.of_nat ret < max_int64 →
  count_name phase w name (Z.of_nat ret) = Z.of_nat (ret + length (filter (is_worker w) [name])).
Proof.
  intros Hr. unfold count_name. rewrite filter_cons. unfold is_worker at 1. case_decide as H.
  - destruct (Sscanf _ _) as [x|]; [|done]. rewrite H, int64_id by (unfold max_int64 in *; lia). simpl. lia.
  - simpl. rewrite Nat.add_0_r. destruct (Sscanf _ _) as [x|]; [|done]. by destruct (alive w x).
Qed.

(** Processes are not born, so that a name is counted less and less. *)
Definition fewer w' w : Prop := ∀ pid, alive w' pid = true → alive w pid = true.

Lemma fewer_filter w w' names : fewer w' w →
  (length (filter (is_worker w') names) <= length (filter (is_worker w) names))%nat.
Proof.
  intros Hf. apply submseteq_length. induction names as [|name names IH]; [done|]. rewrite !filter_cons.
  destruct (decide (is_worker w' name)) as [H|H], (decide (is_worker w name)) as [H'|H'];
    [by apply submseteq_skip| |by apply submseteq_cons|done].
  exfalso. unfold is_worker in *. destruct (Sscanf _ _); [|done]. auto.
Qed.

Lemma exec_fewer st w w' : exec_worker phase st w = Done w' → fewer w' w ∧ (∀ pid, procs w !! pid = None → procs w' !! pid = None).
Proof.
  assert (∀ pid s D x, procs w !! pid = Some s → w' = mkWorkers D (<[pid := x]> (procs w)) →
    fewer w' w ∧ (∀ q, procs w !! q = None → procs w' !! q = None)) as Hset.
  { intros pid s D x Hs ->. split.
    - intros q. rewrite !alive_Some. simpl. rewrite lookup_insert. case_decide; [by subst; eexists|done].
    - intros q Hq. simpl. rewrite lookup_insert_ne; [done|congruence]. }
  assert (fewer w w ∧ ∀ pid, procs w !! pid = None → procs w !! pid = None) as Hid by (split; [by intros q|done]).
  destruct st as [pid|pid order|pid|pid|pid]; cbn [exec_worker]; intros Hx.
  - apply Done_inj in Hx as <-. destruct (procs w !! pid) as [[| |ns r]|] eqn:Hs; try exact Hid. by eapply Hset.
  - destruct (procs w !! pid) as [[| |ns r]|] eqn:Hs; try (by apply Done_inj in Hx as <-).
    destruct (decide _); [done|]. apply Done_inj in Hx as <-. by eapply Hset.
  - apply Done_inj in Hx as <-. destruct (procs w !! pid) as [[| |[|name ns] r]|] eqn:Hs; try exact Hid. by eapply Hset.
  - destruct (procs w !! pid) as [[| |[|name ns] r]|] eqn:Hs; try (by apply Done_inj in Hx as <-).
    destruct (decide _); [|done]. apply Done_inj in Hx as <-. by eapply Hset.
  - apply Done_inj in Hx as <-. split.
    + intros q [x Hq]%alive_Some. simpl in Hq. apply lookup_delete_Some in Hq as [_ Hq]. apply alive_Some. by exists x.
    + intros q Hq. simpl. rewrite lookup_delete_None. by right.
Qed.

(** What process [pid] has counted of the names [order] that it listed at [w], unless it died. *)
Definition scan_ok w (pid : Z) (order : list string) w' : Prop :=
  fewer w' w ∧ (procs w' !! pid = None ∨ ∃ seen names (r : nat), procs w' !! pid = Some (Scanning names (Z.of_nat r)) ∧
    order = seen ++ names ∧
    (length (filter (is_worker w') seen) <= r <= length (filter (is_worker w) seen))%nat).

Lemma scan_step w pid order st w1 w2 :
  Z.of_nat (length order) < max_int64 → st ≠ Remove pid → scan_ok w pid order w1 → exec_worker phase st w1 = Done w2 →
  scan_ok w pid order w2.
Proof.
  intros Hlen Hst [Hf Hs] Hx. destruct (exec_fewer st w1 w2 Hx) as [Hf1 Hdead].
  assert (fewer w2 w) as Hf2 by (intros q ?; by apply Hf, Hf1). split; [done|].
  destruct Hs as [Hs|(seen & names & r & Hs & -> & Hr)]; [left; by apply Hdead|]. rewrite length_app in Hlen.
  assert (procs w2 !! pid = procs w1 !! pid → procs w2 !! pid = None ∨ ∃ seen' names' (r' : nat),
    procs w2 !! pid = Some (Scanning names' (Z.of_nat r')) ∧ seen ++ names = seen' ++ names' ∧
    (length (filter (is_worker w2) seen') <= r' <= length (filter (is_worker w) seen'))%nat) as Hsame.
  { intros E. right. exists seen, names, r. rewrite E. split_and!; [done|done| |lia].
    pose proof (fewer_filter w1 w2 seen Hf1). lia. }
  assert (∀ q D s, w2 = mkWorkers D (<[q := s]> (procs w1)) → q ≠ pid → procs w2 !! pid = procs w1 !! pid) as Hins.
  { intros q D s -> Hq. simpl. by rewrite lookup_insert_ne. }
  destruct st as [q|q ord|q|q|q]; cbn [exec_worker] in Hx.
  - apply Hsame. apply Done_inj in Hx. destruct (procs w1 !! q) as [[| |ns x]|] eqn:Hq; try (by rewrite Hx).
    eapply Hins; [symmetry; exact Hx|congruence].
  - apply Hsame. destruct (procs w1 !! q) as [[| |ns x]|] eqn:Hq; try (apply Done_inj in Hx; by rewrite Hx).
    destruct (decide _); [done|]. apply Done_inj in Hx. eapply Hins; [symmetry; exact Hx|congruence].
  - apply Done_inj in Hx. destruct (decide (q = pid)) as [->|Hne].
    + rewrite Hs in Hx. destruct names as [|name names]; [apply Hsame; by rewrite Hx|]. clear Hsame Hins. right.
      assert (length (filter (is_worker w) seen) <= length seen)%nat as Hle by apply length_filter.
      simpl in Hlen. exists (seen ++ [name]), names, (r + length (filter (is_worker w1) [name]))%nat. split_and!.
      * rewrite <- Hx. simpl. rewrite lookup_insert_eq. by rewrite count_name_spec by lia.
      * by rewrite <- app_assoc.
      * rewrite filter_app, length_app. pose proof (fewer_filter w1 w2 seen Hf1). pose proof (fewer_filter w1 w2 [name] Hf1). lia.
      * rewrite filter_app, length_app. pose proof (fewer_filter w w1 [name] Hf). lia.
    + apply Hsame. destruct (procs w1 !! q) as [[| |[|name ns] x]|] eqn:Hq; try (by rewrite Hx).
      eapply Hins; [symmetry; exact Hx|done].
  - apply Hsame. assert (q ≠ pid) as Hne by (intros ->; done).
    destruct (procs w1 !! q) as [[| |[|name ns] x]|] eqn:Hq; try (apply Done_inj in Hx; by rewrite Hx).
    destruct (decide _); [|done]. apply Done_inj in Hx. by eapply Hins.
  - apply Done_inj in Hx. destruct (decide (q = pid)) as [->|Hne].
    + left. rewrite <- Hx. simpl. apply lookup_delete_eq.
    + apply Hsame. rewrite <- Hx. simpl. by rewrite lookup_delete_ne.
Qed.

(** The files of workers are those of the processes inside. *)
Lemma workers_listed w order :
  files_ok w → order ≡ₚ elements (dir w) →
  filter (is_worker w) order ≡ₚ myfilename phase <$> elements (dom (inside w)).
Proof.
  intros [H1 H2 H3 H4] Ho. rewrite Ho.
  assert (∀ pid, pid ∈ dom (inside w) → 0 <= pid <= max_int64 ∧ alive w pid = true) as Hr.
  { intros pid [s [Hs _]%inside_Some]%elem_of_dom. split; [by eapply H1|]. apply alive_Some. by eexists. }
  apply NoDup_Permutation.
  - apply NoDup_filter, NoDup_elements.
  - apply NoDup_fmap_2_strong; [|apply NoDup_elements].
    intros p q [Hp _]%elem_of_elements%Hr [Hq _]%elem_of_elements%Hr. by apply (myfilename_inj w).
  - intros name. rewrite list_elem_of_filter, elem_of_elements, list_elem_of_fmap. split.
    + unfold is_worker. intros [Hw Hin]. destruct (Sscanf name _) as [x|] eqn:E; [|done].
      exists x. assert (name = myfilename phase x) as -> by by apply H4. split; [done|].
      apply elem_of_elements, elem_of_dom. by apply H2.
    + intros (pid & -> & Hp%elem_of_elements). destruct (Hr pid Hp) as [Hrange Ha]. split.
      * unfold is_worker. by rewrite Sscanf_myfilename.
      * apply H3. by apply elem_of_dom.
Qed.

(** The workers in [nparallel] at [w] that live at [w'] are among the names. *)
Lemma living_listed w w' order :
  files_ok w → order ≡ₚ elements (dir w) →
  (size (filter (λ x, alive w' x.1 = true) (inside w)) <= length (filter (is_worker w') order))%nat.
Proof.
  intros Hok Ho. set (remain := filter _ (inside w)).
  assert (∀ q, q ∈ elements (dom remain) → is_Some (inside w !! q) ∧ alive w' q = true ∧ 0 <= q <= max_int64) as Hr.
  { intros q [x [Hx Ha]%map_lookup_filter_Some]%elem_of_elements%elem_of_dom. split_and!; [by eexists|done|..];
      apply inside_Some in Hx as [Hx _]; by apply (f_pid w Hok q x). }
  rewrite <- size_dom. unfold size, set_size. cbn. rewrite <- (length_fmap (myfilename phase)).
  apply submseteq_length, NoDup_submseteq.
  - apply NoDup_fmap_2_strong; [|apply NoDup_elements]. intros p q (_ & _ & Hp)%Hr (_ & _ & Hq)%Hr. by apply (myfilename_inj w).
  - intros name (q & -> & (Hin & Ha & Hp)%Hr)%list_elem_of_fmap. apply list_elem_of_filter. split.
    + unfold is_worker. by rewrite Sscanf_myfilename.
    + rewrite Ho. by apply elem_of_elements, (f_in _ Hok).
Qed.

(** From the listing to the end of the loop. *)
Lemma scan_counts steps w pid order w' r :
  Z.of_nat (length order) < max_int64 → is_Some (procs w !! pid) →
  for_each steps (exec_worker phase) (mkWorkers (dir w) (<[pid := Scanning order 0]> (procs w))) = Done w' →
  Remove pid ∉ steps → procs w' !! pid = Some (Scanning [] r) →
  Z.of_nat (length (filter (is_worker w') order)) <= r <= Z.of_nat (length (filter (is_worker w) order)).
Proof.
  intros Hlen [s Hs] Hrun Hno Hs'.
  assert (scan_ok w pid order w') as [_ [Hsc|(seen & names & r' & Hsc & E & Hr)]].
  { eapply (for_each_ind (scan_ok w pid order)); [| |exact Hrun].
    - split.
      + intros q. rewrite !alive_Some. simpl. rewrite lookup_insert. case_decide; [by subst; eexists|done].
      + right. exists [], order, 0%nat. split_and!; [simpl; by rewrite lookup_insert_eq|done|simpl; lia..].
    - intros st w2 w3 Hst Hw2. apply (scan_step w pid order st); [done|by intros ->|done]. }
  - congruence.
  - rewrite Hs' in Hsc. injection Hsc as <- ->. rewrite app_nil_r in E. subst seen. lia.
Qed.

(** The loop, if the process is left alone. *)
Lemma signals_finish pid : ∀ names r w, procs w !! pid = Some (Scanning names r) →
  ∃ w' r', for_each (replicate (length names) (Signal pid)) (exec_worker phase) w = Done w' ∧ procs w' !! pid = Some (Scanning [] r').
Proof.
  induction names as [|name names IH]; intros r w Hs; [by exists w, r|].
  destruct (IH (count_name phase w name r) (mkWorkers (dir w) (<[pid := Scanning names (count_name phase w name r)]> (procs w))))
    as (w' & r' & Hrun & Hr'); [by apply lookup_insert_eq|].
  exists w', r'. split; [|done]. cbn [length replicate for_each exec_worker]. rewrite Hs. exact Hrun.
Qed.

(** (C40) Workers that call [nparallel] concurrently, that are scheduled in any
    order and may die at any point, leaving their file behind. A worker lists the directory at [w] and
    then sends its signals one by one while the others go on; when its loop is over, at [w'], it has
    counted at most the workers that lived and were in [nparallel] when it listed the directory, and at
    least those of them that still live: itself included, and all of them if nobody died. Neither the
    listing nor the loop fails, and nobody's file is missing when it is removed. *)
Theorem nparallel_counts steps w0 w pid :
  not_started w0 → for_each steps (exec_worker phase) w0 = Done w →
  (∀ order, procs w !! pid = Some Wrote → order ≡ₚ elements (dir w) → (length order <= max_names)%nat →
     ∃ w1, exec_worker phase (Readdirnames pid order) w = Done w1 ∧
     ∀ steps' w' r, for_each steps' (exec_worker phase) w1 = Done w' → Remove pid ∉ steps' →
       procs w' !! pid = Some (Scanning [] r) →
       let remain := filter (λ x, alive w' x.1 = true) (inside w) in
       1 <= Z.of_nat (size remain) <= r ∧ r <= Z.of_nat (size (inside w)) ∧
       (dom (inside w) ⊆ dom (procs w') → r = Z.of_nat (size (inside w)))) ∧
  (∀ names r, procs w !! pid = Some (Scanning names r) →
     ∃ w' r', for_each (replicate (length names) (Signal pid)) (exec_worker phase) w = Done w' ∧
       procs w' !! pid = Some (Scanning [] r')) ∧
  (∀ r, procs w !! pid = Some (Scanning [] r) →
     exec_worker phase (Remove pid) w = Done (mkWorkers (dir w ∖ {[myfilename phase pid]}) (<[pid := Outside]> (procs w)))).
Proof.
  intros H0 Hrun.
  assert (files_ok w) as Hok.
  { eapply (for_each_ind files_ok); [by apply not_started_files| |exact Hrun].
    intros st w1 w2 _ Hw. by apply exec_files_ok. }
  split_and!.
  - intros order Hs Ho Hlen. assert (inside w !! pid = Some Wrote) as Hin by by apply inside_Some.
    cbn [exec_worker]. rewrite Hs, take_ge by done. rewrite decide_False.
    2:{ intros ->. symmetry in Ho. apply Permutation_nil_r in Ho.
        assert (myfilename phase pid ∈ elements (dir w)) as Hf by (apply elem_of_elements, (f_in _ Hok); by eexists).
        rewrite Ho in Hf. by apply elem_of_nil in Hf. }
    eexists. split; [done|]. intros steps' w' r Hrun' Hno Hs'. cbv zeta. set (remain := filter _ (inside w)).
    destruct (scan_counts steps' w pid order w' r) as [Hlow Hhigh]; [unfold max_names in Hlen; unfold max_int64; lia|by eexists|done..|].
    pose proof (living_listed w w' order Hok Ho) as Hrem. fold remain in Hrem.
    rewrite (workers_listed w order Hok Ho), length_fmap in Hhigh. change (length _) with (size (dom (inside w))) in Hhigh. rewrite size_dom in Hhigh.
    split_and!; [|lia|lia|].
    + assert (remain !! pid = Some Wrote) as Hp by (apply map_lookup_filter_Some; split; [done|]; apply alive_Some; by eexists).
      assert (size remain ≠ 0%nat); [|lia]. intros E%map_size_empty_iff. by rewrite E, lookup_empty in Hp.
    + intros Hsub. assert (remain = inside w) as E; [|rewrite E in Hrem; lia]. apply map_filter_id.
      intros q x Hx. apply alive_Some, elem_of_dom, Hsub, elem_of_dom. by eexists.
  - intros names r. apply signals_finish.
  - intros r Hs. cbn [exec_worker]. rewrite Hs. rewrite decide_True; [done|].
    apply (f_in _ Hok). exists (Scanning [] r). by apply inside_Some.
Qed.
End Parallel.

(** ** Crashes *)

(** A task of the crashing application either takes its process down, for a
    third of the draws, or gives what the application that never crashes gives. *)
Theorem crash_agrees rr ms rr' filename contents key values :
  (rr < 330 → (∃ msg, crash_Map rr ms filename contents = Fatal msg) ∧ ∃ msg, crash_Reduce rr ms key values = Fatal msg) ∧
  (330 <= rr → crash_Map rr ms filename contents = nocrash_Map rr' filename contents ∧
               crash_Reduce rr ms key values = nocrash_Reduce rr' key values).
Proof.
  unfold crash_Map, crash_Reduce, maybeCrash. split; intros Hr.
  - rewrite (proj2 (Z.ltb_lt _ _)) by lia. split; by eexists.
  - rewrite (proj2 (Z.ltb_ge rr 330)) by lia. split; by destruct (rr <? 660).
Qed.

(** What a reduction of both gives does not depend on the order of the values. *)
Theorem nocrash_deterministic rr rr' key values values' :
  values ≡ₚ values' → nocrash_Reduce rr key values = nocrash_Reduce rr' key values'.
Proof. intros Hp. unfold nocrash_Reduce, sorted_values. simpl. by rewrite (sort_strings_perm values values'). Qed.

(** ** early_exit *)

(** Through the sequential MapReduce: the names of the files, each with how often it was
    given. *)
Theorem early_exit_counts Sort created files (sort_ok : sorts Sort) prog so names contents :
  names ≠ [] → readable files names contents →
  mr_main early_exit Sort created files (prog :: so :: names) =
  Done (output created ((λ f, out_line f (pretty (Z.of_nat (occurrences f names)))) <$> distinct names)).
Proof.
  intros Hne Hr. apply (count_output _ _ _ sort_ok early_exit names prog so names contents); [done|done| |done].
  clear Hne. unfold emitted. induction Hr as [|n c names contents _ _ IH]; [done|].
  cbn [zip_with concat fmap list_fmap]. by rewrite IH.
Qed.

(** ** jobcount counts the map tasks *)

(** Map tasks that were run, by the pids of their processes: each process has its own
    variable [count]. *)
Definition run_jobs (jobs : list Z) (st : gmap Z Z * gset string) : outcome (gmap Z Z * gset string) :=
  for_each jobs (λ me '(counts, dir),
    '(_, (count, dir)) ← jobcount_Map true me (default 0 (counts !! me), dir);
    Done (<[me := count]> counts, dir)) st.

Definition jobcount_files (dir : gset string) : gset string := filter (λ f, HasPrefix f "mr-worker-jobcount" = true) dir.

Lemma jobcount_file_inj me c me' c' : 0 <= c → 0 <= c' → jobcount_file me c = jobcount_file me' c' → me = me' ∧ c = c'.
Proof.
  intros Hc Hc' E. unfold jobcount_file in E.
  apply (f_equal String.list_ascii_of_string) in E. rewrite !list_ascii_append in E.
  apply app_inv_head in E. simpl in E.
  apply last_separator_inj in E as [Eg Ei]; [|by apply pretty_dash..].
  split; [by apply (inj pretty), list_ascii_inj|by apply (inj pretty), list_ascii_inj].
Qed.

Lemma jobcount_file_prefix me c : HasPrefix (jobcount_file me c) "mr-worker-jobcount" = true.
Proof. unfold jobcount_file. exact (prefix_app "mr-worker-jobcount" ("-" +:+ _)). Qed.

(** The files of the tasks that were run: of each process, one for each count below its variable. *)
Definition jobs_ok (k : nat) (st : gmap Z Z * gset string) : Prop :=
  size (jobcount_files st.2) = k ∧
  (∀ me, 0 <= default 0 (st.1 !! me) <= Z.of_nat k) ∧
  ∀ f, f ∈ st.2 → HasPrefix f "mr-worker-jobcount" = true → ∃ me c, f = jobcount_file me c ∧ 0 <= c < default 0 (st.1 !! me).

Lemma job_step k me st : jobs_ok k st → Z.of_nat k < max_int64 →
  ∃ st', run_jobs [me] st = Done st' ∧ jobs_ok (S k) st'.
Proof.
  destruct st as [counts dir]. intros (Hk & Hc & Hf) Hlt. simpl in *. set (c := default 0 (counts !! me)) in *.
  pose proof (Hc me) as Hme. fold c in Hme. assert (int64 (c + 1) = c + 1) as Ei by (apply int64_id; unfold max_int64 in *; lia).
  exists (<[me := int64 (c + 1)]> counts, {[jobcount_file me c]} ∪ dir). split; [reflexivity|].
  rewrite Ei. unfold jobs_ok. simpl.
  assert (jobcount_file me c ∉ dir) as Hnew.
  { intros Hin. destruct (Hf _ Hin (jobcount_file_prefix me c)) as (me' & c' & E & Hc').
    apply jobcount_file_inj in E as [<- <-]; [|lia|lia]. fold c in Hc'. lia. }
  split_and!.
  - assert (jobcount_files ({[jobcount_file me c]} ∪ dir) = {[jobcount_file me c]} ∪ jobcount_files dir) as ->.
    { unfold jobcount_files. apply set_eq. intros f. rewrite elem_of_union, !elem_of_filter, elem_of_union, elem_of_singleton.
      pose proof (jobcount_file_prefix me c). naive_solver. }
    rewrite size_union, size_singleton, Hk; [done|]. apply disjoint_singleton_l. unfold jobcount_files.
    rewrite elem_of_filter. tauto.
  - intros me'. rewrite lookup_insert. case_decide; simpl; [lia|]. specialize (Hc me'). lia.
  - intros f [->%elem_of_singleton|Hin]%elem_of_union Hp.
    + exists me, c. rewrite lookup_insert_eq. simpl. split; [done|lia].
    + destruct (Hf f Hin Hp) as (me' & c' & -> & Hr). exists me', c'. split; [done|].
      rewrite lookup_insert. case_decide as E; [|done]. subst me'. fold c in Hr. simpl. lia.
Qed.

Lemma count_prefixed files : ∀ n : nat, Z.of_nat n + Z.of_nat (length files) < max_int64 →
  foldl (λ n f, if HasPrefix f "mr-worker-jobcount" then int64 (n + 1) else n) (Z.of_nat n) files =
  Z.of_nat (n + length (filter (λ f, HasPrefix f "mr-worker-jobcount" = true) files)).
Proof.
  induction files as [|f files IH]; intros n Hn; [simpl; lia|]. cbn [length foldl] in *. rewrite filter_cons.
  destruct (HasPrefix f _) eqn:E.
  - rewrite decide_True, int64_id by (done || unfold max_int64 in *; lia).
    replace (Z.of_nat n + 1) with (Z.of_nat (S n)) by lia. rewrite IH by lia. simpl. lia.
  - rewrite decide_False by done. apply IH. lia.
Qed.

(** Every map task that was run is counted once, whichever processes ran them and
    in whatever order: in a directory without old files, a reduction returns the
    number of the map tasks, repeated ones included. *)
Theorem jobcount_counts jobs counts dir :
  (∀ me, default 0 (counts !! me) = 0) → jobcount_files dir = ∅ → Z.of_nat (length jobs) < max_int64 →
  ∃ counts' dir', run_jobs jobs (counts, dir) = Done (counts', dir') ∧
    ∀ order, order ≡ₚ elements dir' → Z.of_nat (length order) < max_int64 →
      jobcount_Reduce (Some order) = Done (pretty (Z.of_nat (length jobs))).
Proof.
  intros Hc Hd Hlen.
  assert (∀ jobs k st, jobs_ok k st → Z.of_nat (k + length jobs) < max_int64 →
    ∃ st', run_jobs jobs st = Done st' ∧ jobs_ok (k + length jobs) st') as Hall.
  { clear. induction jobs as [|me jobs IH]; intros k st Hok Hl; [exists st; by rewrite Nat.add_0_r|].
    destruct (job_step k me st Hok) as (st1 & H1 & Hok1); [simpl in Hl; lia|].
    destruct (IH (S k) st1 Hok1) as (st2 & H2 & Hok2); [simpl in *; lia|]. exists st2. split.
    - unfold run_jobs in *. change (me :: jobs) with ([me] ++ jobs). rewrite for_each_app, H1. exact H2.
    - simpl. by rewrite Nat.add_succ_r. }
  destruct (Hall jobs 0%nat (counts, dir)) as ([counts' dir'] & Hrun & Hsize & _); [|done|].
  { split_and!; [simpl; by rewrite Hd|intros me; simpl; rewrite Hc; lia|].
    intros f Hf Hp. exfalso. assert (f ∈ jobcount_files dir) by (by apply elem_of_filter). rewrite Hd in *. set_solver. }
  exists counts', dir'. split; [done|]. intros order Ho Hl. unfold jobcount_Reduce. do 2 f_equal.
  etrans; [apply (count_prefixed order 0); lia|]. simpl. f_equal. rewrite Ho. simpl in Hsize. rewrite <- Hsize.
  unfold jobcount_files, size, set_size. simpl. apply Permutation_length, NoDup_Permutation.
  - apply NoDup_filter, NoDup_elements.
  - apply NoDup_elements.
  - intros f. by rewrite list_elem_of_filter, !elem_of_elements, elem_of_filter.
Qed.

(** ** The coordinator *)

(** The coordinator is never done: its program runs for ever once it listens, and answers the
    example call of a worker with 100. *)
Theorem coordinator_waits fuel files :
  files ≠ [] →
  mrcoordinator_main fuel true ("mrcoordinator"%string :: files) = Diverge ∧
  ∃ Call, MakeCoordinator true files 10 = Done Call ∧
    ∀ uid, CallExample (λ sock, if bool_decide (sock = coordinatorSock uid) then Some Call else None) uid =
      Done "reply.Y 100"%string.
Proof.
  intros Hf. split.
  - unfold mrcoordinator_main. rewrite decide_False by (destruct files; simpl; [done|lia]). simpl.
    induction fuel; [done|exact IHfuel].
  - eexists. split; [reflexivity|]. intros uid. unfold CallExample, call. by rewrite bool_decide_eq_true_2.
Qed.

(** ** Witnesses *)

(** Three workers, one of which dies inside and leaves its file. *)
Definition three_workers : Workers := mkWorkers {["pg-0.txt"%string]} {[7 := Outside; 8 := Outside; 9 := Outside]}.

Definition in_turn : list wstep := [WriteFile 7; WriteFile 8; WriteFile 9].

(** Worker 8 dies between the listing and the signals of worker 7. *)
Definition looks : list wstep := [Die 8; Signal 7; Signal 7; Signal 7; Signal 7].

Lemma three_not_started : not_started "map" three_workers.
Proof.
  split.
  - intros pid s. simpl. rewrite !lookup_insert_Some, lookup_singleton_Some. unfold max_int64. naive_solver lia.
  - intros name Hn. simpl in Hn. apply elem_of_singleton in Hn. subst. vm_compute. reflexivity.
Qed.

Lemma looks_stays : Remove 7 ∉ looks.
Proof. unfold looks. set_solver. Qed.

Definition started : Workers := result (for_each in_turn (exec_worker "map") three_workers) three_workers.
Definition listed : Workers := result (exec_worker "map" (Readdirnames 7 (elements (dir started))) started) started.
Definition looked : Workers := result (for_each looks (exec_worker "map") listed) listed.

Lemma started_run : for_each in_turn (exec_worker "map") three_workers = Done started.
Proof. apply result_Done. vm_compute. reflexivity. Qed.
Lemma listed_run : exec_worker "map" (Readdirnames 7 (elements (dir started))) started = Done listed.
Proof. apply result_Done. vm_compute. reflexivity. Qed.
Lemma looked_run : for_each looks (exec_worker "map") listed = Done looked.
Proof. apply result_Done. vm_compute. reflexivity. Qed.

(** Three workers were in it, two of them live: here worker 7 counts those two. *)
Lemma nparallel_counts_witness :
  size (inside started) = 3%nat ∧ for_each looks (exec_worker "map") listed = Done looked ∧
  procs looked !! 7 = Some (Scanning [] 2) ∧ 2 <= Z.of_nat (size (inside started)).
Proof.
  destruct (nparallel_counts "map" in_turn three_workers started 7 three_not_started started_run) as [H _].
  destruct (H (elements (dir started))) as (w1 & Hx & Hw1).
  - vm_compute. reflexivity.
  - reflexivity.
  - apply Nat.leb_le. vm_compute. reflexivity.
  - rewrite listed_run in Hx. apply Done_inj in Hx as <-.
    assert (procs looked !! 7 = Some (Scanning [] 2)) as H7 by (vm_compute; reflexivity).
    destruct (Hw1 looks looked 2 looked_run looks_stays H7) as (_ & H2 & _).
    split; [vm_compute; reflexivity|]. exact (conj looked_run (conj H7 H2)).
Defined.

Lemma nocrash_deterministic_witness :
  nocrash_Reduce 1 "a" ["y"; "x"]%string = nocrash_Reduce 2 "a" ["x"; "y"]%string.
Proof. apply (nocrash_deterministic 1 2 "a"). constructor. Defined.

Lemma early_exit_counts_witness :
  mr_main early_exit insertion_sort true two_files ["mr"; "x.so"; "g"; "f"]%string = Done [out_line "f" "1"; out_line "g" "1"].
Proof.
  rewrite (early_exit_counts insertion_sort true two_files insertion_sort_ok "mr" "x.so" ["g"; "f"]%string ["a c"; "b a, b"]%string);
    [vm_compute; reflexivity|discriminate|exact two_files_readable].
Defined.

Lemma jobcount_counts_witness :
  ∃ counts dir, run_jobs [7; 8; 7] (∅, ∅) = Done (counts, dir) ∧ jobcount_Reduce (Some (elements dir)) = Done "3"%string.
Proof.
  destruct (jobcount_counts [7; 8; 7] ∅ ∅) as (counts & dir & Hrun & H); [reflexivity|reflexivity|vm_compute; reflexivity|].
  exists counts, dir. split; [exact Hrun|].
  assert (length (elements dir) = 3%nat) as Hl.
  { assert (run_jobs [7; 8; 7] (∅, ∅) = Done (counts, dir)) as E by exact Hrun.
    assert (length (elements (result (run_jobs [7; 8; 7] (∅, ∅)) (∅, ∅)).2) = 3%nat) as Hx by (vm_compute; reflexivity).
    by rewrite E in Hx. }
  rewrite (H (elements dir)); [vm_compute; reflexivity|reflexivity|rewrite Hl; vm_compute; reflexivity].
Defined.

Lemma coordinator_waits_witness : mrcoordinator_main 1000 true ["mrcoordinator"; "pg-0.txt"]%string = Diverge.
Proof. apply (coordinator_waits 1000 ["pg-0.txt"%string]). discriminate. Defined.
